(* ===== verification/_CoqProject ===== *)
-Q . S2P
Prelude.v
Marshall.v
RpcServer.v
RpcClient.v
Rpc.v
RpcSystem.v
RemoteCall.v
RpcTest.v
CallLoop.v
Connection.v
ConnectionCorrect.v
ClientRefs.v
ThrPool.v
PollMgr.v
PollMgrCorrect.v
Handle.v
RpcRefs.v
Disk.v
Inode.v
InodeSpec.v
FileStore.v
InodeCorrect.v
Services.v
RpcTcp.v
Extent.v
ExtentCorrect.v
ExtentRpc.v
ExtentRpcCorrect.v
Yfs.v
YfsCorrect.v
Sockaddr.v
Fuse.v
FuseCorrect.v
FileSystem.v
Locks.v
LockSystem.v
Ydb.v
YdbSpec.v
YdbOcc.v
YdbTwoPl.v
