(* ===== verification/Prelude.v ===== *)
(** * A verified model of the CSE distributed file system and store

    The program (src/lab41) is a small distributed system.  An RPC library with
    at-most-once semantics connects its processes (rpc/).  The extent server
    keeps files in an inode file system on a simulated disk
    (inode_manager.cc, extent_server.cc); its clients cache extents and are kept
    up to date by callbacks (extent_client.cc).  The yfs client turns files,
    directories and links into extents (yfs_client.cc), under locks of a lock
    service whose clients cache locks (lock_server_cache.cc,
    lock_client_cache.cc; lock_server.cc is the version without caching).  The
    ydb servers keep a key-value store with transactions in the extents
    (ydb_server.cc, ydb_server_occ.cc, ydb_server_2pl.cc, ydb_client.cc).  The
    kernel reaches the file system through FUSE (fuse.cc).  Below the RPC layer a
    connection cuts a byte stream into messages, a poll thread runs the
    connections' callbacks and a thread pool the server's handlers
    (rpc/connection.cc, rpc/pollmgr.cc, rpc/thr_pool.cc, rpc/fifo.h); servers call
    their clients back through a cache of bound RPC clients (handle.cc).

    ** Conventions

    Integers are [Z]; where the code computes at a width, [u32], [s16] and the
    like of this file wrap.  Buffers and [std::string] values are lists of
    bytes.  A [std::map] or [std::set] is a [gmap] or [gset]; where the code
    walks one, the model walks it in the order of its keys.  Code that can stop
    returns [Crash] with the reason ([fault]): a failed [assert] or [VERIFY], a
    null dereference, an access out of bounds, an uncaught exception, the use of a
    variable that was never set.  Stateful
    code is in the monad [M] over a record of the state.  A handler that blocks,
    sends a message or can be overtaken is cut at those points into functions
    from state to state, and a step function or relation interleaves them; what
    a thread does while it holds the mutex of its component is one step.
    Uninitialised memory and the clock are read from a parameter ([Mem] of
    Marshall.v, [Env] of Disk.v).

    ** Files

    - Prelude: faults, the monads, fixed-width integers, bytes, shared lemmas
      and tactics.
    - Marshall: rpc/marshall.h and the operators of rpc/rpc.cc, down to the
      bytes of the buffers; [codec] bundles the two directions of a type with
      its wire format and [CodecOk] states that they are inverse.
    - RpcServer: [reply_window_] of rpcs: [checkduplicate_and_update] and
      [add_reply].
    - RpcClient: the state of rpcc: [call1] between its waits, [got_pdu],
      [update_xid_rep], [cancel], and the arithmetic of timespec.
    - Rpc: the call and reg templates for any list of parameters, [dispatch].
    - RpcSystem: one client and one server over a network that loses,
      duplicates and reorders messages.
    - RemoteCall: [call1], [dispatch] and [got_pdu] composed into a call and
      [bind], when the network delivers; RpcTest: the test program of the library
      (rpc/rpctest.cc) on these calls; CallLoop: the waiting loop of [call1] with
      its deadlines; ClientRefs: [chan_], [get_refconn] and the client's references
      to its connections.
    - Connection: one end of a TCP connection, the listener and the collection of
      dead connections; ConnectionCorrect: two ends joined by a stream; RpcTcp: a
      client and a server joined by two streams, [rpcs::got_pdu] queueing each PDU
      on the pool of ThrPool, whose ten workers run [dispatch].
    - ThrPool: the bounded queue with its condition variables, and the pool of
      worker threads on it.
    - PollMgr: [SelectAIO], [EPollAIO] and [PollMgr] with its thread; the answers
      of the kernel are arguments.  PollMgrCorrect: their proofs.
    - Handle: the shared, reference-counted RPC clients, in a store in which a
      freed object is gone.
    - RpcRefs: the reference counts of the server's connections, through
      [rpcs::got_pdu] and [rpcs::dispatch].
    - Disk, Inode: disk, block_manager and inode_manager with the on-disk
      images; InodeSpec: the invariant of the disk and what each operation does
      to it; FileStore: the interface the extent server uses, as a class with
      its laws; InodeCorrect: the refinement, and the instance of FileStore.
    - Services: which methods the servers register and which calls the clients make,
      with their types on the wire; lock_client ([lock_client]), and the start of the
      ydb servers.
    - Extent: extent_server and extent_client with the callbacks, over
      FileStore, [get] and [getattr] whole ([run_eop]) and cut between the call
      and the assignment to the cache ([istep]); ExtentCorrect: coherence of the
      caches, what each call does.
    - ExtentRpc: the same system with every call and every callback a request to an
      RPC server, set up as extent_smain.cc and the client's constructor do;
      ExtentRpcCorrect: it refines Extent.
    - Sockaddr: [make_sockaddr], and the ports and identities the clients choose.
    - Yfs: yfs_client over the interface [ExtentService] and a log of lock calls;
      YfsCorrect: its operations through the whole stack.
    - Fuse: the handlers of fuse.cc over the yfs client, with libfuse's layout of
      directory entries as a parameter; FuseCorrect: their replies.  FileSystem:
      any number of FUSE processes on one extent server, over RPC.
    - Locks: lock_server ([basic]), lock_server_cache ([server]) and
      lock_client_cache ([client]) for one lock; LockSystem: any number of
      clients and threads with the server, calls and callbacks in transit,
      spurious wake-ups as an event of their own.
    - Ydb: the ydb servers ([base], [occ], [two_pl]) and [ydb_client], over the
      interface [Extents]; the handlers of the transactional servers are cut at
      their calls to the lock and the extent server and, where another handler
      can see it, at their unlocked accesses to shared data.  YdbSpec: serial
      execution as the specification; YdbOcc and YdbTwoPl: the two transactional servers against it.

    ** What the theorems show

    - RPC: no request of a client with a number other than 0 is executed twice
      whatever the network does; the acknowledgement of the client is exactly the
      largest prefix of calls answered; a call returns what the registered method
      returns; a call that succeeds was executed, once, and its result is the
      reply of that execution.  A call returns: after at most seven waits for the
      default timeout, and only with a reply or after the deadline.  The client's
      connections exist exactly as long as they are referred to.  A server behind a
      connection and its pool does what it does when it is given the requests
      directly, in an order that moves none past ten others.  The calls of
      lock_client against the caching lock server and of [extent_client::create]
      do not agree with the methods registered and stop the server; the others
      agree.  The identity a client registers leads back to its port.  The test of
      the library passes.
    - Connections: the receiver gets the messages sent, whole, once and in order,
      however the kernel cuts the stream; a length field below four overruns the
      buffer or stops the receiver.
    - Poll manager: [select] is asked about every watched descriptor; after
      [block_remove_fd] no callback of the descriptor runs, and [block_remove_fd]
      returns; the epoll version watches the same up to descriptor 127.
    - Thread pool and handles: the queue keeps order and loses no wake-up, the
      destructor of the pool ends after every job has run; no operation on a
      handle touches freed memory and no RPC client leaks; the counts of the
      server's connections are exact, but for the references one path loses and
      a null dereference for clients without a number.
    - Inode layer: every sequence of operations within the limits of the disk
      that removes no file of more than 100 blocks refines the same sequence on a
      map from inode numbers to types and contents; files read back as written;
      exhaustion of inodes is a null dereference.
    - Extents: a client's cache agrees with the server in every reachable state,
      but for the entries last stored from a reply that a callback overtook; put,
      create and remove change exactly the files they name and notify exactly the registered clients; over the RPC layer, with the callbacks nested
      in the calls, every run gives the results and states of the direct calls.
    - yfs: the directory format is parsed back to the entries written; create,
      mkdir, write, read and unlink do to the files what they should, through
      all layers, and balance their locks.
    - FUSE: what the kernel is told about files, directories and links is what
      the extent server holds; names made can be looked up, links read back, and
      directories read in pieces.  Every run of FUSE processes over RPC gives the
      replies of the run with direct calls.
    - Locks: mutual exclusion over all threads of all clients, no failing
      [VERIFY], no deadlock and no lost wake-up of the caching lock service, as
      long as no wait on a condition variable returns without a signal; exclusion
      and wake-ups of the plain lock server without this assumption.
    - ydb: both transactional servers are serialisable in commit order, the
      optimistic one as long as no two increments of its counter overlap; the
      cycle test of the wait-for graph decides reachability and ends.
    - Where the code does not do what it means to, a theorem or lemma exhibits it:
      requests forgotten on reordering, duplicates executed for the client number
      0, two transactions with one number, a stale indirect block, a stale cache
      after a race, an entry erased by substring, unlink of a missing name and of
      a directory, a parser that does not end, spurious wake-ups, an undetected deadlock, an
      array of fixed size indexed by a growing number, a length that splits, an
      [is_watched] that never says yes, a host name that overruns its buffer, a
      request sent after the deadline of its call, a mount that erases the root
      directory.

    ** Bounds and fuel

    [carry] of RpcClient gets fuel for every carry its argument can need;
    [parse_dir] gets the length of the directory, at least one byte of which each
    iteration consumes unless it returns to the start for ever; [digits] gets 20,
    the digits of a 64-bit number; [dfs] gets one more than the number of
    transactions, which no acyclic path exceeds; [commit_run] gets one step per
    entry of the logs and one per loop end.  Each use is proved to end.  RPC runs
    are bounded to 2^32 - 1 calls, before identifiers wrap; those of RemoteCall and
    ExtentRpc to 2^31 calls on a link and strings of 2^27 bytes, so that a request
    fits a buffer; FileSystem counts the calls with a metered service.
    [call1_loop] gets [k + 1] turns for a timeout below [1000 * (2^k - 1)]
    milliseconds, each turn doubling the wait, with [k] at most 21: beyond, the
    doubling overflows.  The 2052 steps of the
    poll thread in [block_remove_fd_returns] are the two copies of at most 1024
    descriptors and the four other steps of an iteration.

    ** What is not modelled

    The system calls on sockets and the creation of threads; in the main functions
    the reading of arguments and of the environment, and the mount of the file
    system; logging, and the tests but rpctest.cc.  Handlers of the extent server
    run one at a time, each with its callbacks, although the server does not lock
    them against each other; the calls of one transaction are sequential, and one
    access to a map of a ydb server is atomic.  The pipe of the poll manager has no
    bound.  The extent service of the ydb servers is an
    interface, since the [remove] they call is not in this tree.  The components of
    the RPC library are composed pairwise: RpcSystem has a network that loses
    messages and no connections, RpcTcp connections and a pool and no messages
    lost; both run [dispatch] as one step.

    ** Left open

    The lock service over RPC, as ExtentRpc does for the extents; handlers of
    RpcTcp that overlap; the ydb servers over the extent system of Extent.v. *)

From stdpp Require Export base list gmap strings sets fin_maps numbers sorting.
From Stdlib Require Export ZArith Lia.
From Stdlib Require Export Strings.Byte.

#[global] Open Scope Z_scope.

(** ** Faults

    How a run of the C++ code can stop: a failed [assert] or [VERIFY], a call
    of [exit], a dereference of a null pointer, an access outside an object, an
    uncaught exception, a signed overflow, the use of an unset variable, and (for the loops that need not end
    on every input) the fuel of the model running out. *)

Inductive fault :=
  | AssertFail
  | ExitCall
  | NullDeref
  | OutOfBounds
  | Uncaught
  | Overflow
  | Uninit
  | NoFuel.

#[export] Instance fault_eq_dec : EqDecision fault.
Proof. solve_decision. Defined.

(** ** The result monad and the state monad with faults *)

Inductive res (A : Type) : Type :=
  | Ok (a : A)
  | Crash (f : fault).
Arguments Ok {A} a.
Arguments Crash {A} f.

#[export] Instance res_ret : MRet res := @Ok.
#[export] Instance res_bind : MBind res := fun A B k m =>
  match m with Ok a => k a | Crash f => Crash f end.

Definition M (S A : Type) : Type := S -> res (A * S).

#[export] Instance M_ret S : MRet (M S) := fun A a s => Ok (a, s).
#[export] Instance M_bind S : MBind (M S) := fun A B k m s =>
  match m s with Ok (a, s') => k a s' | Crash f => Crash f end.

Section monad.
Context {S : Type}.

Definition crash {A} (f : fault) : M S A := fun _ => Crash f.
Definition getS : M S S := fun s => Ok (s, s).
Definition putS (s : S) : M S unit := fun _ => Ok (tt, s).
Definition modS (g : S -> S) : M S unit := fun s => Ok (tt, g s).

(** [assert(b)], [VERIFY(b)] *)
Definition verify (b : bool) : M S unit :=
  fun s => if b then Ok (tt, s) else Crash AssertFail.

(** [for (i = lo; i < lo + n; i++) body(i)] *)
Fixpoint for_ (n : nat) (lo : Z) (body : Z -> M S unit) : M S unit :=
  match n with
  | O => mret tt
  | Datatypes.S n' => body lo ≫= fun _ => for_ n' (lo + 1) body
  end.

Lemma bind_ok {A B} (m : M S A) (k : A -> M S B) s a s' :
  m s = Ok (a, s') -> (m ≫= k) s = k a s'.
Proof. intros H. unfold mbind, M_bind. by rewrite H. Qed.

Lemma bind_seq_assoc {A B C} (f : M S A) (g : M S B) (k : B -> M S C) s :
  (f ≫= fun _ => g ≫= k) s = ((f ≫= fun _ => g) ≫= k) s.
Proof. unfold mbind, M_bind. by destruct (f s) as [[a s']|]. Qed.

Lemma bind_inv {A B} (m : M S A) (k : A -> M S B) s r :
  (m ≫= k) s = Ok r -> exists a s', m s = Ok (a, s') /\ k a s' = Ok r.
Proof.
  unfold mbind, M_bind. destruct (m s) as [[a s']|f]; [eauto | done].
Qed.

(** Total correctness of a counting loop from a loop invariant [I i s]. *)
Lemma for_ok (I : Z -> S -> Prop) n lo body s :
  I lo s ->
  (forall i s, lo <= i < lo + Z.of_nat n -> I i s ->
     exists s', body i s = Ok (tt, s') /\ I (i + 1) s') ->
  exists s', for_ n lo body s = Ok (tt, s') /\ I (lo + Z.of_nat n) s'.
Proof.
  revert lo s. induction n as [|n IH]; intros lo s HI Hstep; simpl.
  - exists s. rewrite Z.add_0_r. done.
  - destruct (Hstep lo s) as (s1 & Hb & HI1); [lia | done |].
    erewrite bind_ok by exact Hb.
    destruct (IH (lo + 1) s1) as (s2 & Hf & HI2); [done | |].
    + intros i s' Hi. apply Hstep. lia.
    + exists s2. split; [done|]. by replace (lo + Z.of_nat (Datatypes.S n))
        with (lo + 1 + Z.of_nat n) by lia.
Qed.
End monad.

Lemma res_bind_inv {A B} (m : res A) (k : A -> res B) r :
  m ≫= k = Ok r -> exists a, m = Ok a /\ k a = Ok r.
Proof. destruct m; simpl; [eauto | done]. Qed.

(** ** Fixed-width integers *)

Definition u8 (z : Z) : Z := z mod 2 ^ 8.
Definition u16 (z : Z) : Z := z mod 2 ^ 16.
Definition u32 (z : Z) : Z := z mod 2 ^ 32.
Definition u64 (z : Z) : Z := z mod 2 ^ 64.

(** Conversion to a signed [w]-bit type (two's complement). *)
Definition to_signed (w z : Z) : Z :=
  let m := z mod 2 ^ w in if m <? 2 ^ (w - 1) then m else m - 2 ^ w.
Definition s16 (z : Z) : Z := to_signed 16 z.
Definition s32 (z : Z) : Z := to_signed 32 z.

Definition in_u (w z : Z) : Prop := 0 <= z < 2 ^ w.
Definition in_s (w z : Z) : Prop := - 2 ^ (w - 1) <= z < 2 ^ (w - 1).

Lemma to_signed_id w z : 0 < w -> in_s w z -> to_signed w z = z.
Proof.
  unfold to_signed, in_s. intros Hw Hz.
  assert (Hp : 2 ^ w = 2 * 2 ^ (w - 1)).
  { rewrite <- Z.pow_succ_r by lia. f_equal. lia. }
  destruct (Z_lt_ge_dec z 0).
  - replace (z mod 2 ^ w) with (z + 2 ^ w).
    + destruct (Z.ltb_spec (z + 2 ^ w) (2 ^ (w - 1))); lia.
    + apply (Z.mod_unique_pos _ _ (-1)); lia.
  - rewrite Z.mod_small by lia.
    destruct (Z.ltb_spec z (2 ^ (w - 1))); lia.
Qed.

Lemma to_signed_range w z : 0 < w -> in_s w (to_signed w z).
Proof.
  intros Hw. unfold to_signed, in_s.
  assert (Hp : 2 ^ w = 2 * 2 ^ (w - 1)) by (rewrite <- Z.pow_succ_r by lia; f_equal; lia).
  assert (0 < 2 ^ (w - 1)) by (apply Z.pow_pos_nonneg; lia).
  pose proof (Z.mod_pos_bound z (2 ^ w) ltac:(lia)).
  destruct (Z.ltb_spec (z mod 2 ^ w) (2 ^ (w - 1))); lia.
Qed.

Lemma to_signed_mod w z : 0 <= w -> to_signed w (z mod 2 ^ w) = to_signed w z.
Proof. intros. unfold to_signed. by rewrite Z.mod_mod by (apply Z.pow_nonzero; lia). Qed.

(** ** Bytes

    [char] buffers and [std::string] values are lists of [Byte.byte]; [char] is
    signed on the platform the code is built for (x86). *)

Abbreviation bytes := (list byte).

#[export] Instance byte_eq_decision : EqDecision byte := byte_eq_dec.
#[export] Program Instance byte_countable : Countable byte :=
  inj_countable Byte.to_N Byte.of_N _.
Next Obligation. intros b. apply Byte.of_to_N. Qed.

Definition bval (b : byte) : Z := Z.of_N (Byte.to_N b).
Definition bof (z : Z) : byte :=
  match Byte.of_N (Z.to_N (z mod 256)) with Some b => b | None => x00 end.

(** The value of a [char]. *)
Definition char_val (b : byte) : Z := if bval b <? 128 then bval b else bval b - 256.

(** The bytes of a string literal. *)
Definition str (s : string) : bytes := String.list_byte_of_string s.

Lemma bval_range b : 0 <= bval b < 256.
Proof. unfold bval. pose proof (Byte.to_N_bounded b). lia. Qed.

Lemma bval_bof z : bval (bof z) = z mod 256.
Proof.
  unfold bval, bof. pose proof (Z.mod_pos_bound z 256 ltac:(lia)).
  pose proof (Byte.to_of_N_option_map (Z.to_N (z mod 256))) as Ho.
  destruct (N.leb_spec (Z.to_N (z mod 256)) 255); [|lia].
  destruct (Byte.of_N (Z.to_N (z mod 256))) as [b|]; simpl in *; simplify_eq. lia.
Qed.

Lemma bof_bval b : bof (bval b) = b.
Proof.
  unfold bof. rewrite Z.mod_small by (apply bval_range).
  unfold bval. by rewrite N2Z.id, Byte.of_to_N.
Qed.

Lemma bval_inj b c : bval b = bval c -> b = c.
Proof. intros H. rewrite <- (bof_bval b), <- (bof_bval c). by rewrite H. Qed.

(** ** Lists *)

Section lists.
Context {A : Type}.
Implicit Types l k : list A.

Lemma take_app_exact l k n : n = length l -> take n (l ++ k) = l.
Proof. intros ->. apply take_app_length. Qed.

Lemma drop_app_exact l k n : n = length l -> drop n (l ++ k) = k.
Proof. intros ->. apply drop_app_length. Qed.

(** Filters that agree on the elements of the list. *)
Lemma filter_ext_elem (P Q : A -> Prop) `{!forall x, Decision (P x), !forall x, Decision (Q x)} l :
  (forall x, x ∈ l -> P x <-> Q x) -> filter P l = filter Q l.
Proof.
  induction l as [|x l IH]; intros Hpq; [done|].
  assert (P x <-> Q x) by (apply Hpq; left). rewrite !filter_cons.
  rewrite IH by (intros y Hy; apply Hpq; by right). repeat case_decide; naive_solver.
Qed.
End lists.

(** Little-endian memory image of an unsigned integer of [n] bytes. *)
Fixpoint le_enc (n : nat) (z : Z) : bytes :=
  match n with
  | O => []
  | S n' => bof z :: le_enc n' (z / 256)
  end.

Fixpoint le_dec (l : bytes) : Z :=
  match l with
  | [] => 0
  | b :: l' => bval b + 256 * le_dec l'
  end.

Lemma length_le_enc n z : length (le_enc n z) = n.
Proof. revert z. induction n; intros; simpl; auto. Qed.

Lemma le_dec_enc n z : le_dec (le_enc n z) = z mod 256 ^ Z.of_nat n.
Proof.
  revert z. induction n as [|n IH]; intros z; simpl.
  - by rewrite Z.mod_1_r.
  - rewrite IH, bval_bof, Nat2Z.inj_succ, Z.pow_succ_r by lia.
    rewrite Z.rem_mul_r by (try apply Z.pow_pos_nonneg; lia). lia.
Qed.

Lemma le_dec_range l : 0 <= le_dec l < 256 ^ Z.of_nat (length l).
Proof.
  induction l as [|b l IH]; simpl; [lia|].
  rewrite Nat2Z.inj_succ, Z.pow_succ_r by lia. pose proof (bval_range b). lia.
Qed.

(** ** Automation *)

Create Rewrite HintDb len.
#[export] Hint Rewrite @length_app @length_take @length_drop @length_replicate
  @length_insert length_le_enc @length_fmap @length_seq : len.

(** How many entries of a map satisfy [P]. *)
Definition count_map {V} (P : V -> Prop) `{!forall v, Decision (P v)} (m : gmap Z V) : nat :=
  size (filter (fun p : Z * V => P (snd p)) m).

Section count_map.
Context {V : Type} (P : V -> Prop) `{!forall v, Decision (P v)}.
Implicit Types m : gmap Z V.

Lemma count_map_insert m i v : m !! i = None ->
  count_map P (<[i := v]> m) = (count_map P m + if decide (P v) then 1 else 0)%nat.
Proof.
  intros Hi. unfold count_map. rewrite map_filter_insert. simpl. destruct (decide (P v)).
  - rewrite map_size_insert_None; [lia|]. apply map_lookup_filter_None. by left.
  - rewrite delete_id by done. lia.
Qed.

Lemma count_map_delete m i v : m !! i = Some v ->
  count_map P m = (count_map P (delete i m) + if decide (P v) then 1 else 0)%nat.
Proof. intros Hi. rewrite <- (count_map_insert (delete i m) i v) by apply lookup_delete_eq. by rewrite insert_delete_id. Qed.

Lemma count_map_update m i v v' : m !! i = Some v' ->
  (count_map P (<[i := v]> m) + (if decide (P v') then 1 else 0) = count_map P m + if decide (P v) then 1 else 0)%nat.
Proof.
  intros Hi. rewrite <- insert_delete_eq, count_map_insert by apply lookup_delete_eq. rewrite (count_map_delete m i v' Hi). lia.
Qed.

Lemma count_map_pos m i v : m !! i = Some v -> P v -> (0 < count_map P m)%nat.
Proof. intros Hi Hv. rewrite (count_map_delete m i v Hi), decide_True by done. lia. Qed.

Lemma count_map_0 m : (forall i v, m !! i = Some v -> ~ P v) -> count_map P m = 0%nat.
Proof.
  intros Hno. apply map_size_empty_iff, map_eq. intros i. rewrite lookup_empty. apply map_lookup_filter_None. right. intros v Hv. by eapply Hno.
Qed.
End count_map.

(** Goals on list lengths, in [nat] or [Z]. *)
Ltac len := autorewrite with len in *; simpl in *; lia.

(** Step through a successful computation of the state monad. *)
Ltac inv_bind H :=
  let a := fresh "a" in let s := fresh "s" in let H1 := fresh "Hstep" in
  apply bind_inv in H as (a & s & H1 & H).

Ltac case_verify :=
  match goal with
  | H : verify ?b ?s = Ok _ |- _ =>
      unfold verify in H; destruct b eqn:?; [injection H as <- <- | discriminate H]
  end.
