(* ===== verification/Marshall.v ===== *)
(** * Marshalling of RPC messages

    The classes [marshall] and [unmarshall] of src/lab41/rpc/marshall.h and
    their operators in src/lab41/rpc/rpc.cc.  A marshalling buffer is the raw
    memory block the code allocates, with its capacity and its write position;
    every store is checked against the block, so that the theorems that a run
    ends in [Ok] also say that the code never writes or reads outside it. *)

From S2P Require Import Prelude.

(** The contents of memory fresh from [malloc] and [realloc]: any bytes. *)
Class Mem := { uninit : nat -> byte }.

(** ** Headers (marshall.h) *)

Record req_header := ReqHeader {
  rq_xid : Z; rq_proc : Z; rq_clt_nonce : Z; rq_srv_nonce : Z; rq_xid_rep : Z }.

Record reply_header := ReplyHeader { rp_xid : Z; rp_ret : Z }.

Definition sizeof_rpc_sz : Z := 4.
Definition DEFAULT_RPC_SZ : Z := 1024.
Definition static_max (a b : Z) : Z := if b <? a then a else b.
(** [sizeof(req_header)] is five 4-byte fields, [sizeof(reply_header)] two;
    [RPC_CHECKSUMMING] is not defined in the build. *)
Definition RPC_HEADER_SZ : Z := static_max 20 8 + sizeof_rpc_sz.

Definition INT_MAX : Z := 2 ^ 31 - 1.

Section marshall.
Context `{Mem}.

(** ** class marshall *)

Record marshall := Marshall { m_buf : bytes; m_capa : Z; m_ind : Z }.

Definition malloc (n : nat) : bytes := uninit <$> seq 0 n.
Definition realloc (b : bytes) (n : nat) : bytes :=
  take n b ++ (uninit <$> seq (length b) (n - length b)).

Definition new_marshall : marshall :=
  Marshall (malloc (Z.to_nat DEFAULT_RPC_SZ)) DEFAULT_RPC_SZ RPC_HEADER_SZ.

(** [_buf = realloc(_buf, _capa)] after [_capa = c]; a capacity that leaves
    [int] is a signed overflow. *)
Definition m_grow (c : Z) : M marshall unit := fun m =>
  if INT_MAX <? c then Crash Overflow
  else Ok (tt, Marshall (realloc (m_buf m) (Z.to_nat c)) c (m_ind m)).

Definition m_rawbyte (x : byte) : M marshall unit :=
  m ← getS;
  (if m_capa m <=? m_ind m then m_grow (m_capa m * 2) else mret tt) ≫= fun _ =>
  m ← getS;
  if (0 <=? m_ind m) && (m_ind m <? Z.of_nat (length (m_buf m)))
  then putS (Marshall (<[Z.to_nat (m_ind m) := x]> (m_buf m)) (m_capa m) (m_ind m + 1))
  else crash OutOfBounds.

(** [rawbytes(p, n)] with [n] the length of [p]. *)
Definition m_rawbytes (p : bytes) : M marshall unit :=
  let n := Z.of_nat (length p) in
  m ← getS;
  if INT_MAX <? m_ind m + n then crash Overflow else
  (if m_capa m <? m_ind m + n
   then m_grow (if n <? m_capa m then 2 * m_capa m else m_capa m + n)
   else mret tt) ≫= fun _ =>
  m ← getS;
  let i := Z.to_nat (m_ind m) in
  if m_ind m + n <=? Z.of_nat (length (m_buf m))
  then putS (Marshall (take i (m_buf m) ++ p ++ drop (i + length p) (m_buf m))
                      (m_capa m) (m_ind m + n))
  else crash OutOfBounds.

Definition m_get_content (m : marshall) : bytes :=
  take (Z.to_nat (m_ind m - RPC_HEADER_SZ)) (drop (Z.to_nat RPC_HEADER_SZ) (m_buf m)).

(** The bytes handed to the channel: [cstr()] up to [size()]. *)
Definition m_pdu (m : marshall) : bytes := take (Z.to_nat (m_ind m)) (m_buf m).

(** [x & 0xff] stored in an [unsigned char], for [x] shifted right by [k]. *)
Definition byte_at (x k : Z) : byte := bof (Z.land (Z.shiftr x k) 255).

Definition m_put_bool (x : bool) : M marshall unit := m_rawbyte (bof (if x then 1 else 0)).
Definition m_put_u8 (x : Z) : M marshall unit := m_rawbyte (bof x).
Definition m_put_char (x : Z) : M marshall unit := m_put_u8 (u8 x).
Definition m_put_u16 (x : Z) : M marshall unit :=
  m_rawbyte (byte_at x 8) ≫= fun _ => m_rawbyte (byte_at x 0).
Definition m_put_s16 (x : Z) : M marshall unit := m_put_u16 (u16 x).
Definition m_put_u32 (x : Z) : M marshall unit :=
  m_rawbyte (byte_at x 24) ≫= fun _ => m_rawbyte (byte_at x 16) ≫= fun _ =>
  m_rawbyte (byte_at x 8) ≫= fun _ => m_rawbyte (byte_at x 0).
Definition m_put_s32 (x : Z) : M marshall unit := m_put_u32 (u32 x).
Definition m_put_string (s : bytes) : M marshall unit :=
  m_put_u32 (u32 (Z.of_nat (length s))) ≫= fun _ => m_rawbytes s.
Definition m_put_u64 (x : Z) : M marshall unit :=
  m_put_u32 (u32 (Z.shiftr x 32)) ≫= fun _ => m_put_u32 (u32 x).
Definition m_pack (x : Z) : M marshall unit :=
  m_rawbyte (byte_at x 24) ≫= fun _ => m_rawbyte (byte_at x 16) ≫= fun _ =>
  m_rawbyte (byte_at x 8) ≫= fun _ => m_rawbyte (byte_at x 0).

Definition m_seek (i : Z) : M marshall unit :=
  modS (fun m => Marshall (m_buf m) (m_capa m) i).

Definition m_pack_req_header (h : req_header) : M marshall unit :=
  m ← getS;
  let saved_sz := m_ind m in
  m_seek sizeof_rpc_sz ≫= fun _ =>
  m_pack (rq_xid h) ≫= fun _ => m_pack (rq_proc h) ≫= fun _ =>
  m_pack (s32 (rq_clt_nonce h)) ≫= fun _ => m_pack (s32 (rq_srv_nonce h)) ≫= fun _ =>
  m_pack (rq_xid_rep h) ≫= fun _ => m_seek saved_sz.

Definition m_pack_reply_header (h : reply_header) : M marshall unit :=
  m ← getS;
  let saved_sz := m_ind m in
  m_seek sizeof_rpc_sz ≫= fun _ =>
  m_pack (rp_xid h) ≫= fun _ => m_pack (rp_ret h) ≫= fun _ => m_seek saved_sz.

(** ** class unmarshall *)

Record unmarshall := Unmarshall { u_buf : bytes; u_sz : Z; u_ind : Z; u_ok : bool }.

(** [unmarshall(char *b, int sz)] *)
Definition unmarshall_of (b : bytes) : unmarshall :=
  Unmarshall b (Z.of_nat (length b)) 0 true.

(** [unmarshall(const std::string &s)], that is [take_content(s)] *)
Definition u_take_content (s : bytes) : unmarshall :=
  Unmarshall (malloc (Z.to_nat RPC_HEADER_SZ) ++ s)
    (Z.of_nat (length s) + RPC_HEADER_SZ) RPC_HEADER_SZ true.

(** [take_in(another)]: the buffer of [another] with the position reset. *)
Definition u_take_in (another : unmarshall) : unmarshall :=
  Unmarshall (u_buf another) (u_sz another) RPC_HEADER_SZ
    (if RPC_HEADER_SZ <=? u_sz another then true else false).

Definition u_okdone (u : unmarshall) : bool := u_ok u && (u_ind u =? u_sz u).

Definition u_rawbyte : M unmarshall Z :=
  u ← getS;
  if u_sz u <=? u_ind u
  then putS (Unmarshall (u_buf u) (u_sz u) (u_ind u) false) ≫= fun _ => mret 0
  else match u_buf u !! Z.to_nat (u_ind u) with
       | Some c => putS (Unmarshall (u_buf u) (u_sz u) (u_ind u + 1) (u_ok u)) ≫= fun _ =>
                   mret (u32 (char_val c))
       | None => crash OutOfBounds
       end.

(** [rawbytes(ss, n)]: [_ind + n] is computed in 32-bit unsigned arithmetic. *)
Definition u_rawbytes (ss : bytes) (n : Z) : M unmarshall bytes :=
  u ← getS;
  if u_sz u <? u32 (u_ind u + n)
  then putS (Unmarshall (u_buf u) (u_sz u) (u_ind u) false) ≫= fun _ => mret ss
  else if u_ind u + n <=? Z.of_nat (length (u_buf u))
  then putS (Unmarshall (u_buf u) (u_sz u) (u_ind u + n) (u_ok u)) ≫= fun _ =>
       mret (take (Z.to_nat n) (drop (Z.to_nat (u_ind u)) (u_buf u)))
  else crash OutOfBounds.

Definition low8 (x : Z) : Z := Z.land x 255.

Definition u_get_bool : M unmarshall bool := x ← u_rawbyte; mret (negb (x =? 0)).
Definition u_get_u8 : M unmarshall Z := x ← u_rawbyte; mret (u8 x).
Definition u_get_char : M unmarshall Z := x ← u_rawbyte; mret (to_signed 8 x).
Definition u_get_u16 : M unmarshall Z :=
  b1 ← u_rawbyte; b0 ← u_rawbyte;
  mret (u16 (Z.lor (Z.shiftl (low8 b1) 8) (low8 b0))).
Definition u_get_s16 : M unmarshall Z :=
  b1 ← u_rawbyte; b0 ← u_rawbyte;
  mret (s16 (Z.lor (Z.shiftl (low8 b1) 8) (low8 b0))).
Definition u_get_u32 : M unmarshall Z :=
  b3 ← u_rawbyte; b2 ← u_rawbyte; b1 ← u_rawbyte; b0 ← u_rawbyte;
  mret (u32 (Z.lor (Z.lor (Z.lor (Z.shiftl (low8 b3) 24) (Z.shiftl (low8 b2) 16))
                          (Z.shiftl (low8 b1) 8)) (low8 b0))).
Definition u_get_s32 : M unmarshall Z :=
  b3 ← u_rawbyte; b2 ← u_rawbyte; b1 ← u_rawbyte; b0 ← u_rawbyte;
  mret (s32 (Z.lor (Z.lor (Z.lor (Z.shiftl (low8 b3) 24) (Z.shiftl (low8 b2) 16))
                          (Z.shiftl (low8 b1) 8)) (low8 b0))).
Definition u_unpack : M unmarshall Z :=
  b3 ← u_rawbyte; b2 ← u_rawbyte; b1 ← u_rawbyte; b0 ← u_rawbyte;
  mret (s32 (Z.lor (Z.lor (Z.lor (Z.shiftl (low8 b3) 24) (Z.shiftl (low8 b2) 16))
                          (Z.shiftl (low8 b1) 8)) (low8 b0))).
Definition u_get_u64 : M unmarshall Z :=
  h ← u_get_u32; l ← u_get_u32;
  mret (Z.lor l (u64 (Z.shiftl h 32))).

(** [u >> s] leaves [s] alone when the length or the bytes are not there; [s]
    is the value of the variable before, empty at the call sites. *)
Definition u_get_string (s : bytes) : M unmarshall bytes :=
  sz ← u_get_u32;
  u ← getS;
  if u_ok u then u_rawbytes s sz else mret s.

Definition u_seek (i : Z) : M unmarshall unit :=
  modS (fun u => Unmarshall (u_buf u) (u_sz u) i (u_ok u)).

Definition u_unpack_req_header : M unmarshall req_header :=
  u_seek sizeof_rpc_sz ≫= fun _ =>
  xid ← u_unpack; proc ← u_unpack; clt ← u_unpack; srv ← u_unpack; rep ← u_unpack;
  u_seek RPC_HEADER_SZ ≫= fun _ =>
  mret (ReqHeader xid proc (u32 clt) (u32 srv) rep).

Definition u_unpack_reply_header : M unmarshall reply_header :=
  u_seek sizeof_rpc_sz ≫= fun _ =>
  xid ← u_unpack; ret ← u_unpack;
  u_seek RPC_HEADER_SZ ≫= fun _ =>
  mret (ReplyHeader xid ret).

(** ** Containers (the templates of marshall.h) *)

Fixpoint m_put_each {A} (put : A -> M marshall unit) (l : list A) : M marshall unit :=
  match l with
  | [] => mret tt
  | a :: l' => put a ≫= fun _ => m_put_each put l'
  end.

Definition m_put_vector {A} (put : A -> M marshall unit) (v : list A) : M marshall unit :=
  m_put_u32 (u32 (Z.of_nat (length v))) ≫= fun _ => m_put_each put v.

Fixpoint u_get_each {A} (get : M unmarshall A) (n : nat) : M unmarshall (list A) :=
  match n with
  | O => mret []
  | S n' => a ← get; l ← u_get_each get n'; mret (a :: l)
  end.

(** The elements read are pushed behind those [v] already has. *)
Definition u_get_vector {A} (get : M unmarshall A) (v : list A) : M unmarshall (list A) :=
  n ← u_get_u32; l ← u_get_each get (Z.to_nat n); mret (v ++ l).

(** A [std::map] is written as the list of its entries in iteration order. *)
Definition m_put_map {A B} (pa : A -> M marshall unit) (pb : B -> M marshall unit)
    (d : list (A * B)) : M marshall unit :=
  m_put_u32 (u32 (Z.of_nat (length d))) ≫= fun _ =>
  m_put_each (fun e => pa (fst e) ≫= fun _ => pb (snd e)) d.

Fixpoint u_get_entries `{Countable A} {B} (ga : M unmarshall A) (gb : M unmarshall B)
    (n : nat) (d : gmap A B) : M unmarshall (gmap A B) :=
  match n with
  | O => mret d
  | S n' => a ← ga; b ← gb; u_get_entries ga gb n' (<[a := b]> d)
  end.

Definition u_get_map `{Countable A} {B} (ga : M unmarshall A) (gb : M unmarshall B)
    : M unmarshall (gmap A B) :=
  n ← u_get_u32; u_get_entries ga gb (Z.to_nat n) ∅.

(** ** Writing

    [writes p f]: on every well-formed buffer with room below 2^30 bytes, [f]
    ends without a fault and appends exactly [p]; the bytes past the write
    position are kept when the buffer need not grow. *)

Definition m_fit (m : marshall) : Prop :=
  m_capa m = Z.of_nat (length (m_buf m)) /\ 0 <= m_ind m <= m_capa m /\ 0 < m_capa m.

Record m_app (p : bytes) (m m' : marshall) : Prop := {
  app_fit : m_fit m';
  app_ind : m_ind m' = m_ind m + Z.of_nat (length p);
  app_pdu : m_pdu m' = m_pdu m ++ p;
  app_rest : m_ind m' <= m_capa m ->
    m_capa m' = m_capa m /\
    drop (Z.to_nat (m_ind m')) (m_buf m') = drop (Z.to_nat (m_ind m')) (m_buf m) }.

Definition writes (p : bytes) (f : M marshall unit) : Prop :=
  forall m, m_fit m -> m_ind m + Z.of_nat (length p) < 2 ^ 30 ->
    exists m', f m = Ok (tt, m') /\ m_app p m m'.

Lemma length_malloc n : length (malloc n) = n.
Proof. unfold malloc. by rewrite length_fmap, length_seq. Qed.

Lemma length_realloc b n : length (realloc b n) = n.
Proof. unfold realloc. len. Qed.

Lemma realloc_take b n k : (k <= length b)%nat -> (length b <= n)%nat ->
  take k (realloc b n) = take k b.
Proof.
  intros. unfold realloc. rewrite take_app_le by len.
  by rewrite take_take, Nat.min_l by lia.
Qed.

Lemma m_grow_ok c m : m_fit m -> m_capa m <= c <= INT_MAX ->
  exists m', m_grow c m = Ok (tt, m') /\ m_fit m' /\ m_capa m' = c /\
    m_ind m' = m_ind m /\ m_pdu m' = m_pdu m.
Proof.
  intros (Hc & Hi & Hp) Hcc. unfold m_grow.
  destruct (Z.ltb_spec INT_MAX c); [lia|]. eexists; split; [done|].
  unfold m_fit, m_pdu; simpl. rewrite length_realloc. split_and!; try lia.
  apply realloc_take; lia.
Qed.

Lemma new_marshall_fit : m_fit new_marshall /\ m_ind new_marshall = RPC_HEADER_SZ.
Proof.
  unfold m_fit, new_marshall; cbn [m_buf m_capa m_ind]. rewrite length_malloc.
  unfold DEFAULT_RPC_SZ, RPC_HEADER_SZ, static_max, sizeof_rpc_sz. simpl. lia.
Qed.

Lemma writes_nil : writes [] (mret tt).
Proof.
  intros m Hm _. exists m. split; [done|]. split; simpl; [done | lia | | done].
  by rewrite app_nil_r.
Qed.

Lemma m_app_trans p q m m1 m2 : m_app p m m1 -> m_app q m1 m2 -> m_app (p ++ q) m m2.
Proof.
  intros [F1 I1 P1 R1] [F2 I2 P2 R2].
  split; [done | rewrite length_app; lia | by rewrite P2, P1, app_assoc |].
  intros Hle. destruct R1 as [C1 D1]; [lia|]. destruct R2 as [C2 D2]; [lia|].
  split; [lia|]. rewrite D2.
  replace (Z.to_nat (m_ind m2)) with
    (Z.to_nat (m_ind m1) + (Z.to_nat (m_ind m2) - Z.to_nat (m_ind m1)))%nat by lia.
  by rewrite <- !drop_drop, D1.
Qed.

Lemma writes_app p q f g : writes p f -> writes q g -> writes (p ++ q) (f ≫= fun _ => g).
Proof.
  intros Hf Hg m Hm Hr. rewrite length_app in Hr.
  destruct (Hf m) as (m1 & E1 & A1); [done | lia |]. pose proof (app_ind _ _ _ A1).
  destruct (Hg m1) as (m2 & E2 & A2); [apply A1 | lia |].
  exists m2. rewrite (bind_ok _ _ _ _ _ E1). split; [done|]. by eapply m_app_trans.
Qed.

Lemma writes_rawbyte x : writes [x] (m_rawbyte x).
Proof.
  intros m Hm Hr. cbn [length] in Hr. unfold m_rawbyte.
  rewrite (bind_ok _ _ _ m m eq_refl).
  assert (exists m1,
    (if m_capa m <=? m_ind m then m_grow (m_capa m * 2) else mret tt) m = Ok (tt, m1) /\
    m_fit m1 /\ m_ind m1 = m_ind m /\ m_pdu m1 = m_pdu m /\ m_ind m1 < m_capa m1 /\
    (m_ind m < m_capa m -> m1 = m)) as (m1 & E1 & F1 & I1 & P1 & L1 & S1).
  { destruct Hm as (Hc & Hi & Hp). destruct (Z.leb_spec (m_capa m) (m_ind m)).
    - destruct (m_grow_ok (m_capa m * 2) m) as (m1 & E & ? & ? & ? & ?);
        [done | unfold INT_MAX; lia |].
      exists m1. split_and!; [done.. | lia | lia].
    - exists m. by split_and!. }
  rewrite (bind_ok _ _ _ _ _ E1), (bind_ok _ _ _ m1 m1 eq_refl).
  destruct F1 as (Hc & Hi & Hp).
  destruct (Z.leb_spec 0 (m_ind m1)), (Z.ltb_spec (m_ind m1) (Z.of_nat (length (m_buf m1))));
    simpl; try lia.
  eexists; split; [done|]. split; simpl.
  - unfold m_fit; simpl. rewrite length_insert. lia.
  - lia.
  - rewrite <- P1. unfold m_pdu; simpl.
    replace (Z.to_nat (m_ind m1 + 1)) with (S (Z.to_nat (m_ind m1))) by lia.
    erewrite take_S_r by (apply list_lookup_insert_eq; lia).
    by rewrite take_insert_ge by lia.
  - intros Hle. rewrite (S1 ltac:(lia)). split; [done|].
    by rewrite drop_insert_lt by lia.
Qed.

Lemma writes_rawbytes p : writes p (m_rawbytes p).
Proof.
  intros m Hm Hr. unfold m_rawbytes. rewrite (bind_ok _ _ _ m m eq_refl).
  destruct (Z.ltb_spec INT_MAX (m_ind m + Z.of_nat (length p))); [unfold INT_MAX in *; lia|].
  set (n := Z.of_nat (length p)) in *.
  assert (exists m1,
    (if m_capa m <? m_ind m + n
     then m_grow (if n <? m_capa m then 2 * m_capa m else m_capa m + n) else mret tt) m
      = Ok (tt, m1) /\
    m_fit m1 /\ m_ind m1 = m_ind m /\ m_pdu m1 = m_pdu m /\ m_ind m1 + n <= m_capa m1 /\
    (m_ind m + n <= m_capa m -> m1 = m)) as (m1 & E1 & F1 & I1 & P1 & L1 & S1).
  { destruct Hm as (Hc & Hi & Hp). destruct (Z.ltb_spec (m_capa m) (m_ind m + n)).
    - destruct (m_grow_ok (if n <? m_capa m then 2 * m_capa m else m_capa m + n) m)
        as (m1 & E & ? & ? & ? & ?);
        [done | unfold INT_MAX; destruct (Z.ltb_spec n (m_capa m)); lia |].
      exists m1. split_and!; try done; [|lia].
      destruct (Z.ltb_spec n (m_capa m)); lia.
    - exists m. by split_and!. }
  rewrite (bind_ok _ _ _ _ _ E1), (bind_ok _ _ _ m1 m1 eq_refl).
  destruct F1 as (Hc & Hi & Hp).
  destruct (Z.leb_spec (m_ind m1 + n) (Z.of_nat (length (m_buf m1)))); [|lia].
  eexists; split; [done|]. split; simpl.
  - unfold m_fit; simpl. len.
  - lia.
  - rewrite <- P1. unfold m_pdu; simpl.
    replace (Z.to_nat (m_ind m1 + n)) with (Z.to_nat (m_ind m1) + length p)%nat by lia.
    rewrite app_assoc. apply take_app_exact. len.
  - intros Hle. rewrite (S1 ltac:(lia)) in *. split; [done|].
    rewrite app_assoc. rewrite drop_app_exact by len. f_equal. lia.
Qed.

(** ** Reading

    [reads p g a]: on a well-formed buffer that is still [ok] and whose next
    bytes are [p], [g] returns [a] and moves past [p]. *)

Definition u_fit (u : unmarshall) : Prop :=
  u_sz u = Z.of_nat (length (u_buf u)) /\ 0 <= u_ind u <= u_sz u /\ u_sz u <= INT_MAX.

Definition u_adv (u : unmarshall) (n : nat) : unmarshall :=
  Unmarshall (u_buf u) (u_sz u) (u_ind u + Z.of_nat n) (u_ok u).

Definition reads {A} (p : bytes) (g : M unmarshall A) (a : A) : Prop :=
  forall u rest, u_fit u -> u_ok u = true ->
    drop (Z.to_nat (u_ind u)) (u_buf u) = p ++ rest ->
    g u = Ok (a, u_adv u (length p)).

Lemma drop_prefix_length (l p rest : bytes) i :
  drop i l = p ++ rest -> (i <= length l)%nat -> (i + length p <= length l)%nat.
Proof. intros Hd Hi. apply (f_equal length) in Hd. len. Qed.

Lemma u_adv_fit u p rest : u_fit u ->
  drop (Z.to_nat (u_ind u)) (u_buf u) = p ++ rest ->
  u_fit (u_adv u (length p)) /\
  drop (Z.to_nat (u_ind (u_adv u (length p)))) (u_buf u) = rest.
Proof.
  intros (Hs & Hi & Hm) Hd. pose proof (drop_prefix_length _ _ _ _ Hd ltac:(lia)).
  split; [unfold u_fit; simpl; lia|]. simpl.
  replace (Z.to_nat (u_ind u + Z.of_nat (length p)))
    with (Z.to_nat (u_ind u) + length p)%nat by lia.
  rewrite <- drop_drop, Hd. by apply drop_app_exact.
Qed.

Lemma u_adv_0 u : u_adv u 0 = u.
Proof. destruct u. unfold u_adv; simpl. by rewrite Z.add_0_r. Qed.

Lemma u_adv_adv u n k : u_adv (u_adv u n) k = u_adv u (n + k).
Proof. unfold u_adv; simpl. f_equal. lia. Qed.

Lemma reads_ret {A} (a : A) : reads [] (mret a) a.
Proof. intros u rest _ _ _. simpl. by rewrite u_adv_0. Qed.

Lemma reads_bind {A B} p q (g : M unmarshall A) (k : A -> M unmarshall B) a b :
  reads p g a -> reads q (k a) b -> reads (p ++ q) (g ≫= k) b.
Proof.
  intros Hg Hk u rest Hu Ho Hd. rewrite <- app_assoc in Hd.
  rewrite (bind_ok _ _ _ _ _ (Hg u _ Hu Ho Hd)).
  destruct (u_adv_fit _ _ _ Hu Hd) as [Hu' Hd'].
  rewrite (Hk _ _ Hu' Ho Hd'). by rewrite u_adv_adv, length_app.
Qed.

(** The last step of a reader, which computes its value from what was read. *)
Lemma reads_map {A B} p (g : M unmarshall A) (f : A -> B) a :
  reads p g a -> reads p (x ← g; mret (f x)) (f a).
Proof. intros Hg. rewrite <- (app_nil_r p). eapply reads_bind; [done | apply reads_ret]. Qed.

Lemma reads_rawbyte c : reads [c] u_rawbyte (u32 (char_val c)).
Proof.
  intros u rest (Hs & Hi & Hm) Ho Hd. unfold u_rawbyte.
  rewrite (bind_ok _ _ _ u u eq_refl).
  pose proof (drop_prefix_length _ _ _ _ Hd ltac:(lia)) as Hl. simpl in Hl.
  destruct (Z.leb_spec (u_sz u) (u_ind u)); [lia|].
  assert (u_buf u !! Z.to_nat (u_ind u) = Some c) as ->.
  { rewrite <- (Nat.add_0_r (Z.to_nat (u_ind u))), <- lookup_drop, Hd. done. }
  done.
Qed.

Lemma reads_rawbytes s p n : n = Z.of_nat (length p) -> reads p (u_rawbytes s n) p.
Proof.
  intros -> u rest (Hs & Hi & Hm) Ho Hd. unfold u_rawbytes.
  rewrite (bind_ok _ _ _ u u eq_refl).
  pose proof (drop_prefix_length _ _ _ _ Hd ltac:(lia)) as Hl.
  unfold u32. rewrite Z.mod_small by (unfold INT_MAX in *; lia).
  destruct (Z.ltb_spec (u_sz u) (u_ind u + Z.of_nat (length p))); [lia|].
  destruct (Z.leb_spec (u_ind u + Z.of_nat (length p)) (Z.of_nat (length (u_buf u)))); [|lia].
  rewrite Hd, Nat2Z.id, take_app_length. done.
Qed.

(** *** Bytes of a word *)

Lemma low8_char c : low8 (u32 (char_val c)) = bval c.
Proof.
  unfold low8, u32, char_val. change 255 with (Z.ones 8).
  rewrite Z.land_ones by lia. pose proof (bval_range c).
  destruct (Z.ltb_spec (bval c) 128).
  - rewrite (Z.mod_small _ (2 ^ 32)) by lia. apply Z.mod_small. lia.
  - replace (bval c - 256) with (bval c + 256 * -1) by lia.
    symmetry. apply (Z.mod_unique_pos _ _ (2 ^ 24 - 1)); [lia|].
    symmetry. apply (Z.mod_unique_pos _ _ (-1)); lia.
Qed.

Lemma byte_at_val x k : 0 <= k -> bval (byte_at x k) = (x / 2 ^ k) mod 256.
Proof.
  intros. unfold byte_at. rewrite bval_bof, Z.shiftr_div_pow2 by done.
  change 255 with (Z.ones 8). rewrite Z.land_ones by lia. by rewrite Z.mod_mod by lia.
Qed.

Lemma lor_shiftl_add a b k : 0 <= k -> 0 <= b < 2 ^ k ->
  Z.lor (Z.shiftl a k) b = a * 2 ^ k + b.
Proof.
  intros Hk Hb. rewrite Z.shiftl_mul_pow2 by done. symmetry. apply Z.add_nocarry_lor.
  apply Z.bits_inj'. intros n Hn. rewrite Z.land_spec, Z.bits_0.
  destruct (Z_lt_ge_dec n k).
  - by rewrite Z.mul_pow2_bits_low.
  - destruct (decide (b = 0)) as [->|]; [by rewrite Z.bits_0, andb_false_r|].
    rewrite (Z.bits_above_log2 b n), andb_false_r; [done | lia |].
    apply Z.log2_lt_pow2; [lia|]. eapply Z.lt_le_trans; [apply Hb|].
    apply Z.pow_le_mono_r; lia.
Qed.

Definition be16 (x : Z) : bytes := [byte_at x 8; byte_at x 0].
Definition be32 (x : Z) : bytes := [byte_at x 24; byte_at x 16; byte_at x 8; byte_at x 0].
Arguments be16 : simpl never.
Arguments be32 : simpl never.

Lemma word16 x :
  Z.lor (Z.shiftl (bval (byte_at x 8)) 8) (bval (byte_at x 0)) = x mod 2 ^ 16.
Proof.
  rewrite lor_shiftl_add by (pose proof (bval_range (byte_at x 0)); lia).
  rewrite !byte_at_val by lia. change (2 ^ 0) with 1. rewrite Z.div_1_r.
  Z.div_mod_to_equations. lia.
Qed.

Lemma word32 x :
  Z.lor (Z.lor (Z.lor (Z.shiftl (bval (byte_at x 24)) 24) (Z.shiftl (bval (byte_at x 16)) 16))
               (Z.shiftl (bval (byte_at x 8)) 8)) (bval (byte_at x 0)) = x mod 2 ^ 32.
Proof.
  pose proof (bval_range (byte_at x 24)). pose proof (bval_range (byte_at x 16)).
  pose proof (bval_range (byte_at x 8)). pose proof (bval_range (byte_at x 0)).
  rewrite <- !Z.lor_assoc.
  rewrite (lor_shiftl_add _ (bval (byte_at x 0)) 8) by lia.
  rewrite (lor_shiftl_add _ _ 16) by lia. rewrite (lor_shiftl_add _ _ 24) by lia.
  rewrite !byte_at_val by lia. change (2 ^ 0) with 1. rewrite Z.div_1_r.
  Z.div_mod_to_equations. lia.
Qed.

Ltac rd := first [apply reads_rawbyte | apply reads_ret].

Lemma reads_u16 x : reads (be16 x) u_get_u16 (u16 x).
Proof.
  unfold u_get_u16. replace (u16 x) with (u16 (Z.lor (Z.shiftl (low8 (u32 (char_val
    (byte_at x 8)))) 8) (low8 (u32 (char_val (byte_at x 0)))))).
  - repeat (eapply (reads_bind [_]); [rd|]). rd.
  - rewrite !low8_char, word16. unfold u16. by rewrite Z.mod_mod by lia.
Qed.

Lemma reads_s16 x : reads (be16 x) u_get_s16 (s16 x).
Proof.
  unfold u_get_s16. replace (s16 x) with (s16 (Z.lor (Z.shiftl (low8 (u32 (char_val
    (byte_at x 8)))) 8) (low8 (u32 (char_val (byte_at x 0)))))).
  - repeat (eapply (reads_bind [_]); [rd|]). rd.
  - rewrite !low8_char, word16. by apply to_signed_mod.
Qed.

Lemma reads_word32 (f : Z -> Z) x : f (x mod 2 ^ 32) = f x ->
  reads (be32 x)
    (b3 ← u_rawbyte; b2 ← u_rawbyte; b1 ← u_rawbyte; b0 ← u_rawbyte;
     mret (f (Z.lor (Z.lor (Z.lor (Z.shiftl (low8 b3) 24) (Z.shiftl (low8 b2) 16))
                           (Z.shiftl (low8 b1) 8)) (low8 b0)))) (f x).
Proof.
  intros Hf. rewrite <- Hf, <- word32, <- !low8_char.
  repeat (eapply (reads_bind [_]); [rd|]). rd.
Qed.

Lemma reads_u32 x : reads (be32 x) u_get_u32 (u32 x).
Proof. apply (reads_word32 u32). unfold u32. by rewrite Z.mod_mod by lia. Qed.

Lemma reads_s32 x : reads (be32 x) u_get_s32 (s32 x).
Proof. apply (reads_word32 s32). by apply to_signed_mod. Qed.

Lemma reads_unpack x : reads (be32 x) u_unpack (s32 x).
Proof. apply reads_s32. Qed.

(** A word that fits is read back as itself. *)
Lemma u32_id x : in_u 32 x -> u32 x = x.
Proof. intros. by apply Z.mod_small. Qed.

Lemma reads_u64 x : in_u 64 x ->
  reads (be32 (u32 (Z.shiftr x 32)) ++ be32 (u32 x)) u_get_u64 x.
Proof.
  intros Hx. eapply reads_bind; [apply reads_u32|].
  eassert (x = _) as Hxx; [|rewrite Hxx at 2; apply reads_map, reads_u32].
  unfold u32, u64, in_u in *. rewrite !Z.mod_mod by lia. rewrite Z.shiftr_div_pow2 by lia.
  rewrite (Z.mod_small (x / 2 ^ 32)) by (split; [apply Z.div_pos; lia |
    apply Z.div_lt_upper_bound; lia]).
  rewrite (Z.mod_small (Z.shiftl (x / 2 ^ 32) 32)).
  - rewrite Z.lor_comm, lor_shiftl_add by (try apply Z.mod_pos_bound; lia).
    pose proof (Z.div_mod x (2 ^ 32)). lia.
  - rewrite Z.shiftl_mul_pow2 by lia. pose proof (Z.div_mod x (2 ^ 32) ltac:(lia)).
    pose proof (Z.mod_pos_bound x (2 ^ 32) ltac:(lia)).
    assert (0 <= x / 2 ^ 32) by (apply Z.div_pos; lia). lia.
Qed.

Lemma reads_string s0 s : Z.of_nat (length s) <= INT_MAX ->
  reads (be32 (u32 (Z.of_nat (length s))) ++ s) (u_get_string s0) s.
Proof.
  intros Hl. eapply reads_bind; [apply reads_u32|].
  intros u rest Hu Ho Hd. rewrite (bind_ok _ _ _ u u eq_refl), Ho.
  eapply reads_rawbytes; try done.
  rewrite !u32_id; unfold in_u, INT_MAX in *; rewrite ?u32_id; unfold in_u; lia.
Qed.

Lemma writes_be32 x : writes (be32 x) (m_put_u32 x).
Proof. repeat (eapply (writes_app [_]); [apply writes_rawbyte|]). apply writes_rawbyte. Qed.

Lemma writes_be16 x : writes (be16 x) (m_put_u16 x).
Proof. eapply (writes_app [_]); apply writes_rawbyte. Qed.

(** ** Codecs

    The overloads of [<<] and [>>] for one type, with the values they are meant
    for and the bytes they put on the wire; the law is that writing appends the
    wire form and that reading the wire form gives the value back. *)

Record codec (A : Type) := Codec {
  c_put : A -> M marshall unit;
  c_get : M unmarshall A;
  c_valid : A -> Prop;
  c_wire : A -> bytes }.
Arguments Codec {A} _ _ _ _.
Arguments c_put {A} _ _.
Arguments c_get {A} _.
Arguments c_valid {A} _ _.
Arguments c_wire {A} _ _.

Class CodecOk {A} (c : codec A) : Prop := {
  codec_writes a : c_valid c a -> writes (c_wire c a) (c_put c a);
  codec_reads a : c_valid c a -> reads (c_wire c a) (c_get c) a }.

Definition c_bool : codec bool :=
  Codec m_put_bool u_get_bool (fun _ => True) (fun x => [bof (if x then 1 else 0)]).
Definition c_u8 : codec Z := Codec m_put_u8 u_get_u8 (in_u 8) (fun x => [bof x]).
Definition c_char : codec Z := Codec m_put_char u_get_char (in_s 8) (fun x => [bof (u8 x)]).
Definition c_u16 : codec Z := Codec m_put_u16 u_get_u16 (in_u 16) be16.
Definition c_s16 : codec Z := Codec m_put_s16 u_get_s16 (in_s 16) (fun x => be16 (u16 x)).
Definition c_u32 : codec Z := Codec m_put_u32 u_get_u32 (in_u 32) be32.
Definition c_s32 : codec Z := Codec m_put_s32 u_get_s32 (in_s 32) (fun x => be32 (u32 x)).
Definition c_u64 : codec Z := Codec m_put_u64 u_get_u64 (in_u 64)
  (fun x => be32 (u32 (Z.shiftr x 32)) ++ be32 (u32 x)).
Definition c_string : codec bytes :=
  Codec m_put_string (u_get_string []) (fun s => Z.of_nat (length s) <= INT_MAX)
    (fun s => be32 (u32 (Z.of_nat (length s))) ++ s).
Definition c_vector {A} (c : codec A) : codec (list A) :=
  Codec (m_put_vector (c_put c)) (u_get_vector (c_get c) [])
    (fun v => Z.of_nat (length v) < 2 ^ 32 /\ Forall (c_valid c) v)
    (fun v => be32 (u32 (Z.of_nat (length v))) ++ concat (c_wire c <$> v)).

#[export] Instance c_bool_ok : CodecOk c_bool.
Proof.
  split; intros a _; simpl; [apply writes_rawbyte|].
  eassert (a = _) as Ha; [|rewrite Ha at 2; apply reads_map, reads_rawbyte].
  by destruct a.
Qed.

Lemma u8_char c : u8 (u32 (char_val c)) = bval c.
Proof.
  rewrite <- low8_char. unfold u8, low8. change 255 with (Z.ones 8).
  by rewrite Z.land_ones by lia.
Qed.

Lemma signed_char c : to_signed 8 (u32 (char_val c)) = char_val c.
Proof.
  rewrite <- to_signed_mod by lia. fold (u8 (u32 (char_val c))).
  rewrite u8_char. unfold to_signed, char_val. pose proof (bval_range c).
  by rewrite Z.mod_small by lia.
Qed.

Lemma char_val_bof x : in_s 8 x -> char_val (bof (u8 x)) = x.
Proof.
  intros Hx. rewrite <- signed_char, <- to_signed_mod by lia.
  fold (u8 (u32 (char_val (bof (u8 x))))). rewrite u8_char, bval_bof.
  unfold u8. rewrite Z.mod_mod, to_signed_mod by lia. by apply to_signed_id.
Qed.

#[export] Instance c_u8_ok : CodecOk c_u8.
Proof.
  split; intros a Ha; simpl; [apply writes_rawbyte|].
  eassert (a = _) as Hb; [|rewrite Hb at 2; apply reads_map, reads_rawbyte].
  rewrite u8_char, bval_bof. symmetry. by apply Z.mod_small.
Qed.

#[export] Instance c_char_ok : CodecOk c_char.
Proof.
  split; intros a Ha; simpl; [apply writes_rawbyte|].
  eassert (a = _) as Hb; [|rewrite Hb at 2; apply reads_map, reads_rawbyte].
  by rewrite signed_char, char_val_bof.
Qed.

#[export] Instance c_u16_ok : CodecOk c_u16.
Proof.
  split; intros a Ha; simpl; [apply writes_be16|].
  replace a with (u16 a) at 2 by (by apply Z.mod_small). apply reads_u16.
Qed.

#[export] Instance c_s16_ok : CodecOk c_s16.
Proof.
  split; intros a Ha; simpl; [apply writes_be16|].
  replace a with (s16 (u16 a)) at 2; [apply reads_s16|].
  unfold s16, u16. rewrite to_signed_mod by lia. by apply to_signed_id.
Qed.

#[export] Instance c_u32_ok : CodecOk c_u32.
Proof.
  split; intros a Ha; simpl; [apply writes_be32|].
  replace a with (u32 a) at 2 by (by apply u32_id). apply reads_u32.
Qed.

Lemma s32_u32 a : in_s 32 a -> s32 (u32 a) = a.
Proof.
  intros. unfold s32, u32. rewrite to_signed_mod by lia. by apply to_signed_id.
Qed.

#[export] Instance c_s32_ok : CodecOk c_s32.
Proof.
  split; intros a Ha; simpl; [apply writes_be32|].
  replace a with (s32 (u32 a)) at 2 by (by apply s32_u32). apply reads_s32.
Qed.

#[export] Instance c_u64_ok : CodecOk c_u64.
Proof.
  split; intros a Ha; cbn [c_put c_get c_wire c_valid c_u64]; [|by apply reads_u64].
  unfold m_put_u64. apply writes_app; apply writes_be32.
Qed.

#[export] Instance c_string_ok : CodecOk c_string.
Proof.
  split; intros a Ha; cbn [c_put c_get c_wire c_valid c_string]; [|by apply reads_string].
  unfold m_put_string. apply writes_app; [apply writes_be32 | apply writes_rawbytes].
Qed.

Lemma writes_each {A} (c : codec A) `{!CodecOk c} v : Forall (c_valid c) v ->
  writes (concat (c_wire c <$> v)) (m_put_each (c_put c) v).
Proof.
  induction 1; simpl; [apply writes_nil|]. apply writes_app; [|done].
  by apply codec_writes.
Qed.

Lemma reads_each {A} (c : codec A) `{!CodecOk c} v : Forall (c_valid c) v ->
  reads (concat (c_wire c <$> v)) (u_get_each (c_get c) (length v)) v.
Proof.
  induction 1 as [|a v Ha Hv IH]; simpl; [apply reads_ret|].
  eapply reads_bind; [by apply codec_reads|]. by apply (reads_map _ _ (cons a)).
Qed.

#[export] Instance c_vector_ok {A} (c : codec A) `{!CodecOk c} : CodecOk (c_vector c).
Proof.
  split; intros v [Hl Hv]; cbn [c_put c_get c_wire c_valid c_vector].
  - unfold m_put_vector. apply writes_app; [apply writes_be32 | by apply writes_each].
  - eapply reads_bind; [apply reads_u32|].
    rewrite !u32_id by (unfold in_u; rewrite ?u32_id; unfold in_u; lia).
    rewrite Nat2Z.id. by apply (reads_map _ _ (app [])), reads_each.
Qed.

(** *** Maps *)

Section map_codec.
Context `{Countable A} {B : Type} (ca : codec A) (cb : codec B).
Context `{!CodecOk ca} `{!CodecOk cb}.

Definition entry_valid (e : A * B) : Prop := c_valid ca (fst e) /\ c_valid cb (snd e).
Definition entry_wire (e : A * B) : bytes := c_wire ca (fst e) ++ c_wire cb (snd e).

Lemma writes_entries d : Forall entry_valid d ->
  writes (concat (entry_wire <$> d))
    (m_put_each (fun e => c_put ca (fst e) ≫= fun _ => c_put cb (snd e)) d).
Proof.
  induction 1 as [|e d [He1 He2] Hd IH]; simpl; [apply writes_nil|].
  apply writes_app; [|done]. by apply writes_app; apply codec_writes.
Qed.

Lemma reads_entries d d0 : Forall entry_valid d ->
  reads (concat (entry_wire <$> d)) (u_get_entries (c_get ca) (c_get cb) (length d) d0)
    (fold_left (fun m e => <[fst e := snd e]> m) d d0).
Proof.
  intros Hd. revert d0. induction Hd as [|e d [He1 He2] Hd IH]; intros d0; simpl;
    [apply reads_ret|].
  unfold entry_wire at 1. rewrite <- app_assoc.
  eapply reads_bind; [by apply codec_reads|].
  eapply reads_bind; [by apply codec_reads|]. apply IH.
Qed.

Lemma fold_insert_list_to_map (d : list (A * B)) (d0 : gmap A B) :
  NoDup d.*1 ->
  fold_left (fun m e => <[fst e := snd e]> m) d d0 = list_to_map d ∪ d0.
Proof.
  revert d0. induction d as [|[a b] d IH]; intros d0 Hd; simpl.
  - by rewrite (left_id_L ∅ (∪)).
  - apply NoDup_cons in Hd as [Ha Hd]. rewrite IH by done.
    rewrite <- insert_union_l, <- insert_union_r; [done|].
    by apply not_elem_of_list_to_map.
Qed.
End map_codec.

(** *** Headers *)

(** Writing [q] at offset 4 and seeking back replaces these bytes only. *)
Lemma write_header q f m : writes q f -> m_fit m -> m_ind m < 2 ^ 30 ->
  sizeof_rpc_sz + Z.of_nat (length q) <= m_ind m ->
  exists m', (m_seek sizeof_rpc_sz ≫= fun _ => f ≫= fun _ => m_seek (m_ind m)) m = Ok (tt, m') /\
    m_fit m' /\ m_ind m' = m_ind m /\
    m_buf m' = take 4 (m_buf m) ++ q ++ drop (4 + length q) (m_buf m).
Proof.
  intros Hf (Hc & Hi & Hp) Hs Hq. unfold sizeof_rpc_sz in *.
  set (m1 := Marshall (m_buf m) (m_capa m) 4).
  destruct (Hf m1) as (m2 & E & [F2 I2 P2 R2]); [unfold m_fit; simpl; lia | simpl; lia |].
  simpl in *. destruct R2 as [C2 D2]; [lia|].
  exists (Marshall (m_buf m2) (m_capa m2) (m_ind m)).
  unfold mbind, M_bind, m_seek, modS. fold m1. rewrite E. split; [done|].
  destruct F2 as (? & ? & ?). split; [unfold m_fit; simpl; lia|]. split; [done|]. simpl.
  rewrite <- (take_drop (Z.to_nat (m_ind m2)) (m_buf m2)). fold (m_pdu m2).
  rewrite P2, D2, <- app_assoc, I2. unfold m_pdu; simpl.
  by replace (Z.to_nat (4 + Z.of_nat (length q))) with (4 + length q)%nat by lia.
Qed.

Definition req_header_valid (h : req_header) : Prop :=
  in_s 32 (rq_xid h) /\ in_s 32 (rq_proc h) /\ in_u 32 (rq_clt_nonce h) /\
  in_u 32 (rq_srv_nonce h) /\ in_s 32 (rq_xid_rep h).

Definition req_wire (h : req_header) : bytes :=
  be32 (rq_xid h) ++ be32 (rq_proc h) ++ be32 (s32 (rq_clt_nonce h)) ++
  be32 (s32 (rq_srv_nonce h)) ++ be32 (rq_xid_rep h).

Definition reply_wire (h : reply_header) : bytes := be32 (rp_xid h) ++ be32 (rp_ret h).

(** The header region is rewritten and the content is not touched. *)
Lemma pack_req_header_ok h m : m_fit m -> RPC_HEADER_SZ <= m_ind m < 2 ^ 30 ->
  exists m', m_pack_req_header h m = Ok (tt, m') /\ m_fit m' /\ m_ind m' = m_ind m /\
    m_buf m' = take 4 (m_buf m) ++ req_wire h ++ drop 24 (m_buf m).
Proof.
  intros Hm Hi. unfold RPC_HEADER_SZ, static_max, sizeof_rpc_sz in Hi. simpl in Hi.
  unfold m_pack_req_header. rewrite (bind_ok _ _ _ m m eq_refl).
  erewrite (bind_ok _ _ m) by reflexivity. rewrite !bind_seq_assoc.
  edestruct (write_header (req_wire h)) as (m' & E & F & I & Bf); cycle 1;
    [exact Hm | lia | unfold sizeof_rpc_sz; simpl; lia | | ].
  - exists m'. split; [exact E|]. done.
  - unfold req_wire. rewrite !app_assoc.
    repeat (apply writes_app; [|apply (writes_be32 _)]). apply (writes_be32 _).
Qed.

Lemma pack_reply_header_ok h m : m_fit m -> RPC_HEADER_SZ <= m_ind m < 2 ^ 30 ->
  exists m', m_pack_reply_header h m = Ok (tt, m') /\ m_fit m' /\ m_ind m' = m_ind m /\
    m_buf m' = take 4 (m_buf m) ++ reply_wire h ++ drop 12 (m_buf m).
Proof.
  intros Hm Hi. unfold RPC_HEADER_SZ, static_max, sizeof_rpc_sz in Hi. simpl in Hi.
  unfold m_pack_reply_header. rewrite (bind_ok _ _ _ m m eq_refl).
  erewrite (bind_ok _ _ m) by reflexivity. rewrite !bind_seq_assoc.
  edestruct (write_header (reply_wire h)) as (m' & E & F & I & Bf); cycle 1;
    [exact Hm | lia | unfold sizeof_rpc_sz; simpl; lia | | ].
  - exists m'. split; [exact E|]. done.
  - apply writes_app; apply (writes_be32 _).
Qed.

Lemma reads_step {A B} p (g : M unmarshall A) (k : A -> M unmarshall B) a u rest :
  reads p g a -> u_fit u -> u_ok u = true ->
  drop (Z.to_nat (u_ind u)) (u_buf u) = p ++ rest ->
  (g ≫= k) u = k a (u_adv u (length p)) /\ u_fit (u_adv u (length p)) /\
  drop (Z.to_nat (u_ind (u_adv u (length p)))) (u_buf u) = rest.
Proof.
  intros Hg Hu Ho Hd. rewrite (bind_ok _ _ _ _ _ (Hg u rest Hu Ho Hd)).
  split; [done|]. by apply u_adv_fit.
Qed.

(** Read the next word of a header. *)
Ltac unpack_step :=
  match goal with
  | Hu : u_fit ?u, Hd : drop (Z.to_nat (u_ind ?u)) _ = be32 ?x ++ _
    |- context [(u_unpack ≫= ?k) ?u] =>
      let E := fresh "E" in let Hu' := fresh "Hu" in let Hd' := fresh "Hd" in
      destruct (reads_step _ _ k _ u _ (reads_unpack x) Hu eq_refl Hd) as (E & Hu' & Hd');
      rewrite E; clear E Hu Hd
  end.

Lemma s32_id x : in_s 32 x -> s32 x = x.
Proof. intros. by apply to_signed_id. Qed.

Lemma u32_s32 x : in_u 32 x -> u32 (s32 (s32 x)) = x.
Proof.
  intros Hx. assert (in_s 32 (s32 x)) as Hs.
  { unfold s32, to_signed, in_s, in_u in *. pose proof (Z.mod_pos_bound x (2 ^ 32) ltac:(lia)).
    destruct (Z.ltb_spec (x mod 2 ^ 32) (2 ^ (32 - 1))); lia. }
  rewrite (s32_id _ Hs). unfold s32, u32, to_signed, in_u in *.
  rewrite (Z.mod_small x) by lia. destruct (Z.ltb_spec x (2 ^ (32 - 1))).
  - by apply Z.mod_small.
  - symmetry. apply (Z.mod_unique_pos _ _ (-1)); lia.
Qed.

Lemma unpack_req_header_ok h buf a rest : req_header_valid h ->
  buf = a ++ req_wire h ++ rest -> length a = 4%nat -> Z.of_nat (length buf) <= INT_MAX ->
  u_unpack_req_header (unmarshall_of buf) =
    Ok (h, Unmarshall buf (Z.of_nat (length buf)) RPC_HEADER_SZ true).
Proof.
  intros (Hx & Hp & Hc & Hs & Hr) Hbuf Ha Hl. unfold u_unpack_req_header.
  set (u := Unmarshall buf (Z.of_nat (length buf)) 4 true).
  rewrite (bind_ok _ _ (unmarshall_of buf) tt u) by done.
  assert (u_fit u) as Hu.
  { unfold u_fit, u; simpl. subst buf. len. }
  assert (drop (Z.to_nat (u_ind u)) buf = req_wire h ++ rest) as Hd
    by (subst buf; by apply drop_app_exact).
  unfold req_wire in Hd. rewrite <- !app_assoc in Hd.
  unpack_step. unpack_step. unpack_step. unpack_step. unpack_step.
  unfold mbind, M_bind, u_seek, modS, mret, M_ret; simpl.
  do 2 f_equal. destruct h; simpl in *. f_equal; auto using s32_id, u32_s32.
Qed.

Lemma unpack_reply_header_ok h buf a rest : in_s 32 (rp_xid h) -> in_s 32 (rp_ret h) ->
  buf = a ++ reply_wire h ++ rest -> length a = 4%nat -> Z.of_nat (length buf) <= INT_MAX ->
  u_unpack_reply_header (unmarshall_of buf) =
    Ok (h, Unmarshall buf (Z.of_nat (length buf)) RPC_HEADER_SZ true).
Proof.
  intros Hx Hr Hbuf Ha Hl. unfold u_unpack_reply_header.
  set (u := Unmarshall buf (Z.of_nat (length buf)) 4 true).
  rewrite (bind_ok _ _ (unmarshall_of buf) tt u) by done.
  assert (u_fit u) as Hu.
  { unfold u_fit, u; simpl. subst buf. len. }
  assert (drop (Z.to_nat (u_ind u)) buf = reply_wire h ++ rest) as Hd
    by (subst buf; by apply drop_app_exact).
  unfold reply_wire in Hd. rewrite <- !app_assoc in Hd.
  unpack_step. unpack_step.
  unfold mbind, M_bind, u_seek, modS, mret, M_ret; simpl.
  do 2 f_equal. destruct h; simpl in *. f_equal; auto using s32_id.
Qed.
End marshall.

Arguments Codec {A} _ _ _ _.
Arguments c_put {A} _ _.
Arguments c_get {A} _.
Arguments c_valid {A} _ _.
Arguments c_wire {A} _ _.

#[export] Hint Resolve writes_nil writes_app writes_be32 writes_rawbytes : core.

(** A zero-filled heap, for evaluating the model on concrete inputs. *)
Definition zero_mem : Mem := {| uninit := fun _ => x00 |}.
