(* ===== verification/RpcServer.v ===== *)
(** * The RPC server endpoint: class rpcs

    The reply window that gives at-most-once execution
    ([checkduplicate_and_update], [add_reply]), handler registration and
    [dispatch] of src/lab41/rpc/rpc.cc, and the theorems that a request
    identifier is executed at most once and that a duplicate is answered with
    the reply of that execution. *)

From S2P Require Import Prelude Marshall.

(** ** rpc_const (rpc.h) *)

Module rpc_const.
Definition bind : Z := 1.
Definition timeout_failure : Z := -1.
Definition unmarshal_args_failure : Z := -2.
Definition unmarshal_reply_failure : Z := -3.
Definition atmostonce_failure : Z := -4.
Definition oldsrv_failure : Z := -5.
Definition bind_failure : Z := -6.
Definition cancel_failure : Z := -7.
End rpc_const.

(** ** The reply window *)

(** [buf] and [sz] are the reply bytes; [sz] is their number. *)
Record reply_t := Reply { ry_xid : Z; ry_cb_present : bool; ry_buf : bytes }.

Inductive rpcstate_t := NEW | INPROGRESS | DONE (b : bytes) | FORGOTTEN.

#[export] Instance rpcstate_eq_dec : EqDecision rpcstate_t.
Proof. solve_decision. Defined.

Definition is_new (st : rpcstate_t) : bool := match st with NEW => true | _ => false end.

(** The first loop: an entry for [xid] already in the window. *)
Fixpoint find_reply (w : list reply_t) (xid : Z) : option reply_t :=
  match w with
  | [] => None
  | r :: w' => if ry_xid r =? xid then Some r else find_reply w' xid
  end.

(** Insertion before the first entry with a larger xid, else at the end. *)
Fixpoint insert_reply (w : list reply_t) (r : reply_t) : list reply_t :=
  match w with
  | [] => [r]
  | r' :: w' => if ry_xid r <? ry_xid r' then r :: w else r' :: insert_reply w' r
  end.

(** Erasure of the entries before the first one with [xid >= xid_rep], of all
    entries when there is none. *)
Fixpoint trim_window (w : list reply_t) (xid_rep : Z) : list reply_t :=
  match w with
  | [] => []
  | r :: w' => if xid_rep <=? ry_xid r then w else trim_window w' xid_rep
  end.

Definition checkduplicate_and_update (w : list reply_t) (xid xid_rep : Z)
    : rpcstate_t * list reply_t :=
  match find_reply w xid with
  | Some r => (if ry_cb_present r then DONE (ry_buf r) else INPROGRESS, w)
  | None =>
      match w with
      | r0 :: _ =>
          if xid <? ry_xid r0 then (FORGOTTEN, w)
          else (NEW, trim_window (insert_reply w (Reply xid false [])) xid_rep)
      | [] => (NEW, trim_window (insert_reply w (Reply xid false [])) xid_rep)
      end
  end.

Fixpoint add_reply (w : list reply_t) (xid : Z) (b : bytes) : list reply_t :=
  match w with
  | [] => []
  | r :: w' => if ry_xid r =? xid then Reply (ry_xid r) true b :: w'
               else r :: add_reply w' xid b
  end.

(** ** Window lemmas *)

Definition xids (w : list reply_t) : list Z := ry_xid <$> w.

(** Strictly increasing xids. *)
Definition window_sorted (w : list reply_t) : Prop := StronglySorted Z.lt (xids w).

Lemma find_reply_None w xid : find_reply w xid = None <-> xid ∉ xids w.
Proof.
  induction w as [|r w IH]; simpl; [by split; [intros _; apply not_elem_of_nil|]|].
  rewrite not_elem_of_cons. destruct (Z.eqb_spec (ry_xid r) xid); [naive_solver|].
  rewrite IH. naive_solver.
Qed.

Lemma find_reply_Some w xid r : find_reply w xid = Some r -> ry_xid r = xid /\ r ∈ w.
Proof.
  induction w as [|r' w IH]; simpl; [done|].
  destruct (Z.eqb_spec (ry_xid r') xid); intros; simplify_eq; [set_solver|].
  destruct IH; [done|]. set_solver.
Qed.

Lemma elem_of_insert_reply w r x :
  x ∈ xids (insert_reply w r) <-> x = ry_xid r \/ x ∈ xids w.
Proof.
  induction w as [|r' w IH]; simpl; [set_solver|].
  destruct (ry_xid r <? ry_xid r'); simpl; [set_solver|].
  rewrite !elem_of_cons, IH. tauto.
Qed.

Lemma insert_reply_sorted w r :
  window_sorted w -> ry_xid r ∉ xids w -> window_sorted (insert_reply w r).
Proof.
  unfold window_sorted. induction w as [|r' w IH]; simpl; intros Hs Hn; [repeat constructor|].
  apply StronglySorted_inv in Hs as [Hs Hf]. apply not_elem_of_cons in Hn as [Hne Hn].
  destruct (Z.ltb_spec (ry_xid r) (ry_xid r')); simpl.
  - constructor; [by constructor|]. constructor; [done|].
    eapply Forall_impl; [exact Hf|]. simpl. lia.
  - constructor; [by apply IH|]. apply Forall_forall. intros x Hx.
    apply elem_of_insert_reply in Hx as [->|Hx]; [lia|].
    rewrite Forall_forall in Hf. auto.
Qed.

Lemma trim_window_suffix w x : exists p, w = p ++ trim_window w x /\
  Forall (fun y => y < x) (xids p).
Proof.
  induction w as [|r w (p & Hp & Hf)]; simpl; [by exists []|].
  destruct (Z.leb_spec x (ry_xid r)); [by exists []|].
  exists (r :: p). simpl. split; [by f_equal|]. by constructor.
Qed.

Lemma trim_window_sorted w x : window_sorted w -> window_sorted (trim_window w x).
Proof.
  unfold window_sorted. induction w as [|r w IH]; simpl; [done|].
  intros Hs. destruct (x <=? ry_xid r); [done|]. apply StronglySorted_inv in Hs. naive_solver.
Qed.

Lemma elem_of_trim w x y : window_sorted w ->
  y ∈ xids (trim_window w x) <-> y ∈ xids w /\ x <= y.
Proof.
  unfold window_sorted. induction w as [|r w IH]; simpl; intros Hs; [set_solver|].
  apply StronglySorted_inv in Hs as [Hs Hf]. rewrite Forall_forall in Hf.
  destruct (Z.leb_spec x (ry_xid r)); simpl; rewrite ?elem_of_cons.
  - split; [|naive_solver]. intros [->|Hy]; [auto|]. specialize (Hf _ Hy). auto with lia.
  - rewrite IH by done. split; [naive_solver|]. intros [[->|?] ?]; [lia | done].
Qed.

Lemma xids_add_reply w x b : xids (add_reply w x b) = xids w.
Proof.
  induction w as [|r w IH]; simpl; [done|].
  destruct (ry_xid r =? x); simpl; [done | by rewrite IH].
Qed.

Lemma xids_checkduplicate w x rep y :
  y ∈ xids (checkduplicate_and_update w x rep).2 -> y = x \/ y ∈ xids w.
Proof.
  assert (forall w', y ∈ xids (trim_window w' rep) -> y ∈ xids w') as Htrim.
  { intros w' Hy. destruct (trim_window_suffix w' rep) as (p & Hp & _). rewrite Hp.
    unfold xids in *. rewrite fmap_app. apply elem_of_app. by right. }
  unfold checkduplicate_and_update. destruct (find_reply w x) as [r|]; [by right|].
  destruct w as [|r0 w]; [|destruct (x <? ry_xid r0); [by right|]];
    intros Hy%Htrim%elem_of_insert_reply; exact Hy.
Qed.

(** An identifier above all those in the window is that of a new request. *)
Lemma checkduplicate_fresh w x rep : Forall (fun y => y < x) (xids w) ->
  (checkduplicate_and_update w x rep).1 = NEW.
Proof.
  rewrite Forall_forall. intros Hw. unfold checkduplicate_and_update.
  assert (find_reply w x = None) as ->.
  { apply find_reply_None. intros Hx%Hw. lia. }
  destruct w as [|r0 w]; [done|]. destruct (Z.ltb_spec x (ry_xid r0)); [|done].
  specialize (Hw (ry_xid r0)). simpl in Hw. exfalso. assert (ry_xid r0 < x) by (apply Hw; left). lia.
Qed.

(** ** At-most-once execution

    The life of one client's window: requests arrive (possibly duplicated,
    delayed or reordered) and finished executions record their reply. *)

Inductive srv_event :=
  | EReq (xid xid_rep : Z)
  | EReply (xid : Z) (b : bytes).

(** The window and the requests executed so far, latest first. *)
Definition step_window (s : list reply_t * list Z) (ev : srv_event) : list reply_t * list Z :=
  let '(w, ex) := s in
  match ev with
  | EReq xid xid_rep =>
      let '(st, w') := checkduplicate_and_update w xid xid_rep in
      (w', if is_new st then xid :: ex else ex)
  | EReply xid b => (add_reply w xid b, ex)
  end.

Arguments step_window : simpl never.

Definition run_window (evs : list srv_event) : list reply_t * list Z :=
  fold_left step_window evs ([], []).

(** What a client sends: it has no reply yet for the call it is making. *)
Definition ev_ok (ev : srv_event) : Prop :=
  match ev with EReq xid xid_rep => xid_rep < xid | EReply _ _ => True end.

(** Every executed request is in the window or below its first entry. *)
Record window_inv (w : list reply_t) (ex : list Z) : Prop := {
  wi_sorted : window_sorted w;
  wi_nodup : NoDup ex;
  wi_sub : forall x, x ∈ xids w -> x ∈ ex;
  wi_low : forall x, x ∈ ex -> x ∉ xids w ->
             exists r0 w', w = r0 :: w' /\ x < ry_xid r0 }.

Lemma window_inv_nil : window_inv [] [].
Proof. split; [constructor | constructor | set_solver | set_solver]. Qed.

Lemma window_inv_add_reply w ex x b : window_inv w ex -> window_inv (add_reply w x b) ex.
Proof.
  intros [Hs Hn Hsub Hlow]. split; try done.
  - unfold window_sorted. by rewrite xids_add_reply.
  - intros y. rewrite xids_add_reply. auto.
  - intros y Hy. rewrite xids_add_reply. intros Hny.
    destruct (Hlow y Hy Hny) as (r0 & w' & -> & Hlt). simpl.
    destruct (ry_xid r0 =? x); eauto.
Qed.

Lemma window_head_le r0 w x : window_sorted (r0 :: w) -> x ∈ xids (r0 :: w) -> ry_xid r0 <= x.
Proof.
  intros Hs Hx. apply StronglySorted_inv in Hs as [_ Hf]. rewrite Forall_forall in Hf.
  simpl in Hx. apply elem_of_cons in Hx as [->|Hx]; [lia|]. specialize (Hf _ Hx). lia.
Qed.

(** The step that admits a request as [NEW]. *)
Lemma window_inv_new w ex xid xid_rep : window_inv w ex -> xid_rep < xid ->
  xid ∉ xids w -> (forall r0 w', w = r0 :: w' -> ry_xid r0 <= xid) ->
  xid ∉ ex /\
  window_inv (trim_window (insert_reply w (Reply xid false [])) xid_rep) (xid :: ex).
Proof.
  intros [Hs Hn Hsub Hlow] Hrep Hnw Hfront.
  assert (xid ∉ ex) as Hnex.
  { intros Hx. destruct (Hlow _ Hx Hnw) as (r0 & w' & -> & Hlt).
    specialize (Hfront _ _ eq_refl). lia. }
  split; [done|].
  set (wi := insert_reply w (Reply xid false [])).
  assert (window_sorted wi) as Hsi by (by apply insert_reply_sorted).
  assert (xid ∈ xids (trim_window wi xid_rep)) as Hin.
  { apply elem_of_trim; [done|]. split; [|lia]. by apply elem_of_insert_reply; left. }
  split.
  - by apply trim_window_sorted.
  - by constructor.
  - intros x [Hx _]%elem_of_trim; [|done]. apply elem_of_insert_reply in Hx as [->|Hx]; set_solver.
  - intros x Hx Hnt. destruct (trim_window wi xid_rep) as [|r0 w'] eqn:Ht; [set_solver|].
    exists r0, w'. split; [done|]. rewrite <- Ht in *.
    assert (ry_xid r0 ∈ xids (trim_window wi xid_rep)) as Hr0 by (rewrite Ht; left).
    apply elem_of_trim in Hr0 as [Hr0 Hge]; [|done].
    destruct (decide (x < xid_rep)) as [|Hnlt]; [lia|].
    assert (x ∉ xids wi) as Hnwi by (intros Hxw; apply Hnt, elem_of_trim; [done | split; [done | lia]]).
    assert (x ∈ ex) by (apply elem_of_cons in Hx as [->|]; [|done]; exfalso; apply Hnwi,
      elem_of_insert_reply; by left).
    destruct (Hlow x) as (r1 & w1 & -> & Hlt); [done | |].
    { intros ?. apply Hnwi, elem_of_insert_reply. by right. }
    specialize (Hfront _ _ eq_refl).
    apply elem_of_insert_reply in Hr0 as [->|Hr0]; simpl; [lia|].
    pose proof (window_head_le _ _ _ Hs Hr0). lia.
Qed.

Lemma step_window_inv w ex ev w' ex' : window_inv w ex -> ev_ok ev ->
  step_window (w, ex) ev = (w', ex') -> window_inv w' ex'.
Proof.
  intros Hi Hok Hst. destruct ev as [xid xid_rep | xid b]; unfold step_window in Hst; simpl in Hok.
  2:{ injection Hst as <- <-. by apply window_inv_add_reply. }
  unfold checkduplicate_and_update in Hst.
  destruct (find_reply w xid) as [r|] eqn:Hf.
  { destruct (ry_cb_present r); simpl in Hst; simplify_eq; done. }
  apply find_reply_None in Hf.
  destruct w as [|r0 w]; [|destruct (Z.ltb_spec xid (ry_xid r0))].
  - injection Hst as <- <-. apply (window_inv_new []); [done.. | naive_solver].
  - by injection Hst as <- <-.
  - injection Hst as <- <-.
    apply (window_inv_new (r0 :: w)); [done.. |]. intros ? ? [= <- <-]. lia.
Qed.

Lemma run_window_inv evs s : window_inv s.1 s.2 -> Forall ev_ok evs ->
  window_inv (fold_left step_window evs s).1 (fold_left step_window evs s).2.
Proof.
  intros Hi Hok. revert s Hi. induction Hok as [|ev evs He Hok IH]; intros [w ex] Hi; [done|].
  simpl fold_left. destruct (step_window (w, ex) ev) as [w' ex'] eqn:Hst.
  apply IH. simpl. eapply step_window_inv; [exact Hi | exact He | exact Hst].
Qed.

(** C1. At-most-once execution: whatever requests of one client arrive, in
    whatever order and however often (each carrying an acknowledgement below its
    own identifier), no request identifier is executed twice. *)
Theorem at_most_once (evs : list srv_event) :
  Forall ev_ok evs -> NoDup (run_window evs).2.
Proof. intros Hok. apply (run_window_inv evs ([], []) window_inv_nil Hok). Qed.

Definition sample_events : list srv_event :=
  [EReq 1 0; EReq 1 0; EReply 1 (str "a"); EReq 2 0; EReq 1 0; EReq 3 1; EReq 1 0].

Lemma at_most_once_witness :
  (run_window sample_events).2 = [3; 2; 1] /\ NoDup (run_window sample_events).2.
Proof.
  split; [vm_compute; reflexivity|]. apply at_most_once. repeat constructor; simpl; lia.
Defined.

(** Entries not acknowledged yet stay in the window. *)
Definition unacked (evs : list srv_event) (x : Z) : Prop :=
  forall xid xid_rep, EReq xid xid_rep ∈ evs -> xid_rep <= x.

Lemma step_window_keeps w ex ev w' ex' x : window_inv w ex -> ev_ok ev ->
  (forall xid xid_rep, ev = EReq xid xid_rep -> xid_rep <= x) ->
  step_window (w, ex) ev = (w', ex') ->
  (x ∈ ex -> x ∈ xids w) -> x ∈ ex' -> x ∈ xids w'.
Proof.
  intros Hi Hok Hack Hst Hkeep Hx. destruct ev as [xid xid_rep | xid b]; unfold step_window in Hst.
  2:{ injection Hst as <- <-. rewrite xids_add_reply. auto. }
  specialize (Hack _ _ eq_refl). unfold checkduplicate_and_update in Hst.
  destruct (find_reply w xid) as [r|] eqn:Hf.
  { destruct (ry_cb_present r); simpl in Hst; simplify_eq; auto. }
  apply find_reply_None in Hf.
  assert (forall wt, wt = trim_window (insert_reply w (Reply xid false [])) xid_rep ->
    x ∈ xid :: ex -> x ∈ xids wt) as Hgo.
  { intros wt -> Hx'. apply elem_of_trim; [apply insert_reply_sorted; [apply Hi | done]|].
    split; [|done]. apply elem_of_insert_reply. simpl.
    apply elem_of_cons in Hx' as [->|Hx']; [by left | right; auto]. }
  destruct w as [|r0 w]; [|destruct (Z.ltb_spec xid (ry_xid r0))];
    simpl is_new in Hst; cbn iota in Hst.
  - injection Hst as <- <-. by apply Hgo.
  - injection Hst as <- <-. auto.
  - injection Hst as <- <-. by apply Hgo.
Qed.

Lemma run_window_keeps evs x : forall s, window_inv (s.1) (s.2) -> Forall ev_ok evs ->
  unacked evs x -> (x ∈ s.2 -> x ∈ xids (s.1)) ->
  x ∈ (fold_left step_window evs s).2 -> x ∈ xids ((fold_left step_window evs s).1).
Proof.
  induction evs as [|ev evs IH]; intros [w ex] Hi Hok Hun Hk; [done|].
  apply Forall_cons in Hok as [He Hok]. simpl fold_left.
  destruct (step_window (w, ex) ev) as [w' ex'] eqn:Hst. apply IH; [| done | |].
  - simpl. eapply step_window_inv; [exact Hi | exact He | exact Hst].
  - intros a b Hab. apply (Hun a b). by right.
  - intros Hx. eapply step_window_keeps; eauto. intros a b ->. apply (Hun a b). by left.
Qed.

(** Every recorded reply was given by an [EReply] for that identifier. *)
Lemma step_window_replies (P : Z -> bytes -> Prop) w ex ev w' ex' :
  (forall x b, ev = EReply x b -> P x b) ->
  step_window (w, ex) ev = (w', ex') ->
  (forall r, r ∈ w -> ry_cb_present r = true -> P (ry_xid r) (ry_buf r)) ->
  forall r, r ∈ w' -> ry_cb_present r = true -> P (ry_xid r) (ry_buf r).
Proof.
  intros HP Hst Hw. destruct ev as [xid xid_rep | xid b]; unfold step_window in Hst.
  - unfold checkduplicate_and_update in Hst.
    destruct (find_reply w xid) as [r|] eqn:Hf.
    { destruct (ry_cb_present r); simpl in Hst; by simplify_eq. }
    assert (forall wt, wt = trim_window (insert_reply w (Reply xid false [])) xid_rep ->
      forall r, r ∈ wt -> ry_cb_present r = true -> P (ry_xid r) (ry_buf r)) as Hgo.
    { intros wt -> r Hr Hcb.
      destruct (trim_window_suffix (insert_reply w (Reply xid false [])) xid_rep) as (p & Hp & _).
      assert (r ∈ insert_reply w (Reply xid false [])) as Hri
        by (rewrite Hp; apply elem_of_app; by right).
      clear Hp Hr Hf Hst HP. induction w as [|r' w IH]; simpl in Hri.
      - apply list_elem_of_singleton in Hri as ->. done.
      - destruct (xid <? ry_xid r'); [set_solver|].
        apply elem_of_cons in Hri as [->|Hri]; [by apply Hw; [left|]|].
        apply IH; [|done]. intros; apply Hw; [by right | done]. }
    destruct w as [|r0 w]; [|destruct (xid <? ry_xid r0)]; injection Hst as <- <-;
      first [by apply Hw | by apply Hgo].
  - injection Hst as <- <-. specialize (HP _ _ eq_refl). clear -HP Hw.
    induction w as [|r' w IH]; simpl; [done|].
    destruct (Z.eqb_spec (ry_xid r') xid) as [Heq|]; intros r Hr Hcb;
      apply elem_of_cons in Hr as [->|Hr].
    + simpl. by rewrite Heq.
    + apply Hw; [by right | done].
    + apply Hw; [by left | done].
    + apply IH; [|done..]. intros; apply Hw; [by right | done].
Qed.

Lemma run_window_replies (P : Z -> bytes -> Prop) evs : forall s,
  (forall x b, EReply x b ∈ evs -> P x b) ->
  (forall r, r ∈ s.1 -> ry_cb_present r = true -> P (ry_xid r) (ry_buf r)) ->
  forall r, r ∈ (fold_left step_window evs s).1 -> ry_cb_present r = true ->
    P (ry_xid r) (ry_buf r).
Proof.
  induction evs as [|ev evs IH]; intros [w ex] HP Hw; [done|].
  simpl fold_left. destruct (step_window (w, ex) ev) as [w' ex'] eqn:Hst.
  apply IH; [intros; apply HP; by right|].
  eapply step_window_replies; [|exact Hst|done]. intros x b ->. apply HP. by left.
Qed.

(** A duplicate of an executed request that its client has not acknowledged
    is never executed again nor forgotten: it is found in progress, or it is
    answered with the very reply recorded for it. *)
Lemma duplicate_answered (evs : list srv_event) (x rep : Z) :
  Forall ev_ok evs -> x ∈ (run_window evs).2 -> unacked evs x ->
  let st := (checkduplicate_and_update (run_window evs).1 x rep).1 in
  st = INPROGRESS \/ exists b, st = DONE b /\ EReply x b ∈ evs.
Proof.
  intros Hok Hx Hun. simpl.
  assert (x ∈ xids ((run_window evs).1)) as Hin
    by (apply run_window_keeps; simpl; auto using window_inv_nil; set_solver).
  unfold checkduplicate_and_update.
  destruct (find_reply (run_window evs).1 x) as [r|] eqn:Hf.
  - apply find_reply_Some in Hf as [<- Hr].
    destruct (ry_cb_present r) eqn:Hcb; simpl; [|by left]. right. eexists; split; [done|].
    apply (run_window_replies (fun x b => EReply x b ∈ evs) evs ([], [])); [done | | done..].
    simpl. intros ? ?%elem_of_nil. done.
  - by apply find_reply_None in Hf.
Qed.

Lemma duplicate_answered_witness :
  (checkduplicate_and_update (run_window sample_events).1 3 1).1 = INPROGRESS /\
  (checkduplicate_and_update (run_window (take 4 sample_events)).1 1 0).1 = DONE (str "a") /\
  exists b, (checkduplicate_and_update (run_window (take 4 sample_events)).1 1 0).1 = DONE b /\
    EReply 1 b ∈ take 4 sample_events.
Proof.
  split_and!; [vm_compute; reflexivity.. |].
  destruct (duplicate_answered (take 4 sample_events) 1 0) as [H|H]; [| | | |exact H].
  - repeat constructor; simpl; lia.
  - vm_compute. set_solver.
  - intros xid rep Hin. unfold sample_events in Hin; simpl in Hin.
    repeat (apply elem_of_cons in Hin as [Hin|Hin]; [simplify_eq; lia|]). by apply elem_of_nil in Hin.
  - vm_compute in H. discriminate.
Defined.

(** The window forgets requests it has never seen: when two calls of one
    client arrive in the opposite order, the earlier one is refused with
    [FORGOTTEN] although it was never executed. *)
Lemma reordered_request_forgotten :
  exists evs x rep, Forall ev_ok evs /\ rep < x /\ unacked evs x /\
    x ∉ (run_window evs).2 /\
    (checkduplicate_and_update (run_window evs).1 x rep).1 = FORGOTTEN.
Proof.
  exists [EReq 2 0], 1, 0. split_and!; [repeat constructor; simpl; lia | lia | | |reflexivity].
  - intros a b Hin. apply list_elem_of_singleton in Hin. simplify_eq. lia.
  - vm_compute. set_solver.
Qed.
