(* ===== verification/RpcClient.v ===== *)
(** * The RPC client endpoint: class rpcc

    The per-call bookkeeping of src/lab41/rpc/rpc.cc: identifiers, the window of
    received replies ([update_xid_rep]), the critical sections of [call1],
    [got_pdu] and [cancel], and the [timespec] arithmetic of its deadlines.
    Each definition is one critical section of the mutex [m_]; what the
    application thread does between them (sending, waiting) is left to the
    system that composes them. *)

From S2P Require Import Prelude Marshall RpcServer.

(** ** The window of received replies *)

(** The loop that inserts [xid] before the first larger element. *)
Fixpoint insert_xid (w : list Z) (xid : Z) : list Z :=
  match w with
  | [] => [xid]
  | y :: w' => if xid <? y then xid :: w else y :: insert_xid w' xid
  end.

(** [while (front() + 1 == x) pop_front()], with [pre] the elements from the
    front up to, not including, the one the iterator is at (whose value is [x]). *)
Fixpoint pop_while (pre : list Z) (x : Z) : list Z :=
  match pre with
  | [] => []
  | y :: pre' => if u32 (y + 1) =? x then pop_while pre' x else pre
  end.

(** The [compress] loop over the rest of the list. *)
Fixpoint compress (pre rest : list Z) : list Z :=
  match rest with
  | [] => pre
  | x :: rest' => compress (pop_while pre x ++ [x]) rest'
  end.

Definition update_xid_rep (w : list Z) (xid : Z) : list Z :=
  match w with
  | [] => w
  | front :: _ =>
      if xid <=? front then w
      else match insert_xid w xid with
           | f :: rest => compress [f] rest
           | [] => []
           end
  end.

(** ** State of an rpcc *)

Record caller := Caller { ca_un : option unmarshall; ca_intret : Z; ca_done : bool }.

(** [struct request]: not valid when [xid] is -1. *)
Record request := Request { rqs_buf : bytes; rqs_xid : Z }.
Definition request_clear : request := Request [] (-1).
Definition request_isvalid (r : request) : bool := negb (rqs_xid r =? -1).

Record rpcc := Rpcc {
  clt_nonce : Z; srv_nonce : Z; bind_done : bool; xid_ : Z;
  lossytest : Z; retrans : bool; reachable : bool; destroy_wait : bool;
  calls : gmap Z caller;
  xid_rep_window : list Z;
  dup_req : request;
  xid_rep_done : Z }.

(** [rpcc(d, retrans)]: [rnd] is the result of [random()] and [lossy] the value
    of [RPC_LOSSY] (0 when it is not set). *)
Definition new_rpcc (retrans : bool) (rnd lossy : Z) : rpcc :=
  Rpcc (if retrans then u32 rnd else 0) 0 false 1 lossy retrans true false ∅ [0]
       request_clear (-1).

Definition set_calls (c : gmap Z caller) (s : rpcc) : rpcc :=
  Rpcc (clt_nonce s) (srv_nonce s) (bind_done s) (xid_ s) (lossytest s) (retrans s)
       (reachable s) (destroy_wait s) c (xid_rep_window s) (dup_req s) (xid_rep_done s).
Definition set_window (w : list Z) (s : rpcc) : rpcc :=
  Rpcc (clt_nonce s) (srv_nonce s) (bind_done s) (xid_ s) (lossytest s) (retrans s)
       (reachable s) (destroy_wait s) (calls s) w (dup_req s) (xid_rep_done s).
Definition set_xid (x : Z) (s : rpcc) : rpcc :=
  Rpcc (clt_nonce s) (srv_nonce s) (bind_done s) x (lossytest s) (retrans s)
       (reachable s) (destroy_wait s) (calls s) (xid_rep_window s) (dup_req s) (xid_rep_done s).
Definition set_dup (r : request) (d : Z) (s : rpcc) : rpcc :=
  Rpcc (clt_nonce s) (srv_nonce s) (bind_done s) (xid_ s) (lossytest s) (retrans s)
       (reachable s) (destroy_wait s) (calls s) (xid_rep_window s) r d.
Definition set_bound (n : Z) (s : rpcc) : rpcc :=
  Rpcc (clt_nonce s) n true (xid_ s) (lossytest s) (retrans s)
       (reachable s) (destroy_wait s) (calls s) (xid_rep_window s) (dup_req s) (xid_rep_done s).
Definition set_destroy (s : rpcc) : rpcc :=
  Rpcc (clt_nonce s) (srv_nonce s) (bind_done s) (xid_ s) (lossytest s) (retrans s)
       (reachable s) true (calls s) (xid_rep_window s) (dup_req s) (xid_rep_done s).

(** ** call1 *)

(** The first critical section (identifiers are [unsigned] in the rpcc, [int] in
    headers and as keys of [calls_]): the guards, a fresh identifier, the entry in
    [calls_] and the request header with the acknowledgement. *)
Definition call1_begin (proc : Z) (s : rpcc) : Z + (req_header * rpcc) :=
  if (negb (proc =? rpc_const.bind) && negb (bind_done s)) ||
     ((proc =? rpc_const.bind) && bind_done s)
  then inl rpc_const.bind_failure
  else if destroy_wait s then inl rpc_const.cancel_failure
  else
    let xid := xid_ s in
    let s := set_xid (u32 (xid + 1)) s in
    let s := set_calls (<[s32 xid := Caller None 0 false]> (calls s)) s in
    inr (ReqHeader (s32 xid) proc (clt_nonce s) (srv_nonce s)
           (s32 (hd 0 (xid_rep_window s))), s).

(** One transmission on a live channel: the buffers sent, in order. *)
Definition call1_transmit (req : bytes) (s : rpcc) : list bytes * rpcc :=
  if reachable s then
    let '(forgot, s) :=
      if request_isvalid (dup_req s) && (rqs_xid (dup_req s) <? xid_rep_done s)
      then (dup_req s, set_dup request_clear (xid_rep_done s) s)
      else (request_clear, s) in
    ((if request_isvalid forgot then [rqs_buf forgot] else []) ++ [req], s)
  else ([], s).

(** Should the loop send again after a wait that ended without a reply? *)
Definition call1_retransmit (s : rpcc) (ch : option bool) : bool :=
  retrans s && match ch with None => true | Some isdead => isdead end.

(** The end of the call with identifier [xid]: [xid_rep] is the acknowledgement
    it sent; the result is the value returned. *)
Definition call1_end (xid xid_rep : Z) (req : bytes) (s : rpcc) : option (Z * rpcc) :=
  match calls s !! s32 xid with
  | None => None
  | Some ca =>
      let s := set_calls (delete (s32 xid) (calls s)) s in
      let s := set_window (update_xid_rep (xid_rep_window s) xid) s in
      let s :=
        if ca_done ca && negb (lossytest s =? 0) then
          let r := if request_isvalid (dup_req s) then dup_req s else Request req (s32 xid) in
          set_dup r (if xid_rep_done s <? xid_rep then xid_rep else xid_rep_done s) s
        else s in
      Some (if ca_done ca then ca_intret ca else rpc_const.timeout_failure, s)
  end.

(** [got_pdu]: a reply arrives; the pending call, if any, is completed once. *)
Definition got_pdu `{Mem} (b : bytes) : M rpcc bool := fun s =>
  match u_unpack_reply_header (unmarshall_of b) with
  | Crash f => Crash f
  | Ok (h, rep) =>
      if negb (u_ok rep) then Ok (true, s) else
      let s := set_window (update_xid_rep (xid_rep_window s) (u32 (rp_xid h))) s in
      match calls s !! rp_xid h with
      | None => Ok (true, s)
      | Some ca =>
          if ca_done ca then Ok (true, s)
          else Ok (true, set_calls (<[rp_xid h :=
                   Caller (Some (u_take_in rep)) (rp_ret h) true]> (calls s)) s)
      end
  end.

(** [cancel], up to its wait: every outstanding call is forced to fail. *)
Definition cancel_calls (s : rpcc) : rpcc :=
  let s := set_calls ((fun ca => Caller (ca_un ca) rpc_const.cancel_failure true)
                        <$> calls s) s in
  if decide (calls s = ∅) then s else set_destroy s.

(** [bind] after its call returned [ret] with the server's nonce [r]. *)
Definition bind_end (ret r : Z) (s : rpcc) : rpcc :=
  if ret =? 0 then set_bound (u32 r) s else s.

(** ** Deadlines *)

Record timespec := Timespec { tv_sec : Z; tv_nsec : Z }.

Definition cmp_timespec (a b : timespec) : Z :=
  if tv_sec b <? tv_sec a then 1
  else if tv_sec a <? tv_sec b then -1
  else if tv_nsec b <? tv_nsec a then 1
  else if tv_nsec a <? tv_nsec b then -1 else 0.

(** [while (tv_nsec > 1000000000)] *)
Fixpoint carry (fuel : nat) (t : timespec) : res timespec :=
  if 1000000000 <? tv_nsec t then
    match fuel with
    | O => Crash NoFuel
    | S fuel' => carry fuel' (Timespec (tv_sec t + 1) (tv_nsec t - 1000000000))
    end
  else Ok t.

(** [b / 1000] and [b % 1000] truncate towards zero. *)
Definition add_timespec (a : timespec) (b : Z) : res timespec :=
  let nsec := tv_nsec a + Z.rem b 1000 * 1000000 in
  if nsec <? 0 then Crash AssertFail
  else carry (Z.to_nat (nsec / 1000000000)) (Timespec (tv_sec a + Z.quot b 1000) nsec).

Definition diff_timespec (end_ start : timespec) : res Z :=
  let diff := if tv_sec start <? tv_sec end_
              then (tv_sec end_ - tv_sec start) * 1000 else 0 in
  if negb (diff =? 0) || (tv_sec end_ =? tv_sec start) then
    Ok (if tv_nsec start <? tv_nsec end_
        then diff + Z.quot (tv_nsec end_ - tv_nsec start) 1000000
        else diff - Z.quot (tv_nsec start - tv_nsec end_) 1000000)
  else Crash AssertFail.

(** ** The window acknowledges exactly the received prefix *)

(** [xid_window w R]: [w] is the window after the replies with identifiers in
    [R]: sorted, its front [h] closes the prefix 1..h of received identifiers,
    and the identifiers above the front are kept behind it. *)
Record xid_window (w : list Z) (R : Z -> Prop) : Prop := {
  xw_ex : exists h t, w = h :: t /\ 0 <= h /\
    (forall x, 1 <= x <= h -> R x) /\
    (forall x, x ∈ t -> R x /\ x <> h + 1) /\
    (forall x, R x -> x <= h \/ x ∈ t);
  xw_sorted : StronglySorted Z.le w;
  xw_range : Forall (fun x => 0 <= x < 2 ^ 32) w }.

Lemma insert_xid_elem w x y : y ∈ insert_xid w x <-> y = x \/ y ∈ w.
Proof.
  induction w as [|z w IH]; simpl; [set_solver|].
  destruct (x <? z); [set_solver|]. rewrite !elem_of_cons, IH. tauto.
Qed.

Lemma insert_xid_sorted w x : StronglySorted Z.le w -> StronglySorted Z.le (insert_xid w x).
Proof.
  induction w as [|z w IH]; simpl; intros Hs; [repeat constructor|].
  pose proof (StronglySorted_inv Hs) as [Hs' Hf]. destruct (Z.ltb_spec x z).
  - constructor; [done|]. constructor; [lia|]. eapply Forall_impl; [exact Hf|]. simpl; lia.
  - constructor; [by apply IH|]. apply Forall_forall. intros y [->|Hy]%insert_xid_elem; [lia|].
    rewrite Forall_forall in Hf. auto.
Qed.

(** The state of the compress loop: a fully compressed part in front. *)
Definition packed (pre : list Z) (R : Z -> Prop) : Prop :=
  exists h t, pre = h :: t /\ 0 <= h /\ (forall x, 1 <= x <= h -> R x) /\
    (forall x, x ∈ t -> R x /\ x <> h + 1).

Lemma pop_while_all pre x :
  (forall y, y ∈ pre -> u32 (y + 1) = x) -> pop_while pre x = [].
Proof.
  induction pre as [|y pre IH]; simpl; intros Hall; [done|].
  rewrite (Hall y) by left. rewrite Z.eqb_refl. apply IH. intros z Hz. apply Hall. by right.
Qed.

(** One iteration of the compress loop. *)
Lemma compress_step pre x R : packed pre R -> R x ->
  StronglySorted Z.le (pre ++ [x]) -> Forall (fun z => 0 <= z < 2 ^ 32) (pre ++ [x]) ->
  packed (pop_while pre x ++ [x]) R /\
  (pop_while pre x = pre \/
   pop_while pre x = [] /\ forall y, y ∈ pre -> y <= x).
Proof.
  intros (h & t & -> & Hh & Hpre & Ht) HR Hs Hr.
  assert (forall y, y ∈ h :: t -> h <= y <= x) as Hb.
  { intros y Hy. rewrite <- app_comm_cons in Hs.
    pose proof (StronglySorted_inv Hs) as [_ Hf]. rewrite Forall_forall in Hf.
    apply elem_of_cons in Hy as [->|Hy]; split.
    - lia.
    - apply Hf. set_solver.
    - apply Hf. set_solver.
    - change (h :: t ++ [x]) with ((h :: t) ++ [x]) in Hs.
      eapply (StronglySorted_app_1_elem_of Z.le); [exact Hs | by right | by left]. }
  rewrite Forall_forall in Hr.
  assert (0 <= h < 2 ^ 32) as Hhr by (apply Hr; set_solver).
  assert (0 <= x < 2 ^ 32) as Hxr by (apply Hr; set_solver).
  destruct (decide (h + 1 = x)) as [Hx|Hx].
  - assert (pop_while (h :: t) x = []) as ->.
    { apply pop_while_all. intros y Hy. specialize (Hb y Hy).
      assert (y = h) as ->; [|unfold u32; rewrite Z.mod_small; lia].
      apply elem_of_cons in Hy as [->|Hy]; [done|]. destruct (Ht y Hy). lia. }
    split; [|right; split; [done | intros y Hy; apply Hb, Hy]].
    exists x, []. split_and!; [done | lia | | set_solver].
    intros y Hy. destruct (decide (y = x)) as [->|]; [done|]. apply Hpre. lia.
  - assert (pop_while (h :: t) x = h :: t) as Hpw.
    { simpl. specialize (Hb h ltac:(left)). destruct (Z.eqb_spec (u32 (h + 1)) x) as [He|]; [|done].
      exfalso. unfold u32 in He.
      destruct (decide (h + 1 = 2 ^ 32)) as [Hw|]; [rewrite Hw, Z.mod_same in He; lia|].
      rewrite Z.mod_small in He by lia. done. }
    rewrite Hpw. split; [|by left]. exists h, (t ++ [x]). split_and!; [done..|].
    intros y [Hy|Hy]%elem_of_app; [by apply Ht|].
    apply list_elem_of_singleton in Hy as ->. auto with lia.
Qed.


Lemma compress_ok rest : forall pre R, packed pre R -> (forall x, x ∈ rest -> R x) ->
  StronglySorted Z.le (pre ++ rest) -> Forall (fun z => 0 <= z < 2 ^ 32) (pre ++ rest) ->
  let w := compress pre rest in
  packed w R /\ StronglySorted Z.le w /\ Forall (fun z => 0 <= z < 2 ^ 32) w /\
  (forall h t, w = h :: t -> hd 0 pre <= h /\ forall y, y ∈ pre ++ rest -> y <= h \/ y ∈ t).
Proof.
  induction rest as [|x rest IH]; intros pre R Hp HR Hs Hr; simpl.
  { rewrite app_nil_r in *. split_and!; try done.
    intros h t ->. split; [simpl; lia|]. intros y [->|Hy]%elem_of_cons; [left; lia | by right]. }
  assert (StronglySorted Z.le (pre ++ [x]) /\ Forall (fun z => 0 <= z < 2 ^ 32) (pre ++ [x]))
    as [Hs1 Hr1].
  { change (x :: rest) with ([x] ++ rest) in Hs, Hr. rewrite app_assoc in Hs, Hr.
    split; [by eapply StronglySorted_app_1_l | by apply Forall_app in Hr as [? _]]. }
  destruct (compress_step pre x R) as [Hp' Hcase]; [done | apply HR; left | done..|].
  assert (StronglySorted Z.le ((pop_while pre x ++ [x]) ++ rest) /\
          Forall (fun z => 0 <= z < 2 ^ 32) ((pop_while pre x ++ [x]) ++ rest)) as [Hs2 Hr2].
  { rewrite <- app_assoc. destruct Hcase as [->|[-> _]]; [done|]. simpl.
    split; [by eapply StronglySorted_app_1_r | by apply Forall_app in Hr as [_ ?]]. }
  destruct (IH (pop_while pre x ++ [x]) R) as (HP & HS & HF & HC);
    [done | intros; apply HR; by right | done..|].
  split_and!; try done. intros h t Hw. destruct (HC h t Hw) as [Hh HC'].
  destruct Hcase as [Hc|[Hc Hle]]; rewrite Hc in *.
  - rewrite <- app_assoc in HC'. split; [|done].
    destruct Hp as (h0 & t0 & -> & _). done.
  - simpl in *. split.
    + destruct Hp as (h0 & t0 & -> & _). specialize (Hle h0 ltac:(left)). simpl. lia.
    + intros y [Hy|Hy]%elem_of_app; [specialize (Hle y Hy); left; lia | by apply HC'].
Qed.

Lemma update_xid_rep_inv w R x : 0 <= x < 2 ^ 32 -> xid_window w R ->
  xid_window (update_xid_rep w x) (fun y => R y \/ y = x).
Proof.
  intros Hx [(h & t & -> & Hh & Hpre & Ht & Hcov) Hs Hr]. unfold update_xid_rep.
  destruct (Z.leb_spec x h).
  { split; [|done..]. exists h, t. split_and!; [done..|naive_solver|naive_solver|].
    intros y [?| ->]; [by apply Hcov | by left]. }
  simpl insert_xid. destruct (Z.ltb_spec x h); [lia|].
  set (R' := fun y => R y \/ y = x).
  assert (forall y, y ∈ h :: insert_xid t x <-> y = h \/ y = x \/ y ∈ t) as Hel.
  { intros y. rewrite elem_of_cons, insert_xid_elem. done. }
  destruct (compress_ok (insert_xid t x) [h] R') as ((h' & t' & Hw & Hh' & Hpre' & Ht') & HS & HF & HC).
  - exists h, []. unfold R'. split_and!; [done..| naive_solver | set_solver].
  - intros y [->|Hy]%insert_xid_elem; unfold R'; [by right|]. left. by apply Ht.
  - apply (insert_xid_sorted (h :: t) x) in Hs. simpl in Hs.
    destruct (Z.ltb_spec x h); [lia | done].
  - apply Forall_forall. intros y Hy. apply Hel in Hy. rewrite Forall_forall in Hr.
    destruct Hy as [->|[->|Hy]]; [apply Hr; left | done | apply Hr; by right].
  - split; [|done..]. exists h', t'. split_and!; try done.
    destruct (HC h' t' Hw) as [Hle HC']. intros y Hy.
    assert (y <= h \/ y = x \/ y ∈ t) as [?|Hy'] by (destruct Hy as [Hy| ->]; [destruct (Hcov y Hy)|]; auto).
    + left. simpl in Hle. lia.
    + apply HC'. simpl. apply Hel. naive_solver.
Qed.

Lemma xid_window_ext w (R R' : Z -> Prop) : (forall x, R x <-> R' x) ->
  xid_window w R -> xid_window w R'.
Proof.
  intros HR [(h & t & -> & Hh & Hpre & Ht & Hcov) Hs Hr]. split; [|done..].
  exists h, t. split_and!; [done..| | |]; intros x; rewrite <- HR; auto.
Qed.

Lemma run_xid_rep xs : Forall (fun x => 0 <= x < 2 ^ 32) xs ->
  xid_window (fold_left update_xid_rep xs [0]) (fun y => y ∈ xs).
Proof.
  induction xs as [|x xs IH] using rev_ind; intros Hxs.
  - split; [|repeat constructor|repeat constructor; lia].
    exists 0, []. simpl. split_and!; [done | lia | lia | set_solver | set_solver].
  - apply Forall_app in Hxs as [Hxs Hx]. apply Forall_cons in Hx as [Hx _].
    rewrite fold_left_app. simpl.
    eapply xid_window_ext; [|apply update_xid_rep_inv; [exact Hx | by apply IH]].
    intros y. simpl. rewrite elem_of_app, list_elem_of_singleton. done.
Qed.

(** The acknowledgement a client sends (the front of its window) is exactly
    the largest [k] such that a reply was received for each of the calls 1..k,
    in whatever order and however often the replies came. *)
Lemma xid_rep_exact (xs : list Z) (k : Z) :
  Forall (fun x => 0 <= x < 2 ^ 32) xs -> 0 <= k ->
  k <= hd 0 (fold_left update_xid_rep xs [0]) <-> (forall x, 1 <= x <= k -> x ∈ xs).
Proof.
  intros Hxs Hk. destruct (run_xid_rep xs Hxs) as [(h & t & -> & Hh & Hpre & Ht & Hcov) Hs _].
  simpl. split; intros H.
  - intros x Hx. apply Hpre. lia.
  - destruct (Z_le_gt_dec k h) as [|Hgt]; [done|]. exfalso.
    destruct (Hcov (h + 1)) as [?|Hin]; [apply H; lia | lia |].
    by destruct (Ht _ Hin).
Qed.

Lemma xid_rep_exact_witness :
  hd 0 (fold_left update_xid_rep [2; 5; 1; 2; 3] [0]) = 3 /\
  (3 <= hd 0 (fold_left update_xid_rep [2; 5; 1; 2; 3] [0])
     <-> forall x, 1 <= x <= 3 -> x ∈ [2; 5; 1; 2; 3]).
Proof.
  split; [vm_compute; reflexivity|]. apply xid_rep_exact; [|lia].
  repeat constructor; lia.
Defined.

(** ** Deadline arithmetic *)

Definition nanos (t : timespec) : Z := tv_sec t * 1000000000 + tv_nsec t.

Lemma carry_ok fuel t : 0 <= tv_nsec t -> tv_nsec t / 1000000000 <= Z.of_nat fuel ->
  exists t', carry fuel t = Ok t' /\ nanos t' = nanos t /\ 0 <= tv_nsec t' <= 1000000000.
Proof.
  revert t. induction fuel as [|fuel IH]; intros t Hn Hf; simpl;
    destruct (Z.ltb_spec 1000000000 (tv_nsec t)) as [Hlt|Hge].
  - exfalso. assert (1 <= tv_nsec t / 1000000000) by (apply Z.div_le_lower_bound; lia). lia.
  - eauto with lia.
  - destruct (IH (Timespec (tv_sec t + 1) (tv_nsec t - 1000000000))) as (t' & E & Ht & Hr);
      simpl; [lia | |].
    + replace (tv_nsec t - 1000000000) with (tv_nsec t + -1 * 1000000000) by lia.
      rewrite Z.div_add by lia. lia.
    + exists t'. split; [exact E|]. split; [|exact Hr]. rewrite Ht. unfold nanos; simpl. lia.
  - eauto with lia.
Qed.

(** [add_timespec] terminates and adds exactly [b] milliseconds to a
    normalised time, leaving the nanoseconds between 0 and 10^9. *)
Lemma add_timespec_exact (a : timespec) (b : Z) :
  0 <= tv_nsec a < 1000000000 -> 0 <= b ->
  exists t, add_timespec a b = Ok t /\ nanos t = nanos a + b * 1000000 /\
    0 <= tv_nsec t <= 1000000000.
Proof.
  intros Ha Hb. unfold add_timespec.
  pose proof (Z.rem_bound_pos b 1000 ltac:(lia) ltac:(lia)).
  destruct (Z.ltb_spec (tv_nsec a + Z.rem b 1000 * 1000000) 0); [lia|].
  edestruct carry_ok as (t & E & Ht & Hr); [| |exists t; split; [exact E|]; split; [|exact Hr]].
  - simpl. lia.
  - rewrite Z2Nat.id; [done|]. apply Z.div_pos; lia.
  - rewrite Ht. unfold nanos; simpl. pose proof (Z.quot_rem b 1000 ltac:(lia)). lia.
Qed.

Lemma add_timespec_exact_witness :
  add_timespec (Timespec 7 900000000) 1500 = Ok (Timespec 9 400000000) /\
  exists t, add_timespec (Timespec 7 900000000) 1500 = Ok t /\
    nanos t = nanos (Timespec 7 900000000) + 1500 * 1000000 /\ 0 <= tv_nsec t <= 1000000000.
Proof.
  split; [vm_compute; reflexivity|]. apply add_timespec_exact; simpl; lia.
Defined.

(** The upper bound is reached: the loop test is strict, so a deadline can
    carry the nanosecond value 10^9, which is not a valid [timespec]. *)
Lemma add_timespec_not_normalised :
  exists a b, 0 <= tv_nsec a < 1000000000 /\ 0 <= b /\
    exists t, add_timespec a b = Ok t /\ tv_nsec t = 1000000000.
Proof. exists (Timespec 0 500000000), 500. split; [simpl; lia|]. split; [lia|]. by eexists. Qed.
