(* ===== verification/Rpc.v ===== *)
(** * RPC calls and dispatch

    The typed call and handler templates of src/lab41/rpc/rpc.h, the server's
    [dispatch] of rpc.cc, and the system of one client, one server and a
    network that loses, duplicates and reorders messages. *)

From S2P Require Import Prelude Marshall RpcServer RpcClient.

(** ** Typed arguments

    The overloads of [rpcc::call] and [rpcs::reg] differ only in the number of
    arguments, 0 to 7; they are written once, for a list of argument codecs. *)

Record param := Param { p_type : Type; p_codec : codec p_type }.

Fixpoint args (ps : list param) : Type :=
  match ps with
  | [] => unit
  | p :: ps' => (p_type p * args ps')%type
  end.

Section calls.
Context `{Mem}.

(** [marshall m; m << a1; m << a2; ...] *)
Fixpoint marshall_args (ps : list param) : args ps -> M marshall unit :=
  match ps with
  | [] => fun _ => mret tt
  | p :: ps' => fun a => c_put (p_codec p) (fst a) ≫= fun _ => marshall_args ps' (snd a)
  end.

(** [args >> a1; args >> a2; ...] *)
Fixpoint unmarshall_args (ps : list param) : M unmarshall (args ps) :=
  match ps with
  | [] => mret tt
  | p :: ps' => x ← c_get (p_codec p); xs ← unmarshall_args ps'; mret (x, xs)
  end.

Fixpoint args_valid (ps : list param) : args ps -> Prop :=
  match ps with
  | [] => fun _ => True
  | p :: ps' => fun a => c_valid (p_codec p) (fst a) /\ args_valid ps' (snd a)
  end.

Fixpoint args_wire (ps : list param) : args ps -> bytes :=
  match ps with
  | [] => fun _ => []
  | p :: ps' => fun a => c_wire (p_codec p) (fst a) ++ args_wire ps' (snd a)
  end.

(** Run a step of another state inside a handler. *)
Definition on {S T A} (m : M T A) (t : T) : M S (A * T) := fun s =>
  match m t with Ok r => Ok (r, s) | Crash f => Crash f end.

(** [rpcc::call]: marshal the arguments and hand the request to [call_m];
    [call1] is the transport, the result is the status and the reply value. *)
Section call.
Context {W R : Type} (call1 : Z -> marshall -> M W (Z * unmarshall)) (cr : codec R).

Definition call_m (proc : Z) (req : marshall) (r : R) : M W (Z * R) :=
  '(intret, u) ← call1 proc req;
  if intret <? 0 then mret (intret, r)
  else '(r', u') ← on (c_get cr) u;
       verify (u_okdone u') ≫= fun _ => mret (intret, r').

Definition call (ps : list param) (proc : Z) (a : args ps) (r : R) : M W (Z * R) :=
  '(_, m) ← on (marshall_args ps a) new_marshall;
  call_m proc m r.
End call.

(** [h1::fn] of [rpcs::reg]: unmarshal the arguments, run the method, marshal
    its reply. *)
Definition handler (S : Type) : Type := unmarshall -> marshall -> M S (Z * marshall).

Definition reg_fn {S R} (ps : list param) (cr : codec R) (meth : args ps -> M S (Z * R))
    : handler S := fun u ret =>
  '(a, u') ← on (unmarshall_args ps) u;
  if negb (u_okdone u') then mret (rpc_const.unmarshal_args_failure, ret)
  else '(b, r) ← meth a;
       '(_, ret') ← on (c_put cr r) ret;
       mret (b, ret').
End calls.

(** ** The server *)

(** A connection, by its descriptor, its creation time and whether it is dead. *)
Record conn := Conn { cn_fd : Z; cn_sec : Z; cn_usec : Z; cn_dead : bool }.

#[export] Instance conn_eq_dec : EqDecision conn.
Proof. solve_decision. Defined.

Definition conn_compare (c d : conn) : Z :=
  if cn_sec d <? cn_sec c then 1 else if cn_sec c <? cn_sec d then -1
  else if cn_usec d <? cn_usec c then 1 else if cn_usec c <? cn_usec d then -1 else 0.

Section server.
Context `{Mem} {S : Type}.

Record rpcs := Rpcs {
  nonce_ : Z; counting_ : Z; curr_counts : Z; counts : gmap Z Z;
  procs : gmap Z (handler S);
  reply_window : gmap Z (list reply_t);
  conns : gmap Z conn;
  app : S }.

Definition upd_window (clt : Z) (w : list reply_t) (s : rpcs) : rpcs :=
  Rpcs (nonce_ s) (counting_ s) (curr_counts s) (counts s) (procs s)
       (<[clt := w]> (reply_window s)) (conns s) (app s).
Definition upd_conns (c : gmap Z conn) (s : rpcs) : rpcs :=
  Rpcs (nonce_ s) (counting_ s) (curr_counts s) (counts s) (procs s) (reply_window s) c (app s).
Definition upd_app (a : S) (s : rpcs) : rpcs :=
  Rpcs (nonce_ s) (counting_ s) (curr_counts s) (counts s) (procs s) (reply_window s) (conns s) a.
Definition window_of (s : rpcs) (clt : Z) : list reply_t := default [] (reply_window s !! clt).

(** [reg1]: a procedure number is registered once. *)
Definition reg1 (proc : Z) (h : handler S) : M rpcs unit := fun s =>
  match procs s !! proc with
  | Some _ => Crash AssertFail
  | None => Ok (tt, Rpcs (nonce_ s) (counting_ s) (curr_counts s) (counts s)
                      (<[proc := h]> (procs s)) (reply_window s) (conns s) (app s))
  end.

(** [updatestat] without its printing. *)
Definition updatestat (proc : Z) (s : rpcs) : rpcs :=
  let c := curr_counts s - 1 in
  Rpcs (nonce_ s) (counting_ s) (if c =? 0 then counting_ s else c)
       (<[proc := default 0 (counts s !! proc) + 1]> (counts s))
       (procs s) (reply_window s) (conns s) (app s).

(** [rpcbind]: the reply is the server's nonce. *)
Definition rpcbind (s : rpcs) : Z * Z := (0, s32 (nonce_ s)).

(** [rpcs::rpcs] for a nonce, with [rpcbind] registered, and the end of [rpcs::~rpcs]. *)
Definition new_rpcs (nonce count : Z) (a : S) : res rpcs :=
  let s := Rpcs nonce count count ∅ ∅ ∅ ∅ a in
  '(_, s) ← reg1 rpc_const.bind (reg_fn [Param Z c_s32] c_s32 (fun _ => mret (rpcbind s))) s; Ok s.

Definition free_reply_window (s : rpcs) : rpcs :=
  Rpcs (nonce_ s) (counting_ s) (curr_counts s) (counts s) (procs s) ∅ (conns s) (app s).

(** The latest connection to the client. *)
Definition note_conn (clt : Z) (c : conn) (m : gmap Z conn) : gmap Z conn :=
  match m !! clt with
  | None => <[clt := c]> m
  | Some c0 => if conn_compare c0 c <? 0 then <[clt := c]> m else m
  end.

Inductive verdict :=
  | Ignore
  | Answer (b : bytes)
  | Execute (h : req_header) (f : handler S) (u : unmarshall).

(** A reply without content. *)
Definition failure_reply (xid ret : Z) : M rpcs bytes :=
  '(_, rep) ← on (m_pack_reply_header (ReplyHeader xid ret)) new_marshall; mret (m_pdu rep).

(** [dispatch] up to the point where the handler is called. *)
Definition dispatch_start (c : conn) (buf : bytes) : M rpcs verdict :=
  '(h, u) ← on u_unpack_req_header (unmarshall_of buf);
  if negb (u_ok u) then mret Ignore else
  s ← getS;
  if negb (rq_srv_nonce h =? 0) && negb (rq_srv_nonce h =? nonce_ s)
  then b ← failure_reply (rq_xid h) rpc_const.oldsrv_failure; mret (Answer b) else
  match procs s !! rq_proc h with
  | None => crash AssertFail
  | Some f =>
      if rq_clt_nonce h =? 0 then mret (Execute h f u)
      else
        modS (upd_conns (note_conn (rq_clt_nonce h) c (conns s))) ≫= fun _ =>
        let '(st, w) := checkduplicate_and_update (window_of s (rq_clt_nonce h))
                          (u32 (rq_xid h)) (u32 (rq_xid_rep h)) in
        modS (upd_window (rq_clt_nonce h) w) ≫= fun _ =>
        match st with
        | NEW => mret (Execute h f u)
        | INPROGRESS => mret Ignore
        | DONE b => mret (Answer b)
        | FORGOTTEN => b ← failure_reply (rq_xid h) rpc_const.atmostonce_failure;
                       mret (Answer b)
        end
  end.

(** [dispatch] after the handler returned [ret] with the reply [rep]. *)
Definition dispatch_finish (c : conn) (h : req_header) (ret : Z) (rep : marshall)
    : M rpcs (conn * bytes) :=
  verify (negb (ret =? rpc_const.unmarshal_args_failure)) ≫= fun _ =>
  verify (0 <=? ret) ≫= fun _ =>
  '(_, rep) ← on (m_pack_reply_header (ReplyHeader (rq_xid h) ret)) rep;
  let b := m_pdu rep in
  s ← getS;
  (if 0 <? rq_clt_nonce h
   then modS (upd_window (rq_clt_nonce h)
                (add_reply (window_of s (rq_clt_nonce h)) (u32 (rq_xid h)) b))
   else mret tt) ≫= fun _ =>
  match conns s !! rq_clt_nonce h with
  | Some c0 => mret (if cn_dead c && negb (bool_decide (c = c0)) then c0 else c, b)
  | None => if cn_dead c then crash NullDeref else mret (c, b)
  end.

(** One request served by one thread without interruption: the replies sent. *)
Definition dispatch (c : conn) (buf : bytes) : M rpcs (list (conn * bytes)) :=
  v ← dispatch_start c buf;
  match v with
  | Ignore => mret []
  | Answer b => mret [(c, b)]
  | Execute h f u =>
      s ← getS;
      (if counting_ s =? 0 then mret tt else modS (updatestat (rq_proc h))) ≫= fun _ =>
      s ← getS;
      '(ret, rep, a) ← (fun s0 => match f u new_marshall (app s) with
                         | Ok (r, a) => Ok ((r, a), s0) | Crash e => Crash e end);
      modS (upd_app a) ≫= fun _ =>
      r ← dispatch_finish c h ret rep; mret [r]
  end.
End server.

(** ** A call reaches its method *)

Class ParamsOk `{Mem} (ps : list param) : Prop :=
  params_ok : Forall (fun p => CodecOk (p_codec p)) ps.

Section transparency.
Context `{Mem}.

Lemma writes_args ps a : ParamsOk ps -> args_valid ps a ->
  writes (args_wire ps a) (marshall_args ps a).
Proof.
  unfold ParamsOk. revert a. induction ps as [|p ps IH]; intros a Hok Hv; simpl; [apply writes_nil|].
  apply Forall_cons in Hok as [Hp Hok]. destruct Hv as [Hv1 Hv2].
  apply writes_app; [by apply codec_writes | by apply IH].
Qed.

Lemma reads_args ps a : ParamsOk ps -> args_valid ps a ->
  reads (args_wire ps a) (unmarshall_args ps) a.
Proof.
  unfold ParamsOk. revert a. induction ps as [|p ps IH]; intros a Hok Hv; simpl.
  { destruct a. apply reads_ret. }
  apply Forall_cons in Hok as [Hp Hok]. destruct a as [x xs], Hv as [Hv1 Hv2]. simpl in *.
  eapply reads_bind; [by apply codec_reads|]. by apply (reads_map _ _ (pair x)), IH.
Qed.

(** A message of [content] below the 2^30 limit of the marshaller. *)
Definition fits (content : bytes) : Prop := RPC_HEADER_SZ + Z.of_nat (length content) < 2 ^ 30.

Lemma header_sz : RPC_HEADER_SZ = 24.
Proof. reflexivity. Qed.

Lemma content_of content m : fits content -> m_app content new_marshall m ->
  m_fit m /\ RPC_HEADER_SZ <= m_ind m < 2 ^ 30 /\
  m_ind m = 24 + Z.of_nat (length content) /\
  take (Z.to_nat (m_ind m) - 24) (drop 24 (m_buf m)) = content.
Proof.
  intros Hf [F I P _]. destruct new_marshall_fit as [Fn In]. unfold fits in Hf.
  rewrite header_sz in *. split; [done|]. split; [lia|]. split; [lia|].
  rewrite <- skipn_firstn_comm. fold (m_pdu m). rewrite P. apply drop_app_exact.
  unfold m_pdu. rewrite length_take. destruct Fn as (? & ? & ?). lia.
Qed.

Lemma length_req_wire h : length (req_wire h) = 20%nat.
Proof. reflexivity. Qed.

Lemma length_reply_wire h : length (reply_wire h) = 8%nat.
Proof. reflexivity. Qed.

(** The bytes on the wire of a request and of a reply: the size field, the
    header, the content; a reply header is shorter and the gap is kept. *)
Definition request_pdu (h : req_header) (m : marshall) : res bytes :=
  '(_, m') ← m_pack_req_header h m; mret (m_pdu m').

Lemma request_pdu_ok h content m : fits content -> m_app content new_marshall m ->
  exists a, request_pdu h m = Ok (a ++ req_wire h ++ content) /\ length a = 4%nat.
Proof.
  intros Hf Ha. destruct (content_of _ _ Hf Ha) as (F & Hi & I & Hc).
  destruct (pack_req_header_ok h m F Hi) as (m' & E & F' & I' & B').
  exists (take 4 (m_buf m)). unfold request_pdu. rewrite E. simpl. split.
  - unfold m_pdu. rewrite I', B', I. destruct F as (? & ? & ?).
    replace (Z.to_nat (24 + Z.of_nat (length content))) with (24 + length content)%nat by lia.
    rewrite app_assoc. rewrite take_app_add' by (rewrite length_app, length_take, length_req_wire; rewrite header_sz in Hi; lia). rewrite <- app_assoc.
    replace (Z.to_nat (m_ind m) - 24)%nat with (length content) in Hc by lia. by rewrite Hc.
  - destruct F as (? & ? & ?). rewrite length_take. rewrite header_sz in Hi. lia.
Qed.

Lemma reply_pdu_ok h content m : fits content -> m_app content new_marshall m ->
  exists m' a gap, m_pack_reply_header h m = Ok (tt, m') /\
    m_pdu m' = a ++ reply_wire h ++ gap ++ content /\ length a = 4%nat /\ length gap = 12%nat.
Proof.
  intros Hf Ha. destruct (content_of _ _ Hf Ha) as (F & Hi & I & Hc).
  destruct (pack_reply_header_ok h m F Hi) as (m' & E & F' & I' & B').
  destruct F as (? & ? & ?). rewrite header_sz in Hi.
  exists m', (take 4 (m_buf m)), (take 12 (drop 12 (m_buf m))). split; [done|].
  split; [|rewrite !length_take, ?length_drop; lia].
  unfold m_pdu. rewrite I', B', I.
  replace (Z.to_nat (24 + Z.of_nat (length content))) with (12 + (12 + length content))%nat by lia.
  rewrite app_assoc.
  rewrite take_app_add' by (rewrite length_app, length_take, length_reply_wire; lia).
  rewrite <- app_assoc. do 2 f_equal.
  rewrite <- (take_drop 12 (drop 12 (m_buf m))) at 1. rewrite drop_drop.
  rewrite take_app_add' by (rewrite length_take, length_drop; lia). f_equal.
  replace (Z.to_nat (m_ind m) - 24)%nat with (length content) in Hc by lia. done.
Qed.

(** The server's side of a request: header, then the arguments. *)
Lemma request_arrives ps (Hps : ParamsOk ps) h (a : args ps) : req_header_valid h -> args_valid ps a ->
  fits (args_wire ps a) ->
  exists m req u, marshall_args ps a new_marshall = Ok (tt, m) /\ request_pdu h m = Ok req /\
    u_unpack_req_header (unmarshall_of req) = Ok (h, u) /\ u_fit u /\ u_ok u = true /\
    drop (Z.to_nat (u_ind u)) (u_buf u) = args_wire ps a.
Proof.
  intros Hh Hv Hf. destruct (writes_args ps a Hps Hv new_marshall) as (m & Em & Am);
    [apply new_marshall_fit | rewrite (proj2 new_marshall_fit); exact Hf |].
  destruct (request_pdu_ok h _ m Hf Am) as (p4 & Ereq & Hp4).
  set (req := p4 ++ req_wire h ++ args_wire ps a) in *.
  assert (length req = 24 + length (args_wire ps a))%nat as Hlreq
    by (unfold req; rewrite !length_app, length_req_wire; lia).
  unfold fits in Hf. rewrite header_sz in Hf.
  exists m, req, (Unmarshall req (Z.of_nat (length req)) RPC_HEADER_SZ true).
  split; [done|]. split; [done|]. split.
  { apply (unpack_req_header_ok h req p4 (args_wire ps a)); [done.. | unfold INT_MAX; lia]. }
  split; [unfold u_fit; simpl; rewrite header_sz; unfold INT_MAX; lia|]. split; [done|].
  simpl. unfold req. rewrite app_assoc. apply drop_app_exact.
  rewrite length_app, length_req_wire. rewrite header_sz. lia.
Qed.

(** The client's side of a reply: header, then the reply value. *)
Lemma read_reply {R} (cr : codec R) `{!CodecOk cr} (r : R) h a gap buf :
  c_valid cr r -> in_s 32 (rp_xid h) -> in_s 32 (rp_ret h) ->
  buf = a ++ reply_wire h ++ gap ++ c_wire cr r -> length a = 4%nat -> length gap = 12%nat ->
  Z.of_nat (length buf) <= INT_MAX ->
  exists u u', u_unpack_reply_header (unmarshall_of buf) = Ok (h, u) /\ u_ok u = true /\
    c_get cr (u_take_in u) = Ok (r, u') /\ u_okdone u' = true.
Proof.
  intros Hv Hx Hr Hb Ha Hg Hl.
  rewrite (unpack_reply_header_ok h buf a (gap ++ c_wire cr r)) by done.
  eexists _, _. split; [done|]. split; [done|]. unfold u_take_in; simpl.
  assert (length buf = 24 + length (c_wire cr r))%nat as Hlb
    by (subst buf; rewrite !length_app, length_reply_wire; lia).
  rewrite header_sz. destruct (Z.leb_spec 24 (Z.of_nat (length buf))); [|lia].
  split.
  - eapply (codec_reads r Hv _ []); [unfold u_fit; simpl; lia | done |]. simpl.
    rewrite app_nil_r. subst buf. rewrite !app_assoc. apply drop_app_exact.
    rewrite !length_app, length_reply_wire. lia.
  - unfold u_okdone, u_adv; simpl. apply Z.eqb_eq. lia.
Qed.
End transparency.

(** What serving the request [x] of the client [k] may change of the server
    besides the state of the application: the window of [k] gets at most [x]. *)
Record served {S} (k x : Z) (s s' : @rpcs S) : Prop := {
  sv_nonce : nonce_ s' = nonce_ s;
  sv_procs : procs s' = procs s;
  sv_other j : j <> k -> window_of s' j = window_of s j;
  sv_own y : y ∈ xids (window_of s' k) -> y = x \/ y ∈ xids (window_of s k) }.

Lemma served_trans {S} k x (s1 s2 s3 : @rpcs S) : served k x s1 s2 -> served k x s2 s3 ->
  served k x s1 s3.
Proof.
  intros [N1 P1 O1 W1] [N2 P2 O2 W2]. split; [congruence.. | |].
  - intros j Hj. by rewrite O2, O1.
  - intros y Hy. destruct (W2 y Hy); auto.
Qed.

Lemma served_same {S} k x (s s' : @rpcs S) : nonce_ s' = nonce_ s -> procs s' = procs s ->
  reply_window s' = reply_window s -> served k x s s'.
Proof. intros HN HP HW. split; unfold window_of; rewrite ?HW; auto. Qed.

Lemma served_upd {S} k x w (s : @rpcs S) :
  (forall y, y ∈ xids w -> y = x \/ y ∈ xids (window_of s k)) -> served k x s (upd_window k w s).
Proof.
  intros Hw. split; [done.. | |]; unfold window_of, upd_window; simpl.
  - intros j Hj. by rewrite lookup_insert_ne.
  - by rewrite lookup_insert_eq.
Qed.

Section dispatch_call.
Context `{Mem} {S R : Type} (ps : list param) (cr : codec R).
Context (Hps : ParamsOk ps) `{!CodecOk cr} (meth : args ps -> M S (Z * R)).

(** The handler made by [reg] runs the method on the arguments sent. *)
Lemma reg_fn_ok (a : args ps) (u : unmarshall) (s s' : S) b r :
  args_valid ps a -> u_fit u -> u_ok u = true ->
  drop (Z.to_nat (u_ind u)) (u_buf u) = args_wire ps a ->
  meth a s = Ok ((b, r), s') -> c_valid cr r -> fits (c_wire cr r) ->
  exists m, reg_fn ps cr meth u new_marshall s = Ok ((b, m), s') /\
    m_app (c_wire cr r) new_marshall m.
Proof.
  intros Hv Hu Ho Hd Hm Hr Hf.
  destruct (codec_writes r Hr new_marshall) as (m & Em & Am);
    [apply new_marshall_fit | rewrite (proj2 new_marshall_fit); exact Hf |].
  exists m. split; [|done]. unfold reg_fn.
  pose proof (reads_args ps a Hps Hv u [] Hu Ho ltac:(by rewrite app_nil_r)) as Er.
  rewrite (bind_ok (on (unmarshall_args ps) u) _ s (a, u_adv u (length (args_wire ps a))) s)
    by (unfold on; by rewrite Er).
  assert (u_okdone (u_adv u (length (args_wire ps a))) = true) as ->.
  { unfold u_okdone, u_adv; simpl. rewrite Ho. apply Z.eqb_eq.
    destruct Hu as (Hs & Hi & _). rewrite <- Hd, length_drop. lia. }
  cbn [negb]. cbv beta iota. erewrite bind_ok by exact Hm. cbv beta iota.
  rewrite (bind_ok (on (c_put cr r) new_marshall) _ s' (tt, m) s')
    by (unfold on; by rewrite Em). done.
Qed.

(** [dispatch] on a request that is not a duplicate: the state in which the
    handler runs. *)
Lemma dispatch_start_new (c : conn) h buf (f : handler S) u (s : rpcs) :
  u_unpack_req_header (unmarshall_of buf) = Ok (h, u) -> u_ok u = true ->
  (rq_srv_nonce h = 0 \/ rq_srv_nonce h = nonce_ s) -> 0 < rq_clt_nonce h ->
  procs s !! rq_proc h = Some f ->
  (checkduplicate_and_update (window_of s (rq_clt_nonce h))
     (u32 (rq_xid h)) (u32 (rq_xid_rep h))).1 = NEW ->
  exists s1, dispatch_start c buf s = Ok (Execute h f u, s1) /\ app s1 = app s /\
    served (rq_clt_nonce h) (u32 (rq_xid h)) s s1.
Proof.
  intros Hh Hok Hsrv Hclt Hproc Hnew. unfold dispatch_start.
  rewrite (bind_ok (on u_unpack_req_header (unmarshall_of buf)) _ s (h, u) s)
    by (unfold on; by rewrite Hh).
  rewrite Hok. cbn [negb]. cbv beta iota. rewrite (bind_ok _ _ s s s eq_refl).
  assert (negb (rq_srv_nonce h =? 0) && negb (rq_srv_nonce h =? nonce_ s) = false) as ->.
  { destruct Hsrv as [-> | ->]; rewrite Z.eqb_refl; [done|]. by rewrite andb_false_r. }
  rewrite Hproc. destruct (Z.eqb_spec (rq_clt_nonce h) 0); [lia|].
  rewrite (bind_ok _ _ s tt _ eq_refl).
  pose proof (xids_checkduplicate (window_of s (rq_clt_nonce h)) (u32 (rq_xid h))
    (u32 (rq_xid_rep h))) as Hsub.
  destruct (checkduplicate_and_update _ _ _) as [st w]. simpl in Hnew, Hsub. subst st.
  rewrite (bind_ok _ _ _ tt _ eq_refl). eexists; split; [reflexivity|]. split; [done|].
  apply (served_trans _ _ _ (upd_conns (note_conn (rq_clt_nonce h) c (conns s)) s));
    [by apply served_same | by apply served_upd].
Qed.

Lemma dispatch_finish_ok (c : conn) h b m m' (s : @rpcs S) :
  cn_dead c = false -> 0 <= b ->
  m_pack_reply_header (ReplyHeader (rq_xid h) b) m = Ok (tt, m') ->
  exists s', dispatch_finish c h b m s = Ok ((c, m_pdu m'), s') /\ app s' = app s /\
    served (rq_clt_nonce h) (u32 (rq_xid h)) s s'.
Proof.
  intros Hdead Hb Hm'. unfold dispatch_finish.
  assert (negb (b =? rpc_const.unmarshal_args_failure) = true) as ->.
  { unfold rpc_const.unmarshal_args_failure. destruct (Z.eqb_spec b (-2)); [lia | done]. }
  rewrite (bind_ok _ _ s tt s eq_refl). destruct (Z.leb_spec 0 b); [|lia].
  rewrite (bind_ok _ _ s tt s eq_refl).
  rewrite (bind_ok (on (m_pack_reply_header (ReplyHeader (rq_xid h) b)) m) _ s (tt, m') s)
    by (unfold on; by rewrite Hm').
  cbv beta iota. rewrite (bind_ok _ _ s s s eq_refl).
  assert (exists s1, (if 0 <? rq_clt_nonce h
    then modS (upd_window (rq_clt_nonce h)
                (add_reply (window_of s (rq_clt_nonce h)) (u32 (rq_xid h)) (m_pdu m')))
    else mret tt) s = Ok (tt, s1) /\ app s1 = app s /\
    served (rq_clt_nonce h) (u32 (rq_xid h)) s s1) as (s1 & E1 & A1 & V1).
  { destruct (0 <? rq_clt_nonce h); eexists; (split; [reflexivity|]; split; [done|]).
    - apply served_upd. intros y. rewrite xids_add_reply. by right.
    - by apply served_same. }
  rewrite (bind_ok _ _ _ _ _ E1). exists s1. split; [|done]. rewrite Hdead.
  by destruct (conns s !! rq_clt_nonce h).
Qed.

Lemma dispatch_new (c : conn) h buf (f : handler S) u (s : rpcs) b m st' m' :
  u_unpack_req_header (unmarshall_of buf) = Ok (h, u) -> u_ok u = true ->
  (rq_srv_nonce h = 0 \/ rq_srv_nonce h = nonce_ s) -> 0 < rq_clt_nonce h ->
  procs s !! rq_proc h = Some f ->
  (checkduplicate_and_update (window_of s (rq_clt_nonce h))
     (u32 (rq_xid h)) (u32 (rq_xid_rep h))).1 = NEW ->
  cn_dead c = false -> 0 <= b ->
  f u new_marshall (app s) = Ok ((b, m), st') ->
  m_pack_reply_header (ReplyHeader (rq_xid h) b) m = Ok (tt, m') ->
  exists s', dispatch c buf s = Ok ([(c, m_pdu m')], s') /\ app s' = st' /\
    served (rq_clt_nonce h) (u32 (rq_xid h)) s s'.
Proof.
  intros Hh Hok Hsrv Hclt Hproc Hnew Hdead Hb Hf Hm'.
  destruct (dispatch_start_new c h buf f u s) as (s1 & E1 & A1 & V1); try done.
  unfold dispatch. rewrite (bind_ok _ _ _ _ _ E1). cbv beta iota.
  rewrite (bind_ok _ _ s1 s1 s1 eq_refl).
  assert (exists s2, (if counting_ s1 =? 0 then mret tt
    else modS (updatestat (rq_proc h))) s1 = Ok (tt, s2) /\ app s2 = app s /\
    served (rq_clt_nonce h) (u32 (rq_xid h)) s1 s2) as (s2 & E2 & A2 & V2).
  { destruct (counting_ s1 =? 0); eexists; (split; [reflexivity|]; split; [done|]);
      by apply served_same. }
  rewrite (bind_ok _ _ _ _ _ E2). rewrite (bind_ok _ _ s2 s2 s2 eq_refl).
  erewrite (bind_ok _ _ s2) by (rewrite A2, Hf; reflexivity). cbv beta iota.
  rewrite (bind_ok _ _ s2 tt _ eq_refl).
  destruct (dispatch_finish_ok c h b m m' (upd_app st' s2)) as (s3 & E3 & A3 & V3);
    try done.
  rewrite (bind_ok _ _ _ _ _ E3). exists s3. split; [done|]. split; [by rewrite A3|].
  eapply served_trans; [exact V1|]. eapply served_trans; [exact V2|].
  apply (served_trans _ _ _ (upd_app st' s2)); [by apply served_same | exact V3].
Qed.

(** One request and its reply, with all that the server changes. *)
Lemma rpc_exchange (c : conn) (h : req_header) (a : args ps) (s : rpcs) b r st' :
  req_header_valid h -> args_valid ps a -> fits (args_wire ps a) ->
  (rq_srv_nonce h = 0 \/ rq_srv_nonce h = nonce_ s) -> 0 < rq_clt_nonce h ->
  procs s !! rq_proc h = Some (reg_fn ps cr meth) ->
  (checkduplicate_and_update (window_of s (rq_clt_nonce h))
     (u32 (rq_xid h)) (u32 (rq_xid_rep h))).1 = NEW ->
  cn_dead c = false ->
  meth a (app s) = Ok ((b, r), st') -> 0 <= b < 2 ^ 31 -> c_valid cr r -> fits (c_wire cr r) ->
  exists m req reply s' u u',
    marshall_args ps a new_marshall = Ok (tt, m) /\ request_pdu h m = Ok req /\
    dispatch c req s = Ok ([(c, reply)], s') /\ app s' = st' /\
    served (rq_clt_nonce h) (u32 (rq_xid h)) s s' /\
    u_unpack_reply_header (unmarshall_of reply) = Ok (ReplyHeader (rq_xid h) b, u) /\ u_ok u = true /\
    c_get cr (u_take_in u) = Ok (r, u') /\ u_okdone u' = true.
Proof.
  intros Hh Hv Hf Hsrv Hclt Hproc Hnew Hdead Hm Hb Hr Hfr.
  destruct (request_arrives ps Hps h a Hh Hv Hf) as (m & req & u & Em & Ereq & Hun & Hfit & Ho & Hd).
  edestruct (reg_fn_ok a u) as (mr & Ef & Amr); [done | done | done | exact Hd | exact Hm | done | done |].
  destruct (reply_pdu_ok (ReplyHeader (rq_xid h) b) (c_wire cr r) mr) as (m' & a4 & gap & Em' & Hp & Ha4 & Hg);
    [done..|].
  edestruct (dispatch_new c h req) as (s' & Hdi & Happ & Hsv); [exact Hun | done | done | done |
    exact Hproc | done | done | apply Hb | exact Ef | exact Em' |].
  destruct (read_reply cr r (ReplyHeader (rq_xid h) b) a4 gap (m_pdu m')) as (u1 & u' & Hu1 & Huo & Hu2 & Hu3);
    try done; [apply Hh | unfold in_s; simpl; lia | |].
  { unfold fits in Hfr. rewrite header_sz in Hfr.
    rewrite Hp, !length_app, length_reply_wire. unfold INT_MAX. lia. }
  exists m, req, (m_pdu m'), s', u1, u'. by split_and!.
Qed.

(** C8. Remote calls are transparent: marshalling the arguments of a call,
    dispatching the request at the server and unmarshalling the reply at the
    client gives the status and the value of one run of the registered method,
    and leaves the server's state as that run does. *)
Theorem rpc_transparent (c : conn) (h : req_header) (a : args ps) (s : rpcs) b r st' :
  req_header_valid h -> args_valid ps a -> fits (args_wire ps a) ->
  (rq_srv_nonce h = 0 \/ rq_srv_nonce h = nonce_ s) -> 0 < rq_clt_nonce h ->
  procs s !! rq_proc h = Some (reg_fn ps cr meth) ->
  (checkduplicate_and_update (window_of s (rq_clt_nonce h))
     (u32 (rq_xid h)) (u32 (rq_xid_rep h))).1 = NEW ->
  cn_dead c = false ->
  meth a (app s) = Ok ((b, r), st') -> 0 <= b < 2 ^ 31 -> c_valid cr r -> fits (c_wire cr r) ->
  exists m req reply s' u u',
    marshall_args ps a new_marshall = Ok (tt, m) /\ request_pdu h m = Ok req /\
    dispatch c req s = Ok ([(c, reply)], s') /\ app s' = st' /\
    u_unpack_reply_header (unmarshall_of reply) = Ok (ReplyHeader (rq_xid h) b, u) /\
    c_get cr (u_take_in u) = Ok (r, u') /\ u_okdone u' = true.
Proof.
  intros Hh Hv Hf Hsrv Hclt Hproc Hnew Hdead Hm Hb Hr Hfr.
  destruct (rpc_exchange c h a s b r st') as (m & req & reply & s' & u & u' & ?); try done.
  exists m, req, reply, s', u, u'. naive_solver.
Qed.
End dispatch_call.

(** A server whose method 7 adds its argument to a counter and returns it. *)
Section sample.
#[local] Existing Instance zero_mem.

Definition sample_params : list param := [Param Z c_s32].
Definition sample_meth (a : args sample_params) : M Z (Z * Z) :=
  fun n => Ok ((0, n + fst a), n + fst a).
Definition sample_server : @rpcs Z :=
  Rpcs 99 0 0 ∅ {[7 := reg_fn sample_params c_s32 sample_meth]} ∅ ∅ 10.
Definition sample_conn : conn := Conn 4 0 0 false.
Definition sample_header : req_header := ReqHeader 1 7 55 99 0.

Lemma sample_params_ok : ParamsOk sample_params.
Proof. unfold ParamsOk. constructor; [apply c_s32_ok | constructor]. Qed.

Lemma rpc_transparent_witness : exists m req reply s' u u',
  marshall_args sample_params (5, tt) new_marshall = Ok (tt, m) /\
  request_pdu sample_header m = Ok req /\
  dispatch sample_conn req sample_server = Ok ([(sample_conn, reply)], s') /\
  app s' = 15 /\
  u_unpack_reply_header (unmarshall_of reply) = Ok (ReplyHeader 1 0, u) /\
  c_get c_s32 (u_take_in u) = Ok (15, u') /\ u_okdone u' = true.
Proof.
  refine (rpc_transparent sample_params c_s32 sample_params_ok sample_meth
    sample_conn sample_header (5, tt) sample_server 0 15 15
    _ _ _ _ _ _ _ _ _ _ _ _).
  - unfold req_header_valid, in_s, in_u; simpl; lia.
  - simpl; unfold in_s; lia.
  - unfold fits; rewrite header_sz; vm_compute; reflexivity.
  - by right.
  - simpl; lia.
  - apply lookup_singleton_eq.
  - reflexivity.
  - reflexivity.
  - reflexivity.
  - lia.
  - simpl; unfold in_s; lia.
  - unfold fits; rewrite header_sz; vm_compute; reflexivity.
Defined.
End sample.
