(* ===== verification/RpcSystem.v ===== *)
(** * One RPC client, one server and an unreliable network

    The critical sections of [rpcc] (RpcClient.v) and the reply window of
    [rpcs] (RpcServer.v) composed over a network that may lose, duplicate,
    delay and reorder every message: a message once sent may be delivered at
    any later time, any number of times or never.  The acknowledgements the
    server trims its window by are the ones the client computes, so that
    at-most-once execution is a theorem about both endpoints together.  A client
    whose number is 0, which [random()] may give, gets no window at all: for it
    the theorem is false ([numberless_executes_twice]). *)

From S2P Require Import Prelude Marshall RpcServer RpcClient.

(** [s_exec] lists the identifiers the server began to execute, latest first;
    [s_fin] the reply buffers of the executions that finished. *)
Record sys := Sys {
  s_clt : rpcc;
  s_reqs : list req_header;
  s_win : list reply_t;
  s_exec : list Z;
  s_fin : list (Z * bytes);
  s_reps : list bytes }.

(** [b] is a reply message for the header [h]. *)
Definition is_reply (b : bytes) (h : reply_header) : Prop :=
  exists u, u_unpack_reply_header (unmarshall_of b) = Ok (h, u) /\ u_ok u = true.

Section system.
Context `{Mem}.

(** What [dispatch] asks the reply window, if the client has a number. *)
Definition window_verdict (h : req_header) (w : list reply_t) : rpcstate_t * list reply_t :=
  if rq_clt_nonce h =? 0 then (NEW, w)
  else checkduplicate_and_update w (u32 (rq_xid h)) (u32 (rq_xid_rep h)).
Definition window_record (h : req_header) (b : bytes) (w : list reply_t) : list reply_t :=
  if 0 <? rq_clt_nonce h then add_reply w (u32 (rq_xid h)) b else w.

Inductive sys_step : sys -> sys -> Prop :=
  | SBegin proc h c' s :
      call1_begin proc (s_clt s) = inr (h, c') ->
      sys_step s (Sys c' (h :: s_reqs s) (s_win s) (s_exec s) (s_fin s) (s_reps s))
  | SRequest h st w' reps s :
      h ∈ s_reqs s ->
      window_verdict h (s_win s) = (st, w') ->
      (forall b, b ∈ reps ->
         st = DONE b \/
         (st = FORGOTTEN /\ is_reply b (ReplyHeader (rq_xid h) rpc_const.atmostonce_failure))) ->
      sys_step s (Sys (s_clt s) (s_reqs s) w'
                    (if is_new st then u32 (rq_xid h) :: s_exec s else s_exec s)
                    (s_fin s) (reps ++ s_reps s))
  | SOldserver h b s :
      h ∈ s_reqs s -> is_reply b (ReplyHeader (rq_xid h) rpc_const.oldsrv_failure) ->
      sys_step s (Sys (s_clt s) (s_reqs s) (s_win s) (s_exec s) (s_fin s) (b :: s_reps s))
  | SFinish h ret b s :
      h ∈ s_reqs s -> u32 (rq_xid h) ∈ s_exec s ->
      is_reply b (ReplyHeader (rq_xid h) ret) ->
      sys_step s (Sys (s_clt s) (s_reqs s) (window_record h b (s_win s))
                    (s_exec s) ((u32 (rq_xid h), b) :: s_fin s) (b :: s_reps s))
  | SReply b c' s :
      b ∈ s_reps s -> got_pdu b (s_clt s) = Ok (true, c') ->
      sys_step s (Sys c' (s_reqs s) (s_win s) (s_exec s) (s_fin s) (s_reps s))
  | SEnd xid xid_rep req r c' s :
      in_u 32 xid ->
      call1_end xid xid_rep req (s_clt s) = Some (r, c') ->
      sys_step s (Sys c' (s_reqs s) (s_win s) (s_exec s) (s_fin s) (s_reps s))
  | SCancel s :
      sys_step s (Sys (cancel_calls (s_clt s)) (s_reqs s) (s_win s) (s_exec s) (s_fin s) (s_reps s))
  | SBound ret r s :
      sys_step s (Sys (bind_end ret r (s_clt s)) (s_reqs s) (s_win s) (s_exec s) (s_fin s) (s_reps s)).

Inductive sys_reach (rnd lossy : Z) : sys -> Prop :=
  | reach_init : sys_reach rnd lossy (Sys (new_rpcc true rnd lossy) [] [] [] [] [])
  | reach_step s s' : sys_reach rnd lossy s -> sys_step s s' ->
      Z.of_nat (length (s_reqs s')) < 2 ^ 32 - 1 -> sys_reach rnd lossy s'.


(** ** The client's window stays below the next identifier *)

Lemma pop_while_sub pre x y : y ∈ pop_while pre x -> y ∈ pre.
Proof.
  induction pre as [|z pre IH]; simpl; [done|].
  destruct (u32 (z + 1) =? x); [|done]. intros. right. auto.
Qed.

Lemma compress_sub rest : forall pre y, y ∈ compress pre rest -> y ∈ pre \/ y ∈ rest.
Proof.
  induction rest as [|x rest IH]; simpl; intros pre y Hy; [by left|].
  apply IH in Hy as [[Hy%pop_while_sub|Hy]%elem_of_app|Hy]; set_solver.
Qed.

Lemma compress_nonempty rest : forall pre, pre <> [] -> compress pre rest <> [].
Proof.
  induction rest as [|x rest IH]; simpl; intros pre Hp; [done|]. apply IH. by destruct (pop_while _ _).
Qed.

Lemma update_xid_rep_sub w x y : y ∈ update_xid_rep w x -> y = x \/ y ∈ w.
Proof.
  unfold update_xid_rep. destruct w as [|f w]; [by right|].
  destruct (x <=? f); [by right|]. rewrite <- insert_xid_elem.
  destruct (insert_xid (f :: w) x); [done|]. intros [Hy|Hy]%compress_sub; set_solver.
Qed.

Lemma update_xid_rep_nonempty w x : w <> [] -> update_xid_rep w x <> [].
Proof.
  unfold update_xid_rep. destruct w as [|f w]; [done|]. intros _.
  destruct (x <=? f); [done|]. simpl. destruct (x <? f); by apply compress_nonempty.
Qed.

Definition win_below (w : list Z) (n : Z) : Prop := w <> [] /\ Forall (fun x => 0 <= x < n) w.

Lemma win_below_update w n x : win_below w n -> 0 <= x < n -> win_below (update_xid_rep w x) n.
Proof.
  intros [Hn Hf] Hx. split; [by apply update_xid_rep_nonempty|].
  apply Forall_forall. intros y [->|Hy]%update_xid_rep_sub; [done|].
  rewrite Forall_forall in Hf. auto.
Qed.

Lemma win_below_mono w n n' : win_below w n -> n <= n' -> win_below w n'.
Proof. intros [Hn Hf] Hle. split; [done|]. eapply Forall_impl; [exact Hf|]. simpl. lia. Qed.

Lemma win_below_hd w n : win_below w n -> 0 <= hd 0 w < n.
Proof. intros [Hn Hf]. destruct w as [|x w]; [done|]. by apply Forall_cons in Hf as [? _]. Qed.

Lemma u32_of_s32 x : u32 (s32 x) = u32 x.
Proof.
  unfold u32, s32, to_signed. destruct (_ <? _); [apply Z.mod_mod; lia|].
  rewrite Zminus_mod, Z_mod_same_full, Z.sub_0_r, !Z.mod_mod by lia. done.
Qed.

Lemma u32_in x : in_u 32 x -> u32 x = x.
Proof. apply Z.mod_small. Qed.

(** ** The invariant of the system *)

(** An identifier handed out so far, and the request made with it. *)
Definition used (s : sys) (x : Z) : Prop := 1 <= x < xid_ (s_clt s).

Record sys_inv (s : sys) : Prop := {
  si_xid : xid_ (s_clt s) = 1 + Z.of_nat (length (s_reqs s));
  si_bound : Z.of_nat (length (s_reqs s)) < 2 ^ 32 - 1;
  si_reqs : Forall (fun h => used s (u32 (rq_xid h)) /\ rq_xid h = s32 (u32 (rq_xid h)) /\
                             u32 (rq_xid_rep h) < u32 (rq_xid h)) (s_reqs s);
  si_win : win_below (xid_rep_window (s_clt s)) (xid_ (s_clt s));
  si_srv : window_inv (s_win s) (s_exec s);
  si_recorded : forall r, r ∈ s_win s -> ry_cb_present r = true -> (ry_xid r, ry_buf r) ∈ s_fin s;
  si_fin : forall x b, (x, b) ∈ s_fin s ->
    x ∈ s_exec s /\ used s x /\ exists ret, is_reply b (ReplyHeader (s32 x) ret);
  si_reps : forall b, b ∈ s_reps s -> exists x, used s x /\
    ((x, b) ∈ s_fin s \/ exists ret, ret < 0 /\ is_reply b (ReplyHeader (s32 x) ret));
  si_calls : forall k ca, calls (s_clt s) !! k = Some ca ->
    used s (u32 k) /\ k = s32 (u32 k) /\
    (ca_done ca = true -> 0 <= ca_intret ca ->
     exists b u, (u32 k, b) ∈ s_fin s /\
       u_unpack_reply_header (unmarshall_of b) = Ok (ReplyHeader k (ca_intret ca), u) /\
       ca_un ca = Some (u_take_in u)) }.

Lemma step_window_req w ex x r st w' :
  checkduplicate_and_update w x r = (st, w') ->
  step_window (w, ex) (EReq x r) = (w', if is_new st then x :: ex else ex).
Proof. unfold step_window. by intros ->. Qed.

Lemma find_reply_done w x r b : (checkduplicate_and_update w x r).1 = DONE b ->
  exists e, e ∈ w /\ ry_xid e = x /\ ry_cb_present e = true /\ ry_buf e = b.
Proof.
  unfold checkduplicate_and_update. destruct (find_reply w x) as [e|] eqn:Hf.
  - apply find_reply_Some in Hf as [Hx He]. destruct (ry_cb_present e) eqn:Hc; simpl; [|done].
    intros [= <-]. eauto 10.
  - destruct w as [|r0 w]; [done|]. by destruct (x <? ry_xid r0).
Qed.

Lemma inv_request s h st w' reps : sys_inv s -> h ∈ s_reqs s ->
  checkduplicate_and_update (s_win s) (u32 (rq_xid h)) (u32 (rq_xid_rep h)) = (st, w') ->
  (forall b, b ∈ reps -> st = DONE b \/
     (st = FORGOTTEN /\ is_reply b (ReplyHeader (rq_xid h) rpc_const.atmostonce_failure))) ->
  sys_inv (Sys (s_clt s) (s_reqs s) w'
             (if is_new st then u32 (rq_xid h) :: s_exec s else s_exec s)
             (s_fin s) (reps ++ s_reps s)).
Proof.
  intros [Hx Hb Hr Hw Hs Hrec Hf Hp Hc] Hh Hck Hreps.
  assert (used s (u32 (rq_xid h)) /\ rq_xid h = s32 (u32 (rq_xid h)) /\
          u32 (rq_xid_rep h) < u32 (rq_xid h)) as (Hu & He & Hlt)
    by (rewrite Forall_forall in Hr; auto).
  pose proof (step_window_req _ (s_exec s) _ _ _ _ Hck) as Hst.
  split; simpl; try done.
  - eapply step_window_inv; [exact Hs | | exact Hst]. done.
  - eapply (step_window_replies (fun x b => (x, b) ∈ s_fin s)); [| exact Hst | exact Hrec]. done.
  - intros x b Hxb. destruct (Hf x b Hxb) as (Hin & ?). split; [|done].
    destruct (is_new st); [by right | done].
  - intros b [Hin|Hin]%elem_of_app; [|by apply Hp]. exists (u32 (rq_xid h)). split; [done|].
    destruct (Hreps b Hin) as [-> | [_ Hrep]].
    + left. destruct (find_reply_done (s_win s) (u32 (rq_xid h)) (u32 (rq_xid_rep h)) b)
        as (e & Hew & <- & Hcb & <-); [by rewrite Hck|]. by apply Hrec.
    + right. exists rpc_const.atmostonce_failure. rewrite <- He. split; [|done]. done.
Qed.

Lemma inv_oldserver s h b : sys_inv s -> h ∈ s_reqs s ->
  is_reply b (ReplyHeader (rq_xid h) rpc_const.oldsrv_failure) ->
  sys_inv (Sys (s_clt s) (s_reqs s) (s_win s) (s_exec s) (s_fin s) (b :: s_reps s)).
Proof.
  intros [Hx Hb Hr Hw Hs Hrec Hf Hp Hc] Hh Hrep. split; simpl; try done.
  intros b' [->|Hin]%elem_of_cons; [|by apply Hp].
  rewrite Forall_forall in Hr. destruct (Hr h Hh) as (Hu & He & _).
  exists (u32 (rq_xid h)). split; [done|]. right. exists rpc_const.oldsrv_failure.
  rewrite <- He. done.
Qed.

Lemma inv_finish s h ret b : sys_inv s -> h ∈ s_reqs s -> u32 (rq_xid h) ∈ s_exec s ->
  is_reply b (ReplyHeader (rq_xid h) ret) ->
  sys_inv (Sys (s_clt s) (s_reqs s) (add_reply (s_win s) (u32 (rq_xid h)) b)
             (s_exec s) ((u32 (rq_xid h), b) :: s_fin s) (b :: s_reps s)).
Proof.
  intros [Hx Hb Hr Hw Hs Hrec Hf Hp Hc] Hh Hex Hrep.
  rewrite Forall_forall in Hr. destruct (Hr h Hh) as (Hu & He & _).
  split; simpl; try done.
  - by apply Forall_forall.
  - by apply window_inv_add_reply.
  - eapply (step_window_replies (fun x b' => (x, b') ∈ (u32 (rq_xid h), b) :: s_fin s)
      (s_win s) [] (EReply (u32 (rq_xid h)) b)); [| reflexivity | intros; right; auto].
    intros x b' [= -> ->]. left.
  - intros x b' [Hin|Hin]%elem_of_cons; [|by apply Hf]. simplify_eq.
    split_and!; [done.. |]. exists ret. by rewrite <- He.
  - intros b' [->|Hin]%elem_of_cons.
    + exists (u32 (rq_xid h)). split; [done|]. left. left.
    + destruct (Hp b' Hin) as (x & ? & [?|?]); exists x; (split; [done|]); [left; by right | by right].
  - intros k ca Hk. destruct (Hc k ca Hk) as (? & ? & Hd). split_and!; [done..|].
    intros Hd1 Hd2. destruct (Hd Hd1 Hd2) as (b' & u & Hb' & ?). exists b', u. split; [by right | done].
Qed.

(** The clause of the invariant on one outstanding call. *)
Definition call_ok (s : sys) (k : Z) (ca : caller) : Prop :=
  ca_done ca = true -> 0 <= ca_intret ca ->
  exists b u, (u32 k, b) ∈ s_fin s /\
    u_unpack_reply_header (unmarshall_of b) = Ok (ReplyHeader k (ca_intret ca), u) /\
    ca_un ca = Some (u_take_in u).

(** A step of the client that hands out no identifier. *)
Lemma inv_client s c' : sys_inv s -> xid_ c' = xid_ (s_clt s) ->
  win_below (xid_rep_window c') (xid_ c') ->
  (forall k ca, calls c' !! k = Some ca ->
     is_Some (calls (s_clt s) !! k) /\ call_ok s k ca) ->
  sys_inv (Sys c' (s_reqs s) (s_win s) (s_exec s) (s_fin s) (s_reps s)).
Proof.
  intros [Hx Hb Hr Hw Hs Hrec Hf Hp Hc] Hxid Hwin Hcalls.
  split; unfold used in *; simpl; rewrite ?Hxid in *; try done.
  intros k ca Hk. destruct (Hcalls k ca Hk) as ([ca0 Hk0] & Hok).
  destruct (Hc k ca0 Hk0) as (Hu & He & _). done.
Qed.

Lemma inv_call_ok s k ca : sys_inv s -> calls (s_clt s) !! k = Some ca -> call_ok s k ca.
Proof. intros Hi Hk. by destruct (si_calls _ Hi _ _ Hk) as (_ & _ & Hc). Qed.

Lemma inv_begin s proc h c' : sys_inv s -> call1_begin proc (s_clt s) = inr (h, c') ->
  Z.of_nat (length (h :: s_reqs s)) < 2 ^ 32 - 1 ->
  sys_inv (Sys c' (h :: s_reqs s) (s_win s) (s_exec s) (s_fin s) (s_reps s)).
Proof.
  intros [Hx Hb Hr Hw Hs Hrec Hf Hp Hc] Hbeg Hlen. unfold call1_begin in Hbeg.
  repeat case_match; try done. simplify_eq. simpl in Hlen.
  assert (u32 (xid_ (s_clt s) + 1) = xid_ (s_clt s) + 1) as Hn by (apply u32_in; unfold in_u; lia).
  assert (u32 (xid_ (s_clt s)) = xid_ (s_clt s)) as Hn0 by (apply u32_in; unfold in_u; lia).
  pose proof (win_below_hd _ _ Hw) as Hhd.
  assert (forall x, used s x -> 1 <= x < xid_ (s_clt s) + 1) as Hmono by (unfold used; lia).
  split; simpl; unfold used; simpl; rewrite ?Hn; try done.
  - lia.
  - constructor; simpl.
    + rewrite !u32_of_s32, Hn0. rewrite (u32_in (hd _ _)) by (unfold in_u; lia). lia.
    + eapply Forall_impl; [exact Hr|]. simpl. intros h' (? & ? & ?). auto.
  - eapply win_below_mono; [exact Hw | lia].
  - intros x b Hxb. destruct (Hf x b Hxb) as (? & ? & ?). auto.
  - intros b Hin. destruct (Hp b Hin) as (x & ? & ?). eauto.
  - intros k ca. rewrite lookup_insert_Some. intros [[<- <-]|[Hk Hlk]].
    + rewrite u32_of_s32, Hn0. split_and!; [lia | lia | done | done].
    + destruct (Hc k ca Hlk) as (? & ? & ?). auto.
Qed.

Lemma inv_reply s b c' : sys_inv s -> b ∈ s_reps s -> got_pdu b (s_clt s) = Ok (true, c') ->
  sys_inv (Sys c' (s_reqs s) (s_win s) (s_exec s) (s_fin s) (s_reps s)).
Proof.
  intros Hi Hb Hg. destruct (si_reps _ Hi b Hb) as (x & Hu & Hor).
  pose proof (si_bound _ Hi). pose proof (si_xid _ Hi). unfold used in Hu.
  assert (exists ret u, u_unpack_reply_header (unmarshall_of b) = Ok (ReplyHeader (s32 x) ret, u)
    /\ u_ok u = true /\ ((x, b) ∈ s_fin s \/ ret < 0)) as (ret & u & Eu & Ou & Hor').
  { destruct Hor as [Hin|(ret & Hneg & u & Eu & Ou)]; [|eauto 10].
    destruct (si_fin _ Hi x b Hin) as (_ & _ & ret & u & Eu & Ou). eauto 10. }
  unfold got_pdu in Hg. rewrite Eu, Ou in Hg. cbn [negb rp_xid rp_ret] in Hg.
  assert (u32 (s32 x) = x) as Hxx by (rewrite u32_of_s32; apply u32_in; unfold in_u; lia).
  rewrite Hxx in Hg.
  assert (win_below (update_xid_rep (xid_rep_window (s_clt s)) x) (xid_ (s_clt s))) as Hw
    by (apply win_below_update; [apply Hi | lia]).
  cbn [calls set_window] in Hg.
  destruct (calls (s_clt s) !! s32 x) as [ca|] eqn:Hk; [destruct (ca_done ca) eqn:Hd|];
    simplify_eq; apply inv_client; try done; simpl; intros k ca'.
  1,3: intros Hk'; split; [eauto | by apply inv_call_ok].
  rewrite lookup_insert_Some. intros [[<- <-]|[_ Hk']]; [|split; [eauto | by apply inv_call_ok]].
  split; [eauto|]. intros _ Hret. simpl in Hret. destruct Hor' as [Hin|?]; [|lia].
  exists b, u. rewrite Hxx. done.
Qed.

Lemma inv_end s xid xid_rep req r c' : sys_inv s -> in_u 32 xid ->
  call1_end xid xid_rep req (s_clt s) = Some (r, c') ->
  sys_inv (Sys c' (s_reqs s) (s_win s) (s_exec s) (s_fin s) (s_reps s)).
Proof.
  intros Hi Hx He. unfold call1_end in He.
  destruct (calls (s_clt s) !! s32 xid) as [ca|] eqn:Hk; [|done].
  destruct (si_calls _ Hi _ _ Hk) as (Hu & _ & _). rewrite u32_of_s32, (u32_in xid Hx) in Hu.
  injection He as _ <-. apply inv_client; [done|..]; simpl.
  - by destruct (_ && _).
  - assert (win_below (update_xid_rep (xid_rep_window (s_clt s)) xid) (xid_ (s_clt s)))
      by (apply win_below_update; [apply Hi | unfold used in Hu; lia]).
    by destruct (_ && _).
  - intros k ca' Hk'. assert (calls (s_clt s) !! k = Some ca') as Hk2.
    { destruct (_ && _); simpl in Hk'; apply lookup_delete_Some in Hk'; tauto. }
    split; [eauto | by apply inv_call_ok].
Qed.

Lemma inv_cancel s : sys_inv s ->
  sys_inv (Sys (cancel_calls (s_clt s)) (s_reqs s) (s_win s) (s_exec s) (s_fin s) (s_reps s)).
Proof.
  intros Hi. unfold cancel_calls. apply inv_client; [done|..].
  - by destruct (decide _).
  - destruct (decide _); apply Hi.
  - intros k ca Hk. assert ((fun ca => Caller (ca_un ca) rpc_const.cancel_failure true)
      <$> calls (s_clt s) !! k = Some ca) as Hk2.
    { rewrite <- lookup_fmap. by destruct (decide _). }
    destruct (calls (s_clt s) !! k) as [ca0|]; [|done]. simpl in Hk2. simplify_eq.
    split; [eauto|]. intros _ Hneg. done.
Qed.

Lemma inv_bound s ret r : sys_inv s ->
  sys_inv (Sys (bind_end ret r (s_clt s)) (s_reqs s) (s_win s) (s_exec s) (s_fin s) (s_reps s)).
Proof.
  intros Hi. unfold bind_end. apply inv_client; [done|..].
  - by destruct (ret =? 0).
  - destruct (ret =? 0); apply Hi.
  - intros k ca Hk. assert (calls (s_clt s) !! k = Some ca) by (by destruct (ret =? 0)).
    split; [eauto | by apply inv_call_ok].
Qed.

(** The number of the client never changes, and is in all its requests. *)
Definition numbered (s : sys) : Prop :=
  0 < clt_nonce (s_clt s) /\ Forall (fun h => 0 < rq_clt_nonce h) (s_reqs s).

Lemma client_number_kept c c' : clt_nonce c' = clt_nonce c -> 0 < clt_nonce c -> 0 < clt_nonce c'.
Proof. by intros ->. Qed.

Lemma step_numbered s s' : sys_step s s' -> numbered s -> numbered s'.
Proof.
  intros Hst [Hn Hr]. destruct Hst; split; simpl; try done;
    try (constructor; [|exact Hr]); try (eapply client_number_kept; [|exact Hn]).
  all: try match goal with E : call1_begin _ _ = inr _ |- _ => unfold call1_begin in E end;
    try match goal with E : got_pdu _ _ = Ok _ |- _ => unfold got_pdu in E end;
    try match goal with E : call1_end _ _ _ _ = Some _ |- _ => unfold call1_end in E end;
    unfold cancel_calls, bind_end; repeat case_match; simplify_eq; done.
Qed.

Lemma inv_init rnd lossy : sys_inv (Sys (new_rpcc true rnd lossy) [] [] [] [] []).
Proof.
  split; simpl; try done.
  - split; [done|]. repeat constructor; lia.
  - apply window_inv_nil.
  - intros r Hin. by apply elem_of_nil in Hin.
  - intros x b Hin. by apply elem_of_nil in Hin.
  - intros b Hin. by apply elem_of_nil in Hin.
Qed.

Lemma reach_inv rnd lossy s : 0 < rnd < 2 ^ 31 -> sys_reach rnd lossy s -> numbered s /\ sys_inv s.
Proof.
  intros Hrnd. induction 1 as [|s s' _ [Hn IH] Hst Hlen]; [split; [split; [cbn; rewrite u32_in; unfold in_u; lia|constructor]|apply inv_init]|].
  split; [by eapply step_numbered|]. destruct Hn as [_ Hn]. rewrite Forall_forall in Hn.
  destruct Hst; [by eapply inv_begin | | by eapply inv_oldserver
    | | by eapply inv_reply | by eapply inv_end | by apply inv_cancel | by apply inv_bound].
  - apply inv_request; [done|done| |done].
    match goal with E : window_verdict _ _ = _ |- _ => unfold window_verdict in E;
      rewrite (proj2 (Z.eqb_neq _ _)) in E; [exact E|] end.
    intros Hz. enough (0 < rq_clt_nonce h) by lia. by apply Hn.
  - unfold window_record. rewrite (proj2 (Z.ltb_lt _ _)) by auto. by eapply inv_finish.
Qed.

(** C2. End-to-end at-most-once: in every run of a client whose number is not 0, the
    server and a network that loses, duplicates, delays and reorders messages, with
    fewer than 2^32 - 1 calls, no call is executed twice, and a call that completed
    without an error at the client was executed, its result being the reply its
    execution produced. *)
Theorem exactly_once_on_success (rnd lossy : Z) (s : sys) :
  0 < rnd < 2 ^ 31 -> sys_reach rnd lossy s ->
  NoDup (s_exec s) /\
  forall xid ca, calls (s_clt s) !! xid = Some ca -> ca_done ca = true -> 0 <= ca_intret ca ->
    u32 xid ∈ s_exec s /\
    exists b u, (u32 xid, b) ∈ s_fin s /\
      u_unpack_reply_header (unmarshall_of b) = Ok (ReplyHeader xid (ca_intret ca), u) /\
      ca_un ca = Some (u_take_in u).
Proof.
  intros Hrnd Hr. destruct (reach_inv _ _ _ Hrnd Hr) as [_ Hi]. split; [apply Hi|].
  intros xid ca Hk Hd Hret. destruct (si_calls _ Hi _ _ Hk) as (_ & _ & Hc).
  destruct (Hc Hd Hret) as (b & u & Hin & Hu & Hun).
  split; [by apply (si_fin _ Hi _ b) | eauto].
Qed.

End system.

(** A run: one call that is begun, delivered twice, executed and answered. *)
Section sample_run.
#[local] Existing Instance zero_mem.

Definition run_reply : bytes :=
  replicate 4 x00 ++ reply_wire (ReplyHeader 1 0) ++ replicate 12 x00 ++ be32 42.

Definition run_bound : sys :=
  Sys (bind_end 0 9 (new_rpcc true 5 0)) [] [] [] [] [].
Definition run_begun : sys :=
  match call1_begin 7 (s_clt run_bound) with
  | inr (h, c) => Sys c [h] [] [] [] []
  | inl _ => run_bound
  end.
Definition run_executing : sys :=
  Sys (s_clt run_begun) (s_reqs run_begun) [Reply 1 false []] [1] [] [].
Definition run_finished : sys :=
  Sys (s_clt run_begun) (s_reqs run_begun) [Reply 1 true run_reply] [1] [(1, run_reply)] [run_reply].
Definition run_done : sys :=
  match got_pdu run_reply (s_clt run_begun) with
  | Ok (_, c) => Sys c (s_reqs run_begun) [Reply 1 true run_reply] [1] [(1, run_reply)] [run_reply]
  | Crash _ => run_finished
  end.

Lemma run_reply_ok : is_reply run_reply (ReplyHeader 1 0).
Proof. eexists; split; vm_compute; reflexivity. Qed.

Lemma run_done_reach : sys_reach 5 0 run_done.
Proof.
  assert (sys_reach 5 0 run_bound) as R1
    by (eapply reach_step; [apply reach_init | apply (SBound 0 9) | vm_compute; reflexivity]).
  assert (sys_reach 5 0 run_begun) as R2
    by (eapply reach_step; [exact R1 | by apply (SBegin 7) | vm_compute; reflexivity]).
  assert (sys_reach 5 0 run_executing) as R3
    by (eapply reach_step; [exact R2 | | vm_compute; reflexivity];
        apply (SRequest (ReqHeader 1 7 5 9 0) NEW _ [] run_begun); [left | reflexivity | set_solver]).
  assert (sys_reach 5 0 run_executing) as R4
    by (eapply reach_step; [exact R3 | | vm_compute; reflexivity];
        apply (SRequest (ReqHeader 1 7 5 9 0) INPROGRESS _ [] run_executing);
          [left | reflexivity | set_solver]).
  assert (sys_reach 5 0 run_finished) as R5
    by (eapply reach_step; [exact R4 | | vm_compute; reflexivity];
        apply (SFinish (ReqHeader 1 7 5 9 0) 0 run_reply run_executing);
          [left | left | apply run_reply_ok]).
  eapply reach_step; [exact R5 | | vm_compute; reflexivity].
  apply (SReply run_reply (s_clt run_done) run_finished); [left | vm_compute; reflexivity].
Qed.

Lemma exactly_once_on_success_witness :
  sys_reach 5 0 run_done /\ NoDup (s_exec run_done) /\
  exists ca, calls (s_clt run_done) !! 1 = Some ca /\ ca_done ca = true /\
    1 ∈ s_exec run_done.
Proof.
  split; [apply run_done_reach|].
  destruct (exactly_once_on_success 5 0 run_done ltac:(lia) run_done_reach) as [Hn Hc].
  split; [exact Hn|].
  destruct (calls (s_clt run_done) !! 1) as [ca|] eqn:E; [|vm_compute in E; discriminate].
  exists ca. split; [done|].
  assert (ca_done ca = true /\ 0 <= ca_intret ca) as [Hd Hr]
    by (vm_compute in E; injection E as <-; split; [reflexivity | simpl; lia]).
  split; [done|]. by destruct (Hc 1 ca E Hd Hr) as [? _].
Defined.

(** A client with the number 0 whose request arrives twice is served twice. *)
Lemma numberless_executes_twice : exists s, sys_reach 0 0 s /\ s_exec s = [1; 1].
Proof.
  set (h := ReqHeader 1 7 0 9 0).
  set (c := set_calls {[1 := Caller None 0 false]} (set_xid 2 (bind_end 0 9 (new_rpcc true 0 0)))).
  exists (Sys c [h] [] [1; 1] [] []). split; [|reflexivity].
  assert (sys_reach 0 0 (Sys (bind_end 0 9 (new_rpcc true 0 0)) [] [] [] [] [])) as R1
    by (eapply reach_step; [apply reach_init | apply (SBound 0 9) | vm_compute; reflexivity]).
  assert (sys_reach 0 0 (Sys c [h] [] [] [] [])) as R2
    by (eapply reach_step; [exact R1 | by apply (SBegin 7) | vm_compute; reflexivity]).
  assert (sys_reach 0 0 (Sys c [h] [] [1] [] [])) as R3
    by (eapply reach_step; [exact R2 | | vm_compute; reflexivity];
        apply (SRequest h NEW [] [] (Sys c [h] [] [] [] [])); [left | reflexivity | set_solver]).
  eapply reach_step; [exact R3 | | vm_compute; reflexivity].
  apply (SRequest h NEW [] [] (Sys c [h] [] [1] [] [])); [left | reflexivity | set_solver].
Qed.
End sample_run.
