(* ===== verification/RemoteCall.v ===== *)
(** * A remote call, end to end

    [rpcc::call1] of src/lab41/rpc/rpc.cc composed with [rpcs::dispatch] and
    [rpcc::got_pdu], when the network delivers what is sent: the transport under
    [rpcc::call] of Rpc.v.  RpcSystem.v shows what other networks can do to a
    call; here a bound client that calls a registered method gets its result,
    and the link is ready for the next call. *)

From S2P Require Import Prelude Marshall RpcServer RpcClient Rpc RpcSystem.

Section remote.
Context `{Mem} {S : Type}.

(** The client and the server of one link. *)
Definition ends : Type := (rpcc * @rpcs S)%type.

(** The replies arrive at the client, in order. *)
Fixpoint got_replies (rs : list (conn * bytes)) (clt : rpcc) : res rpcc :=
  match rs with
  | [] => Ok clt
  | (_, b) :: rs' => match got_pdu b clt with Ok (_, clt) => got_replies rs' clt | Crash f => Crash f end
  end.

(** The buffers sent arrive at the server, each is served and answered. *)
Fixpoint serve (c : conn) (bufs : list bytes) (x : ends) : res ends :=
  match bufs with
  | [] => Ok x
  | b :: bufs' =>
      match dispatch c b (snd x) with
      | Crash f => Crash f
      | Ok (rs, srv) =>
          match got_replies rs (fst x) with
          | Crash f => Crash f
          | Ok clt => serve c bufs' (clt, srv)
          end
      end
  end.

(** [call1] with one transmission; a call that is not answered times out, and
    then the reply buffer is not read. *)
Definition call1 (c : conn) (proc : Z) (req : marshall) : M ends (Z * unmarshall) := fun x =>
  match call1_begin proc (fst x) with
  | inl e => Ok ((e, unmarshall_of []), x)
  | inr (h, clt) =>
      match request_pdu h req with
      | Crash f => Crash f
      | Ok b =>
          let '(bufs, clt) := call1_transmit b clt in
          match serve c bufs (clt, snd x) with
          | Crash f => Crash f
          | Ok (clt, srv) =>
              let u := calls clt !! rq_xid h ≫= ca_un in
              match call1_end (u32 (rq_xid h)) (rq_xid_rep h) b clt with
              | None => Crash NullDeref
              | Some (ret, clt) => Ok ((ret, default (unmarshall_of []) u), (clt, srv))
              end
          end
      end
  end.

(** [cl->call(proc, a1, ..., r)] *)
Definition remote_call {R} (cr : codec R) (ps : list param) (c : conn) (proc : Z) (a : args ps) (r : R)
    : M ends (Z * R) :=
  call (call1 c) cr ps proc a r.

(** [rpcc::bind] *)
Definition bind_params : list param := [Param Z c_s32].
Definition bind (c : conn) : M ends Z := fun x =>
  match remote_call c_s32 bind_params c rpc_const.bind (0, tt) 0 x with
  | Crash f => Crash f
  | Ok ((ret, r), (clt, srv)) => Ok (ret, (bind_end ret r clt, srv))
  end.
End remote.
Arguments ends : clear implicits.

(** ** A link that is ready for a call *)

(** No call is under way, nothing is lost on purpose, and the server has seen
    smaller identifiers of this client only. *)
Record ready {S} (clt : rpcc) (srv : @rpcs S) : Prop := {
  rd_live : destroy_wait clt = false;
  rd_reach : reachable clt = true;
  rd_lossy : lossytest clt = 0;
  rd_dup : request_isvalid (dup_req clt) = false;
  rd_calls : calls clt = ∅;
  rd_nonce : 0 < clt_nonce clt < 2 ^ 31;
  rd_xid : 1 <= xid_ clt < 2 ^ 31;
  rd_win : win_below (xid_rep_window clt) (xid_ clt);
  rd_srv : Forall (fun y => y < xid_ clt) (xids (window_of srv (clt_nonce clt))) }.

(** The client is bound to this server. *)
Definition linked {S} (clt : rpcc) (srv : @rpcs S) : Prop :=
  ready clt srv /\ bind_done clt = true /\ srv_nonce clt = nonce_ srv.

(** The server's side may move on, as long as it is not served this client. *)
Lemma ready_other {S T} clt (srv : @rpcs S) (srv' : @rpcs T) :
  ready clt srv -> window_of srv' (clt_nonce clt) = window_of srv (clt_nonce clt) -> ready clt srv'.
Proof. intros [] E. split; try done. by rewrite E. Qed.

(** The client with the request [xid] under way, answered or not. *)
Definition calling (clt : rpcc) (ca : caller) : rpcc :=
  set_calls {[xid_ clt := ca]} (set_xid (xid_ clt + 1) clt).

(** The header of the next call. *)
Definition next_header (proc : Z) (clt : rpcc) : req_header :=
  ReqHeader (xid_ clt) proc (clt_nonce clt) (srv_nonce clt) (hd 0 (xid_rep_window clt)).

(** The client after a call that was answered. *)
Definition called (clt : rpcc) : rpcc :=
  set_window (update_xid_rep (update_xid_rep (xid_rep_window clt) (xid_ clt)) (xid_ clt))
    (set_xid (xid_ clt + 1) clt).

Section laws.
Context `{Mem} {S : Type}.
Implicit Types (clt : rpcc) (srv : @rpcs S).

Lemma in_s_of x : 0 <= x < 2 ^ 31 -> in_s 32 x.
Proof. unfold in_s. lia. Qed.

Lemma u32_of x : 0 <= x < 2 ^ 31 -> u32 x = x.
Proof. intros. apply u32_in. unfold in_u. lia. Qed.

Lemma call1_begin_ready proc clt srv : ready clt srv ->
  bind_done clt = negb (proc =? rpc_const.bind) -> xid_ clt + 1 < 2 ^ 31 ->
  call1_begin proc clt = inr (next_header proc clt, calling clt (Caller None 0 false)).
Proof.
  intros [Hl _ _ _ Hc _ Hx Hw _] Hb Hx1. unfold call1_begin, next_header, calling.
  pose proof (win_below_hd _ _ Hw).
  rewrite Hb, Hl, !andb_negb_r. cbn. rewrite Hc.
  rewrite (s32_id (xid_ clt)), (s32_id (hd _ _)), u32_of by (try apply in_s_of; lia).
  by rewrite insert_empty.
Qed.

Lemma transmit_ready clt srv b ca : ready clt srv ->
  call1_transmit b (calling clt ca) = ([b], calling clt ca).
Proof.
  intros [_ Hr _ Hd _ _ _ _ _]. unfold call1_transmit, calling. cbn. by rewrite Hr, Hd.
Qed.

(** The reply of the call under way completes it. *)
Lemma got_pdu_calling clt srv b ret u : ready clt srv ->
  u_unpack_reply_header (unmarshall_of b) = Ok (ReplyHeader (xid_ clt) ret, u) -> u_ok u = true ->
  got_pdu b (calling clt (Caller None 0 false)) =
    Ok (true, set_window (update_xid_rep (xid_rep_window clt) (xid_ clt))
                (calling clt (Caller (Some (u_take_in u)) ret true))).
Proof.
  intros [_ _ _ _ _ _ Hx _ _] Hu Ho. unfold got_pdu, calling. rewrite Hu, Ho. cbn.
  rewrite u32_of, lookup_singleton_eq by lia. cbn. by rewrite insert_singleton_eq.
Qed.

Lemma call1_end_calling clt srv rep req w u ret : ready clt srv ->
  call1_end (xid_ clt) rep req (set_window w (calling clt (Caller u ret true))) =
    Some (ret, set_window (update_xid_rep w (xid_ clt)) (set_xid (xid_ clt + 1) clt)).
Proof.
  intros [_ _ Hl _ Hc _ Hx _ _]. unfold call1_end, calling. cbn.
  rewrite s32_id, lookup_singleton_eq by (apply in_s_of; lia). cbn. rewrite Hl. cbn.
  rewrite delete_singleton_eq. unfold set_window, set_calls, set_xid. cbn. by rewrite Hc.
Qed.

Lemma called_ready clt srv srv' : ready clt srv -> xid_ clt + 1 < 2 ^ 31 ->
  served (clt_nonce clt) (xid_ clt) srv srv' -> ready (called clt) srv'.
Proof.
  intros [Hl Hr Hy Hd Hc Hn Hx Hw Hs] Hx1 [_ _ _ Hown]. split; cbn; try done; [lia | |].
  - do 2 (apply win_below_update; [|lia]). eapply win_below_mono; [exact Hw | lia].
  - apply Forall_forall. intros y [->|Hy']%Hown; [lia|]. rewrite Forall_forall in Hs.
    specialize (Hs _ Hy'). lia.
Qed.

Section method.
Context {R : Type} (ps : list param) (cr : codec R) (Hps : ParamsOk ps) `{!CodecOk cr}.
Context (meth : args ps -> M S (Z * R)).

(** A call over a ready link is a run of the registered method. *)
Lemma remote_call_ready c proc a r0 clt srv b r st' :
  ready clt srv -> bind_done clt = negb (proc =? rpc_const.bind) ->
  (srv_nonce clt = 0 \/ srv_nonce clt = nonce_ srv) -> in_u 32 (srv_nonce clt) ->
  xid_ clt + 1 < 2 ^ 31 -> in_s 32 proc ->
  procs srv !! proc = Some (reg_fn ps cr meth) -> cn_dead c = false ->
  args_valid ps a -> fits (args_wire ps a) ->
  meth a (app srv) = Ok ((b, r), st') -> 0 <= b < 2 ^ 31 -> c_valid cr r -> fits (c_wire cr r) ->
  exists srv', remote_call cr ps c proc a r0 (clt, srv) = Ok ((b, r), (called clt, srv')) /\
    app srv' = st' /\ ready (called clt) srv' /\ served (clt_nonce clt) (xid_ clt) srv srv'.
Proof.
  intros Hrd Hbd Hsn Hsn' Hx1 Hp Hproc Hc Hv Hf Hm Hb Hr Hfr.
  pose proof (win_below_hd _ _ (rd_win _ _ Hrd)) as Hhd. pose proof (rd_xid _ _ Hrd) as Hx.
  pose proof (rd_nonce _ _ Hrd) as Hn.
  destruct (rpc_exchange ps cr Hps meth c (next_header proc clt) a srv b r st')
    as (m & req & reply & srv' & u & u' & Em & Er & Ed & Ea & Hsv & Eu & Ho & Eg & Ek); try done.
  { unfold req_header_valid, in_s, in_u in *; cbn. lia. }
  { cbn. lia. }
  { cbn. rewrite !u32_of by lia. apply checkduplicate_fresh, (rd_srv _ _ Hrd). }
  cbn in Hsv. rewrite u32_of in Hsv by lia. exists srv'. split.
  2:{ split; [done|]. split; [by eapply called_ready | done]. }
  unfold remote_call, call.
  rewrite (bind_ok (on (marshall_args ps a) new_marshall) _ _ (tt, m) (clt, srv))
    by (unfold on; by rewrite Em). cbv beta iota.
  unfold call_m.
  rewrite (bind_ok (call1 c proc m) _ _ (b, u_take_in u) (called clt, srv')).
  - cbv beta iota. destruct (Z.ltb_spec b 0); [lia|].
    rewrite (bind_ok (on (c_get cr) (u_take_in u)) _ _ (r, u') (called clt, srv'))
      by (unfold on; by rewrite Eg). cbv beta iota. rewrite Ek. done.
  - unfold call1. cbn [fst snd]. rewrite (call1_begin_ready _ _ _ Hrd) by done. rewrite Er.
    rewrite (transmit_ready _ _ _ _ Hrd). cbn [serve snd fst]. rewrite Ed. cbn [got_replies].
    cbn in Eu. rewrite (got_pdu_calling _ _ _ _ _ Hrd Eu Ho). cbn [next_header rq_xid rq_xid_rep].
    rewrite u32_of by lia. rewrite (call1_end_calling _ _ _ _ _ _ _ Hrd).
    cbn. by rewrite lookup_singleton_eq.
Qed.

(** The same for a bound client. *)
Lemma linked_call c proc a r0 clt srv b r st' :
  linked clt srv -> proc <> rpc_const.bind -> in_s 32 proc -> in_u 32 (nonce_ srv) ->
  xid_ clt + 1 < 2 ^ 31 -> procs srv !! proc = Some (reg_fn ps cr meth) -> cn_dead c = false ->
  args_valid ps a -> fits (args_wire ps a) ->
  meth a (app srv) = Ok ((b, r), st') -> 0 <= b < 2 ^ 31 -> c_valid cr r -> fits (c_wire cr r) ->
  exists srv', remote_call cr ps c proc a r0 (clt, srv) = Ok ((b, r), (called clt, srv')) /\
    app srv' = st' /\ linked (called clt) srv' /\ served (clt_nonce clt) (xid_ clt) srv srv'.
Proof.
  intros (Hrd & Hbd & Hsn) Hp Hp' Hns. intros.
  destruct (remote_call_ready c proc a r0 clt srv b r st') as (srv' & E & Ea & Hrd' & Hsv); try done.
  - rewrite Hbd. by destruct (Z.eqb_spec proc rpc_const.bind).
  - by right.
  - by rewrite Hsn.
  - exists srv'. split; [done|]. split; [done|]. split; [|done]. split; [done|]. split; [done|].
    rewrite (sv_nonce _ _ _ _ Hsv). done.
Qed.
End method.

(** ** A request the server cannot read *)

(** Reading [wire] as the parameters [ps] fails or leaves bytes over. *)
Definition unreadable (ps : list param) (wire : bytes) : Prop :=
  forall u, u_fit u -> u_ok u = true -> drop (Z.to_nat (u_ind u)) (u_buf u) = wire ->
  exists x u', unmarshall_args ps u = Ok (x, u') /\ u_okdone u' = false.

(** The server fails a [VERIFY] on such a request. *)
Lemma remote_call_refused {R R'} (ps ps' : list param) (cr : codec R) (cr' : codec R')
    (Hps : ParamsOk ps) (meth : args ps' -> M S (Z * R')) c proc a r0 clt srv :
  linked clt srv -> proc <> rpc_const.bind -> in_s 32 proc -> in_u 32 (nonce_ srv) ->
  xid_ clt + 1 < 2 ^ 31 -> procs srv !! proc = Some (reg_fn ps' cr' meth) ->
  args_valid ps a -> fits (args_wire ps a) -> unreadable ps' (args_wire ps a) ->
  remote_call cr ps c proc a r0 (clt, srv) = Crash AssertFail.
Proof.
  intros (Hrd & Hbd & Hsn) Hp Hp' Hns Hx1 Hproc Hv Hf Hbad.
  pose proof (win_below_hd _ _ (rd_win _ _ Hrd)) as Hhd. pose proof (rd_xid _ _ Hrd) as Hx.
  pose proof (rd_nonce _ _ Hrd) as Hn.
  destruct (request_arrives ps Hps (next_header proc clt) a)
    as (m & req & u & Em & Er & Hun & Hfit & Ho & Hd); [|done..|].
  { unfold req_header_valid, in_s, in_u in *; cbn. lia. }
  destruct (Hbad u Hfit Ho Hd) as (x & u' & Eu & Hk).
  destruct (dispatch_start_new c (next_header proc clt) req (reg_fn ps' cr' meth) u srv)
    as (s1 & E1 & _); try done; [by right | cbn; lia | |].
  { cbn. rewrite !u32_of by lia. apply checkduplicate_fresh, (rd_srv _ _ Hrd). }
  assert (dispatch c req srv = Crash AssertFail) as Ed.
  { unfold dispatch. rewrite (bind_ok _ _ _ _ _ E1). cbv beta iota.
    rewrite (bind_ok _ _ s1 s1 s1 eq_refl). unfold mbind, M_bind.
    assert (forall st, reg_fn ps' cr' meth u new_marshall st =
      Ok ((rpc_const.unmarshal_args_failure, new_marshall), st)) as Ef.
    { intros st. unfold reg_fn. rewrite (bind_ok (on (unmarshall_args ps') u) _ st (x, u') st)
        by (unfold on; by rewrite Eu). cbv beta iota. by rewrite Hk. }
    destruct (counting_ s1 =? 0); cbn; by rewrite Ef. }
  unfold remote_call, call.
  rewrite (bind_ok (on (marshall_args ps a) new_marshall) _ _ (tt, m) (clt, srv))
    by (unfold on; by rewrite Em). cbv beta iota.
  unfold call_m, mbind at 1, M_bind at 1, call1. cbn [fst snd].
  rewrite (call1_begin_ready _ _ _ Hrd) by (try done; rewrite Hbd; by destruct (Z.eqb_spec proc rpc_const.bind)).
  rewrite Er, (transmit_ready _ _ _ _ Hrd). cbn [serve snd fst]. by rewrite Ed.
Qed.

(** The method every server registers for [bind]. *)
Definition bind_handler (nonce : Z) : handler S :=
  reg_fn bind_params c_s32 (fun _ => mret (0, s32 nonce)).

(** [bind] links a new client, when no other client drew its number. *)
Lemma bind_links c rnd srv : 0 < rnd < 2 ^ 31 -> 0 <= nonce_ srv < 2 ^ 31 -> cn_dead c = false ->
  window_of srv rnd = [] -> procs srv !! rpc_const.bind = Some (bind_handler (nonce_ srv)) ->
  exists clt srv', bind c (new_rpcc true rnd 0, srv) = Ok (0, (clt, srv')) /\ linked clt srv' /\
    app srv' = app srv /\ clt_nonce clt = rnd /\ xid_ clt = 2 /\ served rnd 1 srv srv'.
Proof.
  intros Hr Hn Hc Hw Hp.
  assert (s32 (nonce_ srv) = nonce_ srv) as Es by (apply s32_id, in_s_of; lia).
  assert (ready (new_rpcc true rnd 0) srv) as Hrd.
  { split; cbn; rewrite ?u32_of by lia; try done; try lia.
    - split; [done|]. repeat constructor; lia.
    - rewrite Hw. constructor. }
  assert (ParamsOk bind_params) as Hps by (constructor; [apply c_s32_ok | constructor]).
  edestruct (remote_call_ready bind_params c_s32 Hps (fun _ => mret (0, s32 (nonce_ srv))) c
    rpc_const.bind (0, tt) 0 (new_rpcc true rnd 0) srv) as (srv' & E & Ea & Hrd' & Hsv);
    [exact Hrd | reflexivity | by left | | | | exact Hp | exact Hc | | | reflexivity | lia | | |].
  - cbn. unfold in_u. lia.
  - cbn. lia.
  - unfold in_s, rpc_const.bind. lia.
  - cbn. unfold in_s. split; [lia | done].
  - unfold fits. rewrite header_sz. vm_compute. reflexivity.
  - cbn. rewrite Es. apply in_s_of. lia.
  - unfold fits. rewrite header_sz. cbn. lia.
  - unfold bind. rewrite E. exists (bind_end 0 (nonce_ srv) (called (new_rpcc true rnd 0))), srv'.
    cbn in Hsv. rewrite Es. cbn. rewrite (u32_of rnd) in * by lia. rewrite (u32_of (nonce_ srv)) by lia.
    split; [reflexivity|]. split; [|split; [exact Ea|]; split; [reflexivity|];
      split; [reflexivity | exact Hsv]].
    split; [|split; [reflexivity|]].
    + destruct Hrd'. by split.
    + cbn. by rewrite (sv_nonce _ _ _ _ Hsv).
Qed.
End laws.

(** ** Registering methods *)

(** A procedure that is not there yet. *)
Definition with_procs `{Mem} {T} (ps : gmap Z (handler T)) (s : @rpcs T) : @rpcs T :=
  Rpcs (nonce_ s) (counting_ s) (curr_counts s) (counts s) ps (reply_window s) (conns s) (app s).

Lemma reg1_free `{Mem} {T} proc (h : handler T) s : procs s !! proc = None ->
  reg1 proc h s = Ok (tt, with_procs (<[proc := h]> (procs s)) s).
Proof. intros Hp. unfold reg1. by rewrite Hp. Qed.

Ltac reg_step :=
  rewrite reg1_free by (cbn [procs with_procs]; rewrite ?lookup_insert_ne by discriminate; apply lookup_empty);
  cbn [mbind res_bind].
Ltac find_proc :=
  cbn [procs with_procs nonce_]; rewrite ?lookup_insert_ne by discriminate; apply lookup_insert_eq.

Lemma new_rpcs_ok `{Mem} {T} nonce count (a : T) :
  new_rpcs nonce count a =
  Ok (with_procs (<[rpc_const.bind := bind_handler nonce]> ∅) (Rpcs nonce count count ∅ ∅ ∅ ∅ a)).
Proof. reflexivity. Qed.
