(* ===== verification/RpcTest.v ===== *)
(** * The test of the RPC library: rpctest.cc

    The service of src/lab41/rpc/rpctest.cc, [testmarshall], [startserver],
    [simple_tests], [concurrent_test], [lossy_test] and [failure_test], on the endpoints
    of RemoteCall.v: a call is delivered and answered when the server is there
    ([client_call]), and times out when it has been deleted or does not exist.  The
    threads of a test are interleaved call by call, in any order, that is [sched].
    [lossy_test] runs here on a network that loses nothing: what a lossy one does to a
    call is RpcSystem.v.  What the clock shows is [elapsed] and the number of calls
    [client2] has time for; the numbers the constructors and the threads draw from
    [random()] are parameters.  The theorem: no [VERIFY] of the test fails. *)

From S2P Require Import Prelude Marshall RpcServer RpcClient Rpc RpcSystem RemoteCall.

Section rpctest.
Context `{Mem}.
(** The connection the requests arrive on. *)
Variable c : conn.

(** ** class srv *)

Definition strings2 : list param := [Param bytes c_string; Param bytes c_string].
Definition int1 : list param := [Param Z c_s32].

Definition handle_22 (x : args strings2) : M unit (Z * bytes) :=
  let '(a, (b, _)) := x in mret (0, a ++ b).

(** [a + n], which must not leave [int]. *)
Definition add_int (n a : Z) : M unit Z := if INT_MAX <? a + n then crash Overflow else mret (a + n).

(** [handle_fast], and [handle_slow] without its sleep. *)
Definition handle_fast (x : args int1) : M unit (Z * Z) := r ← add_int 1 (fst x); mret (0, r).
Definition handle_slow (x : args int1) : M unit (Z * Z) := r ← add_int 2 (fst x); mret (0, r).

(** [std::string(len, 'x')]: a negative length is a huge unsigned one. *)
Definition handle_bigrep (x : args int1) : M unit (Z * bytes) :=
  if fst x <? 0 then crash Uncaught else mret (0, replicate (Z.to_nat (fst x)) x78).

(** ** testmarshall *)

Definition VERIFY (b : bool) : res unit := if b then Ok tt else Crash AssertFail.

#[export] Instance req_header_eq_dec : EqDecision req_header.
Proof. solve_decision. Defined.

Definition testmarshall : res unit :=
  let rh := ReqHeader 1 2 3 4 5 in
  '(_, m) ← m_pack_req_header rh new_marshall;
  VERIFY (m_ind m =? RPC_HEADER_SZ) ≫= fun _ =>
  let i := 12345 in let l := 1223344455 in let s := str "hallo...." in
  '(_, m) ← m_put_s32 i m;
  '(_, m) ← m_put_u64 l m;
  '(_, m) ← m_put_string s m;
  let sz := m_ind m in
  VERIFY (sz =? RPC_HEADER_SZ + 4 + 8 + Z.of_nat (length s) + 4) ≫= fun _ =>
  '(rh1, un) ← u_unpack_req_header (unmarshall_of (m_pdu m));
  VERIFY (bool_decide (rh = rh1)) ≫= fun _ =>
  '(i1, un) ← u_get_s32 un;
  '(l1, un) ← u_get_u64 un;
  '(s1, un) ← u_get_string [] un;
  VERIFY (u_okdone un) ≫= fun _ =>
  VERIFY ((i1 =? i) && (l1 =? l) && bool_decide (s1 = s)).

(** ** The processes *)

Record world := World { server : option (@rpcs unit); clients : list rpcc }.

Definition startserver (nonce : Z) : M world unit := fun w =>
  s ← new_rpcs nonce 0 tt;
  '(_, s) ← reg1 22 (reg_fn strings2 c_string handle_22) s;
  '(_, s) ← reg1 23 (reg_fn int1 c_s32 handle_fast) s;
  '(_, s) ← reg1 24 (reg_fn int1 c_s32 handle_slow) s;
  '(_, s) ← reg1 25 (reg_fn int1 c_string handle_bigrep) s;
  Ok (tt, World (Some s) (clients w)).

(** [delete server] *)
Definition delete_server : M world unit := modS (fun w => World None (clients w)).

(** [clients[i] = new rpcc(dst)], with [rnd] from [random()]; [clients[NUM_CL]] is the
    client of its own of [failure_test]. *)
Definition new_client (i : nat) (rnd : Z) : M world unit :=
  modS (fun w => World (server w) (<[i := new_rpcc true rnd 0]> (clients w))).

Definition NUM_CL : nat := 2.
Definition new_world : world := World None (replicate (S NUM_CL) (new_rpcc true 0 0)).

(** [call1] when nobody answers: nothing arrives until the deadline. *)
Definition call1_lost (proc : Z) (req : marshall) : M rpcc (Z * unmarshall) := fun clt =>
  match call1_begin proc clt with
  | inl e => Ok ((e, unmarshall_of []), clt)
  | inr (h, clt) =>
      match request_pdu h req with
      | Crash f => Crash f
      | Ok b =>
          let '(_, clt) := call1_transmit b clt in
          match call1_end (u32 (rq_xid h)) (rq_xid_rep h) b clt with
          | None => Crash NullDeref
          | Some (ret, clt) => Ok ((ret, unmarshall_of []), clt)
          end
      end
  end.

(** [clients[i]->call(proc, a..., r)] *)
Definition client_call {R} (cr : codec R) (ps : list param) (i : nat) (proc : Z) (a : args ps) (r : R)
    : M world (Z * R) := fun w =>
  match clients w !! i with
  | None => Crash NullDeref
  | Some clt =>
      match server w with
      | Some srv =>
          match remote_call cr ps c proc a r (clt, srv) with
          | Ok (x, (clt, srv)) => Ok (x, World (Some srv) (<[i := clt]> (clients w)))
          | Crash f => Crash f
          end
      | None =>
          match call call1_lost cr ps proc a r clt with
          | Ok (x, clt) => Ok (x, World None (<[i := clt]> (clients w)))
          | Crash f => Crash f
          end
      end
  end.

(** [clients[i]->bind()] *)
Definition client_bind (i : nat) : M world Z :=
  '(ret, r) ← client_call c_s32 bind_params i rpc_const.bind (0, tt) 0;
  modS (fun w => World (server w) (alter (bind_end ret r) i (clients w))) ≫= fun _ => mret ret.

(** [bind] of a client of an address where no server is. *)
Definition bind_nowhere (rnd : Z) : M world Z := fun w =>
  match call call1_lost c_s32 bind_params rpc_const.bind (0, tt) 0 (new_rpcc true rnd 0) with
  | Ok ((ret, _), _) => Ok (ret, w)
  | Crash f => Crash f
  end.

(** ** simple_tests *)

Definition call22 (i : nat) (a b rep : bytes) : M world (Z * bytes) := client_call c_string strings2 i 22 (a, (b, tt)) rep.
Definition call23 (i : nat) (a rep : Z) : M world (Z * Z) := client_call c_s32 int1 i 23 (a, tt) rep.
Definition call24 (i : nat) (a rep : Z) : M world (Z * Z) := client_call c_s32 int1 i 24 (a, tt) rep.
Definition call25 (i : nat) (a : Z) (rep : bytes) : M world (Z * bytes) := client_call c_string int1 i 25 (a, tt) rep.

Definition size_is (rep : bytes) (n : Z) : bool := Z.of_nat (length rep) =? n.

(** [string(n, 'x')] *)
Definition xs (n : Z) : bytes := replicate (Z.to_nat n) x78.

Definition simple_tests (i : nat) (rnd elapsed : Z) : M world unit :=
  '(intret, rep) ← call22 i (str "hello") (str " goodbye") [];
  verify (intret =? 0) ≫= fun _ =>
  verify (bool_decide (rep = str "hello goodbye")) ≫= fun _ =>
  '(intret, rep) ← call25 i 70000 rep;
  verify (intret =? 0) ≫= fun _ =>
  verify (size_is rep 70000) ≫= fun _ =>
  '(intret, xx) ← call23 i 77 0;
  verify ((intret =? 0) && (xx =? 78)) ≫= fun _ =>
  '(_, rep1) ← call22 i (xs 1000) (str "x") [];
  verify (size_is rep1 1001) ≫= fun _ =>
  '(_, rep) ← call22 i (xs 1000000) (str "z") rep;
  verify (size_is rep 1000001) ≫= fun _ =>
  intret ← bind_nowhere rnd;
  verify ((intret <? 0) && (elapsed <=? 4)).

(** ** concurrent_test *)

(** The calls of [client1] on [clients[which_cl]]: [r k] is the [k]-th number it gets
    from [random()], and [junk] what is in the unset [rep]. *)
Definition big_call (which_cl : nat) (arg : Z) : M world unit :=
  '(ret, rep) ← call25 which_cl arg [];
  verify (ret =? 0) ≫= fun _ => verify (size_is rep arg).

Definition small_call (which_cl : nat) (which : bool) (arg junk : Z) : M world unit :=
  '(ret, rep) ← (if which then call23 which_cl arg junk else call24 which_cl arg junk);
  verify (ret =? 0) ≫= fun _ => verify (rep =? (if which then arg + 1 else arg + 2)).

Definition client1 (r : nat -> Z) (junk : Z) (xx : nat) : list (M world unit) :=
  let which_cl := (xx mod NUM_CL)%nat in
  ((fun i => big_call which_cl (r i mod 2000)) <$> seq 0 100) ++
  ((fun i => small_call which_cl (negb (r (100 + 2 * i)%nat mod 2 =? 0)) (r (101 + 2 * i)%nat mod 1000) junk) <$> seq 0 100).

(** The threads [ths], one call of the thread [sched] names after the other. *)
Fixpoint concurrently (sched : list nat) (ths : list (list (M world unit))) : M world unit :=
  match sched with
  | [] => mret tt
  | t :: sched' =>
      match ths !! t with
      | Some (x :: l) => x ≫= fun _ => concurrently sched' (<[t := l]> ths)
      | _ => concurrently sched' ths
      end
  end.

Definition concurrent_test (nt : nat) (r : nat -> nat -> Z) (junk : Z) (sched : list nat) : M world unit :=
  concurrently sched ((fun t => client1 (r t) junk t) <$> seq 0 nt).

(** ** lossy_test *)

(** The calls [client2] has time for. *)
Definition client2 (r : nat -> Z) (ncalls xx : nat) : list (M world unit) :=
  let which_cl := (xx mod NUM_CL)%nat in
  (fun i => let arg := r i mod 2000 in
            '(_, rep) ← call25 which_cl arg [];
            verify (size_is rep arg)) <$> seq 0 ncalls.

(** [clients[i] = new rpcc(dst); VERIFY(clients[i]->bind() == 0)] for [i < NUM_CL] *)
Definition bind_clients (rnd0 rnd1 : Z) : M world unit :=
  new_client 0 rnd0 ≫= fun _ => ret ← client_bind 0; verify (ret =? 0) ≫= fun _ =>
  new_client 1 rnd1 ≫= fun _ => ret ← client_bind 1; verify (ret =? 0).

Definition lossy_test (nonce rnd0 rnd1 : Z) (r : nat -> Z) (ncalls : nat) (sched : list nat) : M world unit :=
  delete_server ≫= fun _ => startserver nonce ≫= fun _ =>
  bind_clients rnd0 rnd1 ≫= fun _ =>
  concurrently sched [client2 r ncalls 0].

(** ** failure_test *)

Definition client3 (which_cl : nat) (junk : Z) : list (M world unit) :=
  (fun i => '(ret, rep) ← call24 which_cl i junk;
            verify ((ret =? rpc_const.timeout_failure) || (rep =? i + 2))) <$> seqZ 0 4.

Definition failure_test (n1 n2 rnd1 rnd2 rnd3 junk : Z) (sched1 sched2 : list nat) : M world unit :=
  delete_server ≫= fun _ =>
  new_client NUM_CL rnd1 ≫= fun _ =>
  r ← client_bind NUM_CL;
  verify (r <? 0) ≫= fun _ =>
  startserver n1 ≫= fun _ =>
  '(intret, rep) ← call22 0 (str "hello") (str " goodbye") [];
  verify (intret =? rpc_const.oldsrv_failure) ≫= fun _ =>
  new_client 0 rnd2 ≫= fun _ =>
  r ← client_bind 0; verify (0 <=? r) ≫= fun _ =>
  r ← client_bind 0; verify (r <? 0) ≫= fun _ =>
  '(intret, rep) ← call22 0 (str "hello") (str " goodbye") rep;
  verify (intret =? 0) ≫= fun _ =>
  verify (bool_decide (rep = str "hello goodbye")) ≫= fun _ =>
  concurrently sched1 (replicate 10 (client3 0 junk)) ≫= fun _ =>
  delete_server ≫= fun _ =>
  startserver n2 ≫= fun _ =>
  new_client 0 rnd3 ≫= fun _ =>
  r ← client_bind 0; verify (0 <=? r) ≫= fun _ =>
  concurrently sched2 (replicate 10 (client3 0 junk)).

(** ** main, with the server and the clients in one process *)

(** What touches neither server nor client. *)
Definition lift {A} (r : res A) : M world A := fun w => x ← r; Ok (x, w).

(** [nonce k] is what the [k]-th server draws, [rnd k] the [k]-th client. *)
Definition main (nonce rnd : nat -> Z) (elapsed junk : Z) (r : nat -> nat -> Z) (ncalls : nat)
    (sched0 sched1 sched2 sched3 : list nat) : M world unit :=
  lift testmarshall ≫= fun _ =>
  startserver (nonce 0%nat) ≫= fun _ =>
  bind_clients (rnd 0%nat) (rnd 1%nat) ≫= fun _ =>
  simple_tests 0 (rnd 2%nat) elapsed ≫= fun _ =>
  concurrent_test 10 r junk sched0 ≫= fun _ =>
  lossy_test (nonce 1%nat) (rnd 3%nat) (rnd 4%nat) (r 10%nat) ncalls sched1 ≫= fun _ =>
  failure_test (nonce 2%nat) (nonce 3%nat) (rnd 5%nat) (rnd 6%nat) (rnd 7%nat) junk sched2 sched3.

Lemma testmarshall_passes : testmarshall = Ok tt.
Proof. vm_compute. reflexivity. Qed.
End rpctest.

(** ** A server that was restarted *)

Section old_client.
Context `{Mem} {S : Type}.
Implicit Types (clt : rpcc) (srv : @rpcs S).

Lemma failure_reply_ok xid ret srv : in_s 32 xid -> in_s 32 ret -> exists b u,
  failure_reply xid ret srv = Ok (b, srv) /\
  u_unpack_reply_header (unmarshall_of b) = Ok (ReplyHeader xid ret, u) /\ u_ok u = true.
Proof.
  intros Hx Hr. destruct (writes_nil new_marshall) as (m & [= <-] & Hm);
    [apply new_marshall_fit | by rewrite (proj2 new_marshall_fit), header_sz|].
  destruct (reply_pdu_ok (ReplyHeader xid ret) [] new_marshall) as (m' & a4 & gap & Em & Hp & Ha & Hg);
    [by unfold fits; rewrite header_sz | done|].
  exists (m_pdu m'). eexists. split.
  - unfold failure_reply. by rewrite (bind_ok _ _ srv (tt, m') srv) by (unfold on; by rewrite Em).
  - rewrite (unpack_reply_header_ok (ReplyHeader xid ret) (m_pdu m') a4 (gap ++ [])); try done.
    rewrite Hp, !length_app, Ha, Hg, length_reply_wire. done.
Qed.

(** [dispatch] refuses a request meant for another server, and changes nothing. *)
Lemma dispatch_other_server (c : conn) h buf u srv :
  u_unpack_req_header (unmarshall_of buf) = Ok (h, u) -> u_ok u = true ->
  rq_srv_nonce h <> 0 -> rq_srv_nonce h <> nonce_ srv -> in_s 32 (rq_xid h) ->
  exists b u', dispatch c buf srv = Ok ([(c, b)], srv) /\
    u_unpack_reply_header (unmarshall_of b) = Ok (ReplyHeader (rq_xid h) rpc_const.oldsrv_failure, u') /\ u_ok u' = true.
Proof.
  intros Hu Ho H0 Hn Hx.
  destruct (failure_reply_ok (rq_xid h) rpc_const.oldsrv_failure srv Hx) as (b & u' & Hb & Hb'); [done|].
  exists b, u'. split; [|done]. unfold dispatch, dispatch_start.
  assert (forall A (k : req_header * unmarshall -> M (@rpcs S) A), (on u_unpack_req_header (unmarshall_of buf) ≫= k) srv = k (h, u) srv) as Hk
    by (intros A k; apply bind_ok; unfold on; by rewrite Hu).
  rewrite (bind_ok _ _ srv (Answer b) srv); [done|]. rewrite Hk. cbv beta iota. rewrite Ho. cbn [negb].
  rewrite (bind_ok _ _ srv srv srv eq_refl).
  rewrite (proj2 (Z.eqb_neq _ _) H0), (proj2 (Z.eqb_neq _ _) Hn). cbn [negb andb].
  by rewrite (bind_ok _ _ srv b srv Hb).
Qed.

(** A client of the old server learns of it. *)
Lemma remote_call_old {R} (ps : list param) (cr : codec R) (Hps : ParamsOk ps) c proc a r0 clt srv :
  ready clt srv -> bind_done clt = true -> proc <> rpc_const.bind -> in_s 32 proc ->
  in_u 32 (srv_nonce clt) -> srv_nonce clt <> 0 -> srv_nonce clt <> nonce_ srv -> xid_ clt + 1 < 2 ^ 31 ->
  args_valid ps a -> fits (args_wire ps a) ->
  remote_call cr ps c proc a r0 (clt, srv) = Ok ((rpc_const.oldsrv_failure, r0), (called clt, srv)).
Proof.
  intros Hrd Hbd Hp Hp' Hns H0 Hne Hx1 Hv Hf.
  pose proof (win_below_hd _ _ (rd_win _ _ Hrd)) as Hhd. pose proof (rd_xid _ _ Hrd) as Hx.
  pose proof (rd_nonce _ _ Hrd) as Hn.
  destruct (request_arrives ps Hps (next_header proc clt) a)
    as (m & req & u & Em & Er & Hun & Hfit & Ho & Hd); [|done..|].
  { unfold req_header_valid, in_s, in_u in *; cbn. lia. }
  destruct (dispatch_other_server c (next_header proc clt) req u srv) as (b & u' & Ed & Hb & Ho'); try done.
  { unfold in_s. cbn. lia. }
  unfold remote_call, call.
  rewrite (bind_ok (on (marshall_args ps a) new_marshall) _ _ (tt, m) (clt, srv)) by (unfold on; by rewrite Em).
  cbv beta iota. unfold call_m.
  rewrite (bind_ok (call1 c proc m) _ _ (rpc_const.oldsrv_failure, u_take_in u') (called clt, srv)); [done|].
  unfold call1. cbn [fst snd].
  rewrite (call1_begin_ready _ _ _ Hrd) by (try done; rewrite Hbd; by destruct (Z.eqb_spec proc rpc_const.bind)).
  rewrite Er, (transmit_ready _ _ _ _ Hrd). cbn [serve snd fst]. rewrite Ed. cbn [got_replies].
  cbn in Hb. rewrite (got_pdu_calling _ _ _ _ _ Hrd Hb Ho'). cbn [next_header rq_xid rq_xid_rep].
  rewrite u32_of by lia. rewrite (call1_end_calling _ _ _ _ _ _ _ Hrd). cbn. by rewrite lookup_singleton_eq.
Qed.

(** The call of a client that nobody answers. *)
Lemma call_lost {R} (ps : list param) (cr : codec R) (Hps : ParamsOk ps) proc a r0 clt srv :
  ready clt srv -> bind_done clt = negb (proc =? rpc_const.bind) -> in_s 32 proc -> in_u 32 (srv_nonce clt) ->
  xid_ clt + 1 < 2 ^ 31 -> args_valid ps a -> fits (args_wire ps a) ->
  exists clt', call call1_lost cr ps proc a r0 clt = Ok ((rpc_const.timeout_failure, r0), clt').
Proof.
  intros Hrd Hbd Hp' Hns Hx1 Hv Hf.
  pose proof (win_below_hd _ _ (rd_win _ _ Hrd)) as Hhd. pose proof (rd_xid _ _ Hrd) as Hx.
  pose proof (rd_nonce _ _ Hrd) as Hn.
  destruct (request_arrives ps Hps (next_header proc clt) a)
    as (m & req & u & Em & Er & _); [|done..|].
  { unfold req_header_valid, in_s, in_u in *; cbn. lia. }
  eexists. unfold call. rewrite (bind_ok (on (marshall_args ps a) new_marshall) _ _ (tt, m) clt) by (unfold on; by rewrite Em).
  cbv beta iota. unfold call_m.
  rewrite (bind_ok (call1_lost proc m) _ _ (rpc_const.timeout_failure, unmarshall_of []) (set_window (update_xid_rep (xid_rep_window clt) (xid_ clt)) (set_xid (xid_ clt + 1) clt))); [reflexivity|].
  unfold call1_lost. rewrite (call1_begin_ready _ _ _ Hrd) by done. rewrite Er, (transmit_ready _ _ _ _ Hrd).
  unfold call1_end, calling, next_header. cbn. rewrite u32_of, s32_id, lookup_singleton_eq by (try apply in_s_of; lia).
  cbn. rewrite delete_singleton_eq. unfold set_window, set_calls, set_xid. cbn. by rewrite (rd_calls _ _ Hrd).
Qed.

(** A client that is bound does not bind again. *)
Lemma bind_again {R} (ps : list param) (cr : codec R) (Hps : ParamsOk ps) c a r0 clt srv :
  bind_done clt = true -> args_valid ps a -> fits (args_wire ps a) ->
  remote_call cr ps c rpc_const.bind a r0 (clt, srv) = Ok ((rpc_const.bind_failure, r0), (clt, srv)).
Proof.
  intros Hb Hv Hf. destruct (writes_args ps a Hps Hv new_marshall) as (m & Em & _);
    [apply new_marshall_fit | rewrite (proj2 new_marshall_fit); exact Hf|].
  unfold remote_call, call. rewrite (bind_ok _ _ _ (tt, m) (clt, srv)) by (unfold on; by rewrite Em).
  cbv beta iota. unfold call_m. rewrite (bind_ok (call1 c _ m) _ _ (rpc_const.bind_failure, unmarshall_of []) (clt, srv)); [reflexivity|].
  unfold call1, call1_begin. cbn [fst]. by rewrite Hb.
Qed.
End old_client.

(** ** Clients that are bound to the server *)

Section proof.
Context `{Mem}.
Variable c : conn.
Hypothesis Hc : cn_dead c = false.

#[local] Instance strings2_ok : ParamsOk strings2.
Proof. repeat constructor; apply c_string_ok. Qed.
#[local] Instance int1_ok : ParamsOk int1.
Proof. repeat constructor; apply c_s32_ok. Qed.
#[local] Instance bind_params_ok : ParamsOk bind_params.
Proof. repeat constructor; apply c_s32_ok. Qed.

Record registered (srv : @rpcs unit) : Prop := {
  rg_bind : procs srv !! rpc_const.bind = Some (bind_handler (nonce_ srv));
  rg_22 : procs srv !! 22 = Some (reg_fn strings2 c_string handle_22);
  rg_23 : procs srv !! 23 = Some (reg_fn int1 c_s32 handle_fast);
  rg_24 : procs srv !! 24 = Some (reg_fn int1 c_s32 handle_slow);
  rg_25 : procs srv !! 25 = Some (reg_fn int1 c_string handle_bigrep) }.

(** The clients [L] are bound to the server [srv], are different ones, and have [n]
    identifiers left; the server knows no other client. *)
Record good (L : list nat) (n : Z) (w : world) (srv : @rpcs unit) : Prop := {
  gd_server : server w = Some srv;
  gd_len : length (clients w) = S NUM_CL;
  gd_reg : registered srv;
  gd_nonce : 0 < nonce_ srv < 2 ^ 31;
  gd_linked i : i ∈ L -> exists clt, clients w !! i = Some clt /\ linked clt srv /\ xid_ clt + n < 2 ^ 31;
  gd_apart i j ci cj : i ∈ L -> j ∈ L -> i <> j -> clients w !! i = Some ci -> clients w !! j = Some cj ->
    clt_nonce ci <> clt_nonce cj;
  gd_known k : (forall i ci, i ∈ L -> clients w !! i = Some ci -> clt_nonce ci <> k) -> window_of srv k = [] }.

Lemma good_less L n n' w srv : n' <= n -> good L n w srv -> good L n' w srv.
Proof.
  intros Hn [H1 H2 H3 H4 H5 H6 H7]. split; try done. intros i Hi. destruct (H5 i Hi) as (clt & ? & ? & ?).
  exists clt. split_and!; [done..|lia].
Qed.

Lemma linked_served clt k x (srv srv' : @rpcs unit) : linked clt srv -> served k x srv srv' -> clt_nonce clt <> k ->
  linked clt srv'.
Proof.
  intros (Hr & Hb & Hn) Hs Hk. split; [|split; [done|by rewrite (sv_nonce _ _ _ _ Hs)]].
  eapply ready_other; [exact Hr|]. by apply (sv_other _ _ _ _ Hs).
Qed.

(** A call leaves the clients bound, with one identifier less. *)
Lemma call_good {R} (ps : list param) (cr : codec R) (Hps : ParamsOk ps) `{!CodecOk cr} (meth : args ps -> M unit (Z * R))
    L n w srv i proc a r0 b r :
  good L n w srv -> i ∈ L -> 1 <= n -> proc <> rpc_const.bind -> in_s 32 proc ->
  procs srv !! proc = Some (reg_fn ps cr meth) ->
  args_valid ps a -> fits (args_wire ps a) -> meth a tt = Ok ((b, r), tt) -> 0 <= b < 2 ^ 31 ->
  c_valid cr r -> fits (c_wire cr r) ->
  exists w' srv', client_call c cr ps i proc a r0 w = Ok ((b, r), w') /\ good L (n - 1) w' srv' /\ nonce_ srv' = nonce_ srv.
Proof.
  intros Hg Hi Hn Hp Hp' Hproc Hv Hf Hm Hb Hr Hfr. destruct (gd_linked _ _ _ _ Hg i Hi) as (clt & Hclt & Hl & Hx).
  pose proof (gd_nonce _ _ _ _ Hg).
  assert (meth a (app srv) = Ok ((b, r), tt)) as Hm' by (by destruct (app srv)).
  destruct (linked_call ps cr Hps meth c proc a r0 clt srv b r tt) as (srv' & E & Ea & Hl' & Hs); try done.
  { unfold in_u. lia. }
  { lia. }
  unfold client_call. rewrite Hclt, (gd_server _ _ _ _ Hg), E. eexists _, srv'. split; [reflexivity|].
  split; [|apply (sv_nonce _ _ _ _ Hs)].
  assert (forall j cj, j ∈ L -> <[i := called clt]> (clients w) !! j = Some cj ->
    exists cj0, clients w !! j = Some cj0 /\ clt_nonce cj0 = clt_nonce cj) as Hsame.
  { intros j cj Hj. destruct (decide (i = j)) as [<-|Hij].
    - rewrite list_lookup_insert_eq by (by eapply lookup_lt_Some). intros [= <-]. eauto.
    - rewrite list_lookup_insert_ne by done. eauto. }
  split; cbn [server clients].
  - done.
  - rewrite length_insert. apply (gd_len _ _ _ _ Hg).
  - destruct (gd_reg _ _ _ _ Hg). pose proof (sv_nonce _ _ _ _ Hs) as Hnn. pose proof (sv_procs _ _ _ _ Hs) as Hpp.
    split; by rewrite ?Hnn, Hpp.
  - by rewrite (sv_nonce _ _ _ _ Hs).
  - intros j Hj. destruct (decide (i = j)) as [<-|Hij].
    + exists (called clt). rewrite list_lookup_insert_eq by (by eapply lookup_lt_Some). split_and!; [done..|]. cbn. lia.
    + destruct (gd_linked _ _ _ _ Hg j Hj) as (cj & Hcj & Hlj & Hxj). exists cj. rewrite list_lookup_insert_ne by done.
      split_and!; [done| |lia]. eapply linked_served; [done|exact Hs|]. intros Heq.
      exact (gd_apart _ _ _ _ Hg j i cj clt Hj Hi (not_eq_sym Hij) Hcj Hclt Heq).
  - intros j k cj ck Hj Hk Hjk Hcj Hck. destruct (Hsame j cj Hj Hcj) as (cj0 & Hcj0 & <-).
    destruct (Hsame k ck Hk Hck) as (ck0 & Hck0 & <-).
    exact (gd_apart _ _ _ _ Hg j k cj0 ck0 Hj Hk Hjk Hcj0 Hck0).
  - intros k Hk. rewrite (sv_other _ _ _ _ Hs).
    + apply (gd_known _ _ _ _ Hg). intros j cj Hj Hcj. destruct (decide (i = j)) as [<-|Hij].
      * simplify_eq. apply (Hk i (called clt)); [done|]. by rewrite list_lookup_insert_eq by (by eapply lookup_lt_Some).
      * apply (Hk j cj); [done|]. by rewrite list_lookup_insert_ne.
    + intros ->. apply (Hk i (called clt)); [done| |done]. by rewrite list_lookup_insert_eq by (by eapply lookup_lt_Some).
Qed.

(** ** Parts of the test that run on bound clients *)

(** [m] runs with [k] identifiers and has a result in [Q]. *)
Definition runs {A} (L : list nat) (k : Z) (m : M world A) (Q : A -> Prop) : Prop :=
  forall n w srv, good L n w srv -> k <= n -> exists x w' srv',
    m w = Ok (x, w') /\ Q x /\ good L (n - k) w' srv' /\ nonce_ srv' = nonce_ srv.

Lemma runs_ret {A} L (x : A) (Q : A -> Prop) : Q x -> runs L 0 (mret x) Q.
Proof. intros Hq n w srv Hg Hn. exists x, w, srv. split_and!; [done..| |done]. eapply good_less; [|exact Hg]. lia. Qed.

Lemma runs_bind {A B} L k1 k2 (m : M world A) (f : A -> M world B) Q1 Q2 : 0 <= k2 ->
  runs L k1 m Q1 -> (forall x, Q1 x -> runs L k2 (f x) Q2) -> runs L (k1 + k2) (m ≫= f) Q2.
Proof.
  intros Hk Hm Hf n w srv Hg Hn. destruct (Hm n w srv Hg ltac:(lia)) as (x & w1 & s1 & E1 & Hq & Hg1 & N1).
  destruct (Hf x Hq (n - k1) w1 s1 Hg1 ltac:(lia)) as (y & w2 & s2 & E2 & Hq2 & Hg2 & N2).
  exists y, w2, s2. rewrite (bind_ok _ _ _ _ _ E1). split_and!; [done..| |congruence].
  by replace (n - (k1 + k2)) with (n - k1 - k2) by lia.
Qed.

Lemma runs_verify L b : b = true -> runs L 0 (verify b) (fun _ => True).
Proof. intros ->. by apply (runs_ret L tt). Qed.

Lemma runs_verify_then {B} L k b (f : unit -> M world B) Q : 0 <= k -> b = true -> runs L k (f tt) Q ->
  runs L k (verify b ≫= f) Q.
Proof.
  intros Hk Hb Hf. change k with (0 + k). eapply runs_bind; [done|by apply runs_verify|]. by intros [] _.
Qed.

Lemma runs_weaken {A} L k k' (m : M world A) (Q Q' : A -> Prop) : k <= k' -> (forall x, Q x -> Q' x) ->
  runs L k m Q -> runs L k' m Q'.
Proof.
  intros Hk Hq Hm n w srv Hg Hn. destruct (Hm n w srv Hg ltac:(lia)) as (x & w1 & s1 & E1 & Hq1 & Hg1 & N1).
  exists x, w1, s1. split_and!; [done|auto| |done]. eapply good_less; [|exact Hg1]. lia.
Qed.

Definition short (b : bytes) : Prop := Z.of_nat (length b) < 2 ^ 29.

Lemma fits_strings2 a b : short a -> short b -> Z.of_nat (length a) + Z.of_nat (length b) < 2 ^ 29 ->
  args_valid strings2 (a, (b, tt)) /\ fits (args_wire strings2 (a, (b, tt))).
Proof.
  unfold short, fits. intros Ha Hb Hab. split.
  - cbn. unfold INT_MAX. split_and!; try done; lia.
  - rewrite header_sz. cbn [strings2 args_wire p_codec p_type fst snd c_string c_wire]. rewrite !length_app.
    cbn [length be32 app]. lia.
Qed.

Lemma fits_string b : short b -> c_valid c_string b /\ fits (c_wire c_string b).
Proof.
  unfold short, fits. intros Hb. split; [cbn; unfold INT_MAX; lia|]. rewrite header_sz. cbn [c_string c_wire]. rewrite length_app. cbn [length be32]. lia.
Qed.

Lemma fits_int1 a : in_s 32 a -> args_valid int1 (a, tt) /\ fits (args_wire int1 (a, tt)).
Proof. intros Ha. split; [by split|]. unfold fits. rewrite header_sz. done. Qed.

Lemma fits_s32 a : in_s 32 a -> c_valid c_s32 a /\ fits (c_wire c_s32 a).
Proof. intros Ha. split; [done|]. unfold fits. rewrite header_sz. done. Qed.

Lemma runs_22 L i a b rep : i ∈ L -> Z.of_nat (length a) + Z.of_nat (length b) < 2 ^ 29 ->
  runs L 1 (call22 c i a b rep) (fun x => x = (0, a ++ b)).
Proof.
  intros Hi Hab n w srv Hg Hn.
  destruct (fits_strings2 a b) as [Hv Hf]; [unfold short; lia|unfold short; lia|done|].
  destruct (fits_string (a ++ b)) as [Hv' Hf']; [unfold short; rewrite length_app; lia|].
  destruct (call_good strings2 c_string _ handle_22 L n w srv i 22 (a, (b, tt)) rep 0 (a ++ b)) as (w' & srv' & E & Hg' & N); try done.
  - apply (rg_22 _ (gd_reg _ _ _ _ Hg)).
  - exists (0, a ++ b), w', srv'. done.
Qed.

Lemma add_int_ok n a : a + n <= INT_MAX -> add_int n a tt = Ok (a + n, tt).
Proof. unfold add_int. intros Ha. by rewrite (proj2 (Z.ltb_ge _ _)). Qed.

Lemma runs_23 L i a rep : i ∈ L -> - 2 ^ 31 <= a < INT_MAX -> runs L 1 (call23 c i a rep) (fun x => x = (0, a + 1)).
Proof.
  intros Hi Ha n w srv Hg Hn. unfold INT_MAX in Ha.
  destruct (fits_int1 a) as [Hv Hf]; [unfold in_s; lia|]. destruct (fits_s32 (a + 1)) as [Hv' Hf']; [unfold in_s; lia|].
  destruct (call_good int1 c_s32 _ handle_fast L n w srv i 23 (a, tt) rep 0 (a + 1)) as (w' & srv' & E & Hg' & N); try done.
  - apply (rg_23 _ (gd_reg _ _ _ _ Hg)).
  - unfold handle_fast. by rewrite (bind_ok _ _ _ _ _ (add_int_ok 1 a ltac:(unfold INT_MAX; lia))).
  - exists (0, a + 1), w', srv'. done.
Qed.

Lemma runs_24 L i a rep : i ∈ L -> - 2 ^ 31 <= a < INT_MAX - 1 -> runs L 1 (call24 c i a rep) (fun x => x = (0, a + 2)).
Proof.
  intros Hi Ha n w srv Hg Hn. unfold INT_MAX in Ha.
  destruct (fits_int1 a) as [Hv Hf]; [unfold in_s; lia|]. destruct (fits_s32 (a + 2)) as [Hv' Hf']; [unfold in_s; lia|].
  destruct (call_good int1 c_s32 _ handle_slow L n w srv i 24 (a, tt) rep 0 (a + 2)) as (w' & srv' & E & Hg' & N); try done.
  - apply (rg_24 _ (gd_reg _ _ _ _ Hg)).
  - unfold handle_slow. by rewrite (bind_ok _ _ _ _ _ (add_int_ok 2 a ltac:(unfold INT_MAX; lia))).
  - exists (0, a + 2), w', srv'. done.
Qed.

Lemma runs_25 L i a rep : i ∈ L -> 0 <= a < 2 ^ 29 -> runs L 1 (call25 c i a rep) (fun x => x = (0, xs a)).
Proof.
  intros Hi Ha n w srv Hg Hn.
  destruct (fits_int1 a) as [Hv Hf]; [unfold in_s; lia|].
  destruct (fits_string (xs a)) as [Hv' Hf']; [unfold short, xs; rewrite length_replicate; lia|].
  destruct (call_good int1 c_string _ handle_bigrep L n w srv i 25 (a, tt) rep 0 (xs a)) as (w' & srv' & E & Hg' & N); try done.
  - apply (rg_25 _ (gd_reg _ _ _ _ Hg)).
  - unfold handle_bigrep. cbn [fst]. by rewrite (proj2 (Z.ltb_ge a 0)) by lia.
  - exists (0, xs a), w', srv'. done.
Qed.

(** ** Servers and clients come up *)

Lemma startserver_ok nonce w : exists srv, startserver nonce w = Ok (tt, World (Some srv) (clients w)) /\
  registered srv /\ nonce_ srv = nonce /\ forall k, window_of srv k = [].
Proof.
  unfold startserver. rewrite new_rpcs_ok. cbn [mbind res_bind]. do 4 reg_step.
  eexists. split; [reflexivity|]. split; [split; find_proc|]. split; [reflexivity|].
  intros k. unfold window_of. cbn [with_procs reply_window]. by rewrite lookup_empty.
Qed.

Lemma good_none n w srv : server w = Some srv -> length (clients w) = S NUM_CL -> registered srv -> 0 < nonce_ srv < 2 ^ 31 ->
  (forall k, window_of srv k = []) -> good [] n w srv.
Proof. intros Hs Hl Hr Hn Hw. split; try done; intros; set_solver. Qed.

(** The bind of a new client. *)
Lemma bind_new i rnd clt srv w : clients w !! i = Some clt -> server w = Some srv -> clt = new_rpcc true rnd 0 ->
  0 < rnd < 2 ^ 31 -> 0 < nonce_ srv < 2 ^ 31 -> window_of srv rnd = [] -> registered srv ->
  exists clt' srv', client_bind c i w = Ok (0, World (Some srv') (<[i := clt']> (clients w))) /\
    linked clt' srv' /\ app srv' = app srv /\ clt_nonce clt' = rnd /\ xid_ clt' = 2 /\ served rnd 1 srv srv'.
Proof.
  intros Hi Hs -> Hr Hn Hw Hreg.
  destruct (bind_links c rnd srv Hr ltac:(lia) Hc Hw (rg_bind _ Hreg)) as (clt & srv' & E & Hl & Ha & Hn' & Hx & Hsv).
  unfold bind in E. destruct (remote_call _ _ _ _ _ _ _) as [[[ret r] [clt0 srv0]]|] eqn:Er; [|done].
  injection E as -> <- <-. exists (bind_end 0 r clt0), srv0.
  split; [|exact (conj Hl (conj Ha (conj Hn' (conj Hx Hsv))))].
  unfold client_bind, client_call. rewrite (bind_ok _ _ w (0, r) (World (Some srv0) (<[i := clt0]> (clients w))));
    [|by rewrite Hi, Hs, Er].
  cbv beta iota. unfold mbind, M_bind, modS, mret, M_ret. cbn [server clients]. do 3 f_equal.
  apply list_eq. intros j. destruct (decide (i = j)) as [<-|Hij].
  - rewrite list_lookup_alter_eq, !list_lookup_insert_eq by (by eapply lookup_lt_Some). done.
  - by rewrite list_lookup_alter_ne, !list_lookup_insert_ne by done.
Qed.

Lemma client_up L n w srv i rnd : good L n w srv -> i ∉ L -> (i < S NUM_CL)%nat -> 0 < rnd < 2 ^ 31 -> n + 2 < 2 ^ 31 ->
  (forall j cj, j ∈ L -> clients w !! j = Some cj -> clt_nonce cj <> rnd) ->
  exists w' srv', (new_client i rnd ≫= fun _ => client_bind c i) w = Ok (0, w') /\ good (i :: L) n w' srv' /\
    nonce_ srv' = nonce_ srv /\ (exists clt, clients w' !! i = Some clt /\ clt_nonce clt = rnd).
Proof.
  intros Hg Hi Hlt Hr Hn Hne. rewrite <- (gd_len _ _ _ _ Hg) in Hlt. set (w1 := World (server w) (<[i := new_rpcc true rnd 0]> (clients w))).
  destruct (bind_new i rnd (new_rpcc true rnd 0) srv w1) as (clt & srv' & E & Hl & _ & Hcn & Hx & Hs).
  { unfold w1. cbn. by rewrite list_lookup_insert_eq. }
  { apply (gd_server _ _ _ _ Hg). }
  { done. }
  { done. }
  { apply (gd_nonce _ _ _ _ Hg). }
  { by apply (gd_known _ _ _ _ Hg). }
  { apply (gd_reg _ _ _ _ Hg). }
  pose proof (sv_nonce _ _ _ _ Hs) as Hnn. pose proof (sv_procs _ _ _ _ Hs) as Hpp.
  assert (forall j, i <> j -> clients (World (Some srv') (<[i := clt]> (clients w1))) !! j = clients w !! j) as Hother
    by (intros j Hj; cbn; by rewrite !list_lookup_insert_ne).
  assert (clients (World (Some srv') (<[i := clt]> (clients w1))) !! i = Some clt) as Hthis
    by (cbn; by rewrite list_lookup_insert_eq by (by rewrite length_insert)).
  assert (forall j, j ∈ L -> i <> j) as HL by (intros j Hj ->; done).
  eexists _, srv'. split; [unfold new_client; rewrite (bind_ok _ _ w tt w1) by done; exact E|].
  split; [|split; [done|by exists clt]].
  split; [done| | | | | |].
  - cbn. rewrite !length_insert. apply (gd_len _ _ _ _ Hg).
  - destruct (gd_reg _ _ _ _ Hg). split; by rewrite ?Hnn, Hpp.
  - rewrite Hnn. apply (gd_nonce _ _ _ _ Hg).
  - intros j [->|Hj]%elem_of_cons.
    + exists clt. split_and!; [done|done|lia].
    + rewrite Hother by auto. destruct (gd_linked _ _ _ _ Hg j Hj) as (cj & Hcj & Hlj & Hxj). exists cj.
      split_and!; [done| |done]. eapply linked_served; [done|exact Hs|by eapply Hne].
  - intros j k cj ck [->|Hj]%elem_of_cons [->|Hk]%elem_of_cons Hjk; [done|..].
    + rewrite Hthis, Hother by auto. intros [= <-] Hck. rewrite Hcn. symmetry. by eapply Hne.
    + rewrite Hthis, Hother by auto. intros Hcj [= <-]. rewrite Hcn. by eapply Hne.
    + rewrite !Hother by auto. by apply (gd_apart _ _ _ _ Hg).
  - intros k Hk. rewrite (sv_other _ _ _ _ Hs).
    + apply (gd_known _ _ _ _ Hg). intros j cj Hj Hcj. apply (Hk j cj); [by right|]. by rewrite Hother by auto.
    + intros ->. apply (Hk i clt); [by left|done|done].
Qed.

(** A new client of no server. *)
Lemma new_ready rnd : 0 < rnd < 2 ^ 31 -> exists srv : @rpcs unit, ready (new_rpcc true rnd 0) srv.
Proof.
  intros Hr. exists (Rpcs 0 0 0 ∅ ∅ ∅ ∅ tt). split; cbn; rewrite ?u32_of by lia; try done; try lia.
  split; [done|]. repeat constructor; lia.
Qed.

Lemma lost_bind rnd : 0 < rnd < 2 ^ 31 -> exists clt,
  call call1_lost c_s32 bind_params rpc_const.bind (0, tt) 0 (new_rpcc true rnd 0) = Ok ((rpc_const.timeout_failure, 0), clt).
Proof.
  intros Hr. destruct (new_ready rnd Hr) as [srv Hrd]. eapply (call_lost bind_params c_s32); [apply _|exact Hrd|done|..].
  - unfold in_s, rpc_const.bind. lia.
  - cbn. unfold in_u. lia.
  - cbn. lia.
  - cbn. unfold in_s. lia.
  - unfold fits. rewrite header_sz. done.
Qed.

(** ** The tests *)

Ltac with_call L := eapply (runs_bind _ 1); [lia | apply L; [set_solver | ..] | intros x ->; cbv beta iota].
Ltac checked := apply runs_verify_then; [lia | | ].

Lemma length_xs n : 0 <= n -> Z.of_nat (length (xs n)) = n.
Proof. intros Hn. unfold xs. rewrite length_replicate. lia. Qed.

Lemma size_xs n s m : 0 <= n -> n + Z.of_nat (length s) = m -> size_is (xs n ++ s) m = true.
Proof. intros Hn Hm. unfold size_is. apply Z.eqb_eq. rewrite length_app, Nat2Z.inj_add, length_xs by done. done. Qed.

Lemma size_xs0 n : 0 <= n -> size_is (xs n) n = true.
Proof. intros Hn. apply Z.eqb_eq. by apply length_xs. Qed.

#[local] Opaque xs testmarshall.

Lemma runs_nowhere L rnd : 0 < rnd < 2 ^ 31 -> runs L 0 (bind_nowhere rnd) (fun r => r < 0).
Proof.
  intros Hr n w srv Hg Hn. destruct (lost_bind rnd Hr) as [clt E]. exists rpc_const.timeout_failure, w, srv.
  unfold bind_nowhere. rewrite E. split; [reflexivity|]. split; [unfold rpc_const.timeout_failure; lia|].
  split; [|reflexivity]. eapply good_less; [|exact Hg]. lia.
Qed.

Lemma simple_tests_pass L rnd elapsed : 0%nat ∈ L -> 0 < rnd < 2 ^ 31 -> elapsed <= 4 ->
  runs L 5 (simple_tests c 0 rnd elapsed) (fun _ => True).
Proof.
  intros HL Hr He. unfold simple_tests.
  eapply (runs_bind L 1 4); [lia|apply runs_22; [done|done]|intros ? ->; cbv beta iota].
  checked; [done|]. checked; [by apply bool_decide_eq_true|].
  eapply (runs_bind L 1 3); [lia|apply runs_25; [done|lia]|intros ? ->; cbv beta iota].
  checked; [done|]. checked; [apply size_xs0; lia|].
  eapply (runs_bind L 1 2); [lia|apply runs_23; [done|unfold INT_MAX; lia]|intros ? ->; cbv beta iota].
  checked; [done|].
  eapply (runs_bind L 1 1); [lia|apply runs_22; [done|rewrite length_xs by lia; simpl; lia]|intros ? ->; cbv beta iota].
  checked; [apply size_xs; [lia|reflexivity]|].
  eapply (runs_bind L 1 0); [lia|apply runs_22; [done|rewrite length_xs by lia; change (Z.of_nat (length (str "z"))) with 1; lia]|intros ? ->; cbv beta iota].
  checked; [apply size_xs; [lia|reflexivity]|].
  eapply (runs_bind L 0 0); [lia|by apply runs_nowhere|intros r Hneg]. apply runs_verify.
  apply andb_true_iff. simpl in Hneg. lia.
Qed.

Definition item (L : list nat) (m : M world unit) : Prop := runs L 1 m (fun _ => True).

Lemma big_item L i arg : i ∈ L -> 0 <= arg < 2 ^ 29 -> item L (big_call c i arg).
Proof.
  intros Hi Ha. unfold item, big_call. eapply (runs_bind L 1 0); [lia|by apply runs_25|intros ? ->; cbv beta iota].
  checked; [done|]. apply runs_verify. apply size_xs0. lia.
Qed.

Lemma small_item L i which arg junk : i ∈ L -> 0 <= arg < 2 ^ 29 -> item L (small_call c i which arg junk).
Proof.
  intros Hi Ha. unfold item, small_call. destruct which.
  - eapply (runs_bind L 1 0); [lia|apply runs_23; [done|unfold INT_MAX; lia]|intros ? ->; cbv beta iota].
    checked; [done|]. apply runs_verify. lia.
  - eapply (runs_bind L 1 0); [lia|apply runs_24; [done|unfold INT_MAX; lia]|intros ? ->; cbv beta iota].
    checked; [done|]. apply runs_verify. lia.
Qed.

Lemma client1_items L r junk xx : 0%nat ∈ L -> 1%nat ∈ L -> Forall (item L) (client1 c r junk xx).
Proof.
  intros H0 H1. assert ((xx mod NUM_CL)%nat ∈ L) as Hi.
  { pose proof (Nat.mod_upper_bound xx NUM_CL ltac:(done)) as Hb. unfold NUM_CL in *.
    destruct (xx mod 2)%nat as [|[|]] eqn:E; [done|done|lia]. }
  unfold client1. apply Forall_app. split; apply Forall_fmap, Forall_true; intros i.
  - pose proof (Z.mod_pos_bound (r i) 2000 ltac:(lia)). exact (big_item L _ (r i mod 2000) Hi ltac:(lia)).
  - apply small_item; [exact Hi|]. pose proof (Z.mod_pos_bound (r (101 + 2 * i)%nat) 1000). lia.
Qed.

Lemma client3_items L i junk : i ∈ L -> Forall (item L) (client3 c i junk).
Proof.
  intros Hi. apply Forall_fmap, Forall_forall. intros k Hk%elem_of_seqZ. unfold item.
  eapply (runs_bind L 1 0); [lia|apply runs_24; [done|unfold INT_MAX; lia]|intros ? ->; cbv beta iota].
  apply runs_verify. apply orb_true_iff. right. lia.
Qed.

Definition calls_left (ths : list (list (M world unit))) : Z := Z.of_nat (sum_list_with length ths).

Lemma calls_left_next ths t x l : ths !! t = Some (x :: l) -> calls_left (<[t := l]> ths) + 1 = calls_left ths.
Proof.
  unfold calls_left. revert t. induction ths as [|y ths IH]; intros [|t] Ht; simplify_eq/=; [lia|]. specialize (IH t Ht). lia.
Qed.

Lemma runs_concurrently L sched : forall ths, Forall (Forall (item L)) ths ->
  runs L (calls_left ths) (concurrently sched ths) (fun _ => True).
Proof.
  induction sched as [|t sched IH]; intros ths Hf; simpl.
  { eapply runs_weaken; [|done|by apply (runs_ret L tt (fun _ => True))]. unfold calls_left. lia. }
  destruct (ths !! t) as [[|x l]|] eqn:Ht; [by apply IH| |by apply IH].
  rewrite <- (calls_left_next _ _ _ _ Ht). rewrite Z.add_comm.
  rewrite Forall_forall in Hf. pose proof (Hf _ (list_elem_of_lookup_2 _ _ _ Ht)) as [Hx Hl]%Forall_cons.
  eapply (runs_bind L 1); [unfold calls_left; lia|exact Hx|]. intros _ _. apply IH.
  apply Forall_insert; [by apply Forall_forall|done].
Qed.

Lemma calls_left_const ths k : Forall (fun l => length l = k) ths -> calls_left ths = Z.of_nat (length ths * k).
Proof. unfold calls_left. induction 1 as [|l ths Hl _ IH]; simpl; [done|]. lia. Qed.

Lemma concurrent_pass L nt r junk sched : 0%nat ∈ L -> 1%nat ∈ L ->
  runs L (Z.of_nat (nt * 200)) (concurrent_test c nt r junk sched) (fun _ => True).
Proof.
  intros H0 H1. unfold concurrent_test.
  assert (calls_left ((fun t => client1 c (r t) junk t) <$> seq 0 nt) = Z.of_nat (nt * 200)) as <-.
  { rewrite (calls_left_const _ 200), length_fmap, length_seq; [done|]. apply Forall_fmap, Forall_true. intros t.
    change (length (client1 c (r t) junk t) = 200%nat). unfold client1. by rewrite length_app, !length_fmap, !length_seq. }
  apply runs_concurrently, Forall_fmap, Forall_true. intros t. exact (client1_items L (r t) junk t H0 H1).
Qed.

Lemma client3_pass L i junk sched nt : i ∈ L ->
  runs L (Z.of_nat (nt * 4)) (concurrently sched (replicate nt (client3 c i junk))) (fun _ => True).
Proof.
  intros Hi. assert (calls_left (replicate nt (client3 c i junk)) = Z.of_nat (nt * 4)) as <-.
  { rewrite (calls_left_const _ 4), length_replicate; [done|]. by apply Forall_replicate. }
  apply runs_concurrently, Forall_replicate. exact (client3_items L i junk Hi).
Qed.

(** ** Steps between servers *)

Lemma ready_fresh {S T} clt (srv : @rpcs S) (srv' : @rpcs T) : ready clt srv -> window_of srv' (clt_nonce clt) = [] ->
  ready clt srv'.
Proof. intros [] E. split; try done. rewrite E. constructor. Qed.

Lemma bind_down i rnd w : server w = None -> (i < length (clients w))%nat -> 0 < rnd < 2 ^ 31 ->
  exists w', (new_client i rnd ≫= fun _ => client_bind c i) w = Ok (rpc_const.timeout_failure, w') /\
    server w' = None /\ length (clients w') = length (clients w) /\ forall j, j <> i -> clients w' !! j = clients w !! j.
Proof.
  intros Hs Hi Hr. destruct (lost_bind rnd Hr) as [clt E].
  unfold new_client. rewrite (bind_ok _ _ w tt (World (server w) (<[i := new_rpcc true rnd 0]> (clients w)))) by done.
  unfold client_bind, client_call.
  rewrite (bind_ok _ _ _ (rpc_const.timeout_failure, 0) (World None (<[i := clt]> (<[i := new_rpcc true rnd 0]> (clients w)))));
    [|cbn [clients server]; by rewrite list_lookup_insert_eq, Hs, E].
  cbv beta iota. eexists. split; [reflexivity|]. cbn [server clients]. split; [done|].
  split; [by rewrite length_alter, !length_insert|]. intros j Hj.
  by rewrite list_lookup_alter_ne, !list_lookup_insert_ne by done.
Qed.

Lemma bind_twice L n w srv i : good L n w srv -> i ∈ L -> client_bind c i w = Ok (rpc_const.bind_failure, w).
Proof.
  intros Hg Hi. destruct (gd_linked _ _ _ _ Hg i Hi) as (clt & Hclt & (Hrd & Hb & _) & _).
  assert (args_valid bind_params (0, tt) /\ fits (args_wire bind_params (0, tt))) as [Hv Hf].
  { split; [cbn; unfold in_s; split; [lia|done]|]. unfold fits. rewrite header_sz. done. }
  unfold client_bind, client_call. rewrite (bind_ok _ _ w (rpc_const.bind_failure, 0) w).
  - cbv beta iota. unfold mbind, M_bind, modS, mret, M_ret. do 2 f_equal. destruct w as [sv cls]. cbn [server clients]. f_equal.
    apply list_eq. intros j. destruct (decide (i = j)) as [<-|Hij].
    + rewrite list_lookup_alter_eq. cbn in Hclt. rewrite Hclt. done.
    + by rewrite list_lookup_alter_ne.
  - rewrite Hclt, (gd_server _ _ _ _ Hg), (bind_again bind_params c_s32 bind_params_ok c (0, tt) 0 clt srv Hb Hv Hf).
    do 2 f_equal.
    pose proof (gd_server _ _ _ _ Hg) as Hs. destruct w as [sv cls]. cbn in *. by rewrite Hs, list_insert_id.
Qed.

Lemma old_client_fails i w clt (srv0 srv1 : @rpcs unit) a b rep : clients w !! i = Some clt -> server w = Some srv1 ->
  linked clt srv0 -> xid_ clt + 1 < 2 ^ 31 -> 0 < nonce_ srv0 < 2 ^ 31 -> nonce_ srv1 <> nonce_ srv0 ->
  window_of srv1 (clt_nonce clt) = [] -> Z.of_nat (length a) + Z.of_nat (length b) < 2 ^ 29 ->
  call22 c i a b rep w = Ok ((rpc_const.oldsrv_failure, rep), World (Some srv1) (<[i := called clt]> (clients w))).
Proof.
  intros Hi Hs (Hrd & Hb & Hn) Hx Hr Hne Hw Hab.
  destruct (fits_strings2 a b) as [Hv Hf]; [unfold short; lia|unfold short; lia|done|].
  unfold call22, client_call. rewrite Hi, Hs. rewrite (remote_call_old strings2 c_string strings2_ok); try done.
  - by eapply ready_fresh.
  - unfold in_u. lia.
  - lia.
  - congruence.
Qed.

Lemma verify_true {B} b (k : unit -> M world B) w : b = true -> (verify b ≫= k) w = k tt w.
Proof. intros ->. done. Qed.

(** A new client on a server that knows none, and the two clients of the test. *)
Lemma alone_up n w srv i rnd {B} (k : Z -> M world B) : server w = Some srv -> length (clients w) = S NUM_CL ->
  registered srv -> 0 < nonce_ srv < 2 ^ 31 -> (forall k, window_of srv k = []) -> (i < S NUM_CL)%nat ->
  0 < rnd < 2 ^ 31 -> n + 2 < 2 ^ 31 ->
  exists w' srv', (new_client i rnd ≫= fun _ => client_bind c i ≫= k) w = k 0 w' /\ good [i] n w' srv' /\
    nonce_ srv' = nonce_ srv /\ exists clt, clients w' !! i = Some clt /\ clt_nonce clt = rnd.
Proof.
  intros Hs Hlen Hr Hn Hw Hi Hrnd Hb.
  destruct (client_up [] n w srv i rnd) as (w' & srv' & E & Hg & N & Hclt);
    [exact (good_none n w srv Hs Hlen Hr Hn Hw)|set_solver|exact Hi|exact Hrnd|exact Hb|set_solver|].
  exists w', srv'. split; [|split; [exact Hg|split; [exact N|exact Hclt]]].
  by rewrite bind_seq_assoc, (bind_ok _ _ _ _ _ E).
Qed.

Lemma clients_up n w srv rnd0 rnd1 {B} (k : unit -> M world B) : server w = Some srv -> length (clients w) = S NUM_CL ->
  registered srv -> 0 < nonce_ srv < 2 ^ 31 -> (forall k, window_of srv k = []) ->
  0 < rnd0 < 2 ^ 31 -> 0 < rnd1 < 2 ^ 31 -> rnd0 <> rnd1 -> n + 2 < 2 ^ 31 ->
  exists w' srv', (bind_clients c rnd0 rnd1 ≫= k) w = k tt w' /\ good [1%nat; 0%nat] n w' srv' /\ nonce_ srv' = nonce_ srv.
Proof.
  intros Hs Hlen Hr Hn Hw H0 H1 Hd Hb.
  destruct (alone_up n w srv 0 rnd0 (fun ret => verify (ret =? 0) ≫= fun _ =>
    new_client 1 rnd1 ≫= fun _ => client_bind c 1 ≫= fun ret => verify (ret =? 0)) Hs Hlen Hr Hn Hw
    ltac:(unfold NUM_CL; lia) H0 Hb) as (w1 & srv1 & E1 & Hg1 & N1 & clt & Hclt & Hcn).
  destruct (client_up [0%nat] n w1 srv1 1 rnd1) as (w2 & srv2 & E2 & Hg2 & N2 & _);
    [exact Hg1|set_solver|unfold NUM_CL; lia|exact H1|exact Hb|..].
  { intros j cj ->%list_elem_of_singleton Hcj. congruence. }
  exists w2, srv2. split; [|split; [exact Hg2|congruence]].
  apply bind_ok. unfold bind_clients. rewrite E1, verify_true by done.
  by rewrite bind_seq_assoc, (bind_ok _ _ _ _ _ E2).
Qed.

(** A part on bound clients, in front of the rest. *)
Lemma runs_then {A B} L k n (m : M world A) (Q : A -> Prop) (f : A -> M world B) w srv : runs L k m Q -> good L n w srv -> k <= n ->
  exists x w' srv', (m ≫= f) w = f x w' /\ Q x /\ good L (n - k) w' srv' /\ nonce_ srv' = nonce_ srv.
Proof.
  intros Hm Hg Hk. destruct (Hm n w srv Hg Hk) as (x & w' & srv' & E & ? & ? & ?). exists x, w', srv'.
  split_and!; try done. by apply bind_ok.
Qed.

(** ** failure_test *)

(** The part at the head of the goal runs, by [H], on the bound clients of [Hg]. *)
Ltac part_runs H Hg w' srv' Hg' :=
  match goal with |- exists w0, (?m ≫= ?k) ?w = _ =>
    let E := fresh "E" in let N := fresh "N" in
    destruct (runs_then _ _ _ m _ k w _ H Hg ltac:(cbn; lia)) as (? & w' & srv' & E & ? & Hg' & N); rewrite E; clear E;
    simplify_eq; cbv beta iota end.

(** A client that was given a fresh server: the end of [failure_test]. *)
Lemma last_part n2 rnd3 junk sched w : length (clients w) = S NUM_CL -> 0 < n2 < 2 ^ 31 -> 0 < rnd3 < 2 ^ 31 ->
  exists w', (startserver n2 ≫= fun _ => new_client 0 rnd3 ≫= fun _ => client_bind c 0 ≫= fun r =>
    verify (0 <=? r) ≫= fun _ => concurrently sched (replicate 10 (client3 c 0 junk))) w = Ok (tt, w').
Proof.
  intros Hlen Hn Hr. destruct (startserver_ok n2 w) as (srv & E & Hreg & Hnn & Hw).
  rewrite (bind_ok _ _ _ _ _ E). rewrite <- Hnn in Hn.
  destruct (alone_up 100 (World (Some srv) (clients w)) srv 0 rnd3 (fun r => verify (0 <=? r) ≫= fun _ =>
    concurrently sched (replicate 10 (client3 c 0 junk))) eq_refl Hlen Hreg Hn Hw ltac:(unfold NUM_CL; lia) Hr
    ltac:(lia)) as (w1 & srv1 & E1 & Hg & _).
  rewrite E1, verify_true by done.
  destruct (client3_pass [0%nat] 0 junk sched 10 ltac:(left) _ _ _ Hg ltac:(cbn; lia)) as ([] & w2 & ? & E2 & _). eauto.
Qed.

Lemma failure_test_passes n n0 n1 n2 rnd1 rnd2 rnd3 junk sched1 sched2 w srv0 L : good L n w srv0 -> 0%nat ∈ L -> 1 <= n ->
  nonce_ srv0 = n0 -> n1 <> n0 -> 0 < n1 < 2 ^ 31 -> 0 < n2 < 2 ^ 31 ->
  0 < rnd1 < 2 ^ 31 -> 0 < rnd2 < 2 ^ 31 -> 0 < rnd3 < 2 ^ 31 ->
  exists w', failure_test c n1 n2 rnd1 rnd2 rnd3 junk sched1 sched2 w = Ok (tt, w').
Proof.
  intros Hg HL Hn Hn0 Hne Hn1 Hn2 Hr1 Hr2 Hr3. unfold failure_test. pose proof (gd_len _ _ _ _ Hg) as Hlen.
  rewrite (bind_ok delete_server _ w tt (World None (clients w))) by done.
  destruct (bind_down NUM_CL rnd1 (World None (clients w))) as (w1 & E1 & Hs1 & Hl1 & Hsame);
    [done|cbn [clients]; rewrite Hlen; unfold NUM_CL; lia|exact Hr1|]. cbn [clients] in Hl1, Hsame.
  rewrite bind_seq_assoc, (bind_ok _ _ _ _ _ E1), verify_true by done.
  destruct (startserver_ok n1 w1) as (srv1 & E2 & Hreg & Hnn & Hw). rewrite (bind_ok _ _ _ _ _ E2).
  destruct (gd_linked _ _ _ _ Hg 0%nat HL) as (clt & Hclt & Hl & Hx).
  rewrite (bind_ok _ _ _ _ _ (old_client_fails 0 (World (Some srv1) (clients w1)) clt srv0 srv1 (str "hello") (str " goodbye") []
    ltac:(cbn [clients]; rewrite Hsame; done) eq_refl Hl ltac:(lia) (gd_nonce _ _ _ _ Hg) ltac:(congruence) (Hw _) ltac:(done))).
  cbv beta iota. rewrite verify_true by done. cbn [clients]. rewrite <- Hnn in Hn1.
  match goal with |- exists w', (new_client 0 rnd2 ≫= fun _ => client_bind c 0 ≫= ?k) ?w2 = _ =>
    destruct (alone_up 100 w2 srv1 0 rnd2 k eq_refl ltac:(cbn [clients]; rewrite length_insert; lia) Hreg Hn1 Hw
      ltac:(unfold NUM_CL; lia) Hr2 ltac:(lia)) as (w3 & srv3 & E3 & Hg3 & N3 & _) end.
  rewrite E3, verify_true by done.
  rewrite (bind_ok _ _ _ _ _ (bind_twice _ _ _ _ 0 Hg3 ltac:(left))), verify_true by done.
  part_runs (runs_22 [0%nat] 0 (str "hello") (str " goodbye") [] ltac:(left) ltac:(done)) Hg3 w4 srv4 Hg4.
  rewrite !verify_true by done.
  part_runs (client3_pass [0%nat] 0 junk sched1 10 ltac:(left)) Hg4 w5 srv5 Hg5.
  rewrite (bind_ok delete_server _ w5 tt (World None (clients w5))) by done.
  apply last_part; [exact (gd_len _ _ _ _ Hg5)|exact Hn2|exact Hr3].
Qed.

(** ** lossy_test *)

Lemma client2_items L r ncalls xx : (xx mod NUM_CL)%nat ∈ L -> Forall (item L) (client2 c r ncalls xx).
Proof.
  intros Hi. apply Forall_fmap, Forall_true. intros i. pose proof (Z.mod_pos_bound (r i) 2000 ltac:(lia)) as Hb.
  cbv beta zeta delta [compose]. eapply (runs_bind L 1 0); [lia|apply runs_25; [exact Hi|lia]|intros ? ->; cbv beta iota].
  apply runs_verify, size_xs0. lia.
Qed.

(** [lossy_test] runs on any clients and gives a new server and two clients that are bound to it. *)
Lemma lossy_test_passes {B} (k : unit -> M world B) nonce rnd0 rnd1 r ncalls sched w : length (clients w) = S NUM_CL ->
  0 < nonce < 2 ^ 31 -> 0 < rnd0 < 2 ^ 31 -> 0 < rnd1 < 2 ^ 31 -> rnd0 <> rnd1 -> Z.of_nat ncalls < 2 ^ 31 - 4 ->
  exists w' srv', (lossy_test c nonce rnd0 rnd1 r ncalls sched ≫= k) w = k tt w' /\ good [1%nat; 0%nat] 1 w' srv' /\
    nonce_ srv' = nonce.
Proof.
  intros Hlen Hn H0 H1 Hd Hcalls. destruct (startserver_ok nonce (World None (clients w))) as (srv & E & Hreg & Hnn & Hw).
  rewrite <- Hnn in Hn.
  destruct (clients_up (2 ^ 31 - 3) (World (Some srv) (clients w)) srv rnd0 rnd1
    (fun _ => concurrently sched [client2 c r ncalls 0]) eq_refl Hlen Hreg Hn Hw H0 H1 Hd ltac:(lia)) as (w1 & srv1 & E1 & Hg1 & N1).
  assert (calls_left [client2 c r ncalls 0] = Z.of_nat ncalls) as Hleft.
  { unfold calls_left, client2. simpl. rewrite length_fmap, length_seq. lia. }
  assert (runs [1%nat; 0%nat] (calls_left [client2 c r ncalls 0]) (concurrently sched [client2 c r ncalls 0]) (fun _ => True)) as Hrun.
  { apply runs_concurrently, Forall_singleton, client2_items. right. left. }
  destruct (Hrun _ _ _ Hg1 ltac:(lia)) as ([] & w2 & srv2 & E2 & _ & Hg2 & N2).
  exists w2, srv2. split; [|split; [eapply good_less; [|exact Hg2]; lia|congruence]].
  apply bind_ok. unfold lossy_test. rewrite (bind_ok delete_server _ w tt (World None (clients w))) by done.
  rewrite (bind_ok _ _ _ _ _ E). cbn [clients]. by rewrite E1.
Qed.

End proof.

#[local] Existing Instance zero_mem.

