(* ===== verification/CallLoop.v ===== *)
(** * The waiting loop of a call

    [rpcc::call1] of src/lab41/rpc/rpc.cc between its two critical sections: it
    sends the request, waits with deadlines that double, sends again on a new
    connection when the old one died, and gives up at the final deadline. *)

From S2P Require Import Prelude Marshall RpcServer RpcClient.

(** [rpcc::to_max], [rpcc::to_min] in milliseconds *)
Definition to_max : Z := 120000.
Definition to_min : Z := 1000.

(** What one turn of the loop sees: the channel [get_refconn] gives (none when it
    cannot connect), whether the client is [reachable_], whether [dup_req_] holds a
    request that is to be sent again ([xid_rep_done_ > dup_req_.xid]), the clock when
    the deadline is set, whether the reply came before the deadline, and whether the
    channel is dead after the wait. *)
Record turn := Turn {
  tn_chan : option Z; tn_reach : bool; tn_forgot : bool; tn_now : timespec; tn_done : bool; tn_dead : bool }.

(** [curr_to], [finaldeadline], [transmit], [ch], the channels the request and the old
    request were sent on so far, and the number of waits. *)
Record loop := Loop {
  lp_to : Z; lp_final : timespec; lp_transmit : bool; lp_ch : option Z;
  lp_sent : list Z; lp_dup : list Z; lp_waits : Z }.

(** [if (transmit) ...]: [get_refconn] leaves [ch] as it is when there is no
    channel; on the channel it has, the request is sent once, behind the old one. *)
Definition loop_send (t : turn) (l : loop) : loop :=
  if lp_transmit l then
    let ch := match tn_chan t with Some c => Some c | None => lp_ch l end in
    let on := match ch with Some c => if tn_reach t then [c] else [] | None => [] end in
    Loop (lp_to l) (lp_final l) false ch (lp_sent l ++ on) (lp_dup l ++ if tn_forgot t then on else []) (lp_waits l)
  else l.

(** The next deadline and what is left of the final one. *)
Definition next_deadline (now : timespec) (l : loop) : res (timespec * timespec) :=
  d ← add_timespec now (lp_to l);
  Ok (if 0 <? cmp_timespec d (lp_final l)
      then (lp_final l, Timespec 0 (tv_nsec (lp_final l))) else (d, lp_final l)).

(** After a wait that ended at its deadline; [curr_to.to <<= 1] overflows an
    [int] at 2^31. *)
Definition loop_again (retrans : bool) (t : turn) (l : loop) : res loop :=
  let dead := match lp_ch l with None => true | Some _ => tn_dead t end in
  if lp_to l * 2 <? 2 ^ 31
  then Ok (Loop (lp_to l * 2) (lp_final l) (retrans && dead || lp_transmit l) (lp_ch l)
             (lp_sent l) (lp_dup l) (lp_waits l))
  else Crash Overflow.

(** The loop from turn [i] on; the result is [ca.done] and the last state. *)
Fixpoint call1_loop (fuel : nat) (retrans : bool) (env : nat -> turn) (i : nat) (l : loop)
    : res (bool * loop) :=
  match fuel with
  | O => Crash NoFuel
  | S fuel' =>
      let t := env i in
      let l := loop_send t l in
      if tv_sec (lp_final l) =? 0 then Ok (false, l) else
      '(_, final) ← next_deadline (tn_now t) l;
      let l := Loop (lp_to l) final (lp_transmit l) (lp_ch l) (lp_sent l) (lp_dup l) (lp_waits l + 1) in
      if tn_done t then Ok (true, l)
      else l ← loop_again retrans t l; call1_loop fuel' retrans env (S i) l
  end.

(** [call1] with the timeout [to] at time [now]. *)
Definition call1_wait (fuel : nat) (retrans : bool) (env : nat -> turn) (now : timespec) (to : Z)
    : res (bool * loop) :=
  final ← add_timespec now to;
  call1_loop fuel retrans env 0 (Loop to_min final true None [] [] 0).

(** ** Deadlines *)

Definition normal (t : timespec) : Prop := 0 <= tv_nsec t <= 1000000000.

(** The comparison agrees with the time, but for ties of a deadline whose
    nanoseconds are 10^9. *)
Lemma cmp_timespec_spec a b : normal a -> normal b ->
  (nanos b < nanos a -> cmp_timespec a b = 1) /\ (cmp_timespec a b = 1 -> nanos b <= nanos a).
Proof.
  unfold normal, nanos, cmp_timespec. intros Ha Hb.
  destruct (Z.ltb_spec (tv_sec b) (tv_sec a)); [split; lia|].
  destruct (Z.ltb_spec (tv_sec a) (tv_sec b)); [split; lia|].
  destruct (Z.ltb_spec (tv_nsec b) (tv_nsec a)); [split; lia|].
  destruct (Z.ltb_spec (tv_nsec a) (tv_nsec b)); split; lia.
Qed.

(** The clock: readings are proper times, a wait that ends without the reply ends
    at its deadline or later, and the clock does not go back.  The deadline of turn
    [i] is [2^i] seconds after the reading of that turn, or the final one. *)
Record clock_ok (env : nat -> turn) (start : timespec) (to : Z) : Prop := {
  ck_normal i : 0 <= tv_nsec (tn_now (env i)) < 1000000000;
  ck_start : nanos start <= nanos (tn_now (env 0%nat));
  ck_wait i : tn_done (env i) = false ->
    Z.min (nanos (tn_now (env i)) + 1000000000 * 2 ^ Z.of_nat i) (nanos start + to * 1000000)
      <= nanos (tn_now (env (S i))) }.

Section run.
Context (env : nat -> turn) (start : timespec) (to : Z).
Context (Hto : 0 <= to) (Hck : clock_ok env start to).

(** At the start of turn [i], while the final deadline stands: [2^i - 1] seconds
    have passed, or it has. *)
Record at_turn (i : nat) (l : loop) : Prop := {
  at_to : lp_to l = 1000 * 2 ^ Z.of_nat i;
  at_normal : normal (lp_final l);
  at_final : nanos (lp_final l) = nanos start + to * 1000000;
  at_waits : lp_waits l = Z.of_nat i;
  at_now : Z.min (nanos start + 1000000000 * (2 ^ Z.of_nat i - 1)) (nanos start + to * 1000000)
             <= nanos (tn_now (env i)) }.

(** What the loop ends with, within [k] waits: the reply, in the turn it came, or
    the final deadline has passed. *)
Definition ended (k : nat) (r : bool * loop) : Prop :=
  1 <= lp_waits (snd r) <= Z.of_nat k /\
  if fst r then tn_done (env (Z.to_nat (lp_waits (snd r) - 1))) = true
  else nanos start + to * 1000000 <= nanos (tn_now (env (Z.to_nat (lp_waits (snd r))))).

Lemma send_keeps t l : lp_to (loop_send t l) = lp_to l /\ lp_final (loop_send t l) = lp_final l /\
  lp_waits (loop_send t l) = lp_waits l.
Proof. unfold loop_send. by destruct (lp_transmit l). Qed.

Lemma final_stands l : 2 <= tv_sec start -> 0 <= tv_nsec start -> normal (lp_final l) ->
  nanos (lp_final l) = nanos start + to * 1000000 -> tv_sec (lp_final l) <> 0.
Proof. unfold normal, nanos. nia. Qed.

(** The deadline of a turn. *)
Lemma next_deadline_ok i l : at_turn i l -> exists d final,
  next_deadline (tn_now (env i)) l = Ok (d, final) /\
  ((final = lp_final l /\ nanos (tn_now (env i)) + 1000000000 * 2 ^ Z.of_nat i <= nanos (lp_final l)) \/
   (tv_sec final = 0 /\ nanos (lp_final l) <= nanos (tn_now (env i)) + 1000000000 * 2 ^ Z.of_nat i)).
Proof.
  intros [Ht Hn Hf _ _]. pose proof (Z.pow_pos_nonneg 2 (Z.of_nat i) ltac:(lia) ltac:(lia)).
  destruct (add_timespec_exact (tn_now (env i)) (lp_to l)) as (d & Ed & Hd & Hdn);
    [apply Hck | lia |].
  unfold next_deadline. rewrite Ed. cbn. destruct (cmp_timespec_spec d (lp_final l) Hdn Hn) as [Hgt Hle].
  rewrite Ht in Hd. destruct (Z.ltb_spec 0 (cmp_timespec d (lp_final l))) as [Hc|Hc]; eexists _, _;
    (split; [reflexivity|]); [right | left].
  - split; [done|]. assert (cmp_timespec d (lp_final l) = 1); [|lia].
    revert Hc. unfold cmp_timespec. repeat case_match; lia.
  - split; [done|]. destruct (Z.le_gt_cases (nanos d) (nanos (lp_final l))); [lia|].
    specialize (Hgt ltac:(lia)). lia.
Qed.

Lemma at_next i l l' : at_turn i l -> tn_done (env i) = false ->
  nanos (tn_now (env i)) + 1000000000 * 2 ^ Z.of_nat i <= nanos (lp_final l) ->
  lp_to l' = lp_to l * 2 -> lp_final l' = lp_final l -> lp_waits l' = lp_waits l + 1 ->
  at_turn (S i) l'.
Proof.
  intros [Ht Hn Hf Hw Hnow] Hd Hle Ht' Hf' Hw'. pose proof (ck_wait _ _ _ Hck i Hd) as Hwait.
  assert (2 ^ Z.of_nat (S i) = 2 * 2 ^ Z.of_nat i) as E.
  { rewrite Nat2Z.inj_succ, Z.pow_succ_r; lia. }
  split; rewrite ?Ht', ?Hf', ?Hw', ?E; try done; lia.
Qed.

Lemma call1_loop_ends k retrans fuel : 2 <= tv_sec start -> 0 <= tv_nsec start ->
  to < 1000 * (2 ^ Z.of_nat k - 1) -> (k <= 21)%nat ->
  forall i l, at_turn i l -> (i < k)%nat -> (k < i + fuel)%nat ->
  exists r, call1_loop fuel retrans env i l = Ok r /\ ended k r.
Proof.
  intros Hs Hns Hk Hk21. induction fuel as [|fuel IH]; intros i l Hat Hi Hfuel; [lia|]. cbn [call1_loop].
  destruct (send_keeps (env i) l) as (Et & Ef & Ew). set (l1 := loop_send (env i) l) in *.
  assert (at_turn i l1) as Hat1 by (destruct Hat; split; rewrite ?Et, ?Ef, ?Ew; done).
  destruct (Z.eqb_spec (tv_sec (lp_final l1)) 0) as [H0|_].
  { exfalso. by eapply (final_stands l1); [.. | apply Hat1 | apply Hat1 |]. }
  destruct (next_deadline_ok i l1 Hat1) as (d & final & -> & Hd). cbn.
  destruct (tn_done (env i)) eqn:Hdone.
  { eexists. split; [reflexivity|]. unfold ended; cbn. rewrite (at_waits _ _ Hat1).
    split; [lia|]. by replace (Z.to_nat (Z.of_nat i + 1 - 1)) with i by lia. }
  assert (2 ^ Z.of_nat i * 2 <= 2 ^ 21) as Hpow.
  { change 2 with (2 ^ 1) at 2. rewrite <- Z.pow_add_r by lia. apply Z.pow_le_mono_r; lia. }
  unfold loop_again. cbn. rewrite (at_to _ _ Hat1).
  destruct (Z.ltb_spec (1000 * 2 ^ Z.of_nat i * 2) (2 ^ 31)); [|lia]. cbn.
  destruct Hd as [[-> Hle]|[Hf0 Hge]].
  - apply IH; [|destruct (decide (S i = k)) as [<-|]; [exfalso|lia]|lia].
    + eapply (at_next i l1); try done; cbn. by rewrite (at_to _ _ Hat1).
    + pose proof (at_final _ _ Hat1). pose proof (at_now _ _ Hat1).
      rewrite Nat2Z.inj_succ, Z.pow_succ_r in Hk by lia. lia.
  - destruct fuel as [|fuel]; [lia|]. cbn [call1_loop]. eexists.
    rewrite (proj1 (proj2 (send_keeps _ _))). cbn [lp_final]. rewrite Hf0, Z.eqb_refl.
    split; [reflexivity|]. unfold ended. cbn [fst snd]. rewrite (proj2 (proj2 (send_keeps _ _))).
    cbn [lp_waits]. rewrite (at_waits _ _ Hat1). split; [lia|].
    replace (Z.to_nat (Z.of_nat i + 1)) with (S i) by lia.
    pose proof (ck_wait _ _ _ Hck i Hdone). pose proof (at_final _ _ Hat1). lia.
Qed.
End run.

(** While its channel lives the request is not sent again. *)
Lemma sent_once fuel retrans env c sent : (forall i, tn_dead (env i) = false) -> forall i l r,
  lp_transmit l = false -> lp_ch l = Some c -> lp_sent l = sent ->
  call1_loop fuel retrans env i l = Ok r -> lp_sent (snd r) = sent.
Proof.
  intros Hlive. induction fuel as [|fuel IH]; intros i l r Ht Hch Hs E; [done|]. cbn in E.
  unfold loop_send in E. rewrite Ht in E. destruct (tv_sec (lp_final l) =? 0); [by injection E as <-|].
  destruct (next_deadline (tn_now (env i)) l) as [[d final]|]; [|done]. cbn in E.
  destruct (tn_done (env i)); [by injection E as <-|]. unfold loop_again in E. cbn in E.
  destruct (lp_to l * 2 <? 2 ^ 31); [|done]. cbn in E. rewrite Hch, Hlive, Ht, andb_false_r in E.
  eapply IH; [| | |exact E]; done.
Qed.


(** No reply within the default timeout: every wait ends at its deadline. *)
Definition silent (i : nat) : turn :=
  Turn (Some 3) true false (Timespec (100 + 2 ^ Z.of_nat i - 1) 0) false false.


(** Beyond the limit of [call1_returns] the doubling overflows: with a timeout of 2^21
    seconds, which an [int] of milliseconds holds, when no reply comes. *)
Lemma long_timeout_overflows : call1_wait 30 true silent (Timespec 100 0) (1000 * 2 ^ 21) = Crash Overflow.
Proof. vm_compute. reflexivity. Qed.

(** It is seven waits indeed. *)
Lemma silent_waits : exists l, call1_wait 8 true silent (Timespec 100 0) to_max = Ok (false, l) /\
  lp_waits l = 7.
Proof. eexists. split; vm_compute; reflexivity. Qed.

(** A call whose channel is dead after every wait connects and sends once more when
    the final deadline has passed, without waiting for a reply: eight transmissions
    for seven waits. *)
Lemma sends_after_deadline : exists l,
  call1_wait 8 true (fun i => Turn (Some 3) true false (tn_now (silent i)) false true) (Timespec 100 0) to_max
    = Ok (false, l) /\ lp_waits l = 7 /\ length (lp_sent l) = 8%nat.
Proof. eexists. split_and!; vm_compute; reflexivity. Qed.
