(* ===== verification/ConnectionCorrect.v ===== *)
(** * Framing

    Two ends of a connection joined by a byte stream: the receiving end delivers
    the PDUs the sending end was given, in order, each as a whole and once,
    however [write] and [read] cut the stream. *)

From S2P Require Import Prelude Connection.

(** The sender, the receiver, the bytes in between, and what has been handed to
    [send] and to [got_pdu]. *)
Record link := Link {
  l_snd : connection;
  l_rcv : connection;
  l_stream : bytes;
  l_sent : list bytes;
  l_got : list bytes }.

Definition new_link : link := Link new_connection new_connection [] [] [].

Definition pdu_ok (b : bytes) : Prop := 4 < Z.of_nat (length b) <= MAX_PDU.

(** What the kernel may answer to a request for [n] bytes. *)
Definition write_ok (n : Z) (r : wres) : Prop := match r with WDone k => 0 <= k <= n | _ => True end.
Definition read_ok (n : Z) (r : rres) : Prop :=
  match r with RData b => 0 < Z.of_nat (length b) <= n | _ => True end.

Definition read_bytes (r : rres) : bytes := match r with RData b => b | _ => [] end.

(** Whether [read_cb] reads the length of a new PDU, or a piece of a body. *)
Definition wants_header (c : connection) : bool := cb_sz (rpdu_ c) =? 0.
Definition wants_body (c : connection) : bool := cb_solong (rpdu_ c) <? cb_sz (rpdu_ c).

(** [x] is what one [read_cb] takes from the stream when it sees [h] and [r]. *)
Inductive takes (c : connection) : rres -> rres -> bytes -> Prop :=
  | takes_nothing h r : dead_ c = true \/ wants_header c = false /\ wants_body c = false -> takes c h r []
  | takes_body h r : dead_ c = false -> wants_header c = false -> wants_body c = true ->
      read_ok (cb_sz (rpdu_ c) - cb_solong (rpdu_ c)) r -> takes c h r (read_bytes r)
  | takes_header h r : dead_ c = false -> wants_header c = true -> h <> RAgain -> read_ok 4 h ->
      length (read_bytes h) <> 4%nat -> takes c h r (read_bytes h)
  | takes_both b r : dead_ c = false -> wants_header c = true -> length b = 4%nat ->
      read_ok (ntohl b - 4) r -> takes c (RData b) r (b ++ read_bytes r).

Inductive link_step (s : link) : link -> Prop :=
  | link_send b r o c out : pdu_ok b -> dead_ (l_snd s) = false -> cb_buf (wpdu_ (l_snd s)) = None ->
      write_ok (Z.of_nat (length b)) r -> send_start b r (l_snd s) = Ok (o, c, out) ->
      link_step s (Link c (l_rcv s) (l_stream s ++ out) (l_sent s ++ [b]) (l_got s))
  | link_write r c out : dead_ (l_snd s) = false ->
      write_ok (cb_sz (wpdu_ (l_snd s)) - cb_solong (wpdu_ (l_snd s))) r -> write_cb r (l_snd s) = Ok (c, out) ->
      link_step s (Link c (l_rcv s) (l_stream s ++ out) (l_sent s) (l_got s))
  | link_resume ret c : send_resume (l_snd s) = Some (ret, c) ->
      link_step s (Link c (l_rcv s) (l_stream s) (l_sent s) (l_got s))
  | link_close_snd : link_step s (Link (closeconn (l_snd s)) (l_rcv s) (l_stream s) (l_sent s) (l_got s))
  | link_read h r x consumed c o stream : takes (l_rcv s) h r x -> l_stream s = x ++ stream ->
      read_cb h r consumed (l_rcv s) = Ok (c, o) ->
      link_step s (Link (l_snd s) c stream (l_sent s)
                    (l_got s ++ match o with Some b => if consumed then [b] else [] | None => [] end))
  | link_close_rcv : link_step s (Link (l_snd s) (closeconn (l_rcv s)) (l_stream s) (l_sent s) (l_got s)).

(** ** Stamped PDUs *)

#[local] Arguments stamp : simpl never.
#[local] Arguments htonl : simpl never.

Lemma length_htonl n : length (htonl n) = 4%nat.
Proof. unfold htonl. by rewrite length_rev, length_le_enc. Qed.

Lemma length_stamp b : (4 <= length b)%nat -> length (stamp b) = length b.
Proof. intros Hb. unfold stamp. rewrite length_app, length_htonl, length_drop. lia. Qed.

Lemma stamp_stamp b : (4 <= length b)%nat -> stamp (stamp b) = stamp b.
Proof.
  intros Hb. unfold stamp at 1. rewrite length_stamp by done. unfold stamp.
  by rewrite drop_app_exact by (by rewrite length_htonl).
Qed.

Lemma ntohl_htonl_signed n : in_s 32 n -> ntohl (htonl n) = n.
Proof.
  intros Hn. unfold ntohl, htonl. rewrite rev_involutive, le_dec_enc. unfold s32.
  change (256 ^ Z.of_nat 4) with (2 ^ 32). rewrite to_signed_mod by lia. by apply to_signed_id.
Qed.

Lemma ntohl_htonl n : 0 <= n < 2 ^ 31 -> ntohl (htonl n) = n.
Proof. intros Hn. apply ntohl_htonl_signed. unfold in_s. lia. Qed.

Lemma take_stamp b : take 4 (stamp b) = htonl (Z.of_nat (length b)).
Proof. unfold stamp. apply take_app_exact. by rewrite length_htonl. Qed.

Lemma pdu_len b : pdu_ok b -> (4 < length b)%nat /\ Z.of_nat (length b) < 2 ^ 31.
Proof. unfold pdu_ok. change MAX_PDU with 10485760. lia. Qed.

(** ** The invariant *)

(** What the sender still has to write. *)
Definition unwritten (c : connection) : bytes :=
  match cb_buf (wpdu_ c) with
  | Some b => drop (Z.to_nat (cb_solong (wpdu_ c))) (stamp b)
  | None => []
  end.

(** The part of a PDU the receiver has. *)
Definition partial (c : connection) : bytes := default [] (cb_buf (rpdu_ c)).

Definition snd_ok (c : connection) : Prop :=
  match cb_buf (wpdu_ c) with
  | None => cb_sz (wpdu_ c) = 0
  | Some b => pdu_ok b /\ cb_sz (wpdu_ c) = Z.of_nat (length b) /\ 0 <= cb_solong (wpdu_ c) <= cb_sz (wpdu_ c) /\
      (0 < cb_solong (wpdu_ c) -> stamp b = b)
  end.

(** [pend]: the PDUs not delivered yet. *)
Definition rcv_ok (c : connection) (pend : list bytes) : Prop :=
  match cb_buf (rpdu_ c) with
  | None => rpdu_ c = no_buf
  | Some x => exists b rest, pend = b :: rest /\ cb_sz (rpdu_ c) = Z.of_nat (length b) /\
      cb_solong (rpdu_ c) = Z.of_nat (length x) /\ (4 <= length x <= length b)%nat
  end.

Definition link_data (s : link) (pend : list bytes) (u : bytes) : Prop :=
  stamp <$> l_sent s = l_got s ++ pend /\ partial (l_rcv s) ++ l_stream s ++ u = concat pend /\
  rcv_ok (l_rcv s) pend /\ (dead_ (l_snd s) = false -> u = unwritten (l_snd s)).

Record link_inv (s : link) : Prop := {
  ki_sent : Forall pdu_ok (l_sent s);
  ki_got : l_got s `prefix_of` (stamp <$> l_sent s);
  ki_snd : dead_ (l_snd s) = false -> snd_ok (l_snd s);
  ki_data : dead_ (l_rcv s) = false -> exists pend u, link_data s pend u }.

(** [writepdu] moves bytes from the buffer to the stream. *)
Lemma writepdu_ok r c ok c' out :
  snd_ok c -> write_ok (cb_sz (wpdu_ c) - cb_solong (wpdu_ c)) r -> writepdu r c = Ok (ok, c', out) ->
  dead_ c' = dead_ c /\ rpdu_ c' = rpdu_ c /\
  (if ok then snd_ok c' /\ unwritten c = out ++ unwritten c' else out = []).
Proof.
  unfold writepdu. intros Hs Hr. destruct (Z.ltb_spec (cb_solong (wpdu_ c)) 0); [done|].
  destruct (Z.eqb_spec (cb_solong (wpdu_ c)) (cb_sz (wpdu_ c))) as [He|He]; [by intros [= <- <- <-]|].
  unfold snd_ok in Hs. destruct (cb_buf (wpdu_ c)) as [b|] eqn:Eb; [|done]. destruct Hs as (Hp & Hsz & Hlo & Hst).
  pose proof (pdu_len b Hp) as [Hlen _].
  destruct (_ && _); [done|].
  assert ((if cb_solong (wpdu_ c) =? 0 then htonl (cb_sz (wpdu_ c)) ++ drop 4 b else b) = stamp b) as ->.
  { destruct (Z.eqb_spec (cb_solong (wpdu_ c)) 0); [by rewrite Hsz | symmetry; apply Hst; lia]. }
  assert (Z.of_nat (length (stamp b)) = Z.of_nat (length b)) as Hls by (rewrite length_stamp; lia).
  assert (pdu_ok (stamp b)) as Hp' by (unfold pdu_ok in *; lia). assert (stamp (stamp b) = stamp b) as Hss by (apply stamp_stamp; lia).
  destruct r as [n| |]; simpl in Hr; intros [= <- <- <-]; (split; [done|]); (split; [done|]); [| |done].
  - unfold snd_ok, unwritten. cbn [wpdu_ set_wpdu cb_buf cb_sz cb_solong]. rewrite Eb, Hss. split; [split; [done|]; split; [lia|]; split; [lia | done]|].
    rewrite Z2Nat.inj_add, <- drop_drop by lia. by rewrite take_drop.
  - unfold snd_ok, unwritten. cbn [wpdu_ set_wpdu cb_buf cb_sz cb_solong]. rewrite Eb, Hss. split; [|done]. split; [done|]. split; [lia|]. split; [lia | done].
Qed.

(** A step of the sender, which writes [out] and is given the PDUs [extra]. *)
Lemma inv_snd s c out extra :
  link_inv s -> Forall pdu_ok extra -> (dead_ c = false -> snd_ok c) ->
  (forall u, (dead_ (l_snd s) = false -> u = unwritten (l_snd s)) ->
     exists w, out ++ w = u ++ concat (stamp <$> extra) /\ (dead_ c = false -> w = unwritten c)) ->
  link_inv (Link c (l_rcv s) (l_stream s ++ out) (l_sent s ++ extra) (l_got s)).
Proof.
  intros Hi Hs Hc Hd. split; simpl; [|rewrite fmap_app; apply prefix_app_r, Hi|done|].
  - apply Forall_app. split; [apply Hi | done].
  - intros Hr. destruct (ki_data s Hi Hr) as (pend & u & H1 & H2 & H3 & H4). destruct (Hd u H4) as (w & Hw1 & Hw2).
    exists (pend ++ (stamp <$> extra)), w. unfold link_data. simpl. split_and!.
    + by rewrite fmap_app, H1, (assoc_L (++)).
    + rewrite concat_app, <- H2, <- !(assoc_L (++)). by rewrite Hw1.
    + unfold rcv_ok in *. destruct (cb_buf (rpdu_ (l_rcv s))); [|done]. destruct H3 as (b & rest & -> & H3).
      by exists b, (rest ++ (stamp <$> extra)).
    + done.
Qed.

Lemma inv_snd_same s c out :
  link_inv s -> (dead_ c = false -> snd_ok c) ->
  (forall u, (dead_ (l_snd s) = false -> u = unwritten (l_snd s)) ->
     exists w, out ++ w = u /\ (dead_ c = false -> w = unwritten c)) ->
  link_inv (Link c (l_rcv s) (l_stream s ++ out) (l_sent s) (l_got s)).
Proof.
  intros Hi Hc Hd. rewrite <- (right_id_L [] (++) (l_sent s)). apply inv_snd; [done|constructor|done|].
  intros u Hu. simpl. rewrite (right_id_L [] (++)). by apply Hd.
Qed.

Lemma inv_send s b r o c out : link_inv s -> pdu_ok b -> dead_ (l_snd s) = false -> cb_buf (wpdu_ (l_snd s)) = None ->
  write_ok (Z.of_nat (length b)) r -> send_start b r (l_snd s) = Ok (o, c, out) ->
  link_inv (Link c (l_rcv s) (l_stream s ++ out) (l_sent s ++ [b]) (l_got s)).
Proof.
  intros Hi Hb Hd Hn Hr Hs. unfold send_start in Hs. rewrite Hd in Hs.
  apply res_bind_inv in Hs as ([[ok c1] out1] & Hw & Hs). pose proof (pdu_len b Hb) as [Hl _].
  apply writepdu_ok in Hw as (Hdd & _ & Hw); [|unfold snd_ok; simpl; split_and!; try done; try apply Hb; lia | simpl; by rewrite Z.sub_0_r].
  simpl in Hdd. assert (forall u, (dead_ (l_snd s) = false -> u = unwritten (l_snd s)) -> u = []) as Hu.
  { intros u H%(fun f => f Hd). by unfold unwritten in H; rewrite Hn in H. }
  apply inv_snd; [done|by constructor|..]; destruct ok; simpl in Hs, Hw.
  - destruct Hw as [Hok _]. destruct (_ =? _); simplify_eq; [|done]. intros _. by unfold snd_ok.
  - simplify_eq. done.
  - intros u ->%Hu. simpl. rewrite (right_id_L [] (++)). destruct Hw as [Hok Hun]. unfold unwritten at 1 in Hun. simpl in Hun.
    rewrite Hun. destruct (Z.eqb_spec (cb_solong (wpdu_ c1)) (cb_sz (wpdu_ c1))) as [He|He]; simplify_eq; [|by eexists].
    exists (unwritten c1). split; [done|]. intros _. unfold unwritten, snd_ok in *. simpl.
    destruct (cb_buf (wpdu_ c1)) as [b1|]; [|done]. destruct Hok as (Hp1 & Hs1 & _). pose proof (pdu_len b1 Hp1).
    rewrite drop_ge; [done|]. rewrite length_stamp by lia. lia.
  - intros u ->%Hu. subst out1. simplify_eq. simpl. rewrite (right_id_L [] (++)). by exists (stamp b).
Qed.

Lemma inv_write s r c out : link_inv s -> dead_ (l_snd s) = false ->
  write_ok (cb_sz (wpdu_ (l_snd s)) - cb_solong (wpdu_ (l_snd s))) r -> write_cb r (l_snd s) = Ok (c, out) ->
  link_inv (Link c (l_rcv s) (l_stream s ++ out) (l_sent s) (l_got s)).
Proof.
  intros Hi Hd Hr Hs. unfold write_cb in Hs. rewrite Hd in Hs. destruct (_ =? _).
  { simplify_eq. apply inv_snd_same; [done|apply Hi|]. intros u Hu. by exists u. }
  apply res_bind_inv in Hs as ([[ok c1] out1] & Hw & Hs).
  apply writepdu_ok in Hw as (Hdd & _ & Hw); [|by apply Hi|done]. destruct ok; simpl in Hs.
  - destruct (_ <? _); simplify_eq. destruct Hw as [Hok Hun]. apply inv_snd_same; [done..|]. intros u Hu.
    rewrite (Hu Hd), Hun. by eexists.
  - simplify_eq. apply inv_snd_same; [done..|]. intros u _. by exists u.
Qed.

Lemma inv_resume s ret c : link_inv s -> send_resume (l_snd s) = Some (ret, c) ->
  link_inv (Link c (l_rcv s) (l_stream s) (l_sent s) (l_got s)).
Proof.
  intros Hi Hs. unfold send_resume in Hs. destruct (_ && _) eqn:Hc; [done|]. unfold send_end in Hs. simplify_eq.
  rewrite <- (right_id_L [] (++) (l_stream s)). apply inv_snd_same; [done|done|]. intros u Hu. exists u. split; [done|].
  intros Hd. simpl in Hd. rewrite (Hu Hd). unfold unwritten. simpl. pose proof (ki_snd s Hi Hd) as Hok. unfold snd_ok in Hok.
  destruct (cb_buf (wpdu_ (l_snd s))) as [b|]; [|done]. destruct Hok as (Hp & Hs & Hlo & _). pose proof (pdu_len b Hp).
  rewrite Hd in Hc. simpl in Hc. apply andb_false_iff in Hc as [Hc|Hc]; [apply Z.leb_gt in Hc; lia|]. apply Z.ltb_ge in Hc.
  rewrite drop_ge; [done|]. rewrite length_stamp by lia. lia.
Qed.

Lemma inv_close_snd s : link_inv s -> link_inv (Link (closeconn (l_snd s)) (l_rcv s) (l_stream s) (l_sent s) (l_got s)).
Proof.
  intros Hi. assert (dead_ (closeconn (l_snd s)) = true) as Hd by (unfold closeconn; by destruct (dead_ (l_snd s)) eqn:?).
  split; simpl; try apply Hi; [by rewrite Hd|]. intros Hr. destruct (ki_data s Hi Hr) as (pend & u & H1 & H2 & H3 & H4).
  exists pend, u. unfold link_data. simpl. by rewrite Hd.
Qed.

(** A receiver that is dead, or that has delivered nothing new and lost nothing. *)
Lemma inv_rcv_dead s c stream : link_inv s -> dead_ c = true -> link_inv (Link (l_snd s) c stream (l_sent s) (l_got s)).
Proof. intros Hi Hd. split; simpl; try apply Hi. by rewrite Hd. Qed.

(** The bytes of the first PDU come first. *)
Lemma first_pdu (x y : bytes) (b : bytes) (rest : list bytes) :
  x ++ y = concat (b :: rest) -> (length x <= length b)%nat -> x = take (length x) b.
Proof.
  simpl. intros H Hl. rewrite <- (take_app_exact x y (length x)) at 1 by done. rewrite H. by rewrite take_app_le.
Qed.

(** The shape of the receiver after a piece [b] of the body. *)
Lemma rcv_piece c x b pend y :
  rcv_ok c pend -> cb_buf (rpdu_ c) = Some x -> Z.of_nat (length b) <= cb_sz (rpdu_ c) - cb_solong (rpdu_ c) ->
  (x ++ b) ++ y = concat pend ->
  let p := Charbuf (Some (x ++ b)) (cb_sz (rpdu_ c)) (cb_solong (rpdu_ c) + Z.of_nat (length b)) in
  rcv_ok (set_rpdu p c) pend /\
  (cb_sz p = cb_solong p -> exists rest, pend = (x ++ b) :: rest /\ y = concat rest).
Proof.
  unfold rcv_ok. intros Hr Hx Hb Hc. simpl. rewrite Hx in Hr. destruct Hr as (q & rest & -> & Hs & Hlo & Hl).
  rewrite Hs, Hlo in *. split.
  - exists q, rest. split_and!; try done; rewrite ?length_app; lia.
  - intros He. exists rest. assert (x ++ b = q) as <-.
    { rewrite (first_pdu _ _ _ _ Hc) by (rewrite length_app; lia). rewrite take_ge; [done|]. rewrite length_app. lia. }
    split; [done|]. simpl in Hc. by apply app_inv_head in Hc.
Qed.

(** What [read_cb] hands over, given the state after reading. *)
Definition handed (consumed : bool) (c : connection) : connection * option bytes :=
  match cb_buf (rpdu_ c) with
  | Some buf => if cb_sz (rpdu_ c) =? cb_solong (rpdu_ c) then (if consumed then set_rpdu no_buf c else c, Some buf) else (c, None)
  | None => (c, None)
  end.

Lemma inv_handed s c consumed c' o stream pend u :
  link_inv s -> dead_ c = false -> stamp <$> l_sent s = l_got s ++ pend ->
  partial c ++ stream ++ u = concat pend -> rcv_ok c pend -> (dead_ (l_snd s) = false -> u = unwritten (l_snd s)) ->
  handed consumed c = (c', o) ->
  link_inv (Link (l_snd s) c' stream (l_sent s)
              (l_got s ++ match o with Some b => if consumed then [b] else [] | None => [] end)).
Proof.
  intros Hi Hd H1 H2 H3 H4 Hh. unfold handed in Hh. destruct (cb_buf (rpdu_ c)) as [x|] eqn:Ex.
  2:{ simplify_eq. rewrite (right_id_L [] (++)). split; simpl; try apply Hi. intros _. by exists pend, u. }
  unfold partial in H2. rewrite Ex in H2. destruct (Z.eqb_spec (cb_sz (rpdu_ c)) (cb_solong (rpdu_ c))) as [He|He]; simplify_eq.
  - destruct consumed.
    + unfold rcv_ok in H3. rewrite Ex in H3. destruct H3 as (b & rest & -> & Hs & Hlo & Hl). simpl in H2.
      assert (x = b) as -> by (rewrite (first_pdu x (stream ++ u) b rest H2) by lia; apply take_ge; lia).
      apply app_inv_head in H2. split; simpl; try apply Hi.
      * exists rest. by rewrite H1, <- (assoc_L (++)).
      * intros _. exists rest, u. unfold link_data, partial, rcv_ok. simpl. split_and!; try done. by rewrite H1, <- (assoc_L (++)).
    + rewrite (right_id_L [] (++)). split; simpl; try apply Hi. intros _. exists pend, u. unfold link_data, partial. simpl. by rewrite Ex.
  - rewrite (right_id_L [] (++)). split; simpl; try apply Hi. intros _. exists pend, u. unfold link_data, partial. simpl. by rewrite Ex.
Qed.

(** [readpdu_body] keeps the data, or ends the connection. *)
Lemma readpdu_body_ok r c pend y ok c' :
  readpdu_body r c = Ok (ok, c') -> rcv_ok c pend -> is_Some (cb_buf (rpdu_ c)) ->
  read_ok (cb_sz (rpdu_ c) - cb_solong (rpdu_ c)) r -> partial c ++ read_bytes r ++ y = concat pend ->
  dead_ c' = dead_ c /\ (if ok then partial c' ++ y = concat pend /\ rcv_ok c' pend else cb_buf (rpdu_ c') = None).
Proof.
  unfold readpdu_body, partial. intros Hr Hok [x Hx] Hlen Hc. rewrite Hx in *.
  destruct r as [b|[]| |]; [destruct (_ <? _); [done|]|..]; simplify_eq; simpl in *; (split; [done|]); rewrite ?Hx; try done.
  rewrite (assoc_L (++)) in Hc. split; [done|]. destruct (rcv_piece c x b pend y) as [H _]; [done|done|lia|done|]. exact H.
Qed.

(** The length of the next PDU is read whole. *)
Lemma header_ok s pend b y : link_inv s -> rpdu_ (l_rcv s) = no_buf ->
  stamp <$> l_sent s = l_got s ++ pend -> b ++ y = concat pend -> length b = 4%nat ->
  exists p rest, pend = p :: rest /\ ntohl b = Z.of_nat (length p) /\ 4 < ntohl b <= MAX_PDU.
Proof.
  intros Hi Hn H1 H2 Hl. destruct pend as [|p rest]; [by destruct b|]. exists p, rest. split; [done|].
  assert (p ∈ stamp <$> l_sent s) as Hp by (rewrite H1; set_solver). apply list_elem_of_fmap in Hp as (q & -> & Hq).
  pose proof (ki_sent s Hi) as Hs. rewrite Forall_forall in Hs. specialize (Hs q Hq). pose proof (pdu_len q Hs).
  assert (b = htonl (Z.of_nat (length q))) as ->.
  { rewrite (first_pdu b y _ _ H2) by (rewrite length_stamp; lia). rewrite Hl. apply take_stamp. }
  rewrite ntohl_htonl, length_stamp by lia. split; [done | apply Hs].
Qed.

(** What the receiver has read so far is the start of what is to come. *)
Lemma read_step_ok s h r x stream pend u ok c1 : link_inv s -> takes (l_rcv s) h r x ->
  dead_ (l_rcv s) = false -> partial (l_rcv s) ++ x ++ stream ++ u = concat pend -> rcv_ok (l_rcv s) pend ->
  stamp <$> l_sent s = l_got s ++ pend ->
  (if negb (bool_decide (is_Some (cb_buf (rpdu_ (l_rcv s))))) ||
      (cb_solong (rpdu_ (l_rcv s)) <? cb_sz (rpdu_ (l_rcv s)))
   then readpdu h r (l_rcv s) else Ok (true, l_rcv s)) = Ok (ok, c1) ->
  dead_ c1 = false /\ (if ok then partial c1 ++ stream ++ u = concat pend /\ rcv_ok c1 pend
                       else cb_buf (rpdu_ c1) = None).
Proof.
  intros Hi Ht Hd H2 H3 H1 Hr.
unfold rcv_ok in H3. destruct (cb_buf (rpdu_ (l_rcv s))) as [y|] eqn:Ey; simpl in Hr.
  - destruct H3 as (b & rest & Hp & Hsz & Hlo & Hl). destruct (Z.ltb_spec (cb_solong (rpdu_ (l_rcv s))) (cb_sz (rpdu_ (l_rcv s)))) as [Hlt|Hge].
    + unfold readpdu in Hr. rewrite (proj2 (Z.eqb_neq _ _)) in Hr by lia.
      destruct Ht as [? ? [?|[_ Hw]]|? ? _ _ _ Hro|? ? _ Hw|? ? _ Hw].
      * congruence.
      * unfold wants_body in Hw. apply Z.ltb_ge in Hw. lia.
      * rewrite <- Hd. eapply readpdu_body_ok; [exact Hr| |by rewrite Ey|exact Hro|exact H2]. unfold rcv_ok. rewrite Ey.
        by exists b, rest.
      * unfold wants_header in Hw. apply Z.eqb_eq in Hw. lia.
      * unfold wants_header in Hw. apply Z.eqb_eq in Hw. lia.
    + simplify_eq. split; [done|]. destruct Ht as [? ? _|? ? _ _ Hw _|? ? _ Hw|? ? _ Hw].
      * split; [done|]. unfold rcv_ok. rewrite Ey. by exists b, rest.
      * unfold wants_body in Hw. apply Z.ltb_lt in Hw. lia.
      * unfold wants_header in Hw. apply Z.eqb_eq in Hw. lia.
      * unfold wants_header in Hw. apply Z.eqb_eq in Hw. lia.
  - assert (wants_header (l_rcv s) = true) as Hwh by (unfold wants_header; by rewrite H3).
    unfold readpdu in Hr. unfold wants_header in Hwh. rewrite Hwh in Hr. unfold partial in H2. rewrite Ey in H2.
    destruct Ht as [? ? [?|[Hw _]]|? ? _ Hw|h r _ _ _ _ Hn4|b r _ _ H4b Hro]; [congruence | unfold wants_header in Hw; congruence.. | |].
    + destruct h as [b|e| |]; simplify_eq; try done. simpl in Hn4.
      rewrite (proj2 (Nat.eqb_neq _ _)) in Hr by done. simpl in Hr. by simplify_eq.
    + rewrite H4b in Hr. simpl in Hr, H2.
      destruct (header_ok s pend b (read_bytes r ++ stream ++ u)) as (p & rest & Hp & Hlen & Hsz); [done..| |done|].
      { by rewrite <- (assoc_L (++)) in H2. }
      rewrite (proj2 (Z.ltb_ge _ _)) in Hr by lia. rewrite Ey in Hr. simpl in Hr.
      rewrite !(proj2 (Z.ltb_ge (ntohl b) _)) in Hr by lia.
      rewrite <- Hd. eapply (readpdu_body_ok r (set_rpdu (Charbuf (Some b) (ntohl b) 4) (l_rcv s))); [exact Hr| |done|done|].
      * unfold rcv_ok. simpl. exists p, rest. split_and!; try done; lia.
      * unfold partial. simpl. by rewrite <- (assoc_L (++)) in H2.
Qed.

Lemma inv_read s h r x consumed c o stream : link_inv s -> takes (l_rcv s) h r x -> l_stream s = x ++ stream ->
  read_cb h r consumed (l_rcv s) = Ok (c, o) ->
  link_inv (Link (l_snd s) c stream (l_sent s)
              (l_got s ++ match o with Some b => if consumed then [b] else [] | None => [] end)).
Proof.
  intros Hi Ht Hx Hs. unfold read_cb in Hs. destruct (dead_ (l_rcv s)) eqn:Hd.
  { simplify_eq. rewrite (right_id_L [] (++)). by apply inv_rcv_dead. }
  destruct (ki_data s Hi Hd) as (pend & u & H1 & H2 & H3 & H4). rewrite Hx, <- !(assoc_L (++)) in H2.
  assert (forall c1, (match cb_buf (rpdu_ c1) with
     | Some buf => if cb_sz (rpdu_ c1) =? cb_solong (rpdu_ c1)
         then Ok (if consumed then set_rpdu no_buf c1 else c1, Some buf) else Ok (c1, None)
     | None => Ok (c1, None) end = Ok (c, o)) -> handed consumed c1 = (c, o)) as Hh.
  { intros c1 Hc1. unfold handed. destruct (cb_buf (rpdu_ c1)); [destruct (_ =? _)|]; congruence. }
  apply res_bind_inv in Hs as ([ok c1] & Hr & Hs%Hh).
  destruct (read_step_ok s h r x stream pend u ok c1 Hi Ht Hd H2 H3 H1 Hr) as [Hd1 Hc1].
  destruct ok.
  - destruct Hc1 as [Hc1 Hc2]. by eapply (inv_handed s c1).
  - unfold handed in Hs. simpl in Hs. rewrite Hc1 in Hs. simplify_eq. rewrite (right_id_L [] (++)). by apply inv_rcv_dead.
Qed.

Lemma link_step_inv s s' : link_inv s -> link_step s s' -> link_inv s'.
Proof.
  intros Hi Hs. destruct Hs.
  - by eapply inv_send.
  - by eapply inv_write.
  - by eapply inv_resume.
  - by apply inv_close_snd.
  - by eapply inv_read.
  - apply inv_rcv_dead; [done|]. unfold closeconn. by destruct (dead_ (l_rcv s)) eqn:?.
Qed.

Lemma link_reach_inv s : rtc link_step new_link s -> link_inv s.
Proof.
  intros Hr. assert (link_inv new_link) as H0.
  { split; simpl; [constructor|done|done|]. intros _. by exists [], []. }
  revert H0. induction Hr as [|s1 s2 s3 Hs _ IH]; [done|]. intros H1. apply IH. by eapply link_step_inv.
Qed.

(** Everything written has been read, and neither end has failed. *)
Definition drained (s : link) : Prop :=
  dead_ (l_snd s) = false /\ dead_ (l_rcv s) = false /\ cb_buf (wpdu_ (l_snd s)) = None /\
  l_stream s = [] /\ cb_buf (rpdu_ (l_rcv s)) = None.

Lemma drained_all s : link_inv s -> drained s -> l_got s = stamp <$> l_sent s.
Proof.
  intros Hi (Hd & Hr & Hw & Hst & Hb).
  destruct (ki_data s Hi Hr) as (pend & u & H1 & H2 & _ & H4). rewrite (H4 Hd) in H2. unfold partial, unwritten in H2.
  rewrite Hst, Hw, Hb in H2. destruct pend as [|p pend]; [by rewrite H1, (right_id_L [] (++))|].
  assert (p ∈ stamp <$> l_sent s) as Hp by (rewrite H1; set_solver). apply list_elem_of_fmap in Hp as (q & -> & Hq).
  pose proof (ki_sent s Hi) as Hs. rewrite Forall_forall in Hs. specialize (Hs q Hq). pose proof (pdu_len q Hs) as [Hl _].
  assert (length (stamp q ++ concat pend) = 0%nat) as H0 by (change (stamp q ++ concat pend) with (concat (stamp q :: pend)); by rewrite <- H2).
  rewrite length_app, length_stamp in H0 by lia. lia.
Qed.

(** C15. Framing: whatever pieces the kernel cuts the stream into, and whenever the
    ends fail, the PDUs a connection delivers are, in order and without gaps, a
    prefix of the PDUs the other end was given to send, each with its length in
    its first four bytes; and once everything written has been read, and neither
    end has failed, all of them have been delivered. *)
Theorem connection_framing (s : link) :
  rtc link_step new_link s ->
  l_got s `prefix_of` (stamp <$> l_sent s) /\
  (drained s -> l_got s = stamp <$> l_sent s).
Proof. intros Hi%link_reach_inv. split; [apply Hi | by apply drained_all]. Qed.

(** A run with a PDU of six bytes, written and read in pieces. *)
Definition sample_pdu : bytes := replicate 4 x00 ++ [x61; x62].

Definition sample_link : link := Link new_connection new_connection [] [sample_pdu] [stamp sample_pdu].

Lemma sample_link_reach : rtc link_step new_link sample_link.
Proof.
  eapply rtc_l; [eapply (link_send new_link sample_pdu (WDone 5)); try reflexivity; vm_compute; split; congruence|].
  eapply rtc_l; [eapply (link_write _ (WDone 1)); try reflexivity; vm_compute; split; congruence|].
  eapply rtc_l; [eapply link_resume; reflexivity|].
  eapply rtc_l; [eapply (link_read _ (RData (htonl 6)) (RData [x61]) _ true); [apply takes_both; try reflexivity; vm_compute; split; congruence | reflexivity | reflexivity]|].
  eapply rtc_l; [eapply (link_read _ RError (RData [x62]) _ true); [apply takes_body; try reflexivity; vm_compute; split; congruence | reflexivity | reflexivity]|].
  apply rtc_refl.
Qed.

Lemma connection_framing_witness : l_got sample_link = stamp <$> l_sent sample_link.
Proof. apply (connection_framing sample_link sample_link_reach). repeat split. Defined.

(** ** What the code does not handle *)

(** A header of which the kernel delivers less than four bytes ends the
    connection, although the rest is on its way. *)
Lemma split_header_ends_connection b r consumed :
  (0 < length b < 4)%nat -> exists c, read_cb (RData b) r consumed new_connection = Ok (c, None) /\ dead_ c = true.
Proof.
  intros Hb. unfold read_cb, readpdu. simpl. rewrite (proj2 (Nat.eqb_neq _ _)) by lia. simpl. by eexists.
Qed.

(** C38. A length below four in the header of a PDU: from 0 to 3, the receiver passes
    the number of bytes left, negative, to [read] as an unsigned count, and runs over
    the end of its buffer as soon as [read] delivers more bytes than the length says;
    from -4 to -1, it allocates less than the four bytes it copies; below, the
    allocation fails and with it a [VERIFY]. *)
Theorem short_length_overruns (n : Z) (r : rres) (consumed : bool) :
  - 2 ^ 31 <= n < 4 ->
  (0 <= n -> (exists b, r = RData b /\ n < Z.of_nat (length b)) ->
   read_cb (RData (htonl n)) r consumed new_connection = Crash OutOfBounds) /\
  (-4 <= n < 0 -> read_cb (RData (htonl n)) r consumed new_connection = Crash OutOfBounds) /\
  (n < -4 -> read_cb (RData (htonl n)) r consumed new_connection = Crash AssertFail).
Proof.
  intros Hn. unfold read_cb, readpdu. cbn [dead_ new_connection rpdu_ no_buf cb_buf cb_sz negb bool_decide orb].
  rewrite length_htonl, ntohl_htonl_signed by (unfold in_s; lia). change MAX_PDU with 10485760. simpl.
  rewrite (proj2 (Z.ltb_ge 10485760 n)) by lia. split; [|split].
  - intros H0 (b & -> & Hb). rewrite !(proj2 (Z.ltb_ge n _)) by lia. unfold readpdu_body. cbn.
    by rewrite (proj2 (Z.ltb_lt _ _)) by lia.
  - intros H0. rewrite (proj2 (Z.ltb_ge n (-4))) by lia. by rewrite (proj2 (Z.ltb_lt _ _)) by lia.
  - intros H0. by rewrite (proj2 (Z.ltb_lt _ _)) by lia.
Qed.

Lemma short_length_overruns_witness : read_cb (RData (htonl 2)) (RData [x61; x62; x63]) true new_connection = Crash OutOfBounds.
Proof.
  apply (proj1 (short_length_overruns 2 (RData [x61; x62; x63]) true ltac:(lia))); [lia|].
  exists [x61; x62; x63]. split; [reflexivity|]. simpl. lia.
Defined.

(** ** Collection of dead connections *)

(** [process_accept] drops exactly the dead connections that nobody else refers
    to, and no live one. *)
Lemma collect_exact l :
  Forall (fun p => dead_ (snd p) = true -> cb_buf (wpdu_ (snd p)) = None) l ->
  collect l = Ok (filter (fun p => ~ (dead_ (snd p) = true /\ refno_ (snd p) = 1)) l).
Proof.
  induction 1 as [|[fd c] l Hc _ IH]; [done|]. cbn [collect]. rewrite IH, filter_cons. simpl in Hc.
  destruct (dead_ c) eqn:Hd; simpl; [destruct (Z.eqb_spec (refno_ c) 1) as [Hr|Hr]|].
  - rewrite decide_False by tauto. unfold decref. simpl. rewrite Hr. simpl. rewrite Hd. by rewrite (Hc eq_refl).
  - by rewrite decide_True by tauto.
  - rewrite decide_True; [done|]. simpl. intros [? _]. congruence.
Qed.

(** ** The listener *)

(** A connection whose references are counted and that sends nothing. *)
Definition idle (c : connection) : Prop := 1 <= refno_ c /\ cb_buf (wpdu_ c) = None.

Section accepted.
Context (Q : connection -> Prop) (Qidle : forall c, Q c -> idle c) (Qnew : Q new_connection).

Lemma collect_sub l : Forall (fun p => Q (snd p)) l ->
  exists l', collect l = Ok l' /\ Forall (fun p => Q (snd p)) l'.
Proof.
  intros Hl. eexists. split.
  - apply collect_exact. eapply Forall_impl; [exact Hl|]. intros p Hp _. apply (Qidle _ Hp).
  - rewrite Forall_forall in *. intros p [_ Hp]%list_elem_of_filter. by apply Hl.
Qed.

Lemma process_accept_keeps fd l : Forall (fun p => Q (snd p)) l ->
  exists l', process_accept fd l = Ok l' /\ Forall (fun p => Q (snd p)) l'.
Proof.
  intros Hl. destruct (collect_sub l Hl) as (l1 & E & Hl1). unfold process_accept. rewrite E. cbn.
  eexists. split; [done|]. apply Forall_app. rewrite Forall_cons. rewrite Forall_forall in Hl1.
  split; [|split; [done|]]; apply Forall_forall; intros p [_ Hp]%list_elem_of_filter; auto.
Qed.

(** The accept loop runs until the pipe is closed. *)
Lemma accept_conn_returns evs l :
  Forall (fun e => e = AIntr \/ exists fd, e = AListen (Some fd)) evs -> Forall (fun p => Q (snd p)) l ->
  exists l', accept_conn (evs ++ [APipe]) l = Ok (Returned, l') /\ Forall (fun p => Q (snd p)) l'.
Proof.
  intros He. revert l. induction He as [|e evs He _ IH]; intros l Hl; [by exists l|].
  destruct He as [->|[fd ->]]; cbn; [by apply IH|].
  destruct (process_accept_keeps fd l Hl) as (l' & E & Hl'). rewrite E. cbn. by apply IH.
Qed.
End accepted.

Lemma close_all_ok l : Forall (fun p => idle (snd p)) l ->
  exists l', close_all l = Ok l' /\ l'.*1 = (filter (fun p => 1 < refno_ (snd p)) l).*1 /\
    Forall (fun p => dead_ (snd p) = true /\ 1 <= refno_ (snd p)) l'.
Proof.
  induction 1 as [|[fd c] l [Hr Hw] _ IH]; [by exists []|]. destruct IH as (l' & E & Hk & Hd).
  cbn [close_all snd] in *. rewrite filter_cons. cbn [snd].
  assert (dead_ (closeconn c) = true /\ refno_ (closeconn c) = refno_ c /\ wpdu_ (closeconn c) = wpdu_ c) as (D & R & W).
  { unfold closeconn. by destruct (dead_ c) eqn:Ed. }
  unfold decref. cbn. rewrite R, D, W, Hw. destruct (Z.ltb_spec (refno_ c - 1) 0); [lia|].
  destruct (Z.eqb_spec (refno_ c - 1) 0) as [H0|H0]; cbn; rewrite E; cbn.
  - exists l'. rewrite decide_False by lia. done.
  - eexists. rewrite decide_True by lia. split; [done|]. cbn. split; [by rewrite Hk|].
    constructor; [|done]. cbn. rewrite ?D. split; [done | lia].
Qed.

(** The accept loop ends when the destructor closes the pipe, and the destructor then
    closes every connection and deletes those nobody else refers to. *)
Lemma listener_shutdown evs l : Forall (fun e => e = AIntr \/ exists fd, e = AListen (Some fd)) evs ->
  Forall (fun p => idle (snd p)) l ->
  exists l1 l2, accept_conn (evs ++ [APipe]) l = Ok (Returned, l1) /\ close_all l1 = Ok l2 /\
    l2.*1 = (filter (fun p => 1 < refno_ (snd p)) l1).*1 /\ Forall (fun p => dead_ (snd p) = true) l2.
Proof.
  intros He Hl. destruct (accept_conn_returns idle ltac:(done) ltac:(split; cbn; [lia | done]) evs l He Hl)
    as (l1 & E1 & Hl1).
  destruct (close_all_ok l1 Hl1) as (l2 & E & Hk & Hd). exists l1, l2. split_and!; try done.
  eapply Forall_impl; [exact Hd|]. by intros p [? _].
Qed.

(** A listener whose connections nobody else takes leaves none behind. *)
Lemma listener_leaves_nothing evs l : Forall (fun e => e = AIntr \/ exists fd, e = AListen (Some fd)) evs ->
  new_tcpsconn true true true true true = Ok l ->
  exists l', accept_conn (evs ++ [APipe]) l = Ok (Returned, l') /\ close_all l' = Ok [].
Proof.
  intros He [= <-].
  destruct (accept_conn_returns (fun c => refno_ c = 1 /\ idle c) ltac:(by intros c [_ ?])
    ltac:(split; [done | split; cbn; [lia | done]]) evs [] He ltac:(done)) as (l' & E & Hl').
  exists l'. split; [done|].
  destruct (close_all_ok l') as (l2 & -> & Hk & _); [eapply Forall_impl; [exact Hl'|]; by intros p [_ ?]|].
  enough (filter (fun p => 1 < refno_ (snd p)) l' = []) as En by (rewrite En in Hk; by destruct l2).
  clear -Hl'. induction Hl' as [|p l' [Hp _] _ IH]; [done|]. rewrite filter_cons, decide_False by lia. exact IH.
Qed.
