(* ===== verification/ClientRefs.v ===== *)
(** * The client's references to its connections

    An [rpcc] of src/lab41/rpc/rpc.cc keeps the connection to its server in
    [chan_]; every call in [call1] keeps the one it last sent on in [ch].  This file
    models what [get_refconn], the end of [call1], [connect_to_dst] of connection.cc
    and [~rpcc] do to the counts, with a store in which a deleted connection is
    gone. *)

From S2P Require Import Prelude Connection.

(** [k_objs]: the connections that exist; [k_chan]: [chan_]; [k_calls]: the calls
    under way with their [ch]. *)
Record refs := Refs {
  k_objs : gmap Z connection;
  k_chan : option Z;
  k_calls : gmap Z (option Z) }.

Definition new_refs : refs := Refs ∅ None ∅.

Definition set_objs (x : gmap Z connection) (w : refs) : refs := Refs x (k_chan w) (k_calls w).
Definition set_chan (x : option Z) (w : refs) : refs := Refs (k_objs w) x (k_calls w).
Definition set_ch (t : Z) (x : option Z) (w : refs) : refs :=
  Refs (k_objs w) (k_chan w) (<[t := x]> (k_calls w)).

(** [c->...]: the connection must not have been deleted. *)
Definition obj (c : Z) (w : refs) : res connection :=
  match k_objs w !! c with Some o => Ok o | None => Crash OutOfBounds end.
Definition do_incref (c : Z) (w : refs) : res refs :=
  o ← obj c w; Ok (set_objs (<[c := incref o]> (k_objs w)) w).
Definition do_decref (c : Z) (w : refs) : res refs :=
  o ← obj c w; r ← decref o;
  Ok (set_objs (match r with Some o' => <[c := o']> (k_objs w) | None => delete c (k_objs w) end) w).

(** [connect_to_dst]: the connection it makes, none when it cannot connect. *)
Definition connect_to_dst (new : option Z) (w : refs) : refs :=
  match new with
  | Some c => set_chan (Some c) (set_objs (<[c := new_connection]> (k_objs w)) w)
  | None => set_chan None w
  end.

(** [get_refconn], first part: [chan_] is connected anew when it is dead. *)
Definition reconnect (new : option Z) (w : refs) : res refs :=
  match k_chan w with
  | None => Ok (connect_to_dst new w)
  | Some c =>
      o ← obj c w;
      if dead_ o then w ← do_decref c w; Ok (connect_to_dst new w) else Ok w
  end.

(** Second part: the call [t] takes over a reference to [chan_]. *)
Definition take_ref (t : Z) (w : refs) : res refs :=
  match k_calls w !! t, k_chan w with
  | Some ch, Some c =>
      w ← match ch with Some c0 => do_decref c0 w | None => Ok w end;
      do_incref c (set_ch t (Some c) w)
  | _, _ => Ok w
  end.

Definition get_refconn (t : Z) (new : option Z) (w : refs) : res refs :=
  w ← reconnect new w; take_ref t w.

(** A call begins, with [ch] null, and ends. *)
Definition begin_call (t : Z) (w : refs) : refs := set_ch t None w.
Definition end_call (t : Z) (w : refs) : res refs :=
  w' ← match k_calls w !! t with Some (Some c) => do_decref c w | _ => Ok w end;
  Ok (Refs (k_objs w') (k_chan w') (delete t (k_calls w'))).

(** [ch->isdead()] and [ch->send(...)] of the call [t]. *)
Definition use_ch (t : Z) (w : refs) : res refs :=
  match k_calls w !! t with Some (Some c) => _ ← obj c w; Ok w | _ => Ok w end.

(** The connection breaks. *)
Definition die (c : Z) (w : refs) : res refs :=
  o ← obj c w; Ok (set_objs (<[c := closeconn o]> (k_objs w)) w).

(** [~rpcc] *)
Definition destroy (w : refs) : res refs :=
  w ← match k_chan w with
      | Some c => w ← die c w; w ← do_decref c w; Ok (set_chan None w)
      | None => Ok w
      end;
  if decide (k_calls w = ∅) then Ok w else Crash AssertFail.

(** The steps of the threads; the destructor is called when no call is under way. *)
Inductive step (w : refs) : res refs -> Prop :=
  | st_begin t : k_calls w !! t = None -> step w (Ok (begin_call t w))
  | st_get t new : is_Some (k_calls w !! t) -> (forall c, new = Some c -> k_objs w !! c = None) ->
      step w (get_refconn t new w)
  | st_use t : step w (use_ch t w)
  | st_end t : is_Some (k_calls w !! t) -> step w (end_call t w)
  | st_die c : is_Some (k_objs w !! c) -> step w (die c w)
  | st_destroy : k_calls w = ∅ -> step w (destroy w).

Inductive reach : refs -> Prop :=
  | reach_init : reach new_refs
  | reach_step w w' : reach w -> step w (Ok w') -> reach w'.

(** ** The invariant *)

(** The references to [c]. *)
Definition held (c : Z) (w : refs) : Z :=
  (if decide (k_chan w = Some c) then 1 else 0) + Z.of_nat (count_map (fun x => x = Some c) (k_calls w)).

(** [e c] is how much the count of [c] is ahead of its references. *)
Record inv (e : Z -> Z) (w : refs) : Prop := {
  iv_refs c o : k_objs w !! c = Some o -> refno_ o = held c w + e c;
  iv_dom c : is_Some (k_objs w !! c) <-> 0 < held c w + e c;
  iv_wpdu c o : k_objs w !! c = Some o -> wpdu_ o = no_buf;
  iv_live c o : k_objs w !! c = Some o -> dead_ o = false -> k_chan w = Some c }.

Definition even : Z -> Z := fun _ => 0.
Definition ahead (c n : Z) (e : Z -> Z) : Z -> Z := fun x => e x + if decide (x = c) then n else 0.

Lemma held_nonneg c w : 0 <= held c w.
Proof. unfold held. case_decide; lia. Qed.

Lemma held_chan c w : k_chan w = Some c -> 1 <= held c w.
Proof. intros E. unfold held. rewrite decide_True by done. lia. Qed.

Lemma held_call t c w : k_calls w !! t = Some (Some c) ->
  1 <= held c w /\ (k_chan w = Some c -> 2 <= held c w).
Proof.
  intros E. pose proof (count_map_pos (fun x => x = Some c) _ _ _ E eq_refl). unfold held.
  split; [case_decide; lia|]. intros ->. rewrite decide_True by done. lia.
Qed.

(** The references change hands. *)
Lemma inv_move e e' w w' : inv e w -> k_objs w' = k_objs w ->
  (forall c, held c w' + e' c = held c w + e c) ->
  (forall c o, k_objs w !! c = Some o -> dead_ o = false -> k_chan w' = Some c) -> inv e' w'.
Proof.
  intros [Hr Hd Hw Hl] Eo Hh Hlive. split; rewrite ?Eo; try done; intros c; rewrite Hh; [apply Hr | apply Hd].
Qed.

Lemma inv_ext e e' w : inv e w -> (forall c, e' c = e c) -> inv e' w.
Proof. intros Hi He. apply (inv_move e e' w w Hi); [done | intros; by rewrite He | apply Hi]. Qed.

(** The same holders, and a connection that is there or not. *)
Definition same_holders (w w' : refs) : Prop := k_chan w' = k_chan w /\ k_calls w' = k_calls w.

Lemma same_held w w' c : same_holders w w' -> held c w' = held c w.
Proof. intros [E1 E2]. unfold held. by rewrite E1, E2. Qed.

(** A connection is replaced by one with [n] references more, or deleted when none
    are left. *)
Lemma inv_count e c n o o' w : inv e w -> k_objs w !! c = Some o -> refno_ o' = refno_ o + n ->
  wpdu_ o' = no_buf -> (dead_ o' = false -> dead_ o = false) -> 0 < held c w + e c + n ->
  inv (ahead c n e) (set_objs (<[c := o']> (k_objs w)) w).
Proof.
  intros [Hr Hd Hw Hl] Ho Hn Hp Hdead Hpos.
  split; unfold ahead; intros x; change (held x (set_objs _ _)) with (held x w); cbn;
    rewrite lookup_insert; destruct (decide (c = x)) as [<-|Hx]; rewrite ?(decide_True (P := c = c)) by done.
  - intros ? [= <-]. rewrite Hn, (Hr c o Ho). lia.
  - rewrite decide_False by congruence. intros ox Hox. rewrite (Hr x ox Hox). lia.
  - split; [lia | eauto].
  - rewrite decide_False by congruence. rewrite Z.add_0_r. apply Hd.
  - by intros ? [= <-].
  - apply Hw.
  - intros ? [= <-] Hdo. by apply (Hl c o), Hdead.
  - apply Hl.
Qed.

Lemma inv_delete e c w : inv e w -> held c w + e c = 1 ->
  inv (ahead c (-1) e) (set_objs (delete c (k_objs w)) w).
Proof.
  intros [Hr Hd Hw Hl] H1.
  split; unfold ahead; intros x; change (held x (set_objs _ _)) with (held x w); cbn;
    rewrite lookup_delete; destruct (decide (c = x)) as [<-|Hx]; rewrite ?(decide_True (P := c = c)) by done;
    rewrite ?(decide_False (P := x = c)) by congruence; rewrite ?Z.add_0_r; try done.
  - apply Hr.
  - split; [by intros [? ?] | lia].
  - apply Hw.
  - apply Hl.
Qed.

Lemma conn_incref_ok e c w : inv e w -> is_Some (k_objs w !! c) ->
  exists w', do_incref c w = Ok w' /\ inv (ahead c 1 e) w' /\ same_holders w w'.
Proof.
  intros Hi Hc. pose proof (proj1 (iv_dom _ _ Hi c) Hc) as Hp. destruct Hc as [o Ho].
  unfold do_incref, obj. rewrite Ho. eexists. split; [done|]. split; [|done].
  eapply inv_count; [done | exact Ho | done | exact (iv_wpdu _ _ Hi c o Ho) | done | lia].
Qed.

(** The last reference is dropped of dead connections only. *)
Lemma conn_decref_ok e c o w : inv e w -> k_objs w !! c = Some o -> (held c w + e c = 1 -> dead_ o = true) ->
  exists w', do_decref c w = Ok w' /\ inv (ahead c (-1) e) w' /\ same_holders w w' /\
    (forall x o', k_objs w' !! x = Some o' -> exists ox, k_objs w !! x = Some ox /\ dead_ o' = dead_ ox).
Proof.
  intros Hi Ho Hdead. pose proof (proj1 (iv_dom _ _ Hi c) ltac:(eauto)) as Hp.
  pose proof (iv_refs _ _ Hi c o Ho) as Hr. pose proof (iv_wpdu _ _ Hi c o Ho) as Hw.
  unfold do_decref, obj. rewrite Ho. unfold decref. cbn.
  destruct (Z.ltb_spec (refno_ o - 1) 0); [lia|].
  destruct (Z.eqb_spec (refno_ o - 1) 0) as [H0|Hn0]; cbn.
  - rewrite (Hdead ltac:(lia)), Hw. cbn. eexists. split; [done|].
    split; [apply inv_delete; [done | lia]|]. split; [done|]. intros x o'. cbn.
    rewrite lookup_delete. case_decide; [done|]. eauto.
  - eexists. split; [done|]. split; [|split; [done|]].
    + eapply inv_count; [done | exact Ho | cbn; lia | done | done | lia].
    + intros x o'. cbn. rewrite lookup_insert. case_decide; [|eauto]. intros [= <-]. subst. eauto.
Qed.

Lemma conn_die_ok c w : inv even w -> is_Some (k_objs w !! c) ->
  exists w', die c w = Ok w' /\ inv even w' /\ same_holders w w' /\
    exists o, k_objs w' !! c = Some o /\ dead_ o = true.
Proof.
  intros Hi Hc. pose proof (proj1 (iv_dom _ _ Hi c) Hc) as Hp. destruct Hc as [o Ho].
  unfold die, obj. rewrite Ho. eexists. split; [done|]. split; [|split; [done|]].
  - eapply inv_ext; [eapply (inv_count even c 0 o); [done | exact Ho | | | | lia]|].
    + unfold closeconn. destruct (dead_ o); cbn; lia.
    + pose proof (iv_wpdu _ _ Hi c o Ho). unfold closeconn. by destruct (dead_ o).
    + unfold closeconn. by destruct (dead_ o) eqn:E; rewrite ?E.
    + intros x. unfold ahead, even. case_decide; lia.
  - cbn. rewrite lookup_insert_eq. eexists. split; [done|]. unfold closeconn. by destruct (dead_ o) eqn:E.
Qed.

(** ** The steps *)

Lemma begin_ok t w : inv even w -> k_calls w !! t = None -> inv even (begin_call t w).
Proof.
  intros Hi Ht. apply (inv_move even even w _ Hi); [done | | apply Hi]. intros c. unfold held. cbn.
  rewrite count_map_insert by done. rewrite (decide_False (P := None = Some c)) by done. by rewrite Nat.add_0_r.
Qed.

(** [ch] of the call [t] becomes [x]. *)
Lemma held_set_ch t x x0 w c : k_calls w !! t = Some x0 ->
  held c (set_ch t x w) = held c w + (if decide (x = Some c) then 1 else 0)
    - (if decide (x0 = Some c) then 1 else 0).
Proof.
  intros Ht. unfold held. cbn. pose proof (count_map_update (fun y => y = Some c) _ _ x _ Ht) as Hu.
  repeat case_decide; lia.
Qed.

(** A connection that only a call holds, and that is not [chan_], is dead. *)
Lemma call_dead w t c o : inv even w -> k_calls w !! t = Some (Some c) -> k_objs w !! c = Some o ->
  held c w + even c = 1 -> dead_ o = true.
Proof.
  intros Hi Ht Ho H1. destruct (dead_ o) eqn:Hd; [done|]. exfalso.
  pose proof (iv_live _ _ Hi c o Ho Hd) as Hc. destruct (held_call t c w Ht) as [_ H2].
  specialize (H2 Hc). unfold even in H1. lia.
Qed.

Lemma connect_ok new w : inv even w -> k_chan w = None -> (forall c, new = Some c -> k_objs w !! c = None) ->
  inv even (connect_to_dst new w).
Proof.
  intros Hi Hch Hnew. destruct new as [c|]; cbn.
  2:{ apply (inv_move even even w _ Hi); [done | intros c; unfold held; cbn; by rewrite Hch |].
      intros c o Ho Hd. pose proof (iv_live _ _ Hi c o Ho Hd). congruence. }
  specialize (Hnew c eq_refl).
  assert (held c w = 0) as H0.
  { pose proof (held_nonneg c w). destruct (decide (0 < held c w + even c)) as [Hp|Hn].
    - apply (iv_dom _ _ Hi) in Hp. rewrite Hnew in Hp. by destruct Hp.
    - unfold even in Hn. lia. }
  assert (forall x, held x (set_chan (Some c) (set_objs (<[c:=new_connection]> (k_objs w)) w)) =
    held x w + if decide (c = x) then 1 else 0) as Hh.
  { intros x. unfold held. cbn. rewrite Hch. rewrite (decide_False (P := None = _)) by done.
    repeat case_decide; simplify_eq; lia. }
  split; intros x; rewrite ?Hh; cbn; rewrite lookup_insert; destruct (decide (c = x)) as [<-|Hx];
    rewrite ?Z.add_0_r.
  - intros o [= <-]. cbn. unfold even. lia.
  - intros o Ho. rewrite (iv_refs _ _ Hi x o Ho). unfold even. lia.
  - split; [unfold even; lia | eauto].
  - rewrite (iv_dom _ _ Hi x). unfold even. lia.
  - by intros o [= <-].
  - exact (iv_wpdu _ _ Hi x).
  - done.
  - intros o Ho Hd. pose proof (iv_live _ _ Hi x o Ho Hd). congruence.
Qed.

Lemma reconnect_ok new w : inv even w -> (forall c, new = Some c -> k_objs w !! c = None) ->
  exists w', reconnect new w = Ok w' /\ inv even w' /\ k_calls w' = k_calls w.
Proof.
  intros Hi Hnew. unfold reconnect. destruct (k_chan w) as [c|] eqn:Hch.
  2:{ eexists. split; [done|]. split; [by apply connect_ok|]. by destruct new. }
  destruct (proj2 (iv_dom _ _ Hi c)) as [o Ho]; [pose proof (held_chan c w Hch); unfold even; lia|].
  unfold obj. rewrite Ho. cbn [mbind res_bind]. destruct (dead_ o) eqn:Hd; [|by exists w].
  destruct (conn_decref_ok even c o w Hi Ho) as (w1 & E1 & H1 & [Hs1 Hs2] & Hold); [done|]. rewrite E1. cbn.
  eexists. split; [done|]. split; [|by destruct new].
  assert (inv even (set_chan None w1)) as H2.
  { apply (inv_move _ even w1 _ H1); [done | |].
    - intros x. unfold held, ahead, even. cbn. rewrite Hs1, Hch. repeat case_decide; simplify_eq; lia.
    - intros x ox Hox Hdx. exfalso. pose proof (iv_live _ _ H1 x ox Hox Hdx) as Hx.
      rewrite Hs1, Hch in Hx. injection Hx as <-.
      destruct (Hold _ _ Hox) as (o1 & Ho1 & Hd1). congruence. }
  replace (connect_to_dst new w1) with (connect_to_dst new (set_chan None w1)) by (by destruct new).
  apply connect_ok; [done | done |]. intros c' ->. cbn. specialize (Hnew c' eq_refl).
  destruct (k_objs w1 !! c') as [o'|] eqn:Ho'; [|done]. destruct (Hold _ _ Ho') as (? & ? & _). congruence.
Qed.

Lemma take_ref_ok t w : inv even w -> exists w', take_ref t w = Ok w' /\ inv even w' /\
  dom (k_calls w') = dom (k_calls w).
Proof.
  intros Hi. unfold take_ref. destruct (k_calls w !! t) as [ch|] eqn:Ht; [|by exists w].
  destruct (k_chan w) as [c|] eqn:Hch; [|by exists w].
  assert (exists w1, (match ch with Some c0 => do_decref c0 w | None => Ok w end) = Ok w1 /\
    inv (fun x => - if decide (ch = Some x) then 1 else 0) w1 /\ same_holders w w1) as (w1 & E1 & H1 & Hs).
  { destruct ch as [c0|].
    - destruct (proj2 (iv_dom _ _ Hi c0)) as [o Ho];
        [pose proof (proj1 (held_call t c0 w Ht)); unfold even; lia|].
      destruct (conn_decref_ok even c0 o w Hi Ho) as (w1 & E1 & H1 & Hs & _); [by eapply call_dead|].
      exists w1. split; [done|]. split; [|done]. eapply inv_ext; [exact H1|]. intros x.
      unfold ahead, even. repeat case_decide; simplify_eq; lia.
    - exists w. split; [done|]. split; [|done]. eapply inv_ext; [exact Hi|]. intros x.
      by rewrite decide_False. }
  rewrite E1. cbn [mbind res_bind]. destruct Hs as [Hs1 Hs2].
  assert (inv (ahead c (-1) even) (set_ch t (Some c) w1)) as H2.
  { apply (inv_move _ _ w1 _ H1); [done | | apply H1]. intros x. unfold ahead, even.
    rewrite (held_set_ch t (Some c) ch) by (by rewrite Hs2). repeat case_decide; simplify_eq; lia. }
  destruct (conn_incref_ok _ c _ H2) as (w2 & E2 & H3 & [_ Hs4]).
  { apply (iv_dom _ _ H2). unfold ahead, even. rewrite decide_True by done.
    destruct (held_call t c (set_ch t (Some c) w1)) as [_ Hc2]; [cbn; apply lookup_insert_eq|].
    cbn in Hc2. rewrite Hs1, Hch in Hc2. specialize (Hc2 eq_refl). lia. }
  exists w2. split; [done|]. split.
  - eapply inv_ext; [exact H3|]. intros x. unfold ahead, even. case_decide; lia.
  - rewrite Hs4. cbn. rewrite Hs2. apply dom_insert_lookup_L. by eexists.
Qed.

Lemma end_call_ok t w : inv even w -> exists w', end_call t w = Ok w' /\ inv even w' /\
  k_calls w' = delete t (k_calls w).
Proof.
  intros Hi. unfold end_call. destruct (k_calls w !! t) as [[c|]|] eqn:Ht.
  - destruct (proj2 (iv_dom _ _ Hi c)) as [o Ho];
      [pose proof (proj1 (held_call t c w Ht)); unfold even; lia|].
    destruct (conn_decref_ok even c o w Hi Ho) as (w1 & E1 & H1 & [Hs1 Hs2] & _); [by eapply call_dead|].
    rewrite E1. cbn. eexists. split; [done|]. split; [|cbn; by rewrite Hs2].
    apply (inv_move _ even w1 _ H1); [done | | apply H1]. intros x. unfold held, ahead, even. cbn.
    rewrite Hs2, (count_map_delete _ _ _ _ Ht). repeat case_decide; simplify_eq; lia.
  - cbn. eexists. split; [done|]. split; [|done]. apply (inv_move even even w _ Hi); [done | | apply Hi].
    intros x. unfold held. cbn. rewrite (count_map_delete _ _ _ _ Ht).
    rewrite (decide_False (P := None = Some x)) by done. by rewrite Nat.add_0_r.
  - cbn. eexists. split; [done|]. rewrite delete_id by done. split; [by destruct w | done].
Qed.

Lemma destroy_ok w : inv even w -> k_calls w = ∅ ->
  exists w', destroy w = Ok w' /\ inv even w' /\ k_chan w' = None /\ k_calls w' = ∅.
Proof.
  intros Hi Hc. unfold destroy. destruct (k_chan w) as [c|] eqn:Hch.
  2:{ cbn. rewrite decide_True by done. by exists w. }
  destruct (conn_die_ok c w Hi) as (w1 & E1 & H1 & [Hs1 Hs2] & o & Ho & Hd).
  { apply (iv_dom _ _ Hi). pose proof (held_chan c w Hch). unfold even. lia. }
  destruct (conn_decref_ok even c o w1 H1 Ho) as (w2 & E2 & H2 & [Hs3 Hs4] & Hold); [done|].
  rewrite E1. cbn. rewrite E2. cbn. rewrite decide_True by (cbn; congruence).
  eexists. split; [done|]. split; [|split; [done | cbn; congruence]].
  apply (inv_move _ even w2 _ H2); [done | |].
  - intros x. unfold held, ahead, even. cbn. rewrite Hs3, Hs1, Hch. repeat case_decide; simplify_eq; lia.
  - intros x ox Hox Hdx. pose proof (iv_live _ _ H2 x ox Hox Hdx) as Hx.
    rewrite Hs3, Hs1, Hch in Hx. injection Hx as <-.
    destruct (Hold _ _ Hox) as (o1 & Ho1 & Hd1). congruence.
Qed.

Lemma new_refs_inv : inv even new_refs.
Proof. split; intros c; cbn; rewrite ?lookup_empty; done. Qed.

Lemma step_ok w r : inv even w -> step w r -> exists w', r = Ok w' /\ inv even w'.
Proof.
  intros Hi [t Ht | t new Ht Hnew | t | t Ht | c Hc | Hc].
  - eexists. split; [done|]. by apply begin_ok.
  - destruct (reconnect_ok new w Hi Hnew) as (w1 & E1 & H1 & _).
    destruct (take_ref_ok t w1 H1) as (w2 & E2 & H2 & _). unfold get_refconn. rewrite E1. by exists w2.
  - unfold use_ch. destruct (k_calls w !! t) as [[c|]|] eqn:Ht; [|by exists w..].
    destruct (proj2 (iv_dom _ _ Hi c)) as [o Ho]; [pose proof (proj1 (held_call t c w Ht)); unfold even; lia|].
    unfold obj. rewrite Ho. by exists w.
  - destruct (end_call_ok t w Hi) as (w' & E & H1 & _). by exists w'.
  - destruct (conn_die_ok c w Hi Hc) as (w' & E & H1 & _). by exists w'.
  - destruct (destroy_ok w Hi Hc) as (w' & E & H1 & _). by exists w'.
Qed.

Lemma reach_ok w : reach w -> inv even w.
Proof.
  induction 1 as [|w w' _ IH Hst]; [apply new_refs_inv|].
  destruct (step_ok w _ IH Hst) as (w1 & [= <-] & H1). done.
Qed.

(** C21. A client never uses or frees a connection that is gone and never leaks one:
    in every reachable state a connection exists exactly when [chan_] or a call holds
    it, its count is the number of these references, every step of the threads
    succeeds, and after [~rpcc] no connection is left. *)
Theorem client_refs_exact (w : refs) : reach w ->
  (forall c, is_Some (k_objs w !! c) <-> 0 < held c w) /\
  (forall c o, k_objs w !! c = Some o -> refno_ o = held c w) /\
  (forall r, step w r -> exists w', r = Ok w') /\
  (k_calls w = ∅ -> exists w', destroy w = Ok w' /\ k_objs w' = ∅).
Proof.
  intros Hi%reach_ok. split; [|split; [|split]].
  - intros c. rewrite (iv_dom _ _ Hi c). unfold even. lia.
  - intros c o Ho. rewrite (iv_refs _ _ Hi c o Ho). unfold even. lia.
  - intros r Hst. destruct (step_ok w r Hi Hst) as (w' & -> & _). by exists w'.
  - intros Hc. destruct (destroy_ok w Hi Hc) as (w' & E & H1 & Hch & Hc'). exists w'. split; [done|].
    apply map_empty. intros c. apply eq_None_not_Some. rewrite (iv_dom _ _ H1 c).
    unfold held, even. rewrite Hch, Hc', (decide_False (P := None = Some c)) by done.
    rewrite count_map_0; [lia|]. intros i v Hv. by rewrite lookup_empty in Hv.
Qed.

(** A call that is made to a server whose first connection breaks. *)
Definition run_begun : refs := begin_call 1 new_refs.
Definition run_first : refs := Refs {[4 := Connection false no_buf no_buf 0 2]} (Some 4) {[1 := Some 4]}.
Definition run_broken : refs := Refs {[4 := Connection true no_buf no_buf 0 2]} (Some 4) {[1 := Some 4]}.
Definition run_second : refs := Refs {[5 := Connection false no_buf no_buf 0 2]} (Some 5) {[1 := Some 5]}.

Lemma run_second_reach : reach run_second.
Proof.
  assert (reach run_begun) as H1 by (eapply reach_step; [constructor | by apply (st_begin _ 1)]).
  assert (reach run_first) as H2.
  { apply (reach_step _ _ H1). replace (Ok run_first) with (get_refconn 1 (Some 4) run_begun) by reflexivity.
    apply st_get; [by eexists | by intros c [= <-]]. }
  assert (reach run_broken) as H3.
  { apply (reach_step _ _ H2). replace (Ok run_broken) with (die 4 run_first) by reflexivity.
    apply st_die. by eexists. }
  apply (reach_step _ _ H3). replace (Ok run_second) with (get_refconn 1 (Some 5) run_broken) by reflexivity.
  apply st_get; [by eexists | by intros c [= <-]].
Qed.

Lemma client_refs_exact_witness :
  (forall c, is_Some (k_objs run_second !! c) <-> 0 < held c run_second) /\
  (forall c o, k_objs run_second !! c = Some o -> refno_ o = held c run_second) /\
  (forall r, step run_second r -> exists w', r = Ok w') /\
  (k_calls run_second = ∅ -> exists w', destroy run_second = Ok w' /\ k_objs w' = ∅).
Proof. exact (client_refs_exact run_second run_second_reach). Defined.
