(* ===== verification/ThrPool.v ===== *)
(** * The job queue and the thread pool

    src/lab41/rpc/fifo.h and thr_pool.cc: a bounded queue with blocking [enq] and
    [deq], and the pool of worker threads behind it on which rpcs runs its
    handlers.

    A thread that waits on a condition variable is an element of a list, with a
    flag that says whether it has been signalled; it may also wake without a
    signal.  The parts of [enq] and [deq] between two waits, which hold the mutex
    of the queue, are functions; the steps interleave them. *)

From S2P Require Import Prelude.

(** ** Condition variables *)

Section waiting.
Context {A : Type}.
Implicit Types w : list (A * bool).

(** [pthread_cond_signal]: one thread that waits is woken, if there is one. *)
Fixpoint signal w : list (A * bool) :=
  match w with
  | [] => []
  | (a, true) :: w' => (a, true) :: signal w'
  | (a, false) :: w' => (a, true) :: w'
  end.

Definition nsig w : nat := length (filter (fun p => snd p = true) w).
Definition unsig w : Prop := Exists (fun p => snd p = false) w.

Lemma signal_nsig w : unsig w -> nsig (signal w) = S (nsig w).
Proof.
  unfold nsig. induction w as [|[a []] w IH]; intros Hu; [by inversion Hu| |].
  - cbn [signal]. rewrite !filter_cons_True by done. simpl. rewrite IH; [done|]. by inversion Hu.
  - cbn [signal]. by rewrite filter_cons_True, filter_cons_False by done.
Qed.

Lemma signal_unsig w : unsig (signal w) -> unsig w.
Proof.
  induction w as [|[a []] w IH]; simpl; [done| |].
  - intros Hu. right. apply IH. by inversion Hu.
  - intros _. by left.
Qed.

Lemma signal_fst w : (signal w).*1 = w.*1.
Proof. induction w as [|[a []] w IH]; csimpl; by f_equal. Qed.

Lemma signal_Forall (P : A -> Prop) w : Forall (fun p => P (fst p)) w -> Forall (fun p => P (fst p)) (signal w).
Proof. induction w as [|[a []] w IH]; simpl; rewrite ?Forall_cons; naive_solver. Qed.

Lemma nsig_delete w i a (b : bool) : w !! i = Some (a, b) -> nsig w = ((if b then 1 else 0) + nsig (delete i w))%nat.
Proof.
  intros Hi. unfold nsig. rewrite (delete_Permutation w i _ Hi) at 1. destruct b.
  - by rewrite filter_cons_True.
  - by rewrite filter_cons_False.
Qed.

Lemma unsig_delete w i : unsig (delete i w) -> unsig w.
Proof.
  unfold unsig. rewrite !Exists_exists. intros (x & Hx & Hb). exists x. split; [|done].
  apply list_elem_of_lookup in Hx as [j Hj]. apply list_elem_of_lookup.
  destruct (decide (j < i)%nat); [exists j; by rewrite <- (list_lookup_delete_lt w i j)|].
  exists (S j). by rewrite <- (list_lookup_delete_ge w i j) by lia.
Qed.

Lemma unsig_app w a : unsig (w ++ [(a, false)]).
Proof. apply Exists_app. right. by constructor. Qed.

Lemma nsig_app w a : nsig (w ++ [(a, false)]) = nsig w.
Proof. unfold nsig. rewrite filter_app, length_app. simpl. lia. Qed.
End waiting.

(** ** fifo<T> *)

Section fifo.
Context {T : Type}.

(** [f_deq] and [f_enq]: the threads that wait on [non_empty_c_] and on
    [has_space_c_]. *)
Record fifo := Fifo {
  q_ : list T;
  max_ : Z;
  f_deq : list (Z * bool);
  f_enq : list (Z * T * bool) }.

Definition new_fifo (limit : Z) : fifo := Fifo [] (u32 limit) [] [].

Definition size (s : fifo) : bool := negb (length (q_ s) =? 0)%nat.

(** One iteration of the loop of [enq]: the value it returns, or [None] when the
    thread [t] waits. *)
Definition enq (t : Z) (e : T) (blocking : bool) (s : fifo) : option bool * fifo :=
  if (max_ s =? 0) || (Z.of_nat (length (q_ s)) <? max_ s) then
    (Some true, Fifo (q_ s ++ [e]) (max_ s) (signal (f_deq s)) (f_enq s))
  else if blocking then (None, Fifo (q_ s) (max_ s) (f_deq s) (f_enq s ++ [((t, e), false)]))
  else (Some false, s).

(** One iteration of the loop of [deq]: the element, or [None] when [t] waits. *)
Definition deq (t : Z) (s : fifo) : option T * fifo :=
  match q_ s with
  | [] => (None, Fifo [] (max_ s) (f_deq s ++ [(t, false)]) (f_enq s))
  | e :: q =>
      (Some e, Fifo q (max_ s) (f_deq s)
                 (if negb (max_ s =? 0) && (Z.of_nat (length q) <? max_ s) then signal (f_enq s) else f_enq s))
  end.

(** The thread at position [i] of a wait list wakes and tests again. *)
Definition enq_wake (i : nat) (s : fifo) : option (option bool * fifo) :=
  match f_enq s !! i with
  | Some ((t, e), _) => Some (enq t e true (Fifo (q_ s) (max_ s) (f_deq s) (delete i (f_enq s))))
  | None => None
  end.

Definition deq_wake (i : nat) (s : fifo) : option (option T * fifo) :=
  match f_deq s !! i with
  | Some (t, _) => Some (deq t (Fifo (q_ s) (max_ s) (delete i (f_deq s)) (f_enq s)))
  | None => None
  end.

(** *** No wake-up is lost

    If a thread waits in [deq] without a signal, then every element of the queue
    is accounted for by a thread that has been signalled; likewise for the free
    places and [enq]. *)
Record fifo_inv (s : fifo) : Prop := {
  fi_bound : max_ s = 0 \/ Z.of_nat (length (q_ s)) <= max_ s;
  fi_deq : unsig (f_deq s) -> (length (q_ s) <= nsig (f_deq s))%nat;
  fi_enq : unsig (f_enq s) -> max_ s <> 0 /\ max_ s - Z.of_nat (length (q_ s)) <= Z.of_nat (nsig (f_enq s)) }.

(** [enq] in a queue from whose wait list one thread may have been taken. *)
Lemma enq_inv t e blocking s w r s' : fifo_inv s -> 0 <= max_ s ->
  enq t e blocking (Fifo (q_ s) (max_ s) (f_deq s) w) = (r, s') ->
  (unsig w -> unsig (f_enq s)) -> (nsig (f_enq s) <= S (nsig w))%nat ->
  (blocking = false -> w = f_enq s) -> fifo_inv s'.
Proof.
  intros [Hb Hd He] Hm Hs Hw1 Hw2 Hw3. unfold enq in Hs. simpl in Hs.
  destruct (Z.eqb_spec (max_ s) 0) as [H0|H0]; simpl in Hs.
  - simplify_eq. split; simpl; [by left| |].
    + intros Hu. rewrite signal_nsig by (by apply signal_unsig). rewrite length_app. simpl. specialize (Hd (signal_unsig _ Hu)). lia.
    + intros Hu%Hw1%He. lia.
  - destruct (Z.ltb_spec (Z.of_nat (length (q_ s))) (max_ s)) as [Hlt|Hge].
    + simplify_eq. split; simpl; rewrite ?length_app; simpl.
      * right. lia.
      * intros Hu. rewrite signal_nsig by (by apply signal_unsig). specialize (Hd (signal_unsig _ Hu)). lia.
      * intros Hu%Hw1%He. lia.
    + destruct blocking; simplify_eq; split; simpl; try done.
      * intros _. rewrite nsig_app. lia.
      * by rewrite Hw3.
Qed.

Lemma deq_inv t s w r s' : fifo_inv s ->
  deq t (Fifo (q_ s) (max_ s) w (f_enq s)) = (r, s') ->
  (unsig w -> unsig (f_deq s)) -> (nsig (f_deq s) <= S (nsig w))%nat -> fifo_inv s'.
Proof.
  intros [Hb Hd He] Hs Hw1 Hw2. unfold deq in Hs. simpl in Hs. destruct (q_ s) as [|e q] eqn:Eq; simplify_eq; simpl in *.
  - split; simpl; try done. lia.
  - split; simpl; [lia| |].
    + intros Hu%Hw1%Hd. lia.
    + destruct (Z.eqb_spec (max_ s) 0) as [H0|H0]; simpl; [intros Hu%He; lia|].
      rewrite (proj2 (Z.ltb_lt _ _)) by lia. intros Hu. rewrite signal_nsig by (by apply signal_unsig).
      destruct (He (signal_unsig _ Hu)). lia.
Qed.

(** The steps of the threads that use the queue, with what they put and took. *)
Inductive fevent :=
  | Enq (t : Z) (e : T) (blocking : bool)
  | EnqWake (i : nat)
  | Deq (t : Z)
  | DeqWake (i : nat).

Record fsys := Fsys { fs_q : fifo; fs_put : list T; fs_got : list T }.

(** The element an [enq] puts when it returns true. *)
Definition put_by (s : fifo) (ev : fevent) : option T :=
  match ev with
  | Enq _ e _ => Some e
  | EnqWake i => (fun p => snd (fst p)) <$> f_enq s !! i
  | _ => None
  end.

Definition fstep (s : fsys) (ev : fevent) : option fsys :=
  match ev with
  | Enq t e blocking =>
      let '(r, q) := enq t e blocking (fs_q s) in
      Some (Fsys q (fs_put s ++ match r with Some true => [e] | _ => [] end) (fs_got s))
  | EnqWake i =>
      match enq_wake i (fs_q s), f_enq (fs_q s) !! i with
      | Some (r, q), Some ((_, e), _) => Some (Fsys q (fs_put s ++ match r with Some true => [e] | _ => [] end) (fs_got s))
      | _, _ => None
      end
  | Deq t => let '(r, q) := deq t (fs_q s) in Some (Fsys q (fs_put s) (fs_got s ++ option_list r))
  | DeqWake i =>
      match deq_wake i (fs_q s) with
      | Some (r, q) => Some (Fsys q (fs_put s) (fs_got s ++ option_list r))
      | None => None
      end
  end.

Inductive freach (limit : Z) : fsys -> Prop :=
  | freach_init : freach limit (Fsys (new_fifo limit) [] [])
  | freach_step s ev s' : freach limit s -> fstep s ev = Some s' -> freach limit s'.

Lemma enq_data t e blocking s r s' : enq t e blocking s = (r, s') ->
  max_ s' = max_ s /\ q_ s' = q_ s ++ match r with Some true => [e] | _ => [] end.
Proof. unfold enq. destruct (_ || _); [|destruct blocking]; intros [= <- <-]; simpl; by rewrite ?(right_id_L [] (++)). Qed.

Lemma deq_data t s r s' : deq t s = (r, s') -> max_ s' = max_ s /\ q_ s = option_list r ++ q_ s'.
Proof. unfold deq. destruct (q_ s) eqn:E; intros [= <- <-]; done. Qed.

Record fsys_inv (s : fsys) : Prop := {
  si_fifo : fifo_inv (fs_q s);
  si_max : 0 <= max_ (fs_q s);
  si_order : fs_put s = fs_got s ++ q_ (fs_q s) }.

Lemma fstep_inv s ev s' : fsys_inv s -> fstep s ev = Some s' -> fsys_inv s'.
Proof.
  intros [Hf Hm Ho] Hs. destruct ev as [t e blocking|i|t|i]; simpl in Hs.
  - destruct (enq t e blocking (fs_q s)) as [r q] eqn:E. simplify_eq. destruct (enq_data _ _ _ _ _ _ E) as [E1 E2].
    split; simpl; [|lia|by rewrite E2, Ho, (assoc_L (++))].
    eapply (enq_inv t e blocking _ (f_enq (fs_q s))); [exact Hf|done|by destruct (fs_q s)|done|lia|done].
  - unfold enq_wake in Hs. destruct (f_enq (fs_q s) !! i) as [[[t e] b]|] eqn:Ei; [|done].
    destruct (enq t e true _) as [r q] eqn:E. simplify_eq. destruct (enq_data _ _ _ _ _ _ E) as [E1 E2]. simpl in E1, E2.
    split; simpl; [|lia|by rewrite E2, Ho, (assoc_L (++))].
    eapply (enq_inv t e true _ (delete i (f_enq (fs_q s)))); [exact Hf|done|exact E|apply unsig_delete| |done].
    rewrite (nsig_delete _ _ _ _ Ei). destruct b; lia.
  - destruct (deq t (fs_q s)) as [r q] eqn:E. simplify_eq. destruct (deq_data _ _ _ _ E) as [E1 E2].
    split; simpl; [|lia|by rewrite Ho, E2, (assoc_L (++))].
    eapply (deq_inv t _ (f_deq (fs_q s))); [exact Hf|by destruct (fs_q s)|done|lia].
  - unfold deq_wake in Hs. destruct (f_deq (fs_q s) !! i) as [[t b]|] eqn:Ei; [|done].
    destruct (deq t _) as [r q] eqn:E. simplify_eq. destruct (deq_data _ _ _ _ E) as [E1 E2]. simpl in E1, E2.
    split; simpl; [|lia|by rewrite Ho, E2, (assoc_L (++))].
    eapply (deq_inv t _ (delete i (f_deq (fs_q s)))); [exact Hf|exact E|apply unsig_delete|].
    rewrite (nsig_delete _ _ _ _ Ei). destruct b; lia.
Qed.

Lemma freach_inv limit s : freach limit s -> fsys_inv s.
Proof.
  induction 1; [|by eapply fstep_inv]. split; simpl; [|apply Z.mod_pos_bound; lia|done].
  split; simpl; [|by inversion 1..]. pose proof (Z.mod_pos_bound limit (2 ^ 32)). unfold u32. lia.
Qed.

(** C26. The queue: in every interleaving of [enq] and [deq], also with spurious
    wake-ups, elements leave in the order they were put in and none is lost or
    doubled, a bounded queue never exceeds its bound, and no wake-up is lost: a
    thread waits without a signal in [deq] only while each element is spoken for
    by a thread that has been signalled, and in [enq] only while each free place
    is. *)
Theorem fifo_correct (limit : Z) (s : fsys) :
  freach limit s ->
  fs_put s = fs_got s ++ q_ (fs_q s) /\
  (max_ (fs_q s) = 0 \/ Z.of_nat (length (q_ (fs_q s))) <= max_ (fs_q s)) /\
  (unsig (f_deq (fs_q s)) -> (length (q_ (fs_q s)) <= nsig (f_deq (fs_q s)))%nat) /\
  (unsig (f_enq (fs_q s)) -> max_ (fs_q s) - Z.of_nat (length (q_ (fs_q s))) <= Z.of_nat (nsig (f_enq (fs_q s)))).
Proof.
  intros [[Hb Hd He] _ Ho]%freach_inv. split; [done|]. split; [done|]. split; [done|]. intros Hu. by apply He.
Qed.
End fifo.
Arguments fifo T : clear implicits.
Arguments fsys T : clear implicits.

(** ** ThrPool *)

Section pool.
Context {J : Type}.

(** A job; [None] is the poison pill, a null function. *)
Abbreviation job := (option J).

(** A worker: before [takeJob], waiting in it, running a job, gone. *)
Inductive wstate := Idle | Waiting | Busy (j : J) | Exited.

(** [tp_closing]: the destructor has begun; [tp_put] and [tp_got] record what
    went through the queue. *)
Record pool := Pool {
  tp_q : fifo job;
  tp_th : list wstate;
  tp_block : bool;
  tp_closing : bool;
  tp_put : list job;
  tp_got : list job }.

Definition new_pool (sz : nat) (blocking : bool) : pool :=
  Pool (new_fifo (100 * Z.of_nat sz)) (replicate sz Idle) blocking false [] [].

(** What [do_worker] does with the result of [takeJob]. *)
Definition after_take (r : option job) : wstate :=
  match r with
  | None => Waiting
  | Some (Some j) => Busy j
  | Some None => Exited
  end.

Definition addJob (t : Z) (j : job) (blocking : bool) (s : pool) : option bool * pool :=
  let '(r, q) := enq t j blocking (tp_q s) in
  (r, Pool q (tp_th s) (tp_block s) (tp_closing s) (tp_put s ++ match r with Some true => [j] | _ => [] end) (tp_got s)).

Definition took (w : nat) (r : option job) (q : fifo job) (s : pool) : pool :=
  Pool q (<[w := after_take r]> (tp_th s)) (tp_block s) (tp_closing s) (tp_put s) (tp_got s ++ option_list r).

Definition takeJob (w : nat) (s : pool) : pool :=
  let '(r, q) := deq (Z.of_nat w) (tp_q s) in took w r q s.

Definition pills (l : list job) : nat := length (filter (fun x => ~ is_Some x) l).
Definition is_exited (x : wstate) : bool := match x with Exited => true | _ => false end.

(** The steps; no job is added once the destructor has begun, and it begins when
    no thread is blocked in [addJob]. *)
Inductive pstep (s : pool) : pool -> Prop :=
  | p_add t j : tp_closing s = false -> pstep s (snd (addJob t (Some j) (tp_block s) s))
  | p_poison t : f_enq (tp_q s) = [] -> (pills (tp_put s) < length (tp_th s))%nat ->
      pstep s (snd (addJob t None true (Pool (tp_q s) (tp_th s) (tp_block s) true (tp_put s) (tp_got s))))
  | p_add_wake i t j b q r : f_enq (tp_q s) !! i = Some ((t, j), b) -> enq_wake i (tp_q s) = Some (r, q) ->
      pstep s (Pool q (tp_th s) (tp_block s) (tp_closing s) (tp_put s ++ match r with Some true => [j] | _ => [] end) (tp_got s))
  | p_take w : tp_th s !! w = Some Idle -> pstep s (takeJob w s)
  | p_take_wake i w b q r : f_deq (tp_q s) !! i = Some (Z.of_nat w, b) -> deq_wake i (tp_q s) = Some (r, q) ->
      pstep s (took w r q s)
  | p_finish w j : tp_th s !! w = Some (Busy j) ->
      pstep s (Pool (tp_q s) (<[w := Idle]> (tp_th s)) (tp_block s) (tp_closing s) (tp_put s) (tp_got s)).

(** The threads in the wait list of the queue are the workers that wait. *)
Record waits_ok (d : list Z) (th : list wstate) : Prop := {
  wo_nodup : NoDup d;
  wo_wait w : th !! w = Some Waiting <-> Z.of_nat w ∈ d;
  wo_worker t : t ∈ d -> exists w, t = Z.of_nat w }.

Record pool_inv (n : nat) (s : pool) : Prop := {
  pi_fifo : fsys_inv (Fsys (tp_q s) (tp_put s) (tp_got s));
  pi_len : length (tp_th s) = n;
  pi_jobs : exists l k, tp_put s = (Some <$> l) ++ replicate k None /\ (tp_closing s = false -> k = 0%nat);
  pi_enq : if tp_closing s then Forall (fun p => snd (fst p) = None) (f_enq (tp_q s))
           else Forall (fun p => is_Some (snd (fst p))) (f_enq (tp_q s));
  pi_exit : pills (tp_got s) = length (filter is_exited (tp_th s));
  pi_wait : waits_ok (f_deq (tp_q s)).*1 (tp_th s) }.

Lemma pills_app l k : pills (l ++ k) = (pills l + pills k)%nat.
Proof. unfold pills. by rewrite filter_app, length_app. Qed.

Lemma pills_some (l : list J) : pills (Some <$> l) = 0%nat.
Proof. unfold pills. induction l as [|x l IH]; [done|]. csimpl. rewrite filter_cons_False; [done|]. intros H. by apply H. Qed.

Lemma pills_none k : pills (replicate k None) = k.
Proof. unfold pills. induction k as [|k IH]; [done|]. cbn [replicate]. rewrite filter_cons_True; [by simpl; f_equal|]. by intros []. Qed.

(** After the first pill there are only pills. *)
Lemma pills_last (l : list J) k (g q : list job) :
  (Some <$> l) ++ replicate k None = g ++ q -> (0 < pills g)%nat -> pills q = length q.
Proof.
  revert g. induction l as [|x l IH]; intros g; csimpl.
  - intros H Hg. assert (Forall (fun y => y = None) (g ++ q)) as Hf by (rewrite <- H; by apply Forall_replicate).
    apply Forall_app in Hf as [_ Hf]. unfold pills. clear -Hf. induction Hf as [|y q -> _ IH]; [done|].
    rewrite filter_cons_True; [by simpl; f_equal|]. by intros [].
  - destruct g as [|y g]; [unfold pills; simpl; lia|]. intros [= <- H]. unfold pills at 1.
    rewrite filter_cons_False; [|by intros H0; apply H0]. by apply IH.
Qed.

(** *** The workers *)

Lemma waits_keep d th w x y : waits_ok d th -> th !! w = Some x -> x <> Waiting -> y <> Waiting -> waits_ok d (<[w := y]> th).
Proof.
  intros [H1 H2 H3] Hw Hx Hy. split; [done| |done]. intros v. rewrite list_lookup_insert. case_decide as Hv; [|apply H2].
  destruct Hv as [-> _]. split; [congruence|]. intros Hd%H2. congruence.
Qed.

Lemma waits_new d th w x : waits_ok d th -> th !! w = Some x -> x <> Waiting -> waits_ok (d ++ [Z.of_nat w]) (<[w := Waiting]> th).
Proof.
  intros [H1 H2 H3] Hw Hx. assert (Z.of_nat w ∉ d) as Hn by (intros H%H2; congruence). split.
  - apply NoDup_app. split; [done|]. split; [set_solver|]. apply NoDup_singleton.
  - intros v. rewrite list_lookup_insert, elem_of_app, list_elem_of_singleton. case_decide as Hv.
    + destruct Hv as [-> _]. naive_solver.
    + rewrite H2. split; [by left|]. intros [|E]; [done|]. apply Nat2Z.inj in E as ->. destruct Hv. split; [done|]. by eapply lookup_lt_Some.
  - intros t [?| ->%list_elem_of_singleton]%elem_of_app; eauto.
Qed.

Lemma waits_wake d th w i y : waits_ok d th -> d !! i = Some (Z.of_nat w) -> y <> Waiting -> waits_ok (delete i d) (<[w := y]> th).
Proof.
  intros [H1 H2 H3] Hi Hy. pose proof (delete_Permutation d i _ Hi) as Hp. rewrite Hp in H1. apply NoDup_cons in H1 as [Hn H1].
  assert (forall t, t ∈ delete i d <-> t ∈ d /\ t <> Z.of_nat w) as Hd.
  { intros t. rewrite Hp at 2. rewrite elem_of_cons. split; [intros H; split; [by right|]; by intros -> | by intros [[?|?] ?]]. }
  split; [done| |].
  - intros v. rewrite Hd, <- H2, list_lookup_insert. case_decide as Hv.
    + destruct Hv as [-> _]. split; [congruence | by intros [_ ?]].
    + split; [|by intros [? _]]. intros Hw. split; [done|]. intros ->%Nat2Z.inj. destruct Hv. split; [done|]. by eapply lookup_lt_Some.
  - intros t [Ht _]%Hd. by apply H3.
Qed.

Lemma exited_insert (th : list wstate) w x y : th !! w = Some x -> x <> Exited ->
  length (filter is_exited (<[w := y]> th)) = ((if is_exited y then 1 else 0) + length (filter is_exited th))%nat.
Proof.
  intros Hw Hx. revert w Hw. induction th as [|z th IH]; intros [|w] Hw; [done..| |].
  - injection Hw as ->. change (<[0%nat := y]> (x :: th)) with (y :: th). rewrite !filter_cons.
    destruct x, y; simpl; (done || lia).
  - change (<[S w := y]> (z :: th)) with (z :: <[w := y]> th). rewrite !filter_cons. specialize (IH w Hw).
    case_decide; simpl; lia.
Qed.

(** A worker that is not gone takes from the queue. *)
Lemma inv_took n s w x r q d :
  pool_inv n s -> tp_th s !! w = Some x -> x <> Exited ->
  fsys_inv (Fsys q (tp_put s) (tp_got s ++ option_list r)) -> f_enq q = f_enq (tp_q s) \/ f_enq q = signal (f_enq (tp_q s)) ->
  waits_ok d (<[w := after_take r]> (tp_th s)) -> (f_deq q).*1 = d -> pool_inv n (took w r q s).
Proof.
  intros [Hf Hl Hj He Hx Hw] Hw1 Hx1 Hf' Hq Hw' <-. split; simpl; try done.
  - by rewrite length_insert.
  - assert (forall P : option J -> Prop, Forall (fun p => P (snd (fst p))) (f_enq (tp_q s)) -> Forall (fun p => P (snd (fst p))) (f_enq q)) as Hp.
    { intros P HP. destruct Hq as [-> | ->]; [done|]. by apply (signal_Forall (fun a : Z * job => P (snd a))). }
    destruct (tp_closing s); [by apply (Hp (fun y => y = None)) | by apply (Hp is_Some)].
  - rewrite pills_app, Hx, (exited_insert _ _ _ _ Hw1 Hx1). destruct r as [[j|]|]; unfold pills; simpl; lia.
Qed.

Lemma deq_enq_list t (q : fifo job) r q' : deq t q = (r, q') -> f_enq q' = f_enq q \/ f_enq q' = signal (f_enq q).
Proof. unfold deq. destruct (q_ q); intros [= <- <-]; simpl; [by left|]. destruct (_ && _); auto. Qed.

Lemma deq_waits t (q : fifo job) r q' : deq t q = (r, q') ->
  (f_deq q').*1 = (f_deq q).*1 ++ match r with None => [t] | Some _ => [] end.
Proof. unfold deq. destruct (q_ q); intros [= <- <-]; simpl; [by rewrite fmap_app | by rewrite (right_id_L [] (++))]. Qed.

Lemma enq_waits t j blocking (q : fifo job) r q' : enq t j blocking q = (r, q') -> (f_deq q').*1 = (f_deq q).*1.
Proof. unfold enq. destruct (_ || _); [|destruct blocking]; intros [= <- <-]; simpl; rewrite ?signal_fst; done. Qed.

Lemma enq_enq_list t j blocking (q : fifo job) r q' : enq t j blocking q = (r, q') ->
  f_enq q' = f_enq q ++ match r with None => [((t, j), false)] | Some _ => [] end.
Proof. unfold enq. destruct (_ || _); [|destruct blocking]; intros [= <- <-]; simpl; by rewrite ?(right_id_L [] (++)). Qed.

(** *** Adding jobs and pills *)

Lemma jobs_add (s : pool) j b : (exists l k, tp_put s = (Some <$> l) ++ replicate k None /\ (tp_closing s = false -> k = 0%nat)) ->
  (if tp_closing s then j = None else is_Some j) ->
  exists l k, tp_put s ++ (if b : bool then [j] else []) = (Some <$> l) ++ replicate k None /\ (tp_closing s = false -> k = 0%nat).
Proof.
  intros (l & k & Hp & Hk) Hj. destruct b; [|exists l, k; by rewrite (right_id_L [] (++))]. rewrite Hp. destruct (tp_closing s).
  - subst j. exists l, (S k). split; [|done]. by rewrite replicate_S_end, (assoc_L (++)).
  - destruct Hj as [x ->]. rewrite Hk by done. exists (l ++ [x]), 0%nat. split; [|done]. rewrite fmap_app. simpl. by rewrite !(right_id_L [] (++)).
Qed.

Lemma put_bool (r : option bool) (j : job) : match r with Some true => [j] | _ => [] end = if default false r then [j] else [].
Proof. by destruct r as [[]|]. Qed.

Lemma inv_put n s t j r q d :
  pool_inv n s -> (if tp_closing s then j = None else is_Some j) ->
  fsys_inv (Fsys q (tp_put s ++ match r with Some true => [j] | _ => [] end) (tp_got s)) ->
  f_enq q = d ++ match r with None => [((t, j), false)] | Some _ => [] end -> d ⊆ f_enq (tp_q s) ->
  (f_deq q).*1 = (f_deq (tp_q s)).*1 ->
  pool_inv n (Pool q (tp_th s) (tp_block s) (tp_closing s) (tp_put s ++ match r with Some true => [j] | _ => [] end) (tp_got s)).
Proof.
  intros [Hf Hl Hj He Hx Hw] Hjj Hf' Hq Hd Hdq. split; simpl; try done.
  - rewrite put_bool. by apply jobs_add.
  - assert (forall P : option J -> Prop, P j -> Forall (fun p => P (snd (fst p))) (f_enq (tp_q s)) -> Forall (fun p => P (snd (fst p))) (f_enq q)) as Hp.
    { intros P Pj HP. rewrite Hq. apply Forall_app. split; [|destruct r; by repeat constructor].
      rewrite Forall_forall in *. intros y Hy. by apply HP, Hd. }
    destruct (tp_closing s); [by apply (Hp (fun y => y = None)) | by apply (Hp is_Some)].
  - by rewrite Hdq.
Qed.

Lemma delete_subseteq {B} (l : list B) i : delete i l ⊆ l.
Proof. apply sublist_subseteq, sublist_delete. Qed.

Lemma pool_step_inv n s s' : pool_inv n s -> pstep s s' -> pool_inv n s'.
Proof.
  intros Hi Hs. pose proof Hi as [Hf Hl Hj He Hx Hw]. destruct Hs as [t j Hc|t Hn Hp|i t j b q r Hq Hs|w Hww|i w b q r Hq Hs|w j Hww].
  - unfold addJob. destruct (enq t (Some j) (tp_block s) (tp_q s)) as [r q] eqn:E. simpl.
    eapply inv_put; [done|by rewrite Hc| |by eapply enq_enq_list|done|by eapply enq_waits].
    eapply (fstep_inv _ (Enq t (Some j) (tp_block s))); [exact Hf|]. simpl. by rewrite E.
  - unfold addJob. simpl. destruct (enq t None true (tp_q s)) as [r q] eqn:E. simpl.
    set (s0 := Pool (tp_q s) (tp_th s) (tp_block s) true (tp_put s) (tp_got s)).
    apply (inv_put n s0 t None r q (f_enq (tp_q s))); [|done| |by eapply enq_enq_list|done|by eapply enq_waits].
    + split; simpl; try done; [|by rewrite Hn]. destruct Hj as (l & k & Hlk & _). by exists l, k.
    + eapply (fstep_inv _ (Enq t None true)); [exact Hf|]. simpl. by rewrite E.
  - unfold enq_wake in Hs. rewrite Hq in Hs. injection Hs as E.
    assert (if tp_closing s then j = None else is_Some j) as Hjj.
    { assert (((t, j), b) ∈ f_enq (tp_q s)) as Hin by (by eapply list_elem_of_lookup_2). destruct (tp_closing s);
        rewrite Forall_forall in He; apply (He _ Hin). }
    eapply inv_put; [done|exact Hjj| |by eapply enq_enq_list in E|apply delete_subseteq|by eapply enq_waits in E].
    eapply (fstep_inv _ (EnqWake i)); [exact Hf|]. simpl. unfold enq_wake. by rewrite Hq, E.
  - unfold takeJob. destruct (deq (Z.of_nat w) (tp_q s)) as [r q] eqn:E.
    eapply inv_took; [done|exact Hww|done| |by eapply deq_enq_list| |reflexivity].
    + eapply (fstep_inv _ (Deq (Z.of_nat w))); [exact Hf|]. simpl. by rewrite E.
    + rewrite (deq_waits _ _ _ _ E). destruct r as [[j|]|]; simpl; [rewrite (right_id_L [] (++)).. |].
      * by eapply waits_keep.
      * by eapply waits_keep.
      * by eapply waits_new.
  - unfold deq_wake in Hs. rewrite Hq in Hs. injection Hs as E.
    assert ((f_deq (tp_q s)).*1 !! i = Some (Z.of_nat w)) as Hd by (by rewrite list_lookup_fmap, Hq).
    assert (tp_th s !! w = Some Waiting) as Hww by (apply (wo_wait _ _ Hw); by eapply list_elem_of_lookup_2).
    eapply inv_took; [done|exact Hww|done| |eapply deq_enq_list in E; exact E| |reflexivity].
    + eapply (fstep_inv _ (DeqWake i)); [exact Hf|]. simpl. unfold deq_wake. by rewrite Hq, E.
    + rewrite (deq_waits _ _ _ _ E). simpl. rewrite list_fmap_delete.
      destruct r as [[j|]|]; simpl; [rewrite (right_id_L [] (++)).. |].
      * by eapply waits_wake.
      * by eapply waits_wake.
      * rewrite <- (list_insert_insert_eq (tp_th s) w Waiting Idle). eapply (waits_new _ _ w Idle); [by eapply waits_wake| |done].
        apply list_lookup_insert_eq. by eapply lookup_lt_Some.
  - split; simpl; try done.
    + by rewrite length_insert.
    + by rewrite Hx, (exited_insert _ _ _ Idle Hww).
    + by eapply waits_keep.
Qed.

Lemma pool_reach_inv n blocking s : rtc pstep (new_pool n blocking) s -> pool_inv n s.
Proof.
  intros Hr. assert (pool_inv n (new_pool n blocking)) as H0.
  { split; simpl; [|by rewrite length_replicate|by exists [], 0%nat|constructor| |].
    - apply (freach_inv (100 * Z.of_nat n)). apply freach_init.
    - unfold pills. simpl. clear. induction n as [|n IH]; [done|]. cbn [replicate]. rewrite filter_cons_False; [done|]. by intros [].
    - split; [apply NoDup_nil_2| |by intros t []%elem_of_nil]. intros w. split; [|by intros []%elem_of_nil].
      intros [H _]%lookup_replicate. done. }
  revert H0. induction Hr as [|s1 s2 s3 Hs _ IH]; [done|]. intros H1. apply IH. by eapply pool_step_inv.
Qed.

Lemma waiting_or_gone (th : list wstate) : Forall (fun x => x = Waiting \/ x = Exited) th ->
  Forall (fun x => x = Exited) th \/ exists w, th !! w = Some Waiting.
Proof.
  induction 1 as [|x th [->| ->] _ [IH|[w IH]]]; [by left|by right; exists 0%nat..| |].
  - left. by constructor.
  - right. by exists (S w).
Qed.

Lemma exited_all (th : list wstate) : length (filter is_exited th) = length th -> Forall (fun x => x = Exited) th.
Proof.
  induction th as [|x th IH]; [constructor|]. rewrite filter_cons. pose proof (length_filter is_exited th).
  case_decide as Hx; simpl; intros H0; [|lia]. constructor; [by destruct x | apply IH; lia].
Qed.

(** C23. Shutting down: when the destructor of a pool of at least one thread has
    put its pills and no worker can proceed (none is running, none is about to
    take a job, none has been signalled), then every worker has gone and every
    job that was added, before the pills, has been started, once and in order. *)
Theorem thr_pool_shutdown (n : nat) (blocking : bool) (s : pool) :
  rtc pstep (new_pool n blocking) s -> (0 < n)%nat -> pills (tp_put s) = n ->
  Forall (fun x => x = Waiting \/ x = Exited) (tp_th s) -> nsig (f_deq (tp_q s)) = 0%nat ->
  Forall (fun x => x = Exited) (tp_th s) /\ tp_got s = tp_put s.
Proof.
  intros [Hf Hl (l & k & Hp & _) He Hx Hw]%pool_reach_inv Hn0 Hpn Hth Hsig. pose proof (si_order _ Hf) as Ho. simpl in Ho.
  destruct (waiting_or_gone (tp_th s) Hth) as [Hall|[w Hww]].
  2:{ apply (wo_wait _ _ Hw) in Hww.
    assert (unsig (f_deq (tp_q s))) as Hu.
    { apply list_elem_of_fmap in Hww as ([t b] & Ht & Hin). apply Exists_exists. exists (t, b). split; [done|]. destruct b; [|done].
      exfalso. unfold nsig in Hsig. apply length_zero_iff_nil in Hsig.
      assert ((t, true) ∈ filter (fun p : Z * bool => snd p = true) (f_deq (tp_q s))) as Hf0 by (by apply list_elem_of_filter).
      rewrite Hsig in Hf0. by apply elem_of_nil in Hf0. }
    pose proof (fi_deq _ (si_fifo _ Hf) Hu) as Hq. simpl in Hq. rewrite Hsig in Hq. apply Nat.le_0_r, length_zero_iff_nil in Hq.
    rewrite Hq, (right_id_L [] (++)) in Ho. split; [|done]. apply exited_all. rewrite <- Hx, <- Ho. lia. }
  split; [done|]. assert (pills (tp_got s) = n) as Hg.
  { rewrite Hx, <- Hl. clear -Hall. induction Hall as [|x th -> _ IH]; [done|]. rewrite filter_cons_True by done. by simpl; f_equal. }
  rewrite Ho, pills_app in Hpn. rewrite Hp in Ho. rewrite (pills_last l k _ _ Ho) in Hpn by lia.
  assert (q_ (tp_q s) = []) as Hq by (apply length_zero_iff_nil; lia). by rewrite Hp, Ho, Hq, (right_id_L [] (++)).
Qed.
End pool.
Arguments pool J : clear implicits.

(** ** Closed runs *)

Definition sample_fsys : fsys Z :=
  default (Fsys (new_fifo 1) [] []) (fstep (Fsys (new_fifo 1) [] []) (Enq 1 7 true)).

Lemma fifo_correct_witness : fs_put sample_fsys = fs_got sample_fsys ++ q_ (fs_q sample_fsys).
Proof.
  apply (fifo_correct 1 sample_fsys). eapply (freach_step 1 _ (Enq 1 7 true)); [apply freach_init | reflexivity].
Defined.

(** One worker, one job, one pill. *)
Definition sample_pool : pool Z := Pool (Fifo [] 100 [] []) [Exited] true true [Some 5; None] [Some 5; None].

Lemma sample_pool_reach : rtc pstep (new_pool 1 true) sample_pool.
Proof.
  eapply rtc_l; [apply (p_add _ 9 5); reflexivity|].
  eapply rtc_l; [apply (p_take _ 0); reflexivity|].
  eapply rtc_l; [apply (p_finish _ 0 5); reflexivity|].
  eapply rtc_l; [apply (p_poison _ 9); [reflexivity | vm_compute; lia]|].
  eapply rtc_l; [apply (p_take _ 0); reflexivity|].
  apply rtc_refl.
Qed.

Lemma thr_pool_shutdown_witness :
  Forall (fun x => x = Exited) (tp_th sample_pool) /\ tp_got sample_pool = tp_put sample_pool.
Proof.
  apply (thr_pool_shutdown 1 true sample_pool sample_pool_reach); [lia | reflexivity | | reflexivity].
  constructor; [by right | constructor].
Defined.
