(* ===== verification/PollMgr.v ===== *)
(** * The poll manager

    src/lab41/rpc/pollmgr.cc: one thread waits in [select] (or, in the version
    that is compiled but not used, in [epoll_wait]) and runs the callbacks of the
    connections whose descriptors are ready; other threads add and remove
    descriptors.

    The kernel is an argument: the answer of [select] is a step's choice, bounded
    by what the manual promises.  A method that holds a mutex from start to end is
    one function; [block_remove_fd] is cut where it waits, [wait_loop] where it
    holds no mutex. *)

From S2P Require Import Prelude.

Inductive poll_flag := CB_NONE | CB_RDONLY | CB_WRONLY | CB_RDWR | CB_MASK.

Definition flag_val (f : poll_flag) : Z :=
  match f with CB_NONE => 0 | CB_RDONLY => 0x1 | CB_WRONLY => 0x10 | CB_RDWR => 0x11 | CB_MASK => Z.lnot 0x11 end.

#[export] Instance poll_flag_eq_dec : EqDecision poll_flag.
Proof. solve_decision. Defined.

Definition MAX_POLL_FDS : Z := 128.

(** ** [SelectAIO] *)

Module SelectAIO.

(** The bits of an [fd_set]. *)
Definition FD_SETSIZE : Z := 1024.
Definition fd_ok (fd : Z) : bool := (0 <=? fd) && (fd <? FD_SETSIZE).

(** [pipe]: the bytes in the pipe that wakes the poll thread; [pipefd]: its
    reading end, [pipefd_[0]].  The pipe has no bound here: the kernel's holds
    64 KiB, and a writer blocks once that many bytes wait for the poll thread. *)
Record select_aio := SelectAio { rfds : gset Z; wfds : gset Z; highfds : Z; pipefd : Z; pipe : list Z }.

Definition new_select_aio (p : Z) : res select_aio :=
  if fd_ok p then Ok (SelectAio {[p]} ∅ p p []) else Crash OutOfBounds.

Definition watch_fd (fd : Z) (flag : poll_flag) (s : select_aio) : res select_aio :=
  if fd_ok fd then
    let high := if highfds s <=? fd then fd else highfds s in
    let '(r, w) := match flag with
      | CB_RDONLY => ({[fd]} ∪ rfds s, wfds s)
      | CB_WRONLY => (rfds s, {[fd]} ∪ wfds s)
      | _ => ({[fd]} ∪ rfds s, {[fd]} ∪ wfds s)
      end in
    Ok (SelectAio r w high (pipefd s) (pipe s ++ [1]))
  else Crash OutOfBounds.

Definition is_watched (fd : Z) (flag : poll_flag) (s : select_aio) : res bool :=
  if fd_ok fd then
    Ok match flag with
       | CB_RDONLY => bool_decide (fd ∈ rfds s)
       | CB_WRONLY => bool_decide (fd ∈ wfds s)
       | _ => bool_decide (fd ∈ rfds s) && bool_decide (fd ∈ wfds s)
       end
  else Crash OutOfBounds.

(** The loop of [unwatch_fd] that looks for the highest descriptor. *)
Definition newhigh (r w : gset Z) (p high : Z) : Z :=
  fold_left (fun newh i => if bool_decide (i ∈ r) then i else if bool_decide (i ∈ w) then i else newh)
    (seqZ 0 (high + 1)) p.

Definition unwatch_fd (fd : Z) (flag : poll_flag) (s : select_aio) : res (bool * select_aio) :=
  if fd_ok fd then
    '(r, w) ← match flag with
      | CB_RDONLY => Ok (rfds s ∖ {[fd]}, wfds s)
      | CB_WRONLY => Ok (rfds s, wfds s ∖ {[fd]})
      | CB_RDWR => Ok (rfds s ∖ {[fd]}, wfds s ∖ {[fd]})
      | _ => Crash AssertFail
      end;
    let none := negb (bool_decide (fd ∈ r)) && negb (bool_decide (fd ∈ w)) in
    let high := if none && (fd =? highfds s) then newhigh r w (pipefd s) (highfds s) else highfds s in
    let p := if decide (flag = CB_RDWR) then pipe s ++ [1] else pipe s in
    Ok (none, SelectAio r w high (pipefd s) p)
  else Crash OutOfBounds.

(** What [select] did: it was interrupted, it failed, or it returned; then
    [ready_r] and [ready_w] are the descriptors that were ready. *)
Inductive selected :=
  | EIntr
  | EOther
  | Ready (ready_r ready_w : gset Z).

(** [select(high + 1, &r, ...)] leaves in the set the descriptors up to [high] that are ready. *)
Definition select_set (high : Z) (ready r : gset Z) : gset Z := filter (fun fd => fd <= high) (r ∩ ready).

(** The loop of [wait_ready]. *)
Fixpoint wait_scan (fds : list Z) (tr tw : gset Z) (s : select_aio) (readable writable : list Z) : res (list Z * list Z * select_aio) :=
  match fds with
  | [] => Ok (readable, writable, s)
  | fd :: fds =>
      if (fd =? pipefd s) && bool_decide (fd ∈ tr) then
        match pipe s with
        | [] => Crash AssertFail
        | tmp :: p => if tmp =? 1 then wait_scan fds tr tw (SelectAio (rfds s) (wfds s) (highfds s) (pipefd s) p) readable writable
                      else Crash AssertFail
        end
      else
        let writable := if bool_decide (fd ∈ tw) then writable ++ [fd] else writable in
        let readable := if bool_decide (fd ∈ tr) then readable ++ [fd] else readable in
        wait_scan fds tr tw s readable writable
  end.

(** [wait_ready] after it has copied the sets to [tr] and [tw] and [highfds_] to [high]. *)
Definition wait_ready (tr tw : gset Z) (high : Z) (a : selected) (s : select_aio) : res (list Z * list Z * select_aio) :=
  match a with
  | EIntr => Ok ([], [], s)
  | EOther => Crash AssertFail
  | Ready rr rw => wait_scan (seqZ 0 (high + 1)) (select_set high rr tr) (select_set high rw tw) s [] []
  end.

End SelectAIO.

(** ** [EPollAIO] *)

Module EPollAIO.

Definition EPOLLIN : Z := 1.
Definition EPOLLOUT : Z := 4.
Definition EPOLLET : Z := 2 ^ 31.

Inductive ctl := EPOLL_CTL_ADD | EPOLL_CTL_DEL | EPOLL_CTL_MOD.

(** [interest] is the kernel's list of the events asked for. *)
Record epoll_aio := EpollAio { fdstatus : list Z; interest : gmap Z Z }.

Definition new_epoll_aio : epoll_aio := EpollAio (replicate (Z.to_nat MAX_POLL_FDS) 0) ∅.

(** [epoll_ctl]: adding what is there and changing what is not there are errors. *)
Definition epoll_ctl (op : ctl) (fd ev : Z) (k : gmap Z Z) : option (gmap Z Z) :=
  match op, k !! fd with
  | EPOLL_CTL_ADD, None => Some (<[fd := ev]> k)
  | EPOLL_CTL_MOD, Some _ => Some (<[fd := ev]> k)
  | EPOLL_CTL_DEL, Some _ => Some (delete fd k)
  | _, _ => None
  end.

Definition poll_flag_to_event (flag : poll_flag) : Z :=
  match flag with
  | CB_RDONLY => EPOLLIN
  | CB_WRONLY => EPOLLOUT
  | _ => Z.lor EPOLLIN EPOLLOUT
  end.

(** The events of a status, as [watch_fd] and [unwatch_fd] build them. *)
Definition status_events (st : Z) : Z :=
  let ev := EPOLLET in
  let ev := if negb (Z.land st (flag_val CB_RDONLY) =? 0) then Z.lor ev EPOLLIN else ev in
  if negb (Z.land st (flag_val CB_WRONLY) =? 0) then Z.lor ev EPOLLOUT else ev.

(** [fdstatus_[fd]]; outside the array it is a fault. *)
Definition status (fd : Z) (s : epoll_aio) : res Z :=
  if fd <? 0 then Crash OutOfBounds
  else match fdstatus s !! Z.to_nat fd with Some st => Ok st | None => Crash OutOfBounds end.

Definition watch_fd (fd : Z) (flag : poll_flag) (s : epoll_aio) : res epoll_aio :=
  if negb (fd <? MAX_POLL_FDS) then Crash AssertFail else
  st ← status fd s;
  let op := if negb (st =? 0) then EPOLL_CTL_MOD else EPOLL_CTL_ADD in
  let st := Z.lor st (flag_val flag) in
  let ev := status_events st in
  if bool_decide (flag = CB_RDWR) && negb (ev =? Z.lor EPOLLET (Z.lor EPOLLIN EPOLLOUT)) then Crash AssertFail
  else match epoll_ctl op fd ev (interest s) with
       | Some k => Ok (EpollAio (<[Z.to_nat fd := st]> (fdstatus s)) k)
       | None => Crash AssertFail
       end.

Definition unwatch_fd (fd : Z) (flag : poll_flag) (s : epoll_aio) : res (bool * epoll_aio) :=
  if negb (fd <? MAX_POLL_FDS) then Crash AssertFail else
  st ← status fd s;
  let st := Z.land st (Z.lnot (flag_val flag)) in
  let op := if negb (st =? 0) then EPOLL_CTL_MOD else EPOLL_CTL_DEL in
  let ev := status_events st in
  if bool_decide (flag = CB_RDWR) && negb (st =? 0) then Crash AssertFail
  else match epoll_ctl op fd ev (interest s) with
       | Some k => Ok (st =? 0, EpollAio (<[Z.to_nat fd := st]> (fdstatus s)) k)
       | None => Crash AssertFail
       end.

Definition is_watched (fd : Z) (flag : poll_flag) (s : epoll_aio) : res bool :=
  if negb (fd <? MAX_POLL_FDS) then Crash AssertFail else
  st ← status fd s; Ok (Z.land st (flag_val CB_MASK) =? flag_val flag).

(** [wait_ready] over the events [epoll_wait] returned, each with its descriptor. *)
Definition wait_ready (ready : list (Z * Z)) : list Z * list Z :=
  ((filter (fun p => Z.land (snd p) EPOLLIN <> 0) ready).*1, (filter (fun p => Z.land (snd p) EPOLLOUT <> 0) ready).*1).

End EPollAIO.

(** ** [PollMgr] *)

Module PollMgr.
Import SelectAIO.

(** [callbacks]: the array [callbacks_], a callback object by its identity. *)
Record poll_mgr := PollMgr { callbacks : list (option Z); aio : select_aio; pending_change : bool }.

Definition new_poll_mgr (p : Z) : res poll_mgr :=
  a ← new_select_aio p; Ok (PollMgr (replicate (Z.to_nat MAX_POLL_FDS) None) a false).

(** [callbacks_[fd]] *)
Definition callback (fd : Z) (m : poll_mgr) : res (option Z) :=
  if fd <? 0 then Crash OutOfBounds
  else match callbacks m !! Z.to_nat fd with Some c => Ok c | None => Crash OutOfBounds end.

(** [callbacks_[fd] = c] *)
Definition set_callback (fd : Z) (c : option Z) (m : poll_mgr) : res poll_mgr :=
  _ ← callback fd m; Ok (PollMgr (<[Z.to_nat fd := c]> (callbacks m)) (aio m) (pending_change m)).

Definition set_aio (a : select_aio) (m : poll_mgr) : poll_mgr := PollMgr (callbacks m) a (pending_change m).
Definition set_pending (b : bool) (m : poll_mgr) : poll_mgr := PollMgr (callbacks m) (aio m) b.

Definition add_callback (fd : Z) (flag : poll_flag) (ch : Z) (m : poll_mgr) : res poll_mgr :=
  if negb (fd <? MAX_POLL_FDS) then Crash AssertFail else
  a ← watch_fd fd flag (aio m);
  c ← callback fd m;
  if bool_decide (c = None) || bool_decide (c = Some ch) then set_callback fd (Some ch) (set_aio a m)
  else Crash AssertFail.

Definition del_callback (fd : Z) (flag : poll_flag) (m : poll_mgr) : res poll_mgr :=
  '(none, a) ← unwatch_fd fd flag (aio m);
  if (none : bool) then set_callback fd None (set_aio a m) else Ok (set_aio a m).

Definition has_callback (fd : Z) (flag : poll_flag) (c : Z) (m : poll_mgr) : res bool :=
  cb ← callback fd m;
  if bool_decide (cb = None) || negb (bool_decide (cb = Some c)) then Ok false
  else is_watched fd flag (aio m).

(** [block_remove_fd] up to [pthread_cond_wait], and after it. *)
Definition block_remove_fd (fd : Z) (m : poll_mgr) : res poll_mgr :=
  '(_, a) ← unwatch_fd fd CB_RDWR (aio m); Ok (set_pending true (set_aio a m)).

Definition block_remove_fd_end (fd : Z) (m : poll_mgr) : res poll_mgr := set_callback fd None m.

(** Where the poll thread is in [wait_loop]: before the test of
    [pending_change_], before the copy of the sets, in [select], or running the
    callbacks of the descriptors left in [readable] and [writable]. *)
Inductive wait_pc :=
  | Top
  | Copy
  | Selecting (tr tw : gset Z) (high : Z)
  | Running (readable writable : list Z).

(** The poll manager, its thread, and the threads that wait in
    [block_remove_fd], each with its descriptor and whether it was woken. *)
Record system := System { mgr : poll_mgr; pc : wait_pc; waiting : gmap Z (Z * bool) }.

(** What a step does. *)
Inductive event :=
  | Add (fd : Z) (flag : poll_flag) (ch : Z)
  | Del (fd : Z) (flag : poll_flag)
  | Remove (t fd : Z)
  | Removed (t fd : Z)
  | Poll
  | Called (fd ch : Z).

Definition woken (w : gmap Z (Z * bool)) : gmap Z (Z * bool) := (fun p => (fst p, true)) <$> w.

(** One step of [wait_loop]; [a] is the answer of [select]. *)
Definition wait_loop (a : selected) (s : system) : res (event * system) :=
  let m := mgr s in
  match pc s with
  | Top => if pending_change m then Ok (Poll, System (set_pending false m) Copy (woken (waiting s)))
           else Ok (Poll, System m Copy (waiting s))
  | Copy => Ok (Poll, System m (Selecting (rfds (aio m)) (wfds (aio m)) (highfds (aio m))) (waiting s))
  | Selecting tr tw high =>
      '(r, w, a) ← wait_ready tr tw high a (aio m);
      Ok (Poll, System (set_aio a m) (Running r w) (waiting s))
  | Running (fd :: r) w =>
      c ← callback fd m;
      Ok (match c with Some ch => Called fd ch | None => Poll end, System m (Running r w) (waiting s))
  | Running [] (fd :: w) =>
      c ← callback fd m;
      Ok (match c with Some ch => Called fd ch | None => Poll end, System m (Running [] w) (waiting s))
  | Running [] [] => Ok (Poll, System m Top (waiting s))
  end.

(** What [select] may answer in [s]: it returns when it is interrupted or when a
    descriptor it watches is ready, and the pipe is ready when it holds a byte. *)
Definition answer_ok (a : selected) (s : system) : Prop :=
  match pc s with
  | Selecting tr tw high =>
      match a with
      | EIntr => True
      | EOther => False
      | Ready rr rw => (pipefd (aio (mgr s)) ∈ rr <-> pipe (aio (mgr s)) <> []) /\
                       select_set high rr tr ∪ select_set high rw tw <> ∅
      end
  | _ => True
  end.

Inductive step (s : system) : event -> system -> Prop :=
  | step_add fd flag ch m : add_callback fd flag ch (mgr s) = Ok m -> fd <> pipefd (aio (mgr s)) ->
      step s (Add fd flag ch) (System m (pc s) (waiting s))
  | step_del fd flag m : del_callback fd flag (mgr s) = Ok m -> fd <> pipefd (aio (mgr s)) ->
      step s (Del fd flag) (System m (pc s) (waiting s))
  | step_remove t fd m : waiting s !! t = None -> block_remove_fd fd (mgr s) = Ok m -> fd <> pipefd (aio (mgr s)) ->
      step s (Remove t fd) (System m (pc s) (<[t := (fd, false)]> (waiting s)))
  | step_removed t fd m : waiting s !! t = Some (fd, true) -> block_remove_fd_end fd (mgr s) = Ok m ->
      step s (Removed t fd) (System m (pc s) (delete t (waiting s)))
  | step_poll a e s' : answer_ok a s -> wait_loop a s = Ok (e, s') -> step s e s'.

Inductive run (s : system) : list event -> system -> Prop :=
  | run_nil : run s [] s
  | run_step s1 tr e s2 : run s tr s1 -> step s1 e s2 -> run s (tr ++ [e]) s2.

Definition started (p : Z) (s : system) : Prop := exists m, new_poll_mgr p = Ok m /\ s = System m Top ∅.

End PollMgr.
