(* ===== verification/PollMgrCorrect.v ===== *)
(** * Correctness of the poll manager

    [select] is asked about every watched descriptor and only those are reported;
    a descriptor that [block_remove_fd] has removed is not called back again; a
    thread in [block_remove_fd] is let go after a bounded number of steps of the
    poll thread; the [epoll] version watches what the [select] version watches. *)

From S2P Require Import Prelude PollMgr.

(** ** [SelectAIO] *)

Module SelectFacts.
Import SelectAIO.

(** [highfds_] bounds the sets, the pipe is watched for reading, and the pipe
    only holds ones. *)
Record sel_ok (p : Z) (s : select_aio) : Prop := {
  so_pipefd : pipefd s = p;
  so_r : p ∈ rfds s;
  so_w : p ∉ wfds s;
  so_high fd : fd ∈ rfds s ∪ wfds s -> 0 <= fd <= highfds s;
  so_size : highfds s < FD_SETSIZE;
  so_pipe : Forall (fun b => b = 1) (pipe s) }.

Lemma fd_ok_spec fd : fd_ok fd = true <-> 0 <= fd < FD_SETSIZE.
Proof. unfold fd_ok. rewrite andb_true_iff, Z.leb_le, Z.ltb_lt. lia. Qed.

Lemma newhigh_spec r w p high :
  (newhigh r w p high = p \/ 0 <= newhigh r w p high <= high) /\
  (forall i, i ∈ r ∪ w -> 0 <= i <= high -> i <= newhigh r w p high).
Proof.
  unfold newhigh. destruct (Z.leb_spec 0 high) as [Hh|Hh].
  2:{ rewrite seqZ_nil by lia. simpl. split; [by left|lia]. }
  assert (exists n, high = Z.of_nat n - 1) as [n ->] by (exists (Z.to_nat (high + 1)); lia). clear Hh.
  replace (Z.of_nat n - 1 + 1) with (Z.of_nat n) by lia. induction n as [|n [IH1 IH2]]; [simpl; split; [by left|lia]|].
  rewrite seqZ_S, fold_left_app. simpl. set (x := fold_left _ _ _) in *.
  case_bool_decide as Hr; [split; [right; lia|lia]|]. case_bool_decide as Hw; [split; [right; lia|lia]|].
  split; [destruct IH1; [by left|right; lia]|]. intros i Hi Hb. destruct (decide (i = Z.of_nat n)) as [->|]; [set_solver|].
  apply IH2; [done|lia].
Qed.

Lemma new_ok p s : new_select_aio p = Ok s -> sel_ok p s.
Proof.
  unfold new_select_aio. destruct (fd_ok p) eqn:Hp; [|done]. intros [= <-]. apply fd_ok_spec in Hp.
  split; simpl; [done|set_solver|set_solver|set_solver by lia|lia|done].
Qed.

Lemma watch_fd_ok p fd flag s s' : sel_ok p s -> fd <> p -> watch_fd fd flag s = Ok s' ->
  sel_ok p s' /\ 0 <= fd /\ pipe s' <> [] /\ (forall x, x ∈ rfds s' ∪ wfds s' -> x = fd \/ x ∈ rfds s ∪ wfds s).
Proof.
  intros [H1 H2 H3 H4 H5 H6] Hfd. unfold watch_fd. destruct (fd_ok fd) eqn:Hok; [|done]. apply fd_ok_spec in Hok.
  assert (forall x, x = fd \/ x ∈ rfds s ∪ wfds s -> 0 <= x <= (if highfds s <=? fd then fd else highfds s)) as Hb.
  { intros x Hx. destruct (Z.leb_spec (highfds s) fd); destruct Hx as [->|Hx%H4]; lia. }
  assert ((if highfds s <=? fd then fd else highfds s) < FD_SETSIZE) as Hs by (destruct (highfds s <=? fd); lia).
  assert (Forall (fun b => b = 1) (pipe s ++ [1])) as Hf by (apply Forall_app_2; [done|by constructor]).
  assert (pipe s ++ [1] <> []) as Hne by by destruct (pipe s).
  destruct flag; intros [= <-]; (split; [split; simpl; first [done | intros x Hx; apply Hb; set_solver | set_solver]|]);
    (split; [lia|]); (split; [done|simpl; set_solver]).
Qed.

Lemma unwatch_fd_sets fd flag s b s' : unwatch_fd fd flag s = Ok (b, s') ->
  rfds s' = (match flag with CB_WRONLY => rfds s | _ => rfds s ∖ {[fd]} end) /\
  wfds s' = (match flag with CB_RDONLY => wfds s | _ => wfds s ∖ {[fd]} end) /\
  b = bool_decide (fd ∉ rfds s' ∪ wfds s') /\ (flag = CB_RDWR -> pipe s' <> []).
Proof.
  unfold unwatch_fd. destruct (fd_ok fd); [|done]. destruct flag; simpl; try done; intros [= <- <-]; simpl; (split; [done|]); (split; [done|]).
  all: split; [repeat case_bool_decide; set_solver|]; try done; intros _; by destruct (pipe s).
Qed.

Lemma unwatch_fd_ok p fd flag s b s' : sel_ok p s -> fd <> p -> unwatch_fd fd flag s = Ok (b, s') ->
  sel_ok p s' /\ (forall x, x ∈ rfds s' ∪ wfds s' -> x ∈ rfds s ∪ wfds s) /\ (pipe s <> [] -> pipe s' <> []).
Proof.
  intros [H1 H2 H3 H4 H5 H6] Hfd Hu. destruct (unwatch_fd_sets _ _ _ _ _ Hu) as (Hr & Hw & _ & _).
  assert (forall x, x ∈ rfds s' ∪ wfds s' -> x ∈ rfds s ∪ wfds s) as Hsub by (rewrite Hr, Hw; destruct flag; set_solver).
  assert (p ∈ rfds s' /\ p ∉ wfds s') as [Hp1 Hp2] by (rewrite Hr, Hw; destruct flag; set_solver).
  assert (0 <= p <= highfds s) as Hp by (apply H4; set_solver).
  revert Hu. unfold unwatch_fd. destruct (fd_ok fd) eqn:Hok; [|done]. intros Hu. apply res_bind_inv in Hu as ([r w] & _ & [= Hb Hs]).
  set (high := if _ && _ then _ else _) in Hs.
  assert (pipe s' = pipe s \/ pipe s' = pipe s ++ [1]) as Hpp by (subst s'; simpl; case_decide; auto).
  assert (pipefd s' = p /\ highfds s' = high /\ rfds s' = r /\ wfds s' = w) as (Hpd & Hhi & Er & Ew) by (subst s'; simpl; auto).
  assert ((forall x, x ∈ rfds s' ∪ wfds s' -> 0 <= x <= high) /\ high < FD_SETSIZE) as [Hall Hlt].
  { subst high. destruct (newhigh_spec r w (pipefd s) (highfds s)) as [Hn1 Hn2]. rewrite H1 in Hn1, Hn2 |- *. rewrite Er, Ew in Hsub |- *.
    set (b0 := _ && _). destruct b0; [|auto]. split; [|lia]. intros x Hx. pose proof (H4 x (Hsub x Hx)). split; [lia|]. apply Hn2; [done|lia]. }
  split; [|split; [done|destruct Hpp as [->| ->]; [done|by destruct (pipe s)]]]. split; try done; [by rewrite Hhi | by rewrite Hhi |].
  destruct Hpp as [->| ->]; [done|]. apply Forall_app_2; [done|repeat constructor].
Qed.

(** *** [wait_ready] *)

Definition pop (p : Z) (tr : gset Z) (fds : list Z) (s : select_aio) : select_aio :=
  if decide (p ∈ tr /\ p ∈ fds) then SelectAio (rfds s) (wfds s) (highfds s) (pipefd s) (tail (pipe s)) else s.

Lemma wait_scan_spec p tr tw fds s rd wr :
  NoDup fds -> pipefd s = p -> p ∉ tw -> (p ∈ tr -> p ∈ fds -> exists q, pipe s = 1 :: q) ->
  wait_scan fds tr tw s rd wr =
    Ok (rd ++ filter (fun fd => fd ∈ tr /\ fd <> p) fds, wr ++ filter (fun fd => fd ∈ tw) fds, pop p tr fds s).
Proof.
  revert s rd wr. induction fds as [|fd fds IH]; intros s rd wr Hnd Hp Hw Hpipe.
  - simpl. rewrite !app_nil_r. unfold pop. rewrite decide_False; [done|]. intros [_ H]. by apply elem_of_nil in H.
  - apply NoDup_cons in Hnd as [Hn Hnd]. cbn [wait_scan]. rewrite Hp. destruct ((fd =? p) && bool_decide (fd ∈ tr)) eqn:Hc.
    + apply andb_true_iff in Hc as [->%Z.eqb_eq Htr%bool_decide_eq_true_1]. destruct (Hpipe Htr) as [q Hq]; [by left|]. rewrite Hq. simpl.
      rewrite IH by (simpl; done || (intros _ H; done)). rewrite filter_cons_False by naive_solver. rewrite filter_cons_False by done.
      do 2 f_equal. unfold pop. rewrite decide_False by naive_solver. rewrite decide_True by (split; [done|by left]). by rewrite Hp, Hq.
    + assert (~ (fd = p /\ fd ∈ tr)) as Hno.
      { intros [-> Htr]. rewrite Z.eqb_refl in Hc. simpl in Hc. by apply bool_decide_eq_false_1 in Hc. }
      rewrite IH; [|done..|intros H1 H2; apply Hpipe; [done|by right]].
      assert (pop p tr fds s = pop p tr (fd :: fds) s) as ->.
      { unfold pop. apply decide_ext. rewrite elem_of_cons. naive_solver. }
      clear Hc. do 3 f_equal.
      * case_bool_decide; [rewrite filter_cons_True by naive_solver; by rewrite <- app_assoc | by rewrite filter_cons_False by naive_solver].
      * case_bool_decide; [rewrite filter_cons_True by done; by rewrite <- app_assoc | by rewrite filter_cons_False by done].
Qed.

Lemma pop_sets p tr fds s : rfds (pop p tr fds s) = rfds s /\ wfds (pop p tr fds s) = wfds s /\ highfds (pop p tr fds s) = highfds s.
Proof. unfold pop. by case_decide. Qed.

Lemma pop_ok p tr fds s : sel_ok p s -> sel_ok p (pop p tr fds s).
Proof.
  intros [H1 H2 H3 H4 H5 H6]. unfold pop. case_decide; [|by split]. split; simpl; try done. by destruct H6.
Qed.

Lemma select_set_spec high ready r fd : fd ∈ select_set high ready r <-> fd ∈ r /\ fd ∈ ready /\ fd <= high.
Proof. unfold select_set. rewrite elem_of_filter. set_solver. Qed.

(** A copy of the sets that [wait_ready] may hold. *)
Record copy_ok (p : Z) (tr tw : gset Z) (high : Z) : Prop := {
  co_r : p ∈ tr;
  co_w : p ∉ tw;
  co_high fd : fd ∈ tr ∪ tw -> 0 <= fd <= high;
  co_size : high < FD_SETSIZE }.

Lemma sel_copy_ok p s : sel_ok p s -> copy_ok p (rfds s) (wfds s) (highfds s).
Proof. intros []. by split. Qed.

Definition reported (p high : Z) (t ready : gset Z) : list Z :=
  filter (fun fd => fd ∈ select_set high ready t /\ fd <> p) (seqZ 0 (high + 1)).

Lemma reported_spec p tr tw high t ready fd : copy_ok p tr tw high -> t ⊆ tr ∪ tw ->
  fd ∈ reported p high t ready <-> fd ∈ t /\ fd ∈ ready /\ fd <> p.
Proof.
  intros Hc Ht. unfold reported. rewrite list_elem_of_filter, select_set_spec, elem_of_seqZ. split; [tauto|].
  intros (H1 & H2 & H3). pose proof (co_high _ _ _ _ Hc fd (Ht _ H1)). split; [tauto|lia].
Qed.

Lemma length_reported p tr tw high t ready : copy_ok p tr tw high -> (length (reported p high t ready) <= 1024)%nat.
Proof.
  intros Hc. unfold reported. etrans; [apply length_filter|]. rewrite length_seqZ. pose proof (co_size _ _ _ _ Hc). unfold FD_SETSIZE in *. lia.
Qed.

Lemma wait_ready_spec p tr tw high rr rw s : sel_ok p s -> copy_ok p tr tw high -> (p ∈ rr <-> pipe s <> []) ->
  wait_ready tr tw high (Ready rr rw) s =
    Ok (reported p high tr rr, reported p high tw rw, pop p (select_set high rr tr) (seqZ 0 (high + 1)) s).
Proof.
  intros Hs Hc Hp. simpl. rewrite (wait_scan_spec p) by
    first [apply NoDup_seqZ | apply Hs | rewrite select_set_spec; intros (? & _); by apply (co_w _ _ _ _ Hc) |
      (intros (_ & Hrr & _)%select_set_spec _; apply Hp in Hrr; destruct Hs as [_ _ _ _ _ Hf];
       destruct (pipe s) as [|b q]; [done|]; apply Forall_cons in Hf as [-> _]; by exists q)].
  do 3 f_equal. unfold reported. apply list_filter_iff. intros fd. rewrite select_set_spec. split; [|tauto].
  intros H. split; [done|]. intros ->. apply (co_w _ _ _ _ Hc), H.
Qed.

Lemma seqZ_sorted a n : StronglySorted Z.lt (seqZ a n).
Proof.
  unfold seqZ. generalize (Z.to_nat n). clear n. intros n. revert a. induction n as [|n IH]; intros a; [constructor|].
  simpl. constructor.
  - rewrite <- fmap_S_seq, <- list_fmap_compose. specialize (IH (a + 1)). erewrite list_fmap_ext; [exact IH|]. intros i x _. simpl. lia.
  - apply Forall_fmap, Forall_forall. intros x Hx. apply elem_of_seq in Hx. simpl. lia.
Qed.

Lemma StronglySorted_filter {A} (R : A -> A -> Prop) (P : A -> Prop) `{!forall x, Decision (P x)} l :
  StronglySorted R l -> StronglySorted R (filter P l).
Proof.
  induction 1 as [|x l Hs IH Hf]; [constructor|]. destruct (decide (P x)).
  - rewrite filter_cons_True by done. constructor; [done|]. apply Forall_forall. intros y [_ Hy]%list_elem_of_filter.
    by eapply Forall_forall in Hf.
  - by rewrite filter_cons_False.
Qed.

(** The states a [SelectAIO] whose pipe is [p] gets into. *)
Inductive sreach (p : Z) : select_aio -> Prop :=
  | sr_new s : new_select_aio p = Ok s -> sreach p s
  | sr_watch s fd flag s' : sreach p s -> fd <> p -> watch_fd fd flag s = Ok s' -> sreach p s'
  | sr_unwatch s fd flag b s' : sreach p s -> fd <> p -> unwatch_fd fd flag s = Ok (b, s') -> sreach p s'
  | sr_wait s rr rw r w s' : sreach p s -> (p ∈ rr <-> pipe s <> []) ->
      wait_ready (rfds s) (wfds s) (highfds s) (Ready rr rw) s = Ok (r, w, s') -> sreach p s'.

Lemma sreach_ok p s : sreach p s -> sel_ok p s.
Proof.
  induction 1 as [s Hs|s fd flag s' _ IH Hp Hs|s fd flag b s' _ IH Hp Hs|s rr rw r w s' _ IH Hp Hs].
  - by apply new_ok.
  - by destruct (watch_fd_ok p fd flag s s').
  - by destruct (unwatch_fd_ok p fd flag s b s').
  - rewrite (wait_ready_spec p) in Hs by first [done | by apply sel_copy_ok]. injection Hs as <- <- <-. by apply pop_ok.
Qed.

(** C28. [SelectAIO::wait_ready] reports exactly the watched descriptors that are
    ready: after any history of [watch_fd], [unwatch_fd] and [wait_ready], the
    bound [highfds_] that is passed to [select] covers every watched descriptor,
    so that [readable] and [writable] are, in increasing order, the descriptors
    watched for reading and writing that are ready, without the internal pipe;
    and taking the byte out of the pipe does not fail. *)
Theorem select_reports_ready (p : Z) (s : select_aio) (rr rw : gset Z) :
  sreach p s -> (p ∈ rr <-> pipe s <> []) ->
  exists r w s', wait_ready (rfds s) (wfds s) (highfds s) (Ready rr rw) s = Ok (r, w, s') /\
    (forall fd, fd ∈ r <-> fd ∈ rfds s /\ fd ∈ rr /\ fd <> p) /\ StronglySorted Z.lt r /\
    (forall fd, fd ∈ w <-> fd ∈ wfds s /\ fd ∈ rw) /\ StronglySorted Z.lt w /\
    rfds s' = rfds s /\ wfds s' = wfds s.
Proof.
  intros Hs%sreach_ok Hp. pose proof (sel_copy_ok p s Hs) as Hc. rewrite (wait_ready_spec p) by done. do 3 eexists. split; [done|].
  split; [intros fd; by apply (reported_spec _ _ _ _ _ _ _ Hc); set_solver|]. split; [apply StronglySorted_filter, seqZ_sorted|].
  split; [|split; [apply StronglySorted_filter, seqZ_sorted|split; apply pop_sets]].
  intros fd. rewrite (reported_spec _ _ _ _ _ _ _ Hc) by set_solver. split; [tauto|]. intros [H1 H2]. split; [done|]. split; [done|].
  intros ->. by apply Hs in H1.
Qed.

Lemma select_reports_ready_witness : exists s0 s1, new_select_aio 4 = Ok s0 /\ watch_fd 9 CB_WRONLY s0 = Ok s1 /\
  exists r w s2, wait_ready (rfds s1) (wfds s1) (highfds s1) (Ready {[4; 8; 9]} {[9]}) s1 = Ok (r, w, s2) /\ 9 ∈ w /\ 9 ∉ r.
Proof.
  do 2 eexists. split; [reflexivity|]. split; [reflexivity|].
  match goal with |- exists x y z, wait_ready (rfds ?s) _ _ (Ready ?rr ?rw) _ = _ /\ _ =>
    destruct (select_reports_ready 4 s rr rw) as (r & w & s4 & H1 & H2 & _ & H3 & _) end.
  - eapply (sr_watch 4 _ 9 CB_WRONLY); [|lia|reflexivity]. by apply sr_new.
  - split; [done|intros _; set_solver].
  - exists r, w, s4. split; [exact H1|]. rewrite H3, H2. simpl. rewrite !elem_of_union, !elem_of_singleton, elem_of_empty. lia.
Defined.
End SelectFacts.

(** ** [PollMgr] *)

Module PollFacts.
Import SelectAIO PollMgr SelectFacts.

(** The descriptor [fd] is the pipe or has a slot in [callbacks_]. *)
Definition slot (p fd : Z) : Prop := fd = p \/ 0 <= fd < MAX_POLL_FDS.

Definition pc_ok (p : Z) (c : wait_pc) : Prop :=
  match c with
  | Selecting tr tw high => copy_ok p tr tw high /\ forall fd, fd ∈ tr ∪ tw -> slot p fd
  | Running r w => (forall fd, fd ∈ r ++ w -> 0 <= fd < MAX_POLL_FDS) /\ (length r + length w <= 2048)%nat
  | _ => True
  end.

Record pinv (p : Z) (s : system) : Prop := {
  pi_sel : sel_ok p (aio (mgr s));
  pi_len : length (callbacks (mgr s)) = Z.to_nat MAX_POLL_FDS;
  pi_slot fd : fd ∈ rfds (aio (mgr s)) ∪ wfds (aio (mgr s)) -> slot p fd;
  pi_pc : pc_ok p (pc s);
  pi_pending : pending_change (mgr s) = true -> pipe (aio (mgr s)) <> [] \/
    match pc s with Top | Running _ _ => True | _ => False end;
  pi_wait t fd : waiting s !! t = Some (fd, false) -> pending_change (mgr s) = true }.

Lemma callback_ok fd m : length (callbacks m) = Z.to_nat MAX_POLL_FDS -> 0 <= fd < MAX_POLL_FDS -> exists c, callback fd m = Ok c.
Proof.
  intros Hl Hfd. unfold callback. rewrite (proj2 (Z.ltb_ge fd 0)) by lia.
  destruct (lookup_lt_is_Some_2 (callbacks m) (Z.to_nat fd)) as [c ->]; [lia|]. by exists c.
Qed.

Lemma set_callback_inv fd c m m' : set_callback fd c m = Ok m' ->
  aio m' = aio m /\ pending_change m' = pending_change m /\ length (callbacks m') = length (callbacks m).
Proof. intros (c0 & _ & [= <-])%res_bind_inv. simpl. by rewrite length_insert. Qed.

Lemma add_callback_inv fd flag ch m m' : add_callback fd flag ch m = Ok m' ->
  fd < MAX_POLL_FDS /\ watch_fd fd flag (aio m) = Ok (aio m') /\ pending_change m' = pending_change m /\ length (callbacks m') = length (callbacks m).
Proof.
  unfold add_callback. destruct (Z.ltb_spec fd MAX_POLL_FDS); [|done]. simpl. intros (a & Ha & (c & _ & H1)%res_bind_inv)%res_bind_inv.
  destruct (_ || _); [|done]. apply set_callback_inv in H1 as (H2 & H3 & H4). simpl in *. by rewrite H2.
Qed.

Lemma del_callback_inv fd flag m m' : del_callback fd flag m = Ok m' ->
  (exists b, unwatch_fd fd flag (aio m) = Ok (b, aio m')) /\ pending_change m' = pending_change m /\ length (callbacks m') = length (callbacks m).
Proof.
  intros ([b a] & Ha & H1)%res_bind_inv. destruct b.
  - apply set_callback_inv in H1 as (H2 & H3 & H4). simpl in *. rewrite H2. eauto.
  - injection H1 as <-. simpl. eauto.
Qed.

Lemma block_remove_fd_inv fd m m' : block_remove_fd fd m = Ok m' ->
  (exists b, unwatch_fd fd CB_RDWR (aio m) = Ok (b, aio m')) /\ pending_change m' = true /\ callbacks m' = callbacks m.
Proof. intros ([b a] & Ha & [= <-])%res_bind_inv. simpl. eauto. Qed.

Lemma woken_lookup w t fd b : woken w !! t = Some (fd, b) -> b = true /\ exists b', w !! t = Some (fd, b').
Proof. unfold woken. rewrite lookup_fmap. destruct (w !! t) as [[fd' b']|]; simpl; [|done]. intros [= -> <-]. eauto. Qed.

(** The poll thread does not fail, and keeps the invariant. *)
Lemma wait_loop_ok p a s : pinv p s -> answer_ok a s -> exists e s', wait_loop a s = Ok (e, s') /\ pinv p s'.
Proof.
  intros [Hs Hl Hsl Hpc Hpend Hw] Ha. unfold wait_loop. unfold answer_ok in Ha. destruct (pc s) as [| |tr tw high|r w] eqn:Epc.
  - destruct (pending_change (mgr s)) eqn:Hp; (do 2 eexists; split; [done|]); split; simpl; try done.
    + intros t fd [[=] _]%woken_lookup.
    + congruence.
    + intros t fd H%Hw. done.
  - do 2 eexists. split; [done|]. split; simpl; try done. split; [by apply sel_copy_ok|done].
  - destruct Hpc as [Hc Hts]. destruct a as [| |rr rw]; [|done|].
    + do 2 eexists. split; [done|]. split; simpl; try done; [|by right]. split; [|lia]. intros fd H. by apply elem_of_nil in H.
    + destruct Ha as [Hpr _]. rewrite (so_pipefd _ _ Hs) in Hpr. rewrite (wait_ready_spec p) by done. simpl.
      do 2 eexists. split; [done|]. split; simpl; try done; [by apply pop_ok| | |by right].
      * intros fd. destruct (pop_sets p (select_set high rr tr) (seqZ 0 (high + 1)) (aio (mgr s))) as (-> & -> & _). apply Hsl.
      * pose proof (length_reported p tr tw high tr rr Hc). pose proof (length_reported p tr tw high tw rw Hc). split; [|lia].
        intros fd. rewrite elem_of_app, !(reported_spec _ _ _ _ _ _ _ Hc) by set_solver. intros Hfd. destruct (Hts fd) as [->|]; [set_solver|tauto|done].
  - destruct r as [|fd r]; [destruct w as [|fd w]|].
    + do 2 eexists. split; [done|]. split; simpl; try done.
    + destruct (callback_ok fd (mgr s) Hl) as [c ->]; [apply Hpc; simpl; by left|]. simpl. do 2 eexists. split; [done|].
      split; simpl; try done. destruct Hpc as [Hpc Hn]. simpl in Hn. split; [|lia]. intros x Hx. apply Hpc. by right.
    + destruct (callback_ok fd (mgr s) Hl) as [c ->]; [apply Hpc; simpl; by left|]. simpl. do 2 eexists. split; [done|].
      split; simpl; try done. destruct Hpc as [Hpc Hn]. simpl in Hn. split; [|lia]. intros x Hx. apply Hpc. by right.
Qed.

Lemma step_pinv p s e s' : pinv p s -> step s e s' -> pinv p s'.
Proof.
  intros Hi Hstep. pose proof Hi as [Hs Hl Hsl Hpc Hpend Hw].
  destruct Hstep as [fd flag ch m Hm Hfd|fd flag m Hm Hfd|t fd m Ht Hm Hfd|t fd m Ht Hm|a e s' Ha Hm]; rewrite ?(so_pipefd _ _ Hs) in *.
  - apply add_callback_inv in Hm as (Hlt & Hwat & Hpc' & Hlen). destruct (watch_fd_ok p _ _ _ _ Hs Hfd Hwat) as (Hs' & H0 & Hne & Hsub).
    split; simpl; rewrite ?Hpc', ?Hlen; try done; [|by left]. intros x [->|Hx]%Hsub; [right; lia | by apply Hsl].
  - apply del_callback_inv in Hm as ([b Hu] & Hpc' & Hlen). destruct (unwatch_fd_ok p _ _ _ _ _ Hs Hfd Hu) as (Hs' & Hsub & Hne).
    split; simpl; rewrite ?Hpc', ?Hlen; try done; [by intros x Hx%Hsub; apply Hsl|]. intros [H|H]%Hpend; [left; by apply Hne | by right].
  - apply block_remove_fd_inv in Hm as ([b Hu] & Hpc' & Hlen). destruct (unwatch_fd_ok p _ _ _ _ _ Hs Hfd Hu) as (Hs' & Hsub & Hne).
    split; simpl; rewrite ?Hpc', ?Hlen; try done; [by intros x Hx%Hsub; apply Hsl|]. intros _. left. by apply (unwatch_fd_sets _ _ _ _ _ Hu).
  - apply set_callback_inv in Hm as (Ha & Hpc' & Hlen). split; simpl; rewrite ?Ha, ?Hpc', ?Hlen; try done.
    intros t' fd'. rewrite lookup_delete. case_decide; [done|]. apply Hw.
  - destruct (wait_loop_ok p a s Hi Ha) as (e' & s1 & H1 & H2). rewrite H1 in Hm. by injection Hm as <- <-.
Qed.

Lemma run_pinv p s tr s' : pinv p s -> run s tr s' -> pinv p s'.
Proof. intros Hi Hr. induction Hr as [|s1 tr e s2 _ IH Hs]; [done|]. by eapply step_pinv. Qed.

Lemma started_pinv p s : started p s -> pinv p s.
Proof.
  intros (m & Hm & ->). apply res_bind_inv in Hm as (a & Ha & [= <-]). split; simpl; try done.
  - by apply new_ok.
  - revert Ha. unfold new_select_aio. destruct (fd_ok p); [|done]. intros [= <-] fd. simpl. rewrite elem_of_union, elem_of_singleton.
    intros [->|H]; [by left | by apply elem_of_empty in H].
Qed.

(** *** After [block_remove_fd] *)

Definition out (fd : Z) (s : system) : Prop := fd ∉ rfds (aio (mgr s)) ∪ wfds (aio (mgr s)).

Definition quiet (fd : Z) (c : wait_pc) : Prop :=
  match c with
  | Selecting tr tw _ => fd ∉ tr ∪ tw
  | Running r w => fd ∉ r ++ w
  | _ => True
  end.

Definition is_add (fd : Z) (e : event) : Prop := exists flag ch, e = Add fd flag ch.

Lemma wait_loop_quiet p fd a s e s' : pinv p s -> answer_ok a s -> out fd s -> wait_loop a s = Ok (e, s') ->
  out fd s' /\ (quiet fd (pc s) -> quiet fd (pc s') /\ forall ch, e <> Called fd ch).
Proof.
  intros Hi Ha Ho. unfold wait_loop, out in *. unfold answer_ok in Ha. pose proof (pi_pc _ _ Hi) as Hpc.
  destruct (pc s) as [| |tr tw high|[|x r] w] eqn:Epc; simpl in Hpc.
  - destruct (pending_change _); intros [= <- <-]; done.
  - intros [= <- <-]; done.
  - destruct Hpc as [Hc _]. destruct a as [| |rr rw]; [|done|].
    + intros [= <- <-]. simpl. split; [done|]. intros _. split; [apply not_elem_of_nil | done].
    + destruct Ha as [Hp _]. pose proof (pi_sel _ _ Hi) as Hs. rewrite (so_pipefd _ _ Hs) in Hp.
      rewrite (wait_ready_spec p) by done. simpl. intros [= <- <-]. simpl.
      destruct (pop_sets p (select_set high rr tr) (seqZ 0 (high + 1)) (aio (mgr s))) as (-> & -> & _). split; [done|]. intros Hq. split; [|done].
      rewrite elem_of_app, !(reported_spec _ _ _ _ _ _ _ Hc) by set_solver. set_solver.
  - destruct w as [|x w]; [intros [= <- <-]; done|]. intros (c & _ & [= <- <-])%res_bind_inv. simpl. split; [done|].
    rewrite not_elem_of_cons. intros [Hx Hq]. split; [done|]. destruct c; congruence.
  - intros (c & _ & [= <- <-])%res_bind_inv. simpl. split; [done|].
    rewrite not_elem_of_cons. intros [Hx Hq]. split; [done|]. destruct c; congruence.
Qed.

Lemma step_quiet p fd s e s' : pinv p s -> out fd s -> step s e s' -> ~ is_add fd e ->
  out fd s' /\ (quiet fd (pc s) -> quiet fd (pc s') /\ forall ch, e <> Called fd ch).
Proof.
  intros Hi Ho Hs He. unfold out in *. pose proof (pi_sel _ _ Hi) as Hsel.
  destruct Hs as [fd' flag ch m Hm Hfd|fd' flag m Hm Hfd|t fd' m Ht Hm Hfd|t fd' m Ht Hm|a e s' Ha Hm]; simpl; rewrite ?(so_pipefd _ _ Hsel) in *.
  - apply add_callback_inv in Hm as (_ & Hwat & _). destruct (watch_fd_ok p _ _ _ _ Hsel Hfd Hwat) as (_ & _ & _ & Hsub).
    split; [|done]. intros [->|Hx]%Hsub; [|done]. apply He. by exists flag, ch.
  - apply del_callback_inv in Hm as ([b Hu] & _). destruct (unwatch_fd_ok p _ _ _ _ _ Hsel Hfd Hu) as (_ & Hsub & _).
    split; [|done]. by intros Hx%Hsub.
  - apply block_remove_fd_inv in Hm as ([b Hu] & _). destruct (unwatch_fd_ok p _ _ _ _ _ Hsel Hfd Hu) as (_ & Hsub & _).
    split; [|done]. by intros Hx%Hsub.
  - apply set_callback_inv in Hm as (-> & _). done.
  - by apply (wait_loop_quiet p fd a).
Qed.

(** While a thread waits to be woken, or the poll thread has forgotten [fd]. *)
Definition leaving (t fd : Z) (s : system) : Prop :=
  out fd s /\ (waiting s !! t = Some (fd, false) \/ quiet fd (pc s)).

Lemma step_leaving p t fd s e s' : pinv p s -> leaving t fd s -> step s e s' -> ~ is_add fd e -> leaving t fd s'.
Proof.
  intros Hi [Ho Hl] Hs He. destruct (step_quiet p fd s e s' Hi Ho Hs He) as [Ho' Hq]. split; [done|].
  destruct Hl as [Hl|Hl]; [|right; by apply Hq].
  destruct Hs as [fd' flag ch m Hm Hfd|fd' flag m Hm Hfd|t' fd' m Ht Hm Hfd|t' fd' m Ht Hm|a e s' Ha Hm]; simpl; [by left..| | |].
  - left. rewrite lookup_insert_ne; [done|]. congruence.
  - left. rewrite lookup_delete_ne; [done|]. congruence.
  - unfold wait_loop in Hm. destruct (pc s) as [| |tr tw high|[|x r] w] eqn:Epc.
    + right. destruct (pending_change _); by injection Hm as <- <-.
    + left. by injection Hm as <- <-.
    + left. by apply res_bind_inv in Hm as ([[r w] a'] & _ & [= <- <-]).
    + left. destruct w; [by injection Hm as <- <-|]. by apply res_bind_inv in Hm as (c & _ & [= <- <-]).
    + left. by apply res_bind_inv in Hm as (c & _ & [= <- <-]).
Qed.

Lemma run_app s tr1 tr2 s' : run s (tr1 ++ tr2) s' -> exists s1, run s tr1 s1 /\ run s1 tr2 s'.
Proof.
  revert s'. induction tr2 as [|e tr2 IH] using rev_ind; intros s'.
  - rewrite app_nil_r. intros H. exists s'. split; [done|constructor].
  - rewrite app_assoc. intros H. inversion H as [Hn|s1 tr e' s2 Hr Hs Heq]; subst; [by destruct (tr1 ++ tr2)|].
    apply app_inj_tail in Heq as [-> ->]. destruct (IH s1 Hr) as (s0 & H1 & H2). exists s0. split; [done|]. by econstructor.
Qed.

Lemma run_one s e s' : run s [e] s' -> step s e s'.
Proof.
  intros H. inversion H as [Hn|s1 tr e' s2 Hr Hs Heq]; subst. destruct tr as [|x tr]; [|by destruct tr].
  injection Heq as ->. inversion Hr as [|? tr' ? ? ? ? Heq]; subst; [done|]. by destruct tr'.
Qed.

Lemma run_invariant (I : system -> Prop) p fd s tr s' :
  (forall s e s', pinv p s -> I s -> step s e s' -> ~ is_add fd e -> I s') ->
  pinv p s -> I s -> run s tr s' -> (forall e, e ∈ tr -> ~ is_add fd e) -> I s'.
Proof.
  intros Hstep Hi H0 Hr. induction Hr as [|s1 tr e s2 Hr IH Hs]; intros Hna; [done|].
  eapply Hstep; [by eapply run_pinv| |done|apply Hna, elem_of_app; right; by left].
  apply IH. intros x Hx. apply Hna, elem_of_app. by left.
Qed.

Lemma add_or_not fd (l : list event) : (exists flag c, Add fd flag c ∈ l) \/ (forall e, e ∈ l -> ~ is_add fd e).
Proof.
  induction l as [|e l [(flag & c & IH)|IH]]; [right; by intros e []%elem_of_nil|left; exists flag, c; by right|].
  assert (is_add fd e \/ ~ is_add fd e) as [(flag & c & ->)|He].
  { destruct e as [x flag ch| | | | |]; [|right; by intros (? & ? & ?)..]. destruct (decide (x = fd)) as [->|]; [left; by eexists _, _|].
    right. intros (? & ? & ?). congruence. }
  - left. exists flag, c. by left.
  - right. intros e' [->|H]%elem_of_cons; [done|by apply IH].
Qed.

Lemma wait_loop_event a s e s' : wait_loop a s = Ok (e, s') -> e = Poll \/ exists fd ch, e = Called fd ch.
Proof.
  unfold wait_loop. destruct (pc s) as [| |tr tw high|[|x r] [|y w]]; try (destruct (pending_change _)); try (intros [= <- <-]; by left).
  1:{ intros ([[r w] a'] & _ & [= <- <-])%res_bind_inv. by left. }
  all: intros (c & _ & [= <- <-])%res_bind_inv; destruct c; eauto.
Qed.

Lemma remove_inv p s t fd s' : pinv p s -> step s (Remove t fd) s' -> leaving t fd s'.
Proof.
  intros Hi H. inversion H as [| |t' fd' m Ht Hm Hfd| |a e s1 Ha Hm]; subst.
  - apply block_remove_fd_inv in Hm as ([b Hu] & _). apply unwatch_fd_sets in Hu as (Hu1 & Hu2 & _).
    split; [unfold out; simpl; rewrite Hu1, Hu2; set_solver|]. left. simpl. by rewrite lookup_insert_eq.
  - apply wait_loop_event in Hm. naive_solver.
Qed.

Lemma removed_inv p s t fd s' : pinv p s -> leaving t fd s -> step s (Removed t fd) s' -> out fd s' /\ quiet fd (pc s').
Proof.
  intros Hi Hl Hs. destruct (step_leaving p t fd s _ s' Hi Hl Hs) as [Ho Hq]; [by intros (? & ? & ?)|]. split; [done|].
  destruct Hq as [Hq|Hq]; [|done]. exfalso. inversion Hs as [| | |t' fd' m Ht Hm|a e s1 Ha Hm]; subst; [simpl in Hq; by rewrite lookup_delete_eq in Hq|].
  apply wait_loop_event in Hm. naive_solver.
Qed.

(** C18. After [block_remove_fd] has returned, the callbacks of the descriptor are
    not called: in every run of the poll manager with any number of other threads,
    a callback on [fd] after a [block_remove_fd(fd)] returned means that
    [add_callback] was called on [fd] since that [block_remove_fd] began.  The
    condition variable is assumed not to wake threads on its own. *)
Theorem block_remove_fd_quiet (p : Z) (s0 s : system) (t fd ch : Z) (t1 t2 t3 : list event) :
  started p s0 -> run s0 (t1 ++ [Remove t fd] ++ t2 ++ [Removed t fd] ++ t3 ++ [Called fd ch]) s ->
  exists flag c, Add fd flag c ∈ t2 ++ t3.
Proof.
  intros H0%started_pinv Hr. destruct (add_or_not fd (t2 ++ t3)) as [Hex|Hna]; [done|]. exfalso.
  apply run_app in Hr as (s1 & Hr1 & Hr). apply run_app in Hr as (s2 & Hr2%run_one & Hr). apply run_app in Hr as (s3 & Hr3 & Hr).
  apply run_app in Hr as (s4 & Hr4%run_one & Hr). apply run_app in Hr as (s5 & Hr5 & Hr6%run_one).
  assert (pinv p s1) as Hi1 by by eapply run_pinv. assert (pinv p s2) as Hi2 by by eapply step_pinv.
  assert (pinv p s3) as Hi3 by by eapply run_pinv. assert (pinv p s4) as Hi4 by by eapply step_pinv.
  assert (pinv p s5) as Hi5 by by eapply run_pinv.
  assert (leaving t fd s3) as Hl3.
  { apply (run_invariant (leaving t fd) p fd s2 t2); [intros s' e s'' ????; by apply (step_leaving p t fd s' e)|done|by apply (remove_inv p s1)|done|].
    intros e He. apply Hna, elem_of_app. by left. }
  assert (out fd s5 /\ quiet fd (pc s5)) as [Ho5 Hq5].
  { apply (run_invariant (fun s => out fd s /\ quiet fd (pc s)) p fd s4 t3); [|done|by apply (removed_inv p s3 t)|done|].
    - intros s' e s'' Hi' [H1 H2] Hs He. destruct (step_quiet p fd s' e s'' Hi' H1 Hs He) as [H3 H4]. split; [done|by apply H4].
    - intros e He. apply Hna, elem_of_app. by right. }
  destruct (step_quiet p fd s5 _ s Hi5 Ho5 Hr6) as [_ Hq]; [by intros (? & ? & ?)|]. by eapply Hq.
Qed.

(** A run can be computed: each action gives one step, the poll thread's with the
    answer of [select]. *)
Inductive action := DoAdd (fd : Z) (flag : poll_flag) (ch : Z) | DoRemove (t fd : Z) | DoRemoved (t fd : Z) | DoPoll (a : selected).

Definition answer_okb (a : selected) (s : system) : bool :=
  match pc s, a with
  | Selecting tr tw high, EOther => false
  | Selecting tr tw high, Ready rr rw =>
      Bool.eqb (bool_decide (pipefd (aio (mgr s)) ∈ rr)) (bool_decide (pipe (aio (mgr s)) <> [])) &&
      bool_decide (select_set high rr tr ∪ select_set high rw tw <> ∅)
  | _, _ => true
  end.

Definition get_ok {A} (r : res A) : option A := match r with Ok a => Some a | Crash _ => None end.

Definition act (x : action) (s : system) : option (event * system) :=
  match x with
  | DoAdd fd flag ch => guard (fd <> pipefd (aio (mgr s)));; m ← get_ok (add_callback fd flag ch (mgr s)); Some (Add fd flag ch, System m (pc s) (waiting s))
  | DoRemove t fd => guard (waiting s !! t = None /\ fd <> pipefd (aio (mgr s)));; m ← get_ok (block_remove_fd fd (mgr s));
      Some (Remove t fd, System m (pc s) (<[t := (fd, false)]> (waiting s)))
  | DoRemoved t fd => guard (waiting s !! t = Some (fd, true));; m ← get_ok (block_remove_fd_end fd (mgr s));
      Some (Removed t fd, System m (pc s) (delete t (waiting s)))
  | DoPoll a => guard (answer_okb a s = true);; get_ok (wait_loop a s)
  end.

Fixpoint acts (l : list action) (s : system) : option (list event * system) :=
  match l with
  | [] => Some ([], s)
  | x :: l => '(e, s) ← act x s; '(tr, s) ← acts l s; Some (e :: tr, s)
  end.

Lemma act_step x s e s' : act x s = Some (e, s') -> step s e s'.
Proof.
  destruct x as [fd flag ch|t fd|t fd|a]; simpl.
  - case_guard; [|done]. simpl. destruct (add_callback _ _ _ _) eqn:Hm; simpl; [|done]. intros [= <- <-]. by constructor.
  - case_guard as Hg; [|done]. destruct Hg. simpl. destruct (block_remove_fd _ _) eqn:Hm; simpl; [|done]. intros [= <- <-]. by constructor.
  - case_guard; [|done]. simpl. destruct (block_remove_fd_end _ _) eqn:Hm; simpl; [|done]. intros [= <- <-]. by constructor.
  - case_guard as Hg; [|done]. simpl. destruct (wait_loop a s) as [[e1 s1]|] eqn:Hm; simpl; [|done]. intros [= <- <-]. apply (step_poll _ a); [|done].
    unfold answer_ok, answer_okb in *. destruct (pc s), a; try done. apply andb_true_iff in Hg as [H1 H2].
    apply Bool.eqb_prop in H1. apply bool_decide_eq_true in H2. split; [|done]. split; intros H.
    + by rewrite bool_decide_eq_true_2 in H1 by done; symmetry in H1; apply bool_decide_eq_true in H1.
    + by rewrite (bool_decide_eq_true_2 (pipe _ <> [])) in H1 by done; apply bool_decide_eq_true in H1.
Qed.

Lemma run_cons s e s1 tr s2 : step s e s1 -> run s1 tr s2 -> run s (e :: tr) s2.
Proof.
  intros Hs Hr. induction Hr as [|s3 tr e' s4 _ IH Hs']; [apply (run_step s s [] e s1); [constructor|done]|].
  apply (run_step s s3 (e :: tr) e' s4); done.
Qed.

Lemma acts_run l s tr s' : acts l s = Some (tr, s') -> run s tr s'.
Proof.
  revert s tr. induction l as [|x l IH]; intros s tr; simpl; [intros [= <- <-]; constructor|].
  destruct (act x s) as [[e s1]|] eqn:Hx; [|done]. simpl. destruct (acts l s1) as [[tr1 s2]|] eqn:Hl; [|done]. simpl. intros [= <- <-].
  eapply run_cons; [by apply (act_step x)|by apply IH].
Qed.

Definition demo (p : Z) : system := System (PollMgr (replicate (Z.to_nat MAX_POLL_FDS) None) (SelectAio {[p]} ∅ p p []) false) Top ∅.

Lemma demo_started p : fd_ok p = true -> started p (demo p).
Proof. intros Hp. eexists. split; [|done]. unfold new_poll_mgr, new_select_aio. by rewrite Hp. Qed.

Lemma block_remove_fd_quiet_witness : exists s,
  run (demo 4) ([Add 5 CB_RDONLY 7] ++ [Remove 0 5] ++ [Poll] ++ [Removed 0 5] ++ [Add 5 CB_RDONLY 8; Poll; Poll] ++ [Called 5 8]) s /\
  exists flag c, Add 5 flag c ∈ [Poll] ++ [Add 5 CB_RDONLY 8; Poll; Poll].
Proof.
  assert (exists s, run (demo 4) ([Add 5 CB_RDONLY 7] ++ [Remove 0 5] ++ [Poll] ++ [Removed 0 5] ++ [Add 5 CB_RDONLY 8; Poll; Poll] ++ [Called 5 8]) s) as [s Hr].
  { eexists. apply (acts_run [DoAdd 5 CB_RDONLY 7; DoRemove 0 5; DoPoll EIntr; DoRemoved 0 5; DoAdd 5 CB_RDONLY 8; DoPoll EIntr; DoPoll (Ready {[4; 5]} ∅); DoPoll EIntr]).
    vm_compute. reflexivity. }
  exists s. split; [exact Hr|].
  exact (block_remove_fd_quiet 4 (demo 4) s 0 5 8 [Add 5 CB_RDONLY 7] [Poll] [Add 5 CB_RDONLY 8; Poll; Poll] (demo_started 4 eq_refl) Hr).
Defined.

(** *** [block_remove_fd] returns *)

Definition is_poll (e : event) : bool := match e with Poll | Called _ _ => true | _ => false end.

(** The steps the poll thread takes in a run. *)
Definition polls (tr : list event) : nat := length (filter (fun e => is_poll e = true) tr).

(** How many steps the poll thread is at most from the end of its next test of [pending_change_]. *)
Definition dist (c : wait_pc) : nat :=
  match c with
  | Top => 1
  | Running r w => length r + length w + 2
  | Selecting _ _ _ => 2051
  | Copy => 2052
  end.

Lemma polls_snoc tr e : polls (tr ++ [e]) = (polls tr + if is_poll e then 1 else 0)%nat.
Proof. unfold polls. rewrite filter_app, length_app. by destruct (is_poll e) eqn:He; [rewrite filter_cons_True by done | rewrite filter_cons_False by congruence]. Qed.

Lemma wait_loop_dist p t fd a s e s' : pinv p s -> answer_ok a s -> waiting s !! t = Some (fd, false) -> wait_loop a s = Ok (e, s') ->
  waiting s' !! t = Some (fd, true) \/ (waiting s' !! t = Some (fd, false) /\ (dist (pc s') + 1 <= dist (pc s))%nat).
Proof.
  intros Hi Ha Ht. unfold wait_loop. unfold answer_ok in Ha. pose proof (pi_pc _ _ Hi) as Hpc.
  destruct (pc s) as [| |tr tw high|[|x r] w] eqn:Epc; simpl in Hpc.
  - rewrite (pi_wait _ _ Hi t fd Ht). intros [= <- <-]. left. simpl. unfold woken. by rewrite lookup_fmap, Ht.
  - intros [= <- <-]. right. simpl. split; [done|lia].
  - destruct Hpc as [Hc _]. destruct a as [| |rr rw]; [|done|]; [intros [= <- <-]; right; simpl; split; [done|lia]|].
    destruct Ha as [Hp _]. pose proof (pi_sel _ _ Hi) as Hs. rewrite (so_pipefd _ _ Hs) in Hp.
    rewrite (wait_ready_spec p) by done. simpl. intros [= <- <-]. right. simpl. split; [done|].
    pose proof (length_reported p tr tw high tr rr Hc). pose proof (length_reported p tr tw high tw rw Hc). lia.
  - intros H. right. destruct w as [|y w]; [injection H as <- <-|apply res_bind_inv in H as (c & _ & [= <- <-])]; simpl; (split; [done|lia]).
  - intros (c & _ & [= <- <-])%res_bind_inv. right. simpl. split; [done|lia].
Qed.

Lemma step_dist p t fd s e s' : pinv p s -> step s e s' -> e <> Removed t fd ->
  (waiting s !! t = Some (fd, true) -> waiting s' !! t = Some (fd, true)) /\
  (waiting s !! t = Some (fd, false) -> waiting s' !! t = Some (fd, true) \/
    (waiting s' !! t = Some (fd, false) /\ (dist (pc s') + (if is_poll e then 1 else 0) <= dist (pc s))%nat)).
Proof.
  intros Hi Hs He. destruct Hs as [fd' flag ch m Hm Hfd|fd' flag m Hm Hfd|t' fd' m Ht Hm Hfd|t' fd' m Ht Hm|a e s' Ha Hm]; simpl.
  - split; [done|]. intros H. right. split; [done|lia].
  - split; [done|]. intros H. right. split; [done|lia].
  - rewrite lookup_insert. case_decide; [subst; split; congruence|]. split; [done|]. intros H1. right. split; [done|lia].
  - rewrite lookup_delete. case_decide; [subst; split; intros H1; [|congruence]; rewrite H1 in Ht; congruence|]. split; [done|]. intros H1. right. split; [done|lia].
  - split.
    + intros H. unfold wait_loop in Hm. destruct (pc s) as [| |tr tw high|[|x r] [|y w]];
        first [apply res_bind_inv in Hm as (c & _ & Hm) | idtac].
      * destruct (pending_change _); injection Hm as <- <-; simpl; [|done]. unfold woken. by rewrite lookup_fmap, H.
      * by injection Hm as <- <-.
      * destruct c as [[? ?] ?]. by injection Hm as <- <-.
      * by injection Hm as <- <-.
      * by injection Hm as <- <-.
      * by injection Hm as <- <-.
      * by injection Hm as <- <-.
    + intros H. assert (is_poll e = true) as ->; [|by apply (wait_loop_dist p t fd a s e)].
      apply wait_loop_event in Hm as [->|(? & ? & ->)]; done.
Qed.

(** C19. [block_remove_fd] returns: when a thread waits in it, the poll thread is
    not blocked (the byte in the pipe makes [select] return), and after 2052 steps
    of the poll thread, however other threads interleave, the waiting thread has
    been woken. *)
Theorem block_remove_fd_returns (p : Z) (s0 s : system) (tr0 : list event) (t fd : Z) :
  started p s0 -> run s0 tr0 s -> waiting s !! t = Some (fd, false) ->
  (exists a e s', a <> EIntr /\ answer_ok a s /\ wait_loop a s = Ok (e, s')) /\
  (forall tr s', run s tr s' -> Removed t fd ∉ tr -> (2052 <= polls tr)%nat -> waiting s' !! t = Some (fd, true)).
Proof.
  intros H0%started_pinv Hr Ht. assert (pinv p s) as Hi by by eapply run_pinv. split.
  - assert (exists a, a <> EIntr /\ answer_ok a s) as (a & Ha1 & Ha2).
    { exists (Ready {[p]} ∅). split; [done|]. unfold answer_ok. destruct Hi as [Hs Hl Hsl Hpc Hpend Hw].
      specialize (Hpend (Hw _ _ Ht)). destruct (pc s) as [| |tr tw high|r w]; try done. destruct Hpend as [Hpend|]; [|done].
      rewrite (so_pipefd _ _ Hs). split; [set_solver|]. destruct Hpc as [Hc _]. pose proof (co_high _ _ _ _ Hc p).
      assert (p ∈ select_set high {[p]} tr); [|set_solver]. apply select_set_spec. pose proof (co_r _ _ _ _ Hc).
      split; [done|]. split; [set_solver|]. apply H. set_solver. }
    destruct (wait_loop_ok p a s Hi Ha2) as (e & s' & H & _). eauto 10.
  - assert (forall tr s', run s tr s' -> Removed t fd ∉ tr -> waiting s' !! t = Some (fd, true) \/
      (waiting s' !! t = Some (fd, false) /\ (dist (pc s') + polls tr <= dist (pc s))%nat)) as Hall.
    { intros tr s' Hr'. induction Hr' as [|s1 tr e s2 Hr' IH Hs]; intros Hn; [right; split; [done|unfold polls; simpl; lia]|].
      rewrite not_elem_of_app in Hn. destruct Hn as [Hn He]. rewrite list_elem_of_singleton in He.
      assert (pinv p s1) as Hi1 by by eapply run_pinv. destruct (step_dist p t fd s1 e s2 Hi1 Hs) as [H1 H2]; [congruence|].
      destruct (IH Hn) as [H3|[H3 H4]]; [left; by apply H1|]. destruct (H2 H3) as [H5|[H5 H6]]; [by left|]. right. split; [done|].
      rewrite polls_snoc. lia. }
    intros tr s' Hr' Hn Hp. destruct (Hall tr s' Hr' Hn) as [|[_ Hd]]; [done|]. exfalso.
    assert (1 <= dist (pc s'))%nat by (destruct (pc s'); simpl; lia).
    pose proof (pi_pc _ _ Hi) as Hpc. destruct (pc s); simpl in Hpc, Hd; lia.
Qed.

Lemma block_remove_fd_returns_witness : exists s,
  run (demo 4) [Add 5 CB_RDONLY 7; Poll; Poll; Remove 0 5] s /\ waiting s !! 0 = Some (5, false) /\
  exists a e s', a <> EIntr /\ answer_ok a s /\ wait_loop a s = Ok (e, s').
Proof.
  assert (exists s, acts [DoAdd 5 CB_RDONLY 7; DoPoll EIntr; DoPoll EIntr; DoRemove 0 5] (demo 4) = Some ([Add 5 CB_RDONLY 7; Poll; Poll; Remove 0 5], s) /\
    waiting s !! 0 = Some (5, false)) as (s & Hr%acts_run & Ht).
  { eexists. split; vm_compute; reflexivity. }
  exists s. split; [exact Hr|]. split; [exact Ht|]. exact (proj1 (block_remove_fd_returns 4 (demo 4) s _ 0 5 (demo_started 4 eq_refl) Hr Ht)).
Defined.
End PollFacts.

(** ** [EPollAIO] *)

Module EPollFacts.
Import EPollAIO.

(** The status of a descriptor that is watched for reading ([r]) and writing ([w]). *)
Definition bits (r w : bool) : Z := (if r then 0x1 else 0) + (if w then 0x10 else 0).

(** The two versions watch the same: [fdstatus_] and the kernel's interest list
    say for every descriptor what the two [fd_set]s say, the pipe apart. *)
Record agree (p : Z) (e : epoll_aio) (s : SelectAIO.select_aio) : Prop := {
  ag_len : length (fdstatus e) = Z.to_nat MAX_POLL_FDS;
  ag_status fd : 0 <= fd < MAX_POLL_FDS -> fd <> p ->
    fdstatus e !! Z.to_nat fd = Some (bits (bool_decide (fd ∈ SelectAIO.rfds s)) (bool_decide (fd ∈ SelectAIO.wfds s)));
  ag_interest fd : 0 <= fd < MAX_POLL_FDS -> fd <> p ->
    interest e !! fd = let st := bits (bool_decide (fd ∈ SelectAIO.rfds s)) (bool_decide (fd ∈ SelectAIO.wfds s)) in
      if st =? 0 then None else Some (status_events st) }.

(** The flags [connection] passes. *)
Definition io_flag (f : poll_flag) : Prop := match f with CB_RDONLY | CB_WRONLY | CB_RDWR => True | _ => False end.

Definition rbit (f : poll_flag) : bool := match f with CB_WRONLY => false | _ => true end.
Definition wbit (f : poll_flag) : bool := match f with CB_RDONLY => false | _ => true end.

Lemma bits_or r w f : io_flag f -> Z.lor (bits r w) (flag_val f) = bits (r || rbit f) (w || wbit f).
Proof. by destruct r, w, f. Qed.

Lemma bits_and r w f : io_flag f -> Z.land (bits r w) (Z.lnot (flag_val f)) = bits (r && negb (rbit f)) (w && negb (wbit f)).
Proof. by destruct r, w, f. Qed.

Lemma agree_new p s : SelectAIO.new_select_aio p = Ok s -> agree p new_epoll_aio s.
Proof.
  unfold SelectAIO.new_select_aio. destruct (SelectAIO.fd_ok p); [|done]. intros [= <-]. split; simpl.
  - done.
  - intros fd Hfd Hp. rewrite bool_decide_eq_false_2 by set_solver. rewrite bool_decide_eq_false_2 by set_solver.
    apply (lookup_replicate_2 128). unfold MAX_POLL_FDS in Hfd. lia.
  - intros fd Hfd Hp. rewrite bool_decide_eq_false_2 by set_solver. rewrite bool_decide_eq_false_2 by set_solver. done.
Qed.

Section sim.
Context (p fd : Z) (flag : poll_flag) (e : epoll_aio) (s : SelectAIO.select_aio).
Hypothesis Hag : agree p e s.
Hypothesis Hfd : 0 <= fd < MAX_POLL_FDS.
Hypothesis Hp : fd <> p.
Hypothesis Hflag : io_flag flag.

Let r := bool_decide (fd ∈ SelectAIO.rfds s).
Let w := bool_decide (fd ∈ SelectAIO.wfds s).

Lemma status_ok : status fd e = Ok (bits r w).
Proof. unfold status. rewrite (proj2 (Z.ltb_ge fd 0)) by lia. by rewrite (ag_status _ _ _ Hag). Qed.

(** One descriptor changes in both. *)
Lemma agree_upd r' w' s' k :
  bool_decide (fd ∈ SelectAIO.rfds s') = r' -> bool_decide (fd ∈ SelectAIO.wfds s') = w' ->
  (forall x, x <> fd -> (x ∈ SelectAIO.rfds s' <-> x ∈ SelectAIO.rfds s) /\ (x ∈ SelectAIO.wfds s' <-> x ∈ SelectAIO.wfds s)) ->
  k !! fd = (if bits r' w' =? 0 then None else Some (status_events (bits r' w'))) ->
  (forall x, x <> fd -> k !! x = interest e !! x) ->
  agree p (EpollAio (<[Z.to_nat fd := bits r' w']> (fdstatus e)) k) s'.
Proof.
  intros Hr Hw Hx Hk Hkx. destruct Hag as [Hl Hst Hin]. split; simpl.
  - by rewrite length_insert.
  - intros x H1 H2. destruct (decide (x = fd)) as [->|Hne].
    + rewrite list_lookup_insert_eq by lia. by rewrite Hr, Hw.
    + rewrite list_lookup_insert_ne by lia. rewrite Hst by done. destruct (Hx x Hne) as [E1 E2].
      by rewrite (bool_decide_ext _ _ E1), (bool_decide_ext _ _ E2).
  - intros x H1 H2. destruct (decide (x = fd)) as [->|Hne]; [by rewrite Hr, Hw|].
    rewrite Hkx, Hin by done. destruct (Hx x Hne) as [E1 E2]. by rewrite (bool_decide_ext _ _ E1), (bool_decide_ext _ _ E2).
Qed.

Lemma watch_agree : exists e' s', watch_fd fd flag e = Ok e' /\ SelectAIO.watch_fd fd flag s = Ok s' /\ agree p e' s'.
Proof.
  assert (SelectAIO.fd_ok fd = true) as Hok.
  { apply SelectFacts.fd_ok_spec. unfold MAX_POLL_FDS, SelectAIO.FD_SETSIZE in *. lia. }
  unfold watch_fd. rewrite (proj2 (Z.ltb_lt fd MAX_POLL_FDS)) by lia. simpl. rewrite status_ok. simpl. rewrite bits_or by done.
  assert (exists s', SelectAIO.watch_fd fd flag s = Ok s' /\ bool_decide (fd ∈ SelectAIO.rfds s') = r || rbit flag /\
    bool_decide (fd ∈ SelectAIO.wfds s') = w || wbit flag /\
    forall x, x <> fd -> (x ∈ SelectAIO.rfds s' <-> x ∈ SelectAIO.rfds s) /\ (x ∈ SelectAIO.wfds s' <-> x ∈ SelectAIO.wfds s)) as (s' & Hs' & Er & Ew & Ex).
  { unfold SelectAIO.watch_fd. rewrite Hok. subst r w. destruct flag; try done; (eexists; split; [done|]); simpl; rewrite ?orb_false_r, ?orb_true_r;
      (split; [try done; apply bool_decide_eq_true_2; set_solver|]); (split; [try done; apply bool_decide_eq_true_2; set_solver|]); set_solver. }
  pose proof (ag_interest _ _ _ Hag fd Hfd Hp) as Hin. simpl in Hin. fold r w in Hin.
  set (op := if negb _ then _ else _).
  assert (epoll_ctl op fd (status_events (bits (r || rbit flag) (w || wbit flag))) (interest e) =
    Some (<[fd := status_events (bits (r || rbit flag) (w || wbit flag))]> (interest e))) as ->.
  { subst op. unfold epoll_ctl. rewrite Hin. by destruct (bits r w =? 0). }
  assert (bool_decide (flag = CB_RDWR) && negb (status_events (bits (r || rbit flag) (w || wbit flag)) =? Z.lor EPOLLET (Z.lor EPOLLIN EPOLLOUT)) = false) as ->.
  { by destruct r, w, flag. }
  do 2 eexists. split; [done|]. split; [done|]. apply agree_upd; try done.
  - rewrite lookup_insert_eq. by destruct r, w, flag.
  - intros x Hx. by rewrite lookup_insert_ne.
Qed.

Lemma unwatch_agree : fd ∈ SelectAIO.rfds s ∪ SelectAIO.wfds s ->
  exists b e' s', unwatch_fd fd flag e = Ok (b, e') /\ SelectAIO.unwatch_fd fd flag s = Ok (b, s') /\ agree p e' s'.
Proof.
  intros Hin0. assert (SelectAIO.fd_ok fd = true) as Hok.
  { apply SelectFacts.fd_ok_spec. unfold MAX_POLL_FDS, SelectAIO.FD_SETSIZE in *. lia. }
  assert (exists b s', SelectAIO.unwatch_fd fd flag s = Ok (b, s')) as (b & s' & Hs').
  { unfold SelectAIO.unwatch_fd. rewrite Hok. destruct flag; try done; simpl; by do 2 eexists. }
  destruct (SelectFacts.unwatch_fd_sets _ _ _ _ _ Hs') as (Hr & Hw & Hb & _).
  assert (bool_decide (fd ∈ SelectAIO.rfds s') = r && negb (rbit flag)) as Er.
  { rewrite Hr. subst r. destruct flag; try done; simpl; rewrite ?andb_false_r, ?andb_true_r; try done; apply bool_decide_eq_false_2; set_solver. }
  assert (bool_decide (fd ∈ SelectAIO.wfds s') = w && negb (wbit flag)) as Ew.
  { rewrite Hw. subst w. destruct flag; try done; simpl; rewrite ?andb_false_r, ?andb_true_r; try done; apply bool_decide_eq_false_2; set_solver. }
  assert (bits (r && negb (rbit flag)) (w && negb (wbit flag)) =? 0 = b) as Hb0.
  { rewrite Hb, <- Er, <- Ew. repeat case_bool_decide; try done; set_solver. }
  pose proof (ag_interest _ _ _ Hag fd Hfd Hp) as Hin. simpl in Hin. fold r w in Hin.
  assert (bits r w =? 0 = false) as Hbw.
  { assert (r = true \/ w = true) as Hrw by (subst r w; rewrite !bool_decide_eq_true; set_solver).
    clearbody r w. destruct r, w; try done. by destruct Hrw. }
  rewrite Hbw in Hin.
  unfold unwatch_fd. rewrite (proj2 (Z.ltb_lt fd MAX_POLL_FDS)) by lia. simpl. rewrite status_ok. simpl. rewrite bits_and by done.
  set (st := bits (r && _) _) in *. rewrite Hb0.
  assert (bool_decide (flag = CB_RDWR) && negb b = false) as ->.
  { rewrite <- Hb0. subst st. by destruct r, w, flag. }
  exists b. destruct b; simpl; rewrite Hin; do 2 eexists; (split; [done|]); (split; [done|]); apply agree_upd; try done.
  all: try (intros x Hx; rewrite Hr, Hw; destruct flag; set_solver).
  - rewrite lookup_delete_eq. by fold st; rewrite Hb0.
  - intros x Hx. by rewrite lookup_delete_ne.
  - rewrite lookup_insert_eq. by fold st; rewrite Hb0.
  - intros x Hx. by rewrite lookup_insert_ne.
Qed.
End sim.

(** From [MAX_POLL_FDS] on [EPollAIO] fails its [VERIFY] and [SelectAIO] does not. *)
Lemma epoll_limit (fd : Z) (flag : poll_flag) (e : epoll_aio) (s : SelectAIO.select_aio) :
  MAX_POLL_FDS <= fd < SelectAIO.FD_SETSIZE ->
  watch_fd fd flag e = Crash AssertFail /\ exists s', SelectAIO.watch_fd fd flag s = Ok s'.
Proof.
  unfold MAX_POLL_FDS, SelectAIO.FD_SETSIZE. intros Hfd. split.
  - unfold watch_fd. unfold MAX_POLL_FDS. by rewrite (proj2 (Z.ltb_ge fd 128)) by lia.
  - unfold SelectAIO.watch_fd, SelectAIO.fd_ok, SelectAIO.FD_SETSIZE.
    rewrite (proj2 (Z.leb_le 0 fd)), (proj2 (Z.ltb_lt fd 1024)) by lia. simpl. destruct flag; by eexists.
Qed.

(** C31. [EPollAIO] watches what [SelectAIO] watches: both start with nothing
    watched, and a [watch_fd] on a descriptor from 0 to 127 other than the pipe
    of [SelectAIO], or an [unwatch_fd] on such a one that is watched, with the
    flags for reading, writing or both, succeeds in both, returns the same, and
    leaves [fdstatus_] and the kernel's interest list agreeing with the two
    [fd_set]s.  From 128 on [EPollAIO] fails where [SelectAIO] succeeds
    ([epoll_limit]). *)
Theorem epoll_agrees_with_select (p fd : Z) (flag : poll_flag) (e : epoll_aio) (s : SelectAIO.select_aio) :
  (SelectAIO.new_select_aio p = Ok s /\ e = new_epoll_aio) \/ agree p e s -> 0 <= fd < MAX_POLL_FDS -> fd <> p -> io_flag flag ->
  (exists e' s', watch_fd fd flag e = Ok e' /\ SelectAIO.watch_fd fd flag s = Ok s' /\ agree p e' s') /\
  (fd ∈ SelectAIO.rfds s ∪ SelectAIO.wfds s ->
   exists b e' s', unwatch_fd fd flag e = Ok (b, e') /\ SelectAIO.unwatch_fd fd flag s = Ok (b, s') /\ agree p e' s').
Proof.
  intros Ha Hfd Hp Hf. assert (agree p e s) as Hag by (destruct Ha as [[H ->]|H]; [by apply agree_new|done]).
  split; [by apply watch_agree | by apply unwatch_agree].
Qed.

Lemma epoll_agrees_with_select_witness : exists s e' s', SelectAIO.new_select_aio 4 = Ok s /\
  watch_fd 7 CB_WRONLY new_epoll_aio = Ok e' /\ SelectAIO.watch_fd 7 CB_WRONLY s = Ok s' /\ agree 4 e' s'.
Proof.
  eexists. destruct (epoll_agrees_with_select 4 7 CB_WRONLY new_epoll_aio (SelectAIO.SelectAio {[4]} ∅ 4 4 [])) as [(e' & s' & H) _].
  - left. split; reflexivity.
  - unfold MAX_POLL_FDS. lia.
  - lia.
  - exact I.
  - exists e', s'. split; [reflexivity | exact H].
Defined.

(** [EPollAIO::is_watched] never says yes: it masks the status with [CB_MASK],
    which is the complement of the two flags, so that even for a descriptor that
    is watched for exactly the flag asked about the answer is no, where
    [SelectAIO::is_watched] answers yes. *)
Lemma epoll_is_watched_wrong (p fd : Z) (flag : poll_flag) (e : epoll_aio) (s : SelectAIO.select_aio) :
  agree p e s -> 0 <= fd < MAX_POLL_FDS -> fd <> p -> io_flag flag ->
  is_watched fd flag e = Ok false /\
  (forall s', SelectAIO.watch_fd fd flag s = Ok s' -> SelectAIO.is_watched fd flag s' = Ok true).
Proof.
  intros Ha Hfd Hp Hf. split.
  - unfold is_watched. rewrite (proj2 (Z.ltb_lt fd MAX_POLL_FDS)) by lia. simpl. rewrite (status_ok p fd e s Ha Hfd Hp). simpl.
    by destruct (bool_decide _), (bool_decide _), flag.
  - unfold SelectAIO.watch_fd, SelectAIO.is_watched. destruct (SelectAIO.fd_ok fd); [|done].
    intros s'. destruct flag; try done; intros [= <-]; simpl; rewrite ?bool_decide_eq_true_2 by set_solver; done.
Qed.

Lemma epoll_is_watched_wrong_witness : exists e s, watch_fd 7 CB_RDONLY new_epoll_aio = Ok e /\ agree 4 e s /\ is_watched 7 CB_RDONLY e = Ok false.
Proof.
  assert (7 < MAX_POLL_FDS) as H7 by (unfold MAX_POLL_FDS; lia).
  destruct (watch_agree 4 7 CB_RDONLY new_epoll_aio (SelectAIO.SelectAio {[4]} ∅ 4 4 [])) as (e & s & H1 & _ & H2);
    [apply agree_new; reflexivity | lia | lia | exact I |].
  exists e, s. split; [exact H1|]. split; [exact H2|].
  apply (epoll_is_watched_wrong 4 7 CB_RDONLY e s H2); [lia | lia | exact I].
Defined.
End EPollFacts.
