(* ===== verification/Handle.v ===== *)
(** * The cache of bound RPC clients

    src/lab41/handle.cc: [handle] objects share, per address, one [hinfo] with
    the RPC client bound to it; [handle_mgr] counts the handles and frees what is
    no longer used.  The lock and extent servers call their clients back through
    handles.

    The objects live in a store with explicit addresses, so that sharing and
    freeing are visible; touching a freed object is a fault.  [safebind] is cut at
    the call of [bind], during which it holds the mutex of the [hinfo]. *)

From S2P Require Import Prelude.

Record hinfo := Hinfo { h_cl : option Z; h_refcnt : Z; h_del : bool; h_m : bytes }.

(** [w_heap]: the [hinfo] objects that exist; [w_cls]: the [rpcc] objects that
    exist; [w_handles]: the [handle] objects, each with its pointer [h];
    [w_binding]: the [hinfo] objects whose mutex is held by a [bind], with the
    handle that binds and the client it binds. *)
Record world := World {
  w_heap : gmap Z hinfo;
  w_map : gmap bytes Z;
  w_cls : gset Z;
  w_handles : gmap Z (option Z);
  w_binding : gmap Z (Z * Z) }.

Definition new_world : world := World ∅ ∅ ∅ ∅ ∅.

Definition set_heap (x : gmap Z hinfo) (w : world) : world := World x (w_map w) (w_cls w) (w_handles w) (w_binding w).
Definition set_map (x : gmap bytes Z) (w : world) : world := World (w_heap w) x (w_cls w) (w_handles w) (w_binding w).
Definition set_cls (x : gset Z) (w : world) : world := World (w_heap w) (w_map w) x (w_handles w) (w_binding w).
Definition set_handles (x : gmap Z (option Z)) (w : world) : world := World (w_heap w) (w_map w) (w_cls w) x (w_binding w).
Definition set_binding (x : gmap Z (Z * Z)) (w : world) : world := World (w_heap w) (w_map w) (w_cls w) (w_handles w) x.

(** [h->...]: the object must not have been freed. *)
Definition deref (a : Z) (w : world) : res hinfo :=
  match w_heap w !! a with Some h => Ok h | None => Crash OutOfBounds end.

(** [handle_mgr::get_handle]; [a] is the address [new] would return. *)
Definition get_handle (a : Z) (m : bytes) (w : world) : res (option Z * world) :=
  match w_map w !! m with
  | None => Ok (Some a, set_map (<[m := a]> (w_map w)) (set_heap (<[a := Hinfo None 1 false m]> (w_heap w)) w))
  | Some b =>
      h ← deref b w;
      if h_del h then Ok (None, w)
      else Ok (Some b, set_heap (<[b := Hinfo (h_cl h) (h_refcnt h + 1) (h_del h) (h_m h)]> (w_heap w)) w)
  end.

(** [handle_mgr::delete_handle_wo] *)
Definition delete_handle_wo (m : bytes) (w : world) : res world :=
  match w_map w !! m with
  | None => Ok w
  | Some a =>
      h ← deref a w;
      if h_refcnt h =? 0 then
        w ← match h_cl h with
            | Some c => if bool_decide (c ∈ w_cls w) then Ok (set_cls (w_cls w ∖ {[c]}) w) else Crash OutOfBounds
            | None => Ok w
            end;
        Ok (set_map (delete m (w_map w)) (set_heap (delete a (w_heap w)) w))
      else Ok (set_heap (<[a := Hinfo (h_cl h) (h_refcnt h) true (h_m h)]> (w_heap w)) w)
  end.

Definition delete_handle (m : bytes) (w : world) : res world := delete_handle_wo m w.

(** [handle_mgr::done_handle] *)
Definition done_handle (a : Z) (w : world) : res world :=
  h ← deref a w;
  let w := set_heap (<[a := Hinfo (h_cl h) (h_refcnt h - 1) (h_del h) (h_m h)]> (w_heap w)) w in
  if (h_refcnt h - 1 =? 0) && h_del h then delete_handle_wo (h_m h) w else Ok w.

(** [handle::handle] and [handle::~handle]; [i] names the object. *)
Definition handle_ctor (i a : Z) (m : bytes) (w : world) : res world :=
  '(h, w) ← get_handle a m w; Ok (set_handles (<[i := h]> (w_handles w)) w).

Definition handle_dtor (i : Z) (w : world) : res world :=
  match w_handles w !! i with
  | Some (Some a) => done_handle a (set_handles (delete i (w_handles w)) w)
  | Some None => Ok (set_handles (delete i (w_handles w)) w)
  | None => Crash OutOfBounds
  end.

Inductive bound :=
  | Returned (cl : option Z)
  | Binding.

(** [handle::safebind] up to [cl->bind]; [c] is the new [rpcc]. *)
Definition safebind (i c : Z) (w : world) : res (bound * world) :=
  match w_handles w !! i with
  | None => Crash OutOfBounds
  | Some None => Ok (Returned None, w)
  | Some (Some a) =>
      h ← deref a w;
      if h_del h then Ok (Returned None, w)
      else match h_cl h with
      | Some cl => Ok (Returned (Some cl), w)
      | None => Ok (Binding, set_cls ({[c]} ∪ w_cls w) (set_binding (<[a := (i, c)]> (w_binding w)) w))
      end
  end.

(** The rest of [safebind], with the result of [bind]. *)
Definition safebind_end (a c ret : Z) (w : world) : res (option Z * world) :=
  h ← deref a w;
  let w := set_binding (delete a (w_binding w)) w in
  if ret <? 0 then
    Ok (h_cl h, set_heap (<[a := Hinfo (h_cl h) (h_refcnt h) true (h_m h)]> (w_heap w)) (set_cls (w_cls w ∖ {[c]}) w))
  else
    Ok (Some c, set_heap (<[a := Hinfo (Some c) (h_refcnt h) (h_del h) (h_m h)]> (w_heap w)) w).

(** ** Runs

    [new] returns addresses not in use; a handle is not destroyed while one of
    its methods runs, and the mutex of an [hinfo] is free when [safebind] takes
    it. *)
Inductive hstep (w : world) : res world -> Prop :=
  | st_ctor i a m : w_handles w !! i = None -> w_heap w !! a = None -> hstep w (handle_ctor i a m w)
  | st_dtor i : is_Some (w_handles w !! i) -> (forall a c, w_binding w !! a <> Some (i, c)) -> hstep w (handle_dtor i w)
  | st_delete m : hstep w (delete_handle m w)
  | st_safebind i c : is_Some (w_handles w !! i) -> c ∉ w_cls w ->
      (forall a, w_handles w !! i = Some (Some a) -> w_binding w !! a = None) ->
      hstep w ('(_, w') ← safebind i c w; Ok w')
  | st_bound a i c ret : w_binding w !! a = Some (i, c) -> hstep w ('(_, w') ← safebind_end a c ret w; Ok w').

Inductive hreach : world -> Prop :=
  | hreach_init : hreach new_world
  | hreach_step w w' : hreach w -> hstep w (Ok w') -> hreach w'.

(** ** The invariant *)

(** The handles that point to [a]. *)
Definition refs (a : Z) (hs : gmap Z (option Z)) : nat := count_map (fun p => p = Some a) hs.

Record hcore (w : world) : Prop := {
  hi_map m a : w_map w !! m = Some a <-> exists h, w_heap w !! a = Some h /\ h_m h = m;
  hi_refs a h : w_heap w !! a = Some h -> h_refcnt h = Z.of_nat (refs a (w_handles w));
  hi_ptr i a : w_handles w !! i = Some (Some a) -> is_Some (w_heap w !! a);
  hi_bind a i c : w_binding w !! a = Some (i, c) -> w_handles w !! i = Some (Some a) /\
    exists h, w_heap w !! a = Some h /\ h_cl h = None;
  hi_cls c : c ∈ w_cls w <-> (exists a h, w_heap w !! a = Some h /\ h_cl h = Some c) \/
    (exists a i, w_binding w !! a = Some (i, c));
  hi_uniq a b h h' c : w_heap w !! a = Some h -> w_heap w !! b = Some h' -> h_cl h = Some c -> h_cl h' = Some c -> a = b;
  hi_excl a b i h c : w_binding w !! a = Some (i, c) -> w_heap w !! b = Some h -> h_cl h <> Some c;
  hi_bind_uniq a b i j c : w_binding w !! a = Some (i, c) -> w_binding w !! b = Some (j, c) -> a = b }.

(** An [hinfo] that is marked is still referred to. *)
Definition del_ok (w : world) : Prop := forall a h, w_heap w !! a = Some h -> h_del h = true -> 0 < h_refcnt h.

Definition hinv (w : world) : Prop := hcore w /\ del_ok w.

Lemma refs_insert a hs i x : hs !! i = None -> refs a (<[i := x]> hs) = (refs a hs + if decide (x = Some a) then 1 else 0)%nat.
Proof. exact (count_map_insert (fun p => p = Some a) hs i x). Qed.

Lemma refs_delete a hs i x : hs !! i = Some x -> refs a hs = (refs a (delete i hs) + if decide (x = Some a) then 1 else 0)%nat.
Proof. exact (count_map_delete (fun p => p = Some a) hs i x). Qed.

(** *** Changes of one object *)

Section upd.
Context (w : world) (a : Z) (h : hinfo).
Hypothesis Hw : hcore w.
Hypothesis Ha : w_heap w !! a = Some h.

(** The counter and the mark change, with the handles. *)
Lemma core_upd n d hs :
  n = Z.of_nat (refs a hs) -> (forall b, b <> a -> refs b hs = refs b (w_handles w)) ->
  (forall i b, hs !! i = Some (Some b) -> is_Some (w_heap w !! b)) ->
  (forall b i c, w_binding w !! b = Some (i, c) -> hs !! i = w_handles w !! i) ->
  hcore (World (<[a := Hinfo (h_cl h) n d (h_m h)]> (w_heap w)) (w_map w) (w_cls w) hs (w_binding w)).
Proof.
  intros Hn Hr Hp Hb.
  assert (forall b h', <[a := Hinfo (h_cl h) n d (h_m h)]> (w_heap w) !! b = Some h' ->
    exists h0, w_heap w !! b = Some h0 /\ h_cl h0 = h_cl h' /\ h_m h0 = h_m h') as Hold.
  { intros b h'. rewrite lookup_insert. case_decide as Hab; [intros [= <-]; subst; eauto | eauto]. }
  assert (forall b h0, w_heap w !! b = Some h0 -> exists h', <[a := Hinfo (h_cl h) n d (h_m h)]> (w_heap w) !! b = Some h' /\
    h_cl h' = h_cl h0 /\ h_m h' = h_m h0) as Hnew.
  { intros b h0 Hb0. rewrite lookup_insert. case_decide as Hab; [subst; simplify_eq; eauto | eauto]. }
  split; simpl.
  - intros m b. rewrite (hi_map _ Hw). split.
    + intros (h0 & H1 & H2). destruct (Hnew b h0 H1) as (h' & H3 & _ & H4). exists h'. split; [done | congruence].
    + intros (h' & H1 & H2). destruct (Hold b h' H1) as (h0 & H3 & _ & H4). exists h0. split; [done | congruence].
  - intros b h'. rewrite lookup_insert. case_decide as Hab; [intros [= <-]; by subst|]. intros H. rewrite Hr by done. by apply Hw.
  - intros i b H%Hp. rewrite lookup_insert. by case_decide.
  - intros b i c H. destruct (hi_bind _ Hw b i c H) as [H1 (h0 & H2 & H3)]. split; [by rewrite (Hb b i c)|].
    destruct (Hnew b h0 H2) as (h' & H4 & H5 & _). exists h'. split; [done | congruence].
  - intros c. rewrite (hi_cls _ Hw). split; (intros [(b & h0 & H1 & H2)|H]; [left|by right]).
    + destruct (Hnew b h0 H1) as (h' & H3 & H4 & _). exists b, h'. split; [done | congruence].
    + destruct (Hold b h0 H1) as (h' & H3 & H4 & _). exists b, h'. split; [done | congruence].
  - intros b b' h1 h2 c (h3 & H1 & H2 & _)%Hold (h4 & H3 & H4 & _)%Hold H5 H6. eapply (hi_uniq _ Hw _ _ _ _ c); [exact H1|exact H3|congruence..].
  - intros b b' i h1 c H1 (h3 & H2 & H3 & _)%Hold. rewrite <- H3. by eapply (hi_excl _ Hw).
  - apply Hw.
Qed.

(** The object is freed, with its client. *)
Lemma core_free cls :
  refs a (w_handles w) = 0%nat ->
  (forall c, c ∈ cls <-> c ∈ w_cls w /\ h_cl h <> Some c) ->
  hcore (World (delete a (w_heap w)) (delete (h_m h) (w_map w)) cls (w_handles w) (w_binding w)).
Proof.
  intros Hr Hc. assert (forall i, w_handles w !! i <> Some (Some a)) as Hno.
  { intros i Hi. rewrite (refs_delete a _ _ _ Hi), decide_True in Hr by done. lia. }
  assert (forall b i c, w_binding w !! b = Some (i, c) -> b <> a) as Hba.
  { intros b i c H ->. destruct (hi_bind _ Hw a i c H) as [H0 _]. by apply Hno in H0. }
  split; simpl.
  - intros m b. rewrite !lookup_delete. case_decide as Hm.
    + split; [done|]. intros (h0 & H1 & H2). case_decide as Hab; [done|]. exfalso. apply Hab.
      assert (w_map w !! m = Some a) as E1 by (apply (hi_map _ Hw); eauto).
      assert (w_map w !! m = Some b) as E2 by (apply (hi_map _ Hw); eauto). congruence.
    + rewrite (hi_map _ Hw). split; intros (h0 & H1 & H2); exists h0; (split; [|done]).
      * case_decide as Hab; [|done]. subst. simplify_eq.
      * by case_decide.
  - intros b h0. rewrite lookup_delete. case_decide; [done|]. apply Hw.
  - intros i b H. rewrite lookup_delete. case_decide as Hab; [subst; by apply Hno in H|]. by eapply Hw.
  - intros b i c H. destruct (hi_bind _ Hw b i c H) as [H1 H2]. split; [done|]. rewrite lookup_delete_ne; [done|]. intros <-. by eapply Hba.
  - intros c. rewrite Hc, (hi_cls _ Hw). split.
    + intros [[(b & h0 & H1 & H2)|H] Hn]; [left|by right]. exists b, h0. split; [|done]. rewrite lookup_delete_ne; [done|]. intros ->. simplify_eq.
    + intros [(b & h0 & H1 & H2)|(b & i & H)].
      * rewrite lookup_delete in H1. case_decide as Hab; [done|]. split; [left; eauto|]. intros H3. apply Hab. by eapply (hi_uniq _ Hw).
      * split; [right; eauto|]. by eapply (hi_excl _ Hw).
  - intros b b' h1 h2 c. rewrite !lookup_delete. repeat case_decide; try done. apply Hw.
  - intros b b' i h1 c H. rewrite lookup_delete. case_decide; [done|]. by eapply (hi_excl _ Hw).
  - apply Hw.
Qed.
End upd.

(** *** The operations *)

Lemma delete_handle_wo_ok m w : hcore w -> (forall a h, w_heap w !! a = Some h -> h_m h <> m -> h_del h = true -> 0 < h_refcnt h) ->
  exists w', delete_handle_wo m w = Ok w' /\ hinv w'.
Proof.
  intros Hw Hd. unfold delete_handle_wo. destruct (w_map w !! m) as [a|] eqn:Hm.
  2:{ exists w. split; [done|]. split; [done|]. intros a h Ha. apply (Hd a h Ha). intros Hhm.
      assert (w_map w !! m = Some a) by (apply (hi_map _ Hw); eauto). congruence. }
  apply (hi_map _ Hw) in Hm as (h & Ha & Hhm). unfold deref. rewrite Ha. simpl. pose proof (hi_refs _ Hw a h Ha) as Hr.
  assert (forall b h', b <> a -> w_heap w !! b = Some h' -> h_del h' = true -> 0 < h_refcnt h') as Hd'.
  { intros b h' Hb Hb'. apply (Hd b h' Hb'). intros Hm'. apply Hb. assert (w_map w !! m = Some a) by (apply (hi_map _ Hw); eauto).
    assert (w_map w !! m = Some b) by (apply (hi_map _ Hw); eauto). congruence. }
  destruct (Z.eqb_spec (h_refcnt h) 0) as [H0|H0].
  - destruct (h_cl h) as [c|] eqn:Hc.
    + rewrite bool_decide_eq_true_2 by (apply (hi_cls _ Hw); left; eauto). simpl. eexists. split; [done|]. subst m. split.
      * apply (core_free w a h Hw Ha (w_cls w ∖ {[c]})); [lia|]. intros c'. rewrite elem_of_difference, elem_of_singleton, Hc. naive_solver.
      * intros b h'. simpl. rewrite lookup_delete. case_decide as Hab; [done|]. apply Hd'. congruence.
    + simpl. eexists. split; [done|]. subst m. split.
      * apply (core_free w a h Hw Ha (w_cls w)); [lia|]. intros c'. rewrite Hc. naive_solver.
      * intros b h'. simpl. rewrite lookup_delete. case_decide as Hab; [done|]. apply Hd'. congruence.
  - eexists. split; [done|]. split; [by apply (core_upd w a h Hw Ha _ true (w_handles w)); [..|apply Hw|]|]. intros b h'. simpl. rewrite lookup_insert.
    case_decide as Hab; [intros [= <-] _; simpl; lia|]. apply Hd'. congruence.
Qed.

(** The handle [i] is not one a thread binds through. *)
Lemma binding_other i w b j c x : hcore w -> w_handles w !! i = None -> w_binding w !! b = Some (j, c) ->
  <[i := x]> (w_handles w) !! j = w_handles w !! j.
Proof.
  intros Hw Hi H. rewrite lookup_insert_ne; [done|]. intros <-. destruct (hi_bind _ Hw b i c H) as [H0 _]. congruence.
Qed.

(** A new entry with one reference. *)
Lemma core_new i a m w : hcore w -> w_handles w !! i = None -> w_heap w !! a = None -> w_map w !! m = None ->
  hcore (World (<[a := Hinfo None 1 false m]> (w_heap w)) (<[m := a]> (w_map w)) (w_cls w)
           (<[i := Some a]> (w_handles w)) (w_binding w)).
Proof.
  intros Hw Hi Ha Hm. pose proof (fun b j c x => binding_other i w b j c x Hw Hi) as Hbi.
  assert (forall j, w_handles w !! j <> Some (Some a)) as Hno.
  { intros j H. destruct (hi_ptr _ Hw j a H). congruence. }
  assert (forall j b c, w_binding w !! b = Some (j, c) -> b <> a) as Hba.
  { intros j b c H ->. destruct (hi_bind _ Hw a j c H) as [H0 _]. by apply Hno in H0. }
  split; simpl.
  - intros m' b. rewrite !lookup_insert. case_decide as Hmm.
    + subst m'. split; [intros [= <-]; rewrite decide_True by done; eauto|]. intros (h & H1 & H2). case_decide; [congruence|].
      assert (w_map w !! m = Some b) by (apply (hi_map _ Hw); eauto). congruence.
    + rewrite (hi_map _ Hw). split; intros (h & H1 & H2); exists h; (split; [|done]); case_decide; try done; simplify_eq; done.
  - intros b h. rewrite lookup_insert, refs_insert by done. case_decide as Hab.
    + intros [= <-]. subst b. simpl. rewrite decide_True by done. assert (refs a (w_handles w) = 0%nat); [|lia].
      apply count_map_0. intros j x Hx ->. by apply Hno in Hx.
    + intros H. rewrite decide_False by congruence. rewrite Nat.add_0_r. by apply Hw.
  - intros j b. rewrite !lookup_insert. case_decide; [intros [= <-]; by rewrite decide_True by done|]. intros Hj%(hi_ptr _ Hw).
    by case_decide.
  - intros b j c H. rewrite (Hbi b j c) by done. destruct (hi_bind _ Hw b j c H) as [H1 H2]. split; [done|].
    rewrite lookup_insert_ne; [done|]. intros ->. by eapply Hba.
  - intros c. rewrite (hi_cls _ Hw). split; (intros [(b & h & H1 & H2)|H]; [left|by right]).
    + exists b, h. split; [|done]. rewrite lookup_insert_ne; [done|]. congruence.
    + rewrite lookup_insert in H1. case_decide; [simplify_eq; done|]. eauto.
  - intros b b' h1 h2 c. rewrite !lookup_insert. repeat case_decide; intros; simplify_eq; try done. by eapply (hi_uniq _ Hw).
  - intros b b' j h1 c H. rewrite lookup_insert. case_decide; [by intros [= <-]|]. by eapply (hi_excl _ Hw).
  - apply Hw.
Qed.

Lemma ctor_ok i a m w : hinv w -> w_handles w !! i = None -> w_heap w !! a = None -> exists w', handle_ctor i a m w = Ok w' /\ hinv w'.
Proof.
  intros [Hw Hd] Hi Ha. unfold handle_ctor, get_handle.
  pose proof (fun b j c x => binding_other i w b j c x Hw Hi) as Hbi.
  assert (forall b, refs b (<[i := None]> (w_handles w)) = refs b (w_handles w)) as Hrn.
  { intros b. rewrite refs_insert by done. rewrite decide_False by done. lia. }
  destruct (w_map w !! m) as [b|] eqn:Hm.
  - apply (hi_map _ Hw) in Hm as (h & Hb & Hhm). unfold deref. rewrite Hb. simpl. destruct (h_del h) eqn:Hdel; simpl; (eexists; split; [done|]).
    + split; [|done]. split; simpl; try apply Hw.
      * intros b' h' H. rewrite Hrn. by apply Hw.
      * intros j b' H. rewrite lookup_insert in H. case_decide; [done|]. by eapply Hw.
      * intros b' j c H. rewrite (Hbi b' j c) by done. by eapply (hi_bind _ Hw).
    + split.
      * apply (core_upd w b h Hw Hb (h_refcnt h + 1) false (<[i := Some b]> (w_handles w))).
        -- rewrite refs_insert by done. rewrite decide_True by done. pose proof (hi_refs _ Hw b h Hb). lia.
        -- intros b' Hb'. rewrite refs_insert by done. rewrite decide_False by congruence. lia.
        -- intros j b'. rewrite lookup_insert. case_decide; [intros [= <-]; eauto|]. apply Hw.
        -- intros b' j c H. by eapply Hbi.
      * intros b' h'. simpl. rewrite lookup_insert. case_decide; [intros [= <-]; simpl; congruence|]. apply Hd.
  - simpl. eexists. split; [done|].
    split; [exact (core_new i a m w Hw Hi Ha Hm) | intros b h'; simpl; rewrite lookup_insert; case_decide; [by intros [= <-] | apply Hd]].
Qed.

Lemma dtor_ok i w : hinv w -> is_Some (w_handles w !! i) -> (forall a c, w_binding w !! a <> Some (i, c)) ->
  exists w', handle_dtor i w = Ok w' /\ hinv w'.
Proof.
  intros [Hw Hd] [x Hi] Hb. unfold handle_dtor. rewrite Hi.
  assert (forall b j c, w_binding w !! b = Some (j, c) -> delete i (w_handles w) !! j = w_handles w !! j) as Hbi.
  { intros b j c H. rewrite lookup_delete_ne; [done|]. intros <-. by eapply Hb. }
  assert (forall j b, delete i (w_handles w) !! j = Some (Some b) -> is_Some (w_heap w !! b)) as Hp.
  { intros j b. rewrite lookup_delete. case_decide; [done|]. apply Hw. }
  destruct x as [a|].
  - destruct (hi_ptr _ Hw i a Hi) as [h Ha]. unfold done_handle, deref. simpl. rewrite Ha. simpl.
    pose proof (hi_refs _ Hw a h Ha) as Hr. rewrite (refs_delete a _ _ _ Hi), decide_True in Hr by done.
    set (w1 := World (<[a := Hinfo (h_cl h) (h_refcnt h - 1) (h_del h) (h_m h)]> (w_heap w)) (w_map w) (w_cls w) (delete i (w_handles w)) (w_binding w)).
    assert (hcore w1) as Hw1.
    { apply core_upd; try done; [lia|]. intros b Hba. rewrite (refs_delete b (w_handles w) i _ Hi), decide_False by congruence. lia. }
    assert (forall b h', w_heap w1 !! b = Some h' -> h_del h' = true -> 0 < h_refcnt h' \/ b = a) as Hd1.
    { intros b h'. simpl. rewrite lookup_insert. case_decide; [by right|]. intros H1 H2. left. by eapply Hd. }
    change (set_heap _ _) with w1. destruct (_ && _) eqn:Hc.
    + apply (delete_handle_wo_ok (h_m h) w1 Hw1). intros b h' Hb' Hm Hdel. destruct (Hd1 b h' Hb' Hdel) as [|Hba]; [done|]. subst b.
      simpl in Hb'. rewrite lookup_insert_eq in Hb'. by simplify_eq.
    + exists w1. split; [done|]. split; [done|]. intros b h' Hb' Hdel. destruct (Hd1 b h' Hb' Hdel) as [|Hba]; [done|]. subst b.
      simpl in Hb'. rewrite lookup_insert_eq in Hb'. simplify_eq. simpl in *. rewrite Hdel, andb_true_r in Hc. apply Z.eqb_neq in Hc. lia.
  - eexists. split; [done|]. split; [|done]. split; simpl; try apply Hw; try done.
    + intros b h Hbh. pose proof (refs_delete b _ _ _ Hi) as Hr. rewrite decide_False in Hr by done. rewrite (hi_refs _ Hw b h Hbh). lia.
    + intros b j c H. rewrite (Hbi b j c H). by eapply (hi_bind _ Hw).
Qed.

Lemma safebind_ok i c w : hinv w -> is_Some (w_handles w !! i) -> c ∉ w_cls w ->
  (forall a, w_handles w !! i = Some (Some a) -> w_binding w !! a = None) ->
  exists r w', safebind i c w = Ok (r, w') /\ hinv w'.
Proof.
  intros [Hw Hd] [x Hi] Hc Hn. unfold safebind. rewrite Hi. destruct x as [a|]; [|by eexists _, w].
  destruct (hi_ptr _ Hw i a Hi) as [h Ha]. unfold deref. rewrite Ha. simpl. destruct (h_del h); [by eexists _, w|].
  destruct (h_cl h) as [cl|] eqn:Hcl; [by eexists _, w|]. eexists _, _. split; [done|]. split; [|done].
  specialize (Hn a Hi). assert (forall b h', w_heap w !! b = Some h' -> h_cl h' <> Some c) as Hc1.
  { intros b h' Hb Hcc. apply Hc, (hi_cls _ Hw). left. eauto. }
  assert (forall b j, w_binding w !! b <> Some (j, c)) as Hc2 by (intros b j H; apply Hc, (hi_cls _ Hw); right; eauto).
  split; simpl; try apply Hw.
  - intros b j c'. rewrite lookup_insert. case_decide; [intros [= <- <-]; subst; eauto|]. apply Hw.
  - intros c'. rewrite elem_of_union, elem_of_singleton, (hi_cls _ Hw). setoid_rewrite lookup_insert. split.
    + intros [->|[H|(b & j & H)]]; [right; exists a, i; by rewrite decide_True | by left |]. right. exists b, j.
      rewrite decide_False; [done|]. congruence.
    + intros [H|(b & j & H)]; [by right; left|]. case_decide; [simplify_eq; by left | right; right; eauto].
  - intros b b' j h1 c'. rewrite lookup_insert. case_decide; [intros [= <- <-]; apply Hc1|]. apply Hw.
  - intros b b' j k c'. rewrite !lookup_insert. repeat case_decide; intros; simplify_eq; try done; [by edestruct Hc2..|].
    by eapply (hi_bind_uniq _ Hw).
Qed.

(** The threads that still bind when the one for [a] is done. *)
Lemma binding_left a i c w b j c' : hcore w -> w_binding w !! a = Some (i, c) ->
  delete a (w_binding w) !! b = Some (j, c') -> w_binding w !! b = Some (j, c') /\ b <> a /\ c' <> c.
Proof.
  intros Hw Hb. rewrite lookup_delete. case_decide; [done|]. intros Hbb. split; [done|]. split; [done|].
  intros ->. by pose proof (hi_bind_uniq _ Hw _ _ _ _ _ Hb Hbb).
Qed.

(** The new RPC client is deleted. *)
Lemma core_unbound a i c w : hcore w -> w_binding w !! a = Some (i, c) ->
  hcore (World (w_heap w) (w_map w) (w_cls w ∖ {[c]}) (w_handles w) (delete a (w_binding w))).
Proof.
  intros Hw Hb. pose proof (fun b j c' => binding_left a i c w b j c' Hw Hb) as Hdel.
  split; simpl; try apply Hw.
  - intros b j c' (H & _)%Hdel. by eapply (hi_bind _ Hw).
  - intros c'. rewrite elem_of_difference, elem_of_singleton, (hi_cls _ Hw). split.
    + intros [[H|(b & j & H)] Hne]; [by left|]. right. exists b, j. rewrite lookup_delete_ne; [done|]. congruence.
    + intros [(b & h' & H1 & H2)|(b & j & (H & _ & Hne)%Hdel)]; [|split; [right; eauto | done]].
      split; [left; eauto|]. intros ->. by eapply (hi_excl _ Hw).
  - intros b b' j h1 c' (H & _)%Hdel. by eapply (hi_excl _ Hw).
  - intros b b' j k c' (H & _)%Hdel (H' & _)%Hdel. by eapply (hi_bind_uniq _ Hw).
Qed.

(** The new RPC client goes to its entry. *)
Lemma core_bound a i c h w : hcore w -> w_binding w !! a = Some (i, c) -> w_heap w !! a = Some h ->
  h_cl h = None ->
  hcore (World (<[a := Hinfo (Some c) (h_refcnt h) (h_del h) (h_m h)]> (w_heap w)) (w_map w) (w_cls w)
           (w_handles w) (delete a (w_binding w))).
Proof.
  intros Hw Hb Ha Hcl. pose proof (fun b j c' => binding_left a i c w b j c' Hw Hb) as Hdel.
  assert (forall b h', <[a := Hinfo (Some c) (h_refcnt h) (h_del h) (h_m h)]> (w_heap w) !! b = Some h' ->
    (b = a /\ h_cl h' = Some c /\ h_m h' = h_m h /\ h_refcnt h' = h_refcnt h) \/ (b <> a /\ w_heap w !! b = Some h')) as Hold.
  { intros b h'. rewrite lookup_insert. case_decide; [intros [= <-]; by left | by right]. }
  split; simpl.
  - intros m b. rewrite (hi_map _ Hw), lookup_insert. split; intros (h' & H1 & H2).
    + case_decide; [subst; simplify_eq; eauto | eauto].
    + case_decide; [subst; simplify_eq; eauto | eauto].
  - intros b h' [(-> & _ & _ & ->)|[_ H]]%Hold; by apply Hw.
  - intros j b H%(hi_ptr _ Hw). rewrite lookup_insert. by case_decide.
  - intros b j c' (H & Hne & _)%Hdel. rewrite lookup_insert_ne by done. by eapply (hi_bind _ Hw).
  - intros c'. rewrite (hi_cls _ Hw). split.
    + intros [(b & h' & H1 & H2)|(b & j & H)].
      * left. exists b, h'. split; [|done]. rewrite lookup_insert_ne; [done|]. intros <-. congruence.
      * destruct (decide (b = a)) as [->|Hba]; [|right; exists b, j; by rewrite lookup_delete_ne].
         left. exists a, (Hinfo (Some c) (h_refcnt h) (h_del h) (h_m h)). rewrite lookup_insert_eq. split; [done|]. simpl. congruence.
    + intros [(b & h' & [(-> & H1 & _)|[_ H1]]%Hold & H2)|(b & j & (H & _)%Hdel)]; [|left; eauto|right; eauto].
      right. exists a, i. congruence.
  - intros b b' h1 h2 c' [(-> & H1 & _)|[Hb1 H1]]%Hold [(-> & H2 & _)|[Hb2 H2]]%Hold H3 H4; try done.
    + exfalso. eapply (hi_excl _ Hw a b' i); [done..|congruence].
    + exfalso. eapply (hi_excl _ Hw a b i); [done..|congruence].
    + by eapply (hi_uniq _ Hw).
  - intros b b' j h1 c' (H & _ & Hne)%Hdel [(_ & H1 & _)|[_ H1]]%Hold; [congruence|]. by eapply (hi_excl _ Hw).
  - intros b b' j k c' (H & _)%Hdel (H' & _)%Hdel. by eapply (hi_bind_uniq _ Hw).
Qed.

Lemma safebind_end_ok a i c ret w : hinv w -> w_binding w !! a = Some (i, c) ->
  exists r w', safebind_end a c ret w = Ok (r, w') /\ hinv w'.
Proof.
  intros [Hw Hd] Hb. destruct (hi_bind _ Hw a i c Hb) as [Hi (h & Ha & Hcl)]. unfold safebind_end, deref. rewrite Ha. simpl.
  assert (0 < h_refcnt h) as Hpos.
  { rewrite (hi_refs _ Hw a h Ha), (refs_delete a _ _ _ Hi), decide_True by done. lia. }
  destruct (ret <? 0); eexists _, _; (split; [done|]); (split; [|intros b h'; simpl; rewrite lookup_insert;
    case_decide; [by intros [= <-] | apply Hd]]).
  - pose proof (core_unbound a i c w Hw Hb) as Hw1.
    apply (core_upd _ a h Hw1 Ha (h_refcnt h) true (w_handles w)); try done; [by apply Hw | apply Hw].
  - exact (core_bound a i c h w Hw Hb Ha Hcl).
Qed.

Lemma hstep_ok w r : hinv w -> hstep w r -> exists w', r = Ok w' /\ hinv w'.
Proof.
  intros Hi Hs. destruct Hs as [i a m H1 H2|i H1 H2|m|i c H1 H2 H3|a i c ret H1].
  - by apply ctor_ok.
  - by apply dtor_ok.
  - destruct Hi as [Hw Hd]. apply delete_handle_wo_ok; [done|]. intros a h Ha _. by apply (Hd a).
  - destruct (safebind_ok i c w Hi H1 H2 H3) as (r & w' & -> & Hw'). by exists w'.
  - destruct (safebind_end_ok a i c ret w Hi H1) as (r & w' & -> & Hw'). by exists w'.
Qed.

Lemma hreach_inv w : hreach w -> hinv w.
Proof.
  induction 1 as [|w w' _ IH Hs].
  - split; [|done]. split; simpl; try done.
    + intros m a. split; [done|]. by intros (h & H & _).
    + intros c. split; [by intros []%elem_of_empty|]. by intros [(a & h & H & _)|(a & i & H)].
  - destruct (hstep_ok w _ IH Hs) as (w1 & [= <-] & Hw1). done.
Qed.

(** C22. The cache of RPC clients is memory safe and frees what it can: in every
    interleaving of handles being made, used and destroyed, no operation touches a
    freed object, the counter of an address is the number of handles that point to
    it, an address has one entry, and the RPC clients that exist are exactly the
    one of each entry that is bound and the ones being bound. *)
Theorem handle_mgr_safe (w : world) (r : res world) :
  hreach w -> hstep w r ->
  exists w', r = Ok w' /\ hreach w' /\
    (forall a h, w_heap w' !! a = Some h -> w_map w' !! h_m h = Some a /\ h_refcnt h = Z.of_nat (refs a (w_handles w'))) /\
    (forall c, c ∈ w_cls w' <-> (exists a h, w_heap w' !! a = Some h /\ h_cl h = Some c) \/
                              (exists a i, w_binding w' !! a = Some (i, c))).
Proof.
  intros Hr Hs. destruct (hstep_ok w r (hreach_inv w Hr) Hs) as (w' & -> & [Hw _]). exists w'. split; [done|].
  split; [by eapply hreach_step|]. split; [|apply Hw]. intros a h Ha. split; [apply (hi_map _ Hw); eauto | by apply Hw].
Qed.

Lemma handle_mgr_safe_witness : exists w', handle_ctor 1 100 (str "a") new_world = Ok w' /\ hreach w'.
Proof.
  destruct (handle_mgr_safe new_world (handle_ctor 1 100 (str "a") new_world) hreach_init) as (w' & H1 & H2 & _).
  - apply st_ctor; reflexivity.
  - exists w'. split; [exact H1 | exact H2].
Defined.
