(* ===== verification/RpcRefs.v ===== *)
(** * The server's references to its connections

    Connections of src/lab41/rpc/connection.cc are reference counted.  On a server
    they are held by the listener ([tcpsconn::conns_]), by the table of the latest
    connection of each client ([rpcs::conns_]) and by the requests that are queued
    or being served ([rpcs::got_pdu] and [rpcs::dispatch] of rpc.cc).  This file
    models what these parts do to the counts, over the connections of
    Connection.v, with a store in which a deleted connection is gone. *)

From S2P Require Import Prelude Connection.

(** [r_objs]: the connections that exist; [r_jobs]: the requests, each with its
    connection and, once [dispatch] has entered the client in [conns_], the
    client; [r_leak] records the connections whose reference was dropped without
    [decref]. *)
Record rsys := Rsys {
  r_objs : gmap Z connection;
  r_lst : gset Z;
  r_cns : gmap Z Z;
  r_jobs : gmap Z (Z * option Z);
  r_leak : list Z }.

Definition new_rsys : rsys := Rsys ∅ ∅ ∅ ∅ [].

Definition set_objs (x : gmap Z connection) (w : rsys) : rsys := Rsys x (r_lst w) (r_cns w) (r_jobs w) (r_leak w).
Definition set_lst (x : gset Z) (w : rsys) : rsys := Rsys (r_objs w) x (r_cns w) (r_jobs w) (r_leak w).
Definition set_cns (x : gmap Z Z) (w : rsys) : rsys := Rsys (r_objs w) (r_lst w) x (r_jobs w) (r_leak w).
Definition set_jobs (x : gmap Z (Z * option Z)) (w : rsys) : rsys := Rsys (r_objs w) (r_lst w) (r_cns w) x (r_leak w).
Definition add_leak (c : Z) (w : rsys) : rsys := Rsys (r_objs w) (r_lst w) (r_cns w) (r_jobs w) (c :: r_leak w).

(** [c->...]: the connection must not have been deleted. *)
Definition obj (c : Z) (w : rsys) : res connection :=
  match r_objs w !! c with Some o => Ok o | None => Crash OutOfBounds end.

Definition do_incref (c : Z) (w : rsys) : res rsys := o ← obj c w; Ok (set_objs (<[c := incref o]> (r_objs w)) w).
Definition do_decref (c : Z) (w : rsys) : res rsys :=
  o ← obj c w; r ← decref o;
  Ok (set_objs (match r with Some o' => <[c := o']> (r_objs w) | None => delete c (r_objs w) end) w).

(** [tcpsconn::process_accept] makes a connection; one turn of its loop that
    collects the dead ones. *)
Definition accept (c : Z) (w : rsys) : rsys := set_lst ({[c]} ∪ r_lst w) (set_objs (<[c := new_connection]> (r_objs w)) w).
Definition collect_one (c : Z) (w : rsys) : res rsys :=
  o ← obj c w;
  if dead_ o && (refno_ o =? 1) then w ← do_decref c w; Ok (set_lst (r_lst w ∖ {[c]}) w) else Ok w.

(** The connection breaks. *)
Definition die (c : Z) (w : rsys) : res rsys := o ← obj c w; Ok (set_objs (<[c := closeconn o]> (r_objs w)) w).

(** [rpcs::got_pdu]: the request [j]; what it reads of [reachable_] at first and at the
    end, and whether the pool takes the job.  When the job is in the pool and the second
    test fails, its reference is dropped all the same. *)
Definition rpcs_got_pdu (j c : Z) (reach succ reach' : bool) (w : rsys) : res rsys :=
  if negb reach then Ok w else
  w ← do_incref c w;
  let w := if succ then set_jobs (<[j := (c, None)]> (r_jobs w)) w else w in
  if negb succ || negb reach' then do_decref c w else Ok w.

(** The request [j] is over. *)
Definition end_job (j : Z) (w : rsys) : rsys := set_jobs (delete j (r_jobs w)) w.

(** [rpcs::dispatch], the way out when the header does not parse. *)
Definition dispatch_bad (j c : Z) (w : rsys) : res rsys := w ← do_decref c w; Ok (end_job j w).

(** The way out for a request to an old instance of the server. *)
Definition dispatch_old (j c : Z) (w : rsys) : res rsys := _ ← obj c w; Ok (add_leak c (end_job j w)).

(** The latest connection of client [clt] is saved; [newer] is the comparison of the two. *)
Definition dispatch_save (j c clt : Z) (newer : bool) (w : rsys) : res rsys :=
  w ← match r_cns w !! clt with
      | None => w ← do_incref c w; Ok (set_cns (<[clt := c]> (r_cns w)) w)
      | Some c0 =>
          _ ← obj c0 w;
          if newer then w ← do_decref c0 w; w ← do_incref c w; Ok (set_cns (<[clt := c]> (r_cns w)) w)
          else Ok w
      end;
  Ok (set_jobs (<[j := (c, Some clt)]> (r_jobs w)) w).

(** The reply goes out on the latest connection when the request's own is dead.
    For a client without a number, [conns_[0]] is a null pointer. *)
Definition dispatch_pick (c : Z) (clt : option Z) (w : rsys) : res (Z * rsys) :=
  o ← obj c w;
  if dead_ o then
    match clt ≫= fun k => r_cns w !! k with
    | None => Crash NullDeref
    | Some c0 => if c =? c0 then Ok (c, w) else w ← do_decref c w; w ← do_incref c0 w; Ok (c0, w)
    end
  else Ok (c, w).

(** The end of [dispatch]: [fresh] when the handler was run and its reply is sent. *)
Definition dispatch_end (j c : Z) (clt : option Z) (fresh : bool) (w : rsys) : res rsys :=
  '(c, w) ← (if fresh then dispatch_pick c clt w else Ok (c, w));
  _ ← obj c w;
  w ← do_decref c w; Ok (end_job j w).

(** ** Runs

    [reachable_] does not change: nothing in the program calls [set_reachable].  A
    client without a number has no entry in [conns_]: its requests end with [None]. *)

Inductive rstep (w : rsys) : res rsys -> Prop :=
  | rs_accept c : r_objs w !! c = None -> rstep w (Ok (accept c w))
  | rs_collect c : c ∈ r_lst w -> rstep w (collect_one c w)
  | rs_die c : is_Some (r_objs w !! c) -> rstep w (die c w)
  | rs_got_pdu j c o reach succ : r_jobs w !! j = None -> r_objs w !! c = Some o -> dead_ o = false ->
      rstep w (rpcs_got_pdu j c reach succ reach w)
  | rs_bad j c : r_jobs w !! j = Some (c, None) -> rstep w (dispatch_bad j c w)
  | rs_old j c : r_jobs w !! j = Some (c, None) -> rstep w (dispatch_old j c w)
  | rs_save j c clt newer : r_jobs w !! j = Some (c, None) -> (newer = true -> r_cns w !! clt <> Some c) ->
      rstep w (dispatch_save j c clt newer w)
  | rs_end j c clt fresh : r_jobs w !! j = Some (c, clt) -> rstep w (dispatch_end j c clt fresh w).

Inductive rreach : rsys -> Prop :=
  | rreach_init : rreach new_rsys
  | rreach_step w w' : rreach w -> rstep w (Ok w') -> rreach w'.

(** ** The invariant *)

(** The references to [c]: the listener, the clients' table, the requests, and
    those that were lost. *)
Definition held (c : Z) (w : rsys) : nat :=
  (if decide (c ∈ r_lst w) then 1 else 0) + count_map (fun x => x = c) (r_cns w) +
  count_map (fun x : Z * option Z => fst x = c) (r_jobs w) + length (filter (fun x => x = c) (r_leak w)).

(** [d c] is how much the count of [c] is ahead of its references, in the middle of an operation. *)
Record rinv (d : Z -> Z) (w : rsys) : Prop := {
  ri_refs c o : r_objs w !! c = Some o -> refno_ o = Z.of_nat (held c w) + d c;
  ri_wpdu c o : r_objs w !! c = Some o -> wpdu_ o = no_buf;
  ri_dom c : is_Some (r_objs w !! c) <-> c ∈ r_lst w;
  ri_held c : (0 < held c w)%nat -> c ∈ r_lst w;
  ri_job j c k : r_jobs w !! j = Some (c, Some k) -> is_Some (r_cns w !! k) }.

Definition even : Z -> Z := fun _ => 0.
Definition ahead (c n : Z) (d : Z -> Z) : Z -> Z := fun x => d x + if decide (x = c) then n else 0.

(** Only the counts change. *)
Definition same_holders (w w' : rsys) : Prop :=
  r_lst w' = r_lst w /\ r_cns w' = r_cns w /\ r_jobs w' = r_jobs w /\ r_leak w' = r_leak w.

Lemma same_holders_held w w' c : same_holders w w' -> held c w' = held c w.
Proof. intros (H1 & H2 & H3 & H4). unfold held. by rewrite H1, H2, H3, H4. Qed.

Lemma held_lst c w : c ∈ r_lst w -> (1 <= held c w)%nat.
Proof. intros Hc. unfold held. rewrite decide_True by done. lia. Qed.

Lemma held_job j c k w : c ∈ r_lst w -> r_jobs w !! j = Some (c, k) -> (2 <= held c w)%nat.
Proof.
  intros Hc Hj. unfold held. rewrite decide_True by done. pose proof (count_map_pos (fun x : Z * option Z => fst x = c) _ _ _ Hj eq_refl). lia.
Qed.

Lemma held_cns k c w : c ∈ r_lst w -> r_cns w !! k = Some c -> (2 <= held c w)%nat.
Proof. intros Hc Hj. unfold held. rewrite decide_True by done. pose proof (count_map_pos (fun x => x = c) _ _ _ Hj eq_refl). lia. Qed.

Lemma job_lst d j c k w : rinv d w -> r_jobs w !! j = Some (c, k) -> c ∈ r_lst w.
Proof. intros Hi Hj. apply (ri_held _ _ Hi). unfold held. pose proof (count_map_pos (fun x : Z * option Z => fst x = c) _ _ _ Hj eq_refl). lia. Qed.

Lemma cns_lst d k c w : rinv d w -> r_cns w !! k = Some c -> c ∈ r_lst w.
Proof. intros Hi Hj. apply (ri_held _ _ Hi). unfold held. pose proof (count_map_pos (fun x => x = c) _ _ _ Hj eq_refl). lia. Qed.

(** An object is replaced by one with [n] more references. *)
Lemma rinv_obj d w c o o' n : rinv d w -> r_objs w !! c = Some o -> refno_ o' = refno_ o + n -> wpdu_ o' = no_buf ->
  rinv (ahead c n d) (set_objs (<[c := o']> (r_objs w)) w).
Proof.
  intros Hi Ho Hn Hw. split; simpl.
  - intros x ox. rewrite lookup_insert. unfold ahead. change (held x (set_objs _ _)) with (held x w). case_decide as Hx.
    + intros [= <-]. subst x. rewrite decide_True by done. rewrite Hn, (ri_refs _ _ Hi c o Ho). lia.
    + rewrite decide_False by congruence. intros H. rewrite (ri_refs _ _ Hi x ox H). lia.
  - intros x ox. rewrite lookup_insert. case_decide; [by intros [= <-]|]. by apply Hi.
  - intros x. rewrite <- (ri_dom _ _ Hi), lookup_insert. case_decide; [subst; split; eauto|done].
  - intros x. by apply (ri_held _ _ Hi).
  - apply Hi.
Qed.

Lemma incref_ok d c w : rinv d w -> c ∈ r_lst w ->
  exists w', do_incref c w = Ok w' /\ rinv (ahead c 1 d) w' /\ same_holders w w'.
Proof.
  intros Hi Hc. apply (ri_dom _ _ Hi) in Hc as [o Ho]. unfold do_incref, obj. rewrite Ho. eexists. split; [done|].
  split; [|done]. apply (rinv_obj d w c o); [done|done|done|]. exact (ri_wpdu _ _ Hi c o Ho).
Qed.

(** The count does not become zero: the connection stays. *)
Lemma decref_ok d c w : rinv d w -> c ∈ r_lst w -> 2 <= Z.of_nat (held c w) + d c ->
  exists w', do_decref c w = Ok w' /\ rinv (ahead c (-1) d) w' /\ same_holders w w'.
Proof.
  intros Hi Hc Hn. apply (ri_dom _ _ Hi) in Hc as [o Ho]. pose proof (ri_refs _ _ Hi c o Ho) as Hr.
  unfold do_decref, obj. rewrite Ho. unfold decref. simpl.
  rewrite (proj2 (Z.ltb_ge _ _)) by lia. rewrite (proj2 (Z.eqb_neq (refno_ o - 1) 0)) by lia. simpl. eexists. split; [done|].
  split; [|done]. apply (rinv_obj d w c o); [done|done|simpl; lia|]. exact (ri_wpdu _ _ Hi c o Ho).
Qed.

(** References change hands. *)
Lemma rinv_move d d' w w' : rinv d w -> r_objs w' = r_objs w -> r_lst w' = r_lst w ->
  (forall c, Z.of_nat (held c w') + d' c = Z.of_nat (held c w) + d c) -> (forall c, (0 < held c w')%nat -> c ∈ r_lst w) ->
  (forall j c k, r_jobs w' !! j = Some (c, Some k) -> is_Some (r_cns w' !! k)) -> rinv d' w'.
Proof.
  intros Hi Eo El Hc Hl Hj. split; rewrite ?Eo, ?El; try done.
  - intros c o Ho. rewrite Hc. by apply Hi.
  - apply Hi.
  - apply Hi.
Qed.

(** *** What the holders hold *)

Lemma held_add_job j c k w x : r_jobs w !! j = None ->
  held x (set_jobs (<[j := (c, k)]> (r_jobs w)) w) = (held x w + if decide (x = c) then 1 else 0)%nat.
Proof.
  intros Hj. unfold held. simpl. rewrite count_map_insert by done. simpl. repeat case_decide; simplify_eq; try done; lia.
Qed.

Lemma held_end_job j c k w x : r_jobs w !! j = Some (c, k) ->
  held x w = (held x (end_job j w) + if decide (x = c) then 1 else 0)%nat.
Proof.
  intros Hj. unfold held. simpl. rewrite (count_map_delete _ _ _ _ Hj). simpl. repeat case_decide; simplify_eq; try done; lia.
Qed.

Lemma held_save_job j c k k' w x : r_jobs w !! j = Some (c, k) -> held x (set_jobs (<[j := (c, k')]> (r_jobs w)) w) = held x w.
Proof.
  intros Hj. unfold held. simpl. pose proof (count_map_update (fun y : Z * option Z => fst y = x) _ _ (c, k') _ Hj) as H. simpl in H.
  case_decide; case_decide; lia.
Qed.

(** *** The steps *)

Lemma accept_ok c w : rinv even w -> r_objs w !! c = None -> rinv even (accept c w).
Proof.
  intros Hi Hc. assert (c ∉ r_lst w) as Hl by (rewrite <- (ri_dom _ _ Hi), Hc; by intros [? ?]).
  assert (forall x, held x (accept c w) = (held x w + if decide (x = c) then 1 else 0)%nat) as Hh.
  { intros x. unfold held, accept. simpl. destruct (decide (x = c)) as [->|Hx].
    - rewrite decide_True by set_solver. rewrite decide_False by done. lia.
    - destruct (decide (x ∈ r_lst w)); [rewrite decide_True by set_solver | rewrite decide_False by set_solver]; lia. }
  assert (held c w = 0%nat) as H0.
  { destruct (held c w) eqn:E; [done|]. exfalso. apply Hl, (ri_held _ _ Hi). lia. }
  split; simpl.
  - intros x o. rewrite Hh, lookup_insert. case_decide as Hx.
    + intros [= <-]. subst x. rewrite decide_True, H0 by done. done.
    + rewrite decide_False by congruence. intros Ho. rewrite (ri_refs _ _ Hi x o Ho). lia.
  - intros x o. rewrite lookup_insert. case_decide; [by intros [= <-]|]. apply Hi.
  - intros x. rewrite lookup_insert, elem_of_union, elem_of_singleton, <- (ri_dom _ _ Hi). case_decide as Hx; [subst; naive_solver|].
    split; [by right|]. intros [->|]; done.
  - intros x. rewrite Hh. case_decide; [subst; set_solver|]. rewrite Nat.add_0_r. intros Hq%(ri_held _ _ Hi). set_solver.
  - apply Hi.
Qed.

Lemma collect_ok c w : rinv even w -> c ∈ r_lst w -> exists w', collect_one c w = Ok w' /\ rinv even w'.
Proof.
  intros Hi Hc. pose proof (proj2 (ri_dom _ _ Hi c) Hc) as [o Ho]. pose proof (ri_refs _ _ Hi c o Ho) as Hr.
  unfold collect_one, obj. rewrite Ho. simpl. destruct (dead_ o && (refno_ o =? 1)) eqn:Hd; [|by exists w].
  apply andb_true_iff in Hd as [Hd H1%Z.eqb_eq]. unfold do_decref, obj. rewrite Ho. unfold decref. simpl. rewrite H1, Hd. simpl.
  rewrite (ri_wpdu _ _ Hi c o Ho). simpl. eexists. split; [done|].
  assert (held c w = 1%nat) as Hh by (unfold even in Hr; lia).
  assert (forall x, held x (set_lst (r_lst w ∖ {[c]}) (set_objs (delete c (r_objs w)) w)) = if decide (x = c) then 0%nat else held x w) as Hh'.
  { intros x. unfold held in *. simpl. rewrite decide_True in Hh by done. destruct (decide (x = c)) as [->|Hx].
    - rewrite decide_False by set_solver. lia.
    - destruct (decide (x ∈ r_lst w)); [rewrite decide_True by set_solver | rewrite decide_False by set_solver]; lia. }
  split; simpl.
  - intros x ox. rewrite Hh', lookup_delete. case_decide; [done|]. rewrite decide_False by congruence. apply Hi.
  - intros x ox. rewrite lookup_delete. case_decide; [done|]. apply Hi.
  - intros x. rewrite lookup_delete, elem_of_difference, elem_of_singleton, <- (ri_dom _ _ Hi). case_decide as Hx; [subst|].
    + split; [by intros [? ?] | by intros [_ ?]].
    + split; [done|]. by intros [? _].
  - intros x. rewrite Hh'. case_decide; [lia|]. intros Hq%(ri_held _ _ Hi). set_solver.
  - apply Hi.
Qed.

Lemma die_ok c w : rinv even w -> is_Some (r_objs w !! c) -> exists w', die c w = Ok w' /\ rinv even w'.
Proof.
  intros Hi [o Ho]. unfold die, obj. rewrite Ho. eexists. split; [done|].
  assert (rinv (ahead c 0 even) (set_objs (<[c := closeconn o]> (r_objs w)) w)) as H.
  { apply (rinv_obj even w c o); [done|done| |]; unfold closeconn; destruct (dead_ o); simpl; try lia; exact (ri_wpdu _ _ Hi c o Ho). }
  apply (rinv_move _ even _ _ H); try done; [|apply H|apply H]. intros x. unfold ahead, even. case_decide; lia.
Qed.

Lemma rpcs_got_pdu_ok j c reach succ w : rinv even w -> r_jobs w !! j = None -> c ∈ r_lst w ->
  exists w', rpcs_got_pdu j c reach succ reach w = Ok w' /\ rinv even w'.
Proof.
  intros Hi Hj Hc. destruct (incref_ok even c w Hi Hc) as (w1 & E1 & H1 & Hs1). unfold rpcs_got_pdu.
  destruct reach; [|by exists w]. cbn [negb]. rewrite E1. simpl.
  pose proof Hs1 as (El & Ec & Ej & Ek). destruct succ.
  - eexists. split; [done|]. apply (rinv_move _ even _ _ H1); try done.
    + intros x. rewrite held_add_job by (by rewrite Ej). unfold ahead, even. case_decide; lia.
    + intros x. rewrite held_add_job by (by rewrite Ej). case_decide; [subst; by rewrite El|]. rewrite Nat.add_0_r. apply H1.
    + simpl. rewrite Ec, Ej. intros j' c' k'. rewrite lookup_insert. case_decide; [done|]. apply Hi.
  - destruct (decref_ok _ c w1 H1) as (w2 & E2 & H2 & Hs2); [by rewrite El | |].
    { rewrite (same_holders_held _ _ _ Hs1). pose proof (held_lst c w Hc). unfold ahead, even. rewrite decide_True by done. lia. }
    exists w2. split; [done|]. apply (rinv_move _ even _ _ H2); try done; [|apply H2|apply H2].
    intros x. unfold ahead, even. case_decide; lia.
Qed.

(** The reference of a request is dropped and the request ends. *)
Lemma finish_ok d j c k w : rinv d w -> r_jobs w !! j = Some (c, k) -> (forall x, d x = if decide (x = c) then -1 else 0) ->
  rinv even (end_job j w).
Proof.
  intros Hi Hj Hd. apply (rinv_move d even w _ Hi); try done.
  - intros x. rewrite (held_end_job j c k w x Hj), Hd. unfold even. case_decide; lia.
  - intros x Hx. apply (ri_held _ _ Hi). rewrite (held_end_job j c k w x Hj). lia.
  - intros j' c' k'. simpl. rewrite lookup_delete. case_decide; [done|]. apply Hi.
Qed.

Lemma dispatch_bad_ok j c w : rinv even w -> r_jobs w !! j = Some (c, None) -> exists w', dispatch_bad j c w = Ok w' /\ rinv even w'.
Proof.
  intros Hi Hj. pose proof (job_lst _ _ _ _ _ Hi Hj) as Hc.
  destruct (decref_ok even c w Hi Hc) as (w1 & E1 & H1 & Hs1); [pose proof (held_job j c _ w Hc Hj); unfold even; lia|].
  unfold dispatch_bad. rewrite E1. eexists. split; [done|]. destruct Hs1 as (_ & _ & Ej & _).
  apply (finish_ok _ j c None _ H1); [by rewrite Ej|]. intros x. unfold ahead, even. lia.
Qed.

Lemma dispatch_old_ok j c w : rinv even w -> r_jobs w !! j = Some (c, None) -> exists w', dispatch_old j c w = Ok w' /\ rinv even w'.
Proof.
  intros Hi Hj. pose proof (job_lst _ _ _ _ _ Hi Hj) as Hc. pose proof (proj2 (ri_dom _ _ Hi c) Hc) as [o Ho].
  unfold dispatch_old, obj. rewrite Ho. eexists. split; [done|].
  assert (forall x, held x (add_leak c (end_job j w)) = held x w) as Hh.
  { intros x. rewrite (held_end_job j c None w x Hj). unfold held. simpl. rewrite filter_cons.
    repeat case_decide; simplify_eq; simpl; try done; lia. }
  apply (rinv_move even even w _ Hi); try done.
  - intros x. by rewrite Hh.
  - intros x. rewrite Hh. apply Hi.
  - intros j' c' k'. simpl. rewrite lookup_delete. case_decide; [done|]. apply Hi.
Qed.

(** [conns_[clt]] becomes [c]. *)
Lemma held_set_cns clt c w x : held x (set_cns (<[clt := c]> (r_cns w)) w) =
  (held x w + (if decide (x = c) then 1 else 0) - if decide (r_cns w !! clt = Some x) then 1 else 0)%nat.
Proof.
  unfold held. simpl. destruct (r_cns w !! clt) as [c0|] eqn:E.
  - pose proof (count_map_update (fun y => y = x) _ _ c _ E) as H.
    pose proof (fun Hx => count_map_pos (fun y => y = x) (r_cns w) clt c0 E Hx). repeat case_decide; simplify_eq; lia.
  - rewrite count_map_insert by done. repeat case_decide; simplify_eq; lia.
Qed.

Lemma save_cns_ok d j c clt w : rinv d w -> r_jobs w !! j = Some (c, None) -> c ∈ r_lst w ->
  (forall x, d x = (if decide (x = c) then 1 else 0) - if decide (r_cns w !! clt = Some x) then 1 else 0) ->
  rinv even (set_jobs (<[j := (c, Some clt)]> (r_jobs w)) (set_cns (<[clt := c]> (r_cns w)) w)).
Proof.
  intros Hi Hj Hc Hd. set (w1 := set_cns (<[clt := c]> (r_cns w)) w).
  assert (forall x, held x (set_jobs (<[j := (c, Some clt)]> (r_jobs w1)) w1) = held x w1) as Hh by (intros x; by apply (held_save_job j c None)).
  assert (forall x, r_cns w !! clt = Some x -> (1 <= held x w)%nat) as Hp.
  { intros x Hx. pose proof (held_cns clt x w (cns_lst _ _ _ _ Hi Hx) Hx). lia. }
  apply (rinv_move d even w _ Hi); try done.
  - intros x. change (Z.of_nat (held x (set_jobs (<[j := (c, Some clt)]> (r_jobs w1)) w1)) + even x = Z.of_nat (held x w) + d x).
    rewrite Hh. unfold w1. rewrite held_set_cns, Hd. unfold even. pose proof (Hp x) as Hpx. repeat case_decide; try specialize (Hpx ltac:(assumption)); lia.
  - intros x. change ((0 < held x (set_jobs (<[j := (c, Some clt)]> (r_jobs w1)) w1))%nat -> x ∈ r_lst w).
    rewrite Hh. unfold w1. rewrite held_set_cns. case_decide as Hx; [by subst|]. intros H0. apply (ri_held _ _ Hi). lia.
  - intros j' c' k'. simpl. rewrite !lookup_insert. case_decide as Hjj; [intros [= <- <-]; rewrite decide_True; eauto|].
    intros Hq%(ri_job _ _ Hi). by case_decide.
Qed.

Lemma dispatch_save_ok j c clt newer w : rinv even w -> r_jobs w !! j = Some (c, None) -> (newer = true -> r_cns w !! clt <> Some c) ->
  exists w', dispatch_save j c clt newer w = Ok w' /\ rinv even w'.
Proof.
  intros Hi Hj Hn. pose proof (job_lst _ _ _ _ _ Hi Hj) as Hc. unfold dispatch_save. destruct (r_cns w !! clt) as [c0|] eqn:E.
  - pose proof (cns_lst _ _ _ _ Hi E) as Hc0. pose proof (proj2 (ri_dom _ _ Hi c0) Hc0) as [o Ho]. unfold obj at 1. rewrite Ho. simpl.
    destruct newer.
    + destruct (decref_ok even c0 w Hi Hc0) as (w1 & E1 & H1 & Hs1); [pose proof (held_cns clt c0 w Hc0 E); unfold even; lia|].
      rewrite E1. simpl. destruct Hs1 as (El & Ec & Ej & _).
      destruct (incref_ok _ c w1 H1) as (w2 & E2 & H2 & Hs2); [by rewrite El|]. rewrite E2. simpl. eexists. split; [done|].
      destruct Hs2 as (El2 & Ec2 & Ej2 & _).
      apply (save_cns_ok _ j c clt w2 H2); [by rewrite Ej2, Ej | by rewrite El2, El|].
      intros x. rewrite Ec2, Ec, E. unfold ahead, even. pose proof (Hn eq_refl). repeat case_decide; simplify_eq; lia.
    + eexists. split; [done|]. apply (rinv_move even even w _ Hi); try done.
      * intros x. by rewrite (held_save_job j c None).
      * intros x. rewrite (held_save_job j c None) by done. apply Hi.
      * intros j' c' k'. simpl. rewrite lookup_insert. case_decide as Hjj; [intros [= <- <-]; eauto|]. apply Hi.
  - destruct (incref_ok even c w Hi Hc) as (w2 & E2 & H2 & Hs2). rewrite E2. simpl. eexists. split; [done|].
    destruct Hs2 as (El2 & Ec2 & Ej2 & _). apply (save_cns_ok _ j c clt w2 H2); [by rewrite Ej2 | by rewrite El2|].
    intros x. rewrite Ec2, E. unfold ahead, even. repeat case_decide; simplify_eq; lia.
Qed.

(** [dispatch_pick] leaves a connection that is [one] reference ahead of the request's. *)
Lemma dispatch_pick_ok j c clt w o : rinv even w -> r_jobs w !! j = Some (c, clt) -> r_objs w !! c = Some o -> (clt = None -> dead_ o = false) ->
  exists c' w' d, dispatch_pick c clt w = Ok (c', w') /\ rinv d w' /\ same_holders w w' /\ c' ∈ r_lst w /\
    forall x, d x = (if decide (x = c') then 1 else 0) - if decide (x = c) then 1 else 0.
Proof.
  intros Hi Hj Ho Hd. pose proof (job_lst _ _ _ _ _ Hi Hj) as Hc. unfold dispatch_pick, obj. rewrite Ho. simpl.
  assert (forall x : Z, even x = (if decide (x = c) then 1 else 0) - if decide (x = c) then 1 else 0) as He by (intros x; unfold even; lia).
  destruct (dead_ o); [|by exists c, w, even].
  destruct clt as [k|]; [|by specialize (Hd eq_refl)]. simpl. destruct (ri_job _ _ Hi j c k Hj) as [c0 Hk]. rewrite Hk.
  destruct (Z.eqb_spec c c0) as [<-|Hne]; [by exists c, w, even|]. pose proof (cns_lst _ _ _ _ Hi Hk) as Hc0.
  destruct (decref_ok even c w Hi Hc) as (w1 & E1 & H1 & Hs1); [pose proof (held_job j c _ w Hc Hj); unfold even; lia|].
  rewrite E1. simpl. destruct Hs1 as (El & Ec & Ej & Ek).
  destruct (incref_ok _ c0 w1 H1) as (w2 & E2 & H2 & Hs2); [by rewrite El|]. rewrite E2. simpl. destruct Hs2 as (El2 & Ec2 & Ej2 & Ek2).
  eexists c0, w2, _. split; [done|]. split; [exact H2|]. split; [split_and!; congruence|]. split; [done|].
  intros x. unfold ahead, even. repeat case_decide; simplify_eq; lia.
Qed.

(** A request of a client without a number whose connection has died. *)
Definition numberless_on_dead (w : rsys) : Prop :=
  exists j c o, r_jobs w !! j = Some (c, None) /\ r_objs w !! c = Some o /\ dead_ o = true.

Lemma dispatch_end_ok j c clt fresh w o : rinv even w -> r_jobs w !! j = Some (c, clt) -> r_objs w !! c = Some o -> (clt = None -> dead_ o = false) ->
  exists w', dispatch_end j c clt fresh w = Ok w' /\ rinv even w'.
Proof.
  intros Hi Hj Ho Hd.
  assert (exists c' w1 d, (if fresh then dispatch_pick c clt w else Ok (c, w)) = Ok (c', w1) /\ rinv d w1 /\ same_holders w w1 /\ c' ∈ r_lst w /\
    forall x, d x = (if decide (x = c') then 1 else 0) - if decide (x = c) then 1 else 0) as (c' & w1 & d & E1 & H1 & Hs1 & Hc' & Hd1).
  { destruct fresh; [by eapply dispatch_pick_ok|]. exists c, w, even. split; [done|]. split; [done|]. split; [done|].
    split; [by eapply job_lst|]. intros x. unfold even. lia. }
  unfold dispatch_end. rewrite E1. simpl. pose proof Hs1 as (El & Ec & Ej & Ek).
  pose proof (proj2 (ri_dom _ _ H1 c')) as Hdom. rewrite El in Hdom. destruct (Hdom Hc') as [o' Ho']. unfold obj. rewrite Ho'. simpl.
  assert (c ∈ r_lst w) as Hc by by eapply job_lst.
  destruct (decref_ok d c' w1 H1) as (w2 & E2 & H2 & Hs2); [by rewrite El | |].
  { rewrite (same_holders_held _ _ _ Hs1), Hd1. rewrite decide_True by done. pose proof (held_lst c' w Hc').
    case_decide; [subst; pose proof (held_job j c clt w Hc Hj); lia | lia]. }
  rewrite E2. eexists. split; [done|]. destruct Hs2 as (_ & _ & Ej2 & _).
  apply (finish_ok _ j c clt _ H2); [by rewrite Ej2, Ej|]. intros x. unfold ahead. rewrite Hd1. repeat case_decide; simplify_eq; lia.
Qed.

Lemma rstep_ok w r : rinv even w -> rstep w r ->
  (r = Crash NullDeref /\ numberless_on_dead w) \/ exists w', r = Ok w' /\ rinv even w'.
Proof.
  intros Hi Hs. destruct Hs as [c H|c H|c H|j c o reach succ H1 H2 H3|j c H|j c H|j c clt newer H1 H2|j c clt fresh H1];
    [right..|].
  - eexists. split; [done|]. by apply accept_ok.
  - by apply collect_ok.
  - by apply die_ok.
  - apply rpcs_got_pdu_ok; [done|done|]. apply (ri_dom _ _ Hi). eauto.
  - by apply dispatch_bad_ok.
  - by apply dispatch_old_ok.
  - by apply dispatch_save_ok.
  - pose proof (proj2 (ri_dom _ _ Hi c) (job_lst _ _ _ _ _ Hi H1)) as [o Ho].
    destruct (decide (clt = None /\ dead_ o = true)) as [[-> Hd]|Hn].
    + destruct fresh; [left|right].
      * unfold dispatch_end, dispatch_pick, obj. rewrite Ho. cbn. rewrite Hd. split; [done|]. by exists j, c, o.
      * unfold dispatch_end, obj. cbn. rewrite Ho. cbn. by apply dispatch_bad_ok.
    + right. eapply dispatch_end_ok; [done|done|done|]. intros ->. apply not_true_is_false. tauto.
Qed.

Lemma rreach_inv w : rreach w -> rinv even w.
Proof.
  induction 1 as [|w w' _ IH Hs].
  - split; simpl; try done.
    + intros c. rewrite lookup_empty. split; [by intros [? ?] | by intros ?%elem_of_empty].
    + intros c. unfold held. simpl. rewrite decide_False by set_solver. simpl. rewrite !count_map_0; [simpl; lia|by intros|by intros].
  - by destruct (rstep_ok w _ IH Hs) as [[? _]|(w1 & [= <-] & Hw1)].
Qed.

(** C20. The server counts the references to its connections exactly: in every
    interleaving of connections being accepted, breaking and being collected with
    requests being queued, refused and served, [reachable_] staying as it is, no
    operation touches a connection that has been deleted, the count of a connection is
    the number of its references (from the listener, from the table of the clients'
    latest connections, from the requests that are queued or being served, and one for
    each request to an old instance of the server, which [dispatch] forgets to give
    back), and no connection that is referred to is deleted; but for one case, in which
    the server dereferences null: the reply to a client without a number whose
    connection has died. *)
Theorem connection_refs_exact (w : rsys) (r : res rsys) :
  rreach w -> rstep w r ->
  (r = Crash NullDeref /\ numberless_on_dead w) \/
  exists w', r = Ok w' /\ rreach w' /\
    (forall c o, r_objs w' !! c = Some o -> refno_ o = Z.of_nat (held c w')) /\
    (forall c, (0 < held c w')%nat -> is_Some (r_objs w' !! c)).
Proof.
  intros Hr Hs. destruct (rstep_ok w r (rreach_inv w Hr) Hs) as [?|(w' & -> & Hi)]; [by left|right].
  exists w'. split; [done|]. split; [by eapply rreach_step|]. split.
  - intros c o Ho. rewrite (ri_refs _ _ Hi c o Ho). unfold even. lia.
  - intros c Hc. by apply (ri_dom _ _ Hi), (ri_held _ _ Hi).
Qed.

(** The run of one request: accepted, queued, saved, answered; then the
    connection breaks and is collected. *)
Definition one_request : res rsys :=
  let w := accept 7 new_rsys in
  w ← rpcs_got_pdu 1 7 true true true w; w ← dispatch_save 1 7 3 false w; dispatch_end 1 7 (Some 3) true w.

Lemma one_request_counts : exists w o, one_request = Ok w /\ r_objs w !! 7 = Some o /\ refno_ o = 2.
Proof. eexists _, _. split; [reflexivity|]. split; reflexivity. Qed.

Lemma connection_refs_exact_witness : exists w', rpcs_got_pdu 1 7 true true true (accept 7 new_rsys) = Ok w' /\ rreach w' /\ is_Some (r_objs w' !! 7).
Proof.
  destruct (connection_refs_exact (accept 7 new_rsys) (rpcs_got_pdu 1 7 true true true (accept 7 new_rsys))) as [[H0 _]|(w' & H1 & H2 & _ & H4)].
  - eapply rreach_step; [apply rreach_init|]. apply (rs_accept new_rsys 7). reflexivity.
  - apply (rs_got_pdu _ 1 7 new_connection true true); reflexivity.
  - exfalso. revert H0. vm_compute. discriminate.
  - exists w'. split; [exact H1|]. split; [exact H2|]. apply H4. revert H1. intros [= <-]. apply Nat.ltb_lt. vm_compute. reflexivity.
Defined.

(** The case happens: a request of a client without a number, whose connection breaks
    before the reply is sent. *)
Definition result (r : res rsys) : rsys := match r with Ok w => w | Crash _ => new_rsys end.
Definition numberless_queued : rsys := result (rpcs_got_pdu 1 7 true true true (accept 7 new_rsys)).
Definition numberless_broken : rsys := result (die 7 numberless_queued).

Lemma numberless_reply_crashes : rreach numberless_broken /\ rstep numberless_broken (Crash NullDeref).
Proof.
  split; [|exact (rs_end numberless_broken 1 7 None true eq_refl)].
  eapply (rreach_step numberless_queued); [|exact (rs_die numberless_queued 7 (mk_is_Some _ _ eq_refl))].
  eapply (rreach_step (accept 7 new_rsys)); [|exact (rs_got_pdu (accept 7 new_rsys) 1 7 new_connection true true eq_refl eq_refl eq_refl)].
  eapply rreach_step; [apply rreach_init|exact (rs_accept new_rsys 7 eq_refl)].
Qed.

(** Were the server made unreachable while [got_pdu] runs, the job would be in the pool
    without a reference to its connection. *)
Lemma unreachable_drops_reference : exists w o, rpcs_got_pdu 1 7 true true false (accept 7 new_rsys) = Ok w /\
  r_jobs w !! 1 = Some (7, None) /\ r_objs w !! 7 = Some o /\ refno_ o = 1 /\ held 7 w = 2%nat.
Proof. eexists _, _. split_and!; reflexivity. Qed.

(** A connection on which a request to an old instance of the server was answered
    is never collected, however dead it is. *)
Lemma old_server_request_leaks (w : rsys) (c : Z) : rreach w -> c ∈ r_leak w -> collect_one c w = Ok w.
Proof.
  intros Hr%rreach_inv Hc. assert (1 <= length (filter (fun x => x = c) (r_leak w)))%nat as Hl.
  { destruct (filter (fun x => x = c) (r_leak w)) eqn:E; simpl; [|lia].
    assert (c ∈ filter (fun x => x = c) (r_leak w)) as H by by apply list_elem_of_filter. rewrite E in H. by apply elem_of_nil in H. }
  assert (c ∈ r_lst w) as Hcl by (apply (ri_held _ _ Hr); unfold held; lia).
  pose proof (proj2 (ri_dom _ _ Hr c) Hcl) as [o Ho]. pose proof (ri_refs _ _ Hr c o Ho) as Hn.
  unfold collect_one, obj. rewrite Ho. simpl. rewrite (proj2 (Z.eqb_neq _ 1)), andb_false_r; [done|].
  rewrite Hn. unfold held, even. rewrite decide_True by done. lia.
Qed.
