(* ===== verification/Disk.v ===== *)
(** * The disk and the block manager

    Classes [disk] and [block_manager] of src/lab41/inode_manager.{h,cc}: an
    array of 512-byte blocks, the table of blocks in use, allocation and
    release, and the lemmas on words stored in a block that the inode layer
    builds on. *)

From S2P Require Import Prelude.

(** ** Layout constants (inode_manager.h) *)

Definition DISK_SIZE : Z := 1024 * 1024 * 16.
Definition BLOCK_SIZE : Z := 512.
Definition BLOCK_NUM : Z := DISK_SIZE / BLOCK_SIZE.
Definition INODE_NUM : Z := 1024.
Definition IPB : Z := 1.
Definition BPB : Z := BLOCK_SIZE * 8.
Definition IBLOCK (i nblocks : Z) : Z := nblocks / BPB + i / IPB + 3.
Definition NDIRECT : Z := 100.
Definition NINDIRECT : Z := BLOCK_SIZE / 4.
Definition MAXFILE : Z := NDIRECT + NINDIRECT.

(** [superblock_t] *)
Record superblock := Superblock { sb_size : Z; sb_nblocks : Z; sb_ninodes : Z }.

Definition FILEBLOCK (sb : superblock) : Z := IBLOCK (sb_ninodes sb) (sb_nblocks sb).

(** What the code reads from its surroundings: the clock at the n-th call of
    [time] and the bytes found in a local [char buf[BLOCK_SIZE]] that is used
    before it is written. *)
Class Env := {
  clock : nat -> Z;
  stack : nat -> bytes;
  length_stack : forall n, length (stack n) = 512%nat }.

(** ** disk *)

Definition zero_block : bytes := replicate 512 x00.

(** [blocks]: a block that was never written is zero ([disk::disk]). *)
Abbreviation disk := (gmap Z bytes).
Definition new_disk : disk := ∅.
Definition blk (d : disk) (id : Z) : bytes := default zero_block (d !! id).

Definition on_disk (id : Z) : bool := (0 <=? id) && (id <? BLOCK_NUM).

(** [disk::read_block]: the buffer after the call. *)
Definition disk_read_block (d : disk) (id : Z) (buf : bytes) : bytes :=
  if on_disk id then blk d id else buf.

Definition disk_write_block (d : disk) (id : Z) (buf : bytes) : disk :=
  if on_disk id then <[id := buf]> d else d.

(** ** block_manager *)

(** [ticks] counts the uses of the surroundings. *)
Record bmgr := Bmgr {
  bm_d : disk; using_blocks : gmap Z Z; bm_sb : superblock; ticks : nat }.

Definition in_use (u : gmap Z Z) (id : Z) : Z := default 0 (u !! id).

(** The scan of [alloc_block]: the first of [n] blocks from [i] not in use. *)
Fixpoint find_free (u : gmap Z Z) (n : nat) (i : Z) : option Z :=
  match n with
  | O => None
  | S n' => if in_use u i =? 0 then Some i else find_free u n' (i + 1)
  end.

(** The block allocated, 0 when there is none. *)
Definition alloc_block : M bmgr Z := fun s =>
  let lo := FILEBLOCK (bm_sb s) in
  match find_free (using_blocks s) (Z.to_nat (BLOCK_NUM - lo)) lo with
  | Some i => Ok (i, Bmgr (bm_d s) (<[i := 1]> (using_blocks s)) (bm_sb s) (ticks s))
  | None => Ok (0, s)
  end.

Definition free_block (id : Z) : M bmgr unit := fun s =>
  Ok (tt, Bmgr (bm_d s) (<[id := 0]> (using_blocks s)) (bm_sb s) (ticks s)).

Definition read_block (id : Z) (buf : bytes) : M bmgr bytes := fun s =>
  Ok (disk_read_block (bm_d s) id buf, s).

Definition write_block (id : Z) (buf : bytes) : M bmgr unit := fun s =>
  Ok (tt, Bmgr (disk_write_block (bm_d s) id buf) (using_blocks s) (bm_sb s) (ticks s)).

(** The superblock on disk: its three words, then the 500 bytes that follow
    [sb] in memory, [junk]. *)
Definition sb_bytes (sb : superblock) (junk : bytes) : bytes :=
  le_enc 4 (sb_size sb) ++ le_enc 4 (sb_nblocks sb) ++ le_enc 4 (sb_ninodes sb) ++
  take 500 junk.

Definition default_sb : superblock := Superblock (BLOCK_SIZE * BLOCK_NUM) BLOCK_NUM INODE_NUM.

(** [for (i = 0; i < FILEBLOCK; i++) using_blocks[i] = 1] *)
Fixpoint mark_used (n : nat) (i : Z) (u : gmap Z Z) : gmap Z Z :=
  match n with O => u | S n' => mark_used n' (i + 1) (<[i := 1]> u) end.

Definition new_bmgr (junk : bytes) : bmgr :=
  Bmgr (disk_write_block new_disk 1 (sb_bytes default_sb junk))
       (mark_used (Z.to_nat (FILEBLOCK default_sb)) 0 ∅) default_sb 0.

(** An uninitialised local block, the current time. *)
Definition local_block `{Env} : M bmgr bytes := fun s =>
  Ok (stack (ticks s), Bmgr (bm_d s) (using_blocks s) (bm_sb s) (S (ticks s))).
Definition time_now `{Env} : M bmgr Z := fun s =>
  Ok (u32 (clock (ticks s)), Bmgr (bm_d s) (using_blocks s) (bm_sb s) (S (ticks s))).

(** ** Words in a block *)

(** [((uint32_t * )buf)[n]] and its assignment. *)
Definition word_at (b : bytes) (n : nat) : Z := le_dec (take 4 (drop (4 * n) b)).
Definition set_word (b : bytes) (n : nat) (v : Z) : bytes :=
  take (4 * n) b ++ le_enc 4 v ++ drop (4 * n + 4) b.

Lemma length_set_word b n v : (4 * n + 4 <= length b)%nat -> length (set_word b n v) = length b.
Proof. intros. unfold set_word. len. Qed.

Lemma word_at_range b n : 0 <= word_at b n < 2 ^ 32.
Proof.
  unfold word_at. pose proof (le_dec_range (take 4 (drop (4 * n) b))) as Hr.
  split; [lia|]. eapply Z.lt_le_trans; [apply Hr|].
  replace (2 ^ 32) with (256 ^ 4) by lia. apply Z.pow_le_mono_r; [lia|].
  rewrite length_take. lia.
Qed.

(** A word inside the first or the second part of a concatenation. *)
Lemma word_at_app_l a b n : (4 * n + 4 <= length a)%nat -> word_at (a ++ b) n = word_at a n.
Proof.
  intros. unfold word_at. rewrite drop_app_le by lia. rewrite take_app_le; [done|len].
Qed.

Lemma word_at_app_r a b n m : (length a = 4 * m)%nat -> (m <= n)%nat ->
  word_at (a ++ b) n = word_at b (n - m).
Proof.
  intros Ha Hn. unfold word_at. rewrite drop_app_ge by lia. do 3 f_equal. lia.
Qed.

Lemma word_at_enc v b : word_at (le_enc 4 v ++ b) 0 = u32 v.
Proof.
  unfold word_at. rewrite drop_0, take_app_exact by done.
  by rewrite le_dec_enc.
Qed.

Lemma word_at_take b n m : (4 * m + 4 <= n)%nat -> word_at (take n b) m = word_at b m.
Proof. intros. unfold word_at. rewrite skipn_firstn_comm, take_take. do 2 f_equal. lia. Qed.

Lemma word_at_drop b n m : word_at (drop (4 * n) b) m = word_at b (n + m).
Proof. unfold word_at. rewrite drop_drop. do 3 f_equal. lia. Qed.

Lemma word_at_set_eq b n v : (4 * n + 4 <= length b)%nat -> word_at (set_word b n v) n = u32 v.
Proof.
  intros. unfold set_word. rewrite (word_at_app_r _ _ _ n) by len.
  rewrite Nat.sub_diag. apply word_at_enc.
Qed.

Lemma word_at_set_ne b n m v : (4 * n + 4 <= length b)%nat -> n <> m ->
  word_at (set_word b n v) m = word_at b m.
Proof.
  intros Hb Hne. unfold set_word. destruct (decide (m < n)%nat).
  - rewrite word_at_app_l by len. apply word_at_take. lia.
  - rewrite (word_at_app_r _ _ _ n) by len.
    rewrite (word_at_app_r _ _ _ 1) by (try done; lia).
    replace (4 * n + 4)%nat with (4 * (n + 1))%nat by lia. rewrite word_at_drop. f_equal. lia.
Qed.

(** The words of an encoded list. *)
Lemma words_cons v ws : concat (le_enc 4 <$> v :: ws) = le_enc 4 v ++ concat (le_enc 4 <$> ws).
Proof. reflexivity. Qed.

Lemma word_at_words ws b n w : ws !! n = Some w ->
  word_at (concat (le_enc 4 <$> ws) ++ b) n = u32 w.
Proof.
  revert n. induction ws as [|v ws IH]; intros n Hn; [done|].
  rewrite words_cons, <- app_assoc. destruct n as [|n]; simpl in Hn.
  - simplify_eq. apply word_at_enc.
  - rewrite (word_at_app_r _ _ _ 1) by (try done; lia). simpl (_ - 1)%nat.
    rewrite Nat.sub_0_r. by apply IH.
Qed.

Lemma length_words ws : length (concat (le_enc 4 <$> ws)) = (4 * length ws)%nat.
Proof. 
  induction ws as [|v ws IH]; [done|]. rewrite words_cons, length_app, length_le_enc, IH.
  cbn [length]. lia.
Qed.

(** ** Blocks *)

Definition disk_ok (d : disk) : Prop := forall id, length (blk d id) = 512%nat.

Lemma blk_write d id b id' : on_disk id = true ->
  blk (disk_write_block d id b) id' = if decide (id = id') then b else blk d id'.
Proof.
  intros Ho. unfold disk_write_block, blk. rewrite Ho.
  destruct (decide (id = id')) as [->|Hne]; [by rewrite lookup_insert_eq | by rewrite lookup_insert_ne].
Qed.

Lemma disk_ok_write d id b : disk_ok d -> length b = 512%nat -> disk_ok (disk_write_block d id b).
Proof.
  intros Hd Hb id'. destruct (on_disk id) eqn:Ho; [|unfold disk_write_block; by rewrite Ho].
  rewrite blk_write by done. by destruct (decide _).
Qed.

(** Read back what was written; other blocks keep their contents. *)
Lemma disk_read_write d id b id' buf : on_disk id = true -> on_disk id' = true ->
  disk_read_block (disk_write_block d id b) id' buf = if decide (id = id') then b else blk d id'.
Proof. intros Ho Ho'. unfold disk_read_block. rewrite Ho'. by apply blk_write. Qed.

(** ** Allocation *)

Definition free_list (u : gmap Z Z) (n : nat) (i : Z) : list Z :=
  filter (fun b => in_use u b = 0) (seqZ i (Z.of_nat n)).

Lemma seqZ_S i n : seqZ i (Z.of_nat (S n)) = i :: seqZ (i + 1) (Z.of_nat n).
Proof. rewrite seqZ_cons by lia. f_equal. f_equal; lia. Qed.

Lemma find_free_Some u n i b : find_free u n i = Some b ->
  i <= b < i + Z.of_nat n /\ in_use u b = 0 /\ exists l, free_list u n i = b :: l.
Proof.
  revert i. induction n as [|n IH]; intros i Hf; [done|]. unfold free_list. rewrite seqZ_S.
  simpl in Hf. rewrite filter_cons. destruct (Z.eqb_spec (in_use u i) 0).
  - simplify_eq. destruct (decide _); [|done]. split; [lia|]. split; [done|]. eauto.
  - apply IH in Hf as (? & ? & ?). destruct (decide _); [done|]. split; [lia|]. auto.
Qed.

Lemma find_free_None u n i : find_free u n i = None <-> free_list u n i = [].
Proof.
  revert i. induction n as [|n IH]; intros i; [done|]. unfold free_list. rewrite seqZ_S.
  simpl. rewrite filter_cons. destruct (Z.eqb_spec (in_use u i) 0); destruct (decide _); try done.
Qed.

Lemma in_use_insert u i v b : in_use (<[i := v]> u) b = if decide (i = b) then v else in_use u b.
Proof.
  unfold in_use. destruct (decide (i = b)) as [->|]; [by rewrite lookup_insert_eq | by rewrite lookup_insert_ne].
Qed.

Lemma free_list_alloc u n i b l : free_list u n i = b :: l ->
  free_list (<[b := 1]> u) n i = l.
Proof.
  unfold free_list. pose proof (NoDup_seqZ i (Z.of_nat n)) as Hn. revert Hn.
  generalize (seqZ i (Z.of_nat n)). intros L. induction L as [|x L IH]; intros Hn Hf; [done|].
  apply NoDup_cons in Hn as [Hx Hn]. rewrite filter_cons in *. rewrite in_use_insert.
  destruct (decide (in_use u x = 0)) as [Hz|Hz].
  - simplify_eq. rewrite (decide_True (P := b = b)) by done.
    rewrite (decide_False (P := 1 = 0)) by done.
    apply filter_ext_elem. intros y Hy. rewrite in_use_insert.
    rewrite decide_False; [done|]. by intros ->.
  - destruct (decide (b = x)) as [->|].
    + exfalso. assert (x ∈ filter (fun b => in_use u b = 0) L) as Hin by (rewrite Hf; left).
      by apply list_elem_of_filter in Hin as [? _].
    + rewrite decide_False by done. by apply IH.
Qed.

(** The blocks that can still be allocated. *)
Definition free_blocks (s : bmgr) : list Z :=
  free_list (using_blocks s) (Z.to_nat (BLOCK_NUM - FILEBLOCK (bm_sb s))) (FILEBLOCK (bm_sb s)).

(** [alloc_block] returns a block that was free and takes it off the list; it
    returns 0 only when none is left. *)
Lemma alloc_block_ok s b l : free_blocks s = b :: l ->
  alloc_block s = Ok (b, Bmgr (bm_d s) (<[b := 1]> (using_blocks s)) (bm_sb s) (ticks s)) /\
  free_blocks (Bmgr (bm_d s) (<[b := 1]> (using_blocks s)) (bm_sb s) (ticks s)) = l /\
  FILEBLOCK (bm_sb s) <= b < BLOCK_NUM /\ in_use (using_blocks s) b = 0.
Proof.
  unfold free_blocks, alloc_block. intros Hf. simpl.
  destruct (find_free _ _ _) as [i|] eqn:E.
  - apply find_free_Some in E as (Hr & Hu & l' & Hl). rewrite Hf in Hl. simplify_eq.
    split_and!; [done | by apply free_list_alloc | lia | lia | done].
  - apply find_free_None in E. by rewrite E in Hf.
Qed.

Lemma alloc_block_full s : free_blocks s = [] -> alloc_block s = Ok (0, s).
Proof.
  unfold free_blocks, alloc_block. intros Hf%find_free_None. by rewrite Hf.
Qed.
