(* ===== verification/Inode.v ===== *)
(** * The inode layer: class inode_manager

    The inode table on disk, byte for byte, and every operation of
    [inode_manager] in src/lab41/inode_manager.cc. *)

From S2P Require Import Prelude Disk.

(** ** Types of files (extent_protocol.h) *)

Module extent_types.
Definition T_DIR : Z := 1.
Definition T_FILE : Z := 2.
Definition T_SYMLINK : Z := 3.
End extent_types.

(** [extent_protocol::attr] *)
Record attr := Attr { a_type : Z; a_atime : Z; a_mtime : Z; a_ctime : Z; a_size : Z }.

#[export] Instance attr_eq_dec : EqDecision attr.
Proof. solve_decision. Defined.

(** [inode_t] *)
Record inode := Inode {
  i_type : Z; i_size : Z; i_atime : Z; i_mtime : Z; i_ctime : Z; i_blocks : list Z }.

#[export] Instance inode_eq_dec : EqDecision inode.
Proof. solve_decision. Defined.

(** The image of an inode in its block: [type] in the first two bytes, two
    bytes of padding, then 32-bit words ([size], the three times, [blocks]). *)
Definition decode_inode (b : bytes) : inode :=
  Inode (s16 (le_dec (take 2 b))) (word_at b 1) (word_at b 2) (word_at b 3) (word_at b 4)
        ((fun i => word_at b (5 + i)) <$> seq 0 101).

Definition inode_words (ino : inode) : list Z :=
  [i_size ino; i_atime ino; i_mtime ino; i_ctime ino] ++ i_blocks ino.

Definition encode_inode (ino : inode) (b : bytes) : bytes :=
  le_enc 2 (i_type ino) ++ take 2 (drop 2 b) ++
  concat (le_enc 4 <$> inode_words ino) ++ drop 424 b.

Definition set_size (n : Z) (ino : inode) : inode :=
  Inode (i_type ino) n (i_atime ino) (i_mtime ino) (i_ctime ino) (i_blocks ino).
Definition set_times (a m c : Z) (ino : inode) : inode :=
  Inode (i_type ino) (i_size ino) a m c (i_blocks ino).
Definition set_blocks (n : nat) (v : Z) (ino : inode) : inode :=
  Inode (i_type ino) (i_size ino) (i_atime ino) (i_mtime ino) (i_ctime ino)
        (<[n := v]> (i_blocks ino)).
(** [ino->blocks[n]] for n <= NDIRECT *)
Definition get_block (ino : inode) (n : Z) : Z := nth (Z.to_nat n) (i_blocks ino) 0.

(** The number of blocks of a file of [size] bytes. *)
Definition blocks_num (size : Z) : Z := if size =? 0 then 0 else (size - 1) / BLOCK_SIZE + 1.

Section inode_manager.
Context `{Env}.

Definition inode_block (s : bmgr) (inum : Z) : Z := IBLOCK inum (sb_nblocks (bm_sb s)).

Definition get_inode (inum : Z) : M bmgr (option inode) :=
  if (inum <? 0) || (INODE_NUM <=? inum) then mret None
  else buf ← local_block; s ← getS;
       b ← read_block (inode_block s inum) buf;
       mret (Some (decode_inode b)).

Definition put_inode (inum : Z) (ino : inode) : M bmgr unit :=
  buf ← local_block; s ← getS;
  b ← read_block (inode_block s inum) buf;
  write_block (inode_block s inum) (encode_inode ino b).

Definition get_nth_blockid (ino : inode) (n : Z) : M bmgr Z :=
  buf ← local_block;
  if n <? NDIRECT then mret (get_block ino n)
  else if n <? MAXFILE then
    verify (negb (get_block ino NDIRECT =? 0)) ≫= fun _ =>
    b ← read_block (get_block ino NDIRECT) buf;
    mret (word_at b (Z.to_nat (n - NDIRECT)))
  else crash ExitCall.

(** The copy loop of [read_file], [n] blocks from [i]; the local buffer and what
    has been copied so far are carried along. *)
Fixpoint read_blocks (ino : inode) (n : nat) (i : Z) (buf out : bytes) : M bmgr (bytes * bytes) :=
  match n with
  | O => mret (buf, out)
  | S n' =>
      id ← get_nth_blockid ino i;
      buf ← read_block id buf;
      read_blocks ino n' (i + 1) buf (out ++ take (Z.to_nat BLOCK_SIZE) buf)
  end.

(** [None]: the output arguments are left as they were. *)
Definition read_file (inum : Z) : M bmgr (option bytes) :=
  buf ← local_block;
  o ← get_inode inum;
  match o with
  | None => mret None
  | Some ino =>
      let size := s32 (i_size ino) in
      verify (u32 size <=? MAXFILE * BLOCK_SIZE) ≫= fun _ =>
      let block_num := Z.quot size BLOCK_SIZE in
      let remain_size := Z.rem size BLOCK_SIZE in
      '(buf, out) ← read_blocks ino (Z.to_nat block_num) 0 buf [];
      if remain_size =? 0 then mret (Some out)
      else id ← get_nth_blockid ino block_num;
           buf ← read_block id buf;
           mret (Some (out ++ take (Z.to_nat remain_size) buf))
  end.

Definition alloc_nth_block (ino : inode) (n : Z) : M bmgr inode :=
  buf ← local_block;
  if n <? NDIRECT then
    b ← alloc_block; mret (set_blocks (Z.to_nat n) b ino)
  else if n <? MAXFILE then
    ino ← (if get_block ino NDIRECT =? 0
           then b ← alloc_block; mret (set_blocks (Z.to_nat NDIRECT) b ino)
           else mret ino);
    buf ← read_block (get_block ino NDIRECT) buf;
    b ← alloc_block;
    write_block (get_block ino NDIRECT) (set_word buf (Z.to_nat (n - NDIRECT)) b) ≫= fun _ =>
    mret ino
  else crash ExitCall.

(** [for (j = ...; ...; j++) alloc_nth_block(ino, j)], [n] times. *)
Fixpoint alloc_range (n : nat) (j : Z) (ino : inode) : M bmgr inode :=
  match n with
  | O => mret ino
  | S n' => ino ← alloc_nth_block ino j; alloc_range n' (j + 1) ino
  end.

(** [for (j = ...; ...; j++) bm->free_block(get_nth_blockid(ino, j))], [n] times. *)
Definition free_range (n : nat) (j : Z) (ino : inode) : M bmgr unit :=
  for_ n j (fun j => id ← get_nth_blockid ino j; free_block id).

(** The part of the caller's buffer that goes into block [i]. *)
Definition chunk (buf : bytes) (i : Z) (n : Z) : bytes :=
  take (Z.to_nat n) (drop (Z.to_nat (i * BLOCK_SIZE)) buf).

Definition write_blocks (ino : inode) (buf : bytes) (n : nat) : M bmgr unit :=
  for_ n 0 (fun i => id ← get_nth_blockid ino i; write_block id (chunk buf i BLOCK_SIZE)).

(** [memcpy(temp, ...)] into an uninitialised [temp]. *)
Definition fill (part temp : bytes) : bytes := part ++ drop (length part) temp.

(** [size] is the number of bytes of [buf] ([int]). *)
Definition write_file (inum : Z) (buf : bytes) (size : Z) : M bmgr unit :=
  temp ← local_block;
  verify ((0 <=? size) && (u32 size <? MAXFILE * BLOCK_SIZE)) ≫= fun _ =>
  o ← get_inode inum;
  match o with
  | None => mret tt
  | Some ino =>
      let old_blocks_num := blocks_num (i_size ino) in
      let new_blocks_num := blocks_num size in
      ino ← (if old_blocks_num <? new_blocks_num
             then alloc_range (Z.to_nat (new_blocks_num - old_blocks_num)) old_blocks_num ino
             else if new_blocks_num <? old_blocks_num
             then free_range (Z.to_nat (old_blocks_num - new_blocks_num)) new_blocks_num ino ≫=
                    fun _ => mret ino
             else mret ino);
      let block_num := Z.quot size BLOCK_SIZE in
      let remain_size := Z.rem size BLOCK_SIZE in
      write_blocks ino buf (Z.to_nat block_num) ≫= fun _ =>
      (if remain_size =? 0 then mret tt
       else id ← get_nth_blockid ino block_num;
            write_block id (fill (chunk buf block_num remain_size) temp)) ≫= fun _ =>
      atime ← time_now; mtime ← time_now; ctime ← time_now;
      put_inode inum (set_times atime mtime ctime (set_size size ino))
  end.

(** [None]: [a] is left as it was. *)
Definition getattr (inum : Z) : M bmgr (option attr) :=
  o ← get_inode inum;
  match o with
  | None => mret None
  | Some ino => mret (Some (Attr (u32 (i_type ino)) (i_atime ino) (i_mtime ino)
                              (i_ctime ino) (i_size ino)))
  end.

(** The scan of [alloc_inode], [n] inodes from [i]; the inode found has its type
    set and its size and times cleared. *)
Fixpoint alloc_inode_from (type : Z) (n : nat) (i : Z) : M bmgr Z :=
  match n with
  | O => mret 1
  | S n' =>
      o ← get_inode i;
      match o with
      | None => crash NullDeref
      | Some t =>
          if i_type t =? 0
          then put_inode i (Inode (s16 type) 0 0 0 0 (i_blocks t)) ≫= fun _ => mret i
          else alloc_inode_from type n' (i + 1)
      end
  end.

Definition alloc_inode (type : Z) : M bmgr Z := alloc_inode_from type (Z.to_nat INODE_NUM) 1.

Definition free_inode (inum : Z) : M bmgr unit :=
  o ← get_inode inum;
  match o with
  | None => mret tt
  | Some ino =>
      verify (negb (i_type ino =? 0)) ≫= fun _ =>
      put_inode inum (Inode 0 0 0 0 0 (i_blocks ino))
  end.

(** [bzero(ino)] clears the caller's copy only: [free_inode] reads the inode
    again from the disk. *)
Definition remove_file (inum : Z) : M bmgr unit :=
  o ← get_inode inum;
  match o with
  | None => crash AssertFail
  | Some ino =>
      let block_num := blocks_num (i_size ino) in
      free_range (Z.to_nat block_num) 0 ino ≫= fun _ =>
      (if NDIRECT <? block_num then free_block (get_block ino NDIRECT) else mret tt) ≫= fun _ =>
      free_inode inum
  end.

(** [inode_manager::inode_manager] *)
Definition new_inode_manager (junk : bytes) : res bmgr :=
  match alloc_inode extent_types.T_DIR (new_bmgr junk) with
  | Ok (root_dir, s) => if root_dir =? 1 then Ok s else Crash ExitCall
  | Crash f => Crash f
  end.
End inode_manager.
