(* ===== verification/InodeSpec.v ===== *)
(** * Correctness of the inode layer

    The invariant of the file system on disk (every file owns its data blocks
    and its indirect block exclusively), the contents of a file as a function of
    the disk, and the theorems that each operation of Inode.v keeps the
    invariant, does what it should to its own file and leaves every other file
    alone. *)

From S2P Require Import Prelude Disk Inode.

Ltac consts := change NDIRECT with 100 in *; change MAXFILE with 228 in *;
  change BLOCK_SIZE with 512 in *; change BLOCK_NUM with 32768 in *; change INODE_NUM with 1024 in *.

(** ** The on-disk image of an inode *)

Record inode_ok (ino : inode) : Prop := {
  io_type : in_s 16 (i_type ino);
  io_words : Forall (in_u 32) (inode_words ino);
  io_len : length (i_blocks ino) = 101%nat }.

Lemma decode_ok b : inode_ok (decode_inode b).
Proof.
  split; simpl.
  - by apply to_signed_range.
  - unfold inode_words. apply Forall_app. split; [by repeat (apply Forall_cons; split; [apply word_at_range|])|].
    apply Forall_fmap, Forall_true. intros. apply word_at_range.
  - done.
Qed.

Lemma length_encode ino b : inode_ok ino -> length b = 512%nat -> length (encode_inode ino b) = 512%nat.
Proof.
  intros [_ _ Hl] Hb. unfold encode_inode. rewrite !length_app, length_words, length_le_enc.
  unfold inode_words. rewrite length_app, Hl, length_take, !length_drop, Hb. reflexivity.
Qed.

Lemma word_at_encode ino b n w : inode_ok ino -> length b = 512%nat ->
  inode_words ino !! n = Some w -> word_at (encode_inode ino b) (S n) = w.
Proof.
  intros [_ Hw _] Hb Hn. unfold encode_inode. rewrite app_assoc.
  rewrite (word_at_app_r _ _ _ 1); [|rewrite length_app, length_le_enc, length_take, length_drop; lia|lia].
  simpl (S n - 1)%nat. rewrite Nat.sub_0_r. erewrite word_at_words by done.
  apply Z.mod_small. rewrite Forall_lookup in Hw. by eapply Hw.
Qed.

(** Reading back an inode that was stored. *)
Lemma decode_encode ino b : inode_ok ino -> length b = 512%nat ->
  decode_inode (encode_inode ino b) = ino.
Proof.
  intros Hok Hb. unfold decode_inode.
  rewrite (word_at_encode ino b 0 (i_size ino)), (word_at_encode ino b 1 (i_atime ino)),
    (word_at_encode ino b 2 (i_mtime ino)), (word_at_encode ino b 3 (i_ctime ino)) by done.
  pose proof (io_type _ Hok) as Ht. pose proof (io_len _ Hok) as Hl.
  destruct ino as [ty sz at_ mt ct bs]. cbn [i_type i_size i_atime i_mtime i_ctime i_blocks] in *. f_equal.
  - unfold encode_inode. rewrite take_app_exact by done. cbn [i_type].
    rewrite le_dec_enc. unfold s16. change (256 ^ Z.of_nat 2) with (2 ^ 16).
    rewrite to_signed_mod by lia. apply to_signed_id; [lia | done].
  - apply list_eq. intros i. rewrite list_lookup_fmap.
    destruct (decide (i < 101)%nat) as [Hi|Hi].
    + rewrite lookup_seq_lt by lia. simpl.
      destruct (lookup_lt_is_Some_2 bs i) as [w Hbi]; [lia|]. rewrite Hbi. f_equal.
      apply (word_at_encode (Inode ty sz at_ mt ct bs) b (4 + i) w); [done..|].
      unfold inode_words. done.
    + rewrite lookup_seq_ge by lia. simpl. symmetry. apply lookup_ge_None. lia.
Qed.

(** ** Block identifiers of a file *)

Definition ind (ino : inode) : Z := get_block ino NDIRECT.

(** The n-th block of the file, as [get_nth_blockid] finds it. *)
Definition bid (d : disk) (ino : inode) (n : Z) : Z :=
  if n <? NDIRECT then get_block ino n
  else word_at (blk d (ind ino)) (Z.to_nat (n - NDIRECT)).

(** The blocks a file with [k] data blocks owns. *)
Definition data_ids (d : disk) (ino : inode) (k : Z) : list Z := bid d ino <$> seqZ 0 k.
Definition ids (d : disk) (ino : inode) (k : Z) : list Z :=
  data_ids d ino k ++ (if ind ino =? 0 then [] else [ind ino]).

Definition data_block (b : Z) : Prop := FILEBLOCK default_sb <= b < BLOCK_NUM.

Lemma data_block_range b : data_block b <-> 1035 <= b < 32768.
Proof. done. Qed.

Lemma data_block_on_disk b : data_block b -> on_disk b = true.
Proof.
  rewrite data_block_range. intros. unfold on_disk. change BLOCK_NUM with 32768.
  apply andb_true_iff. lia.
Qed.

(** [own d u ino k F]: the [k] data blocks of [ino] and its indirect block are
    data blocks in use, pairwise distinct and outside [F], the blocks of
    everyone else, which are in use too. *)
Record own (d : disk) (u : gmap Z Z) (ino : inode) (k : Z) (F : Z -> Prop) : Prop := {
  ow_inode : inode_ok ino;
  ow_k : 0 <= k <= MAXFILE;
  ow_ind : NDIRECT < k -> ind ino <> 0;
  ow_ids : forall b, b ∈ ids d ino k -> data_block b /\ in_use u b <> 0 /\ ~ F b;
  ow_nodup : NoDup (ids d ino k);
  ow_F : forall b, F b -> data_block b /\ in_use u b <> 0 }.

Lemma elem_of_data_ids d ino k b : b ∈ data_ids d ino k <-> exists n, 0 <= n < k /\ b = bid d ino n.
Proof.
  unfold data_ids. rewrite list_elem_of_fmap. split.
  - intros (n & -> & Hn%elem_of_seqZ). exists n. split; [lia | done].
  - intros (n & Hn & ->). exists n. split; [done|]. apply elem_of_seqZ. lia.
Qed.

Lemma elem_of_ids d ino k b : b ∈ ids d ino k <->
  (exists n, 0 <= n < k /\ b = bid d ino n) \/ (ind ino <> 0 /\ b = ind ino).
Proof.
  unfold ids. rewrite elem_of_app, elem_of_data_ids.
  destruct (Z.eqb_spec (ind ino) 0); [|rewrite list_elem_of_singleton; naive_solver].
  rewrite elem_of_nil. naive_solver.
Qed.

Lemma own_bid d u ino k F n : own d u ino k F -> 0 <= n < k ->
  data_block (bid d ino n) /\ in_use u (bid d ino n) <> 0 /\ ~ F (bid d ino n).
Proof. intros Ho Hn. apply (ow_ids _ _ _ _ _ Ho), elem_of_ids. left. eauto. Qed.

Lemma own_ind d u ino k F : own d u ino k F -> ind ino <> 0 ->
  data_block (ind ino) /\ in_use u (ind ino) <> 0 /\ ~ F (ind ino).
Proof. intros Ho Hn. apply (ow_ids _ _ _ _ _ Ho), elem_of_ids. by right. Qed.

Lemma own_bid_ind d u ino k F n : own d u ino k F -> 0 <= n < k -> bid d ino n <> ind ino.
Proof.
  intros Ho Hn. destruct (decide (ind ino = 0)) as [->|Hi].
  - destruct (own_bid _ _ _ _ _ _ Ho Hn) as [Hd _]. rewrite data_block_range in Hd. lia.
  - pose proof (ow_nodup _ _ _ _ _ Ho) as Hnd. unfold ids in Hnd.
    destruct (Z.eqb_spec (ind ino) 0); [done|]. apply NoDup_app in Hnd as (_ & Hd & _).
    intros He. apply (Hd (ind ino)); [|set_solver]. apply elem_of_data_ids. eauto.
Qed.

Lemma own_bid_inj d u ino k F n m : own d u ino k F -> 0 <= n < k -> 0 <= m < k ->
  bid d ino n = bid d ino m -> n = m.
Proof.
  intros Ho Hn Hm He. pose proof (ow_nodup _ _ _ _ _ Ho) as Hnd. unfold ids in Hnd.
  apply NoDup_app in Hnd as (Hnd & _ & _).
  assert (forall i, 0 <= i < k -> data_ids d ino k !! Z.to_nat i = Some (bid d ino i)) as Hl.
  { intros i Hi. unfold data_ids. rewrite list_lookup_fmap, lookup_seqZ_lt by lia. simpl. do 2 f_equal. lia. }
  assert (Z.to_nat n = Z.to_nat m); [|lia].
  eapply (NoDup_lookup (data_ids d ino k)); [done | by apply Hl | rewrite He; by apply Hl].
Qed.

(** The indirect block determines the identifiers. *)
Lemma ids_frame d d' ino k : (ind ino <> 0 -> blk d' (ind ino) = blk d (ind ino)) ->
  (NDIRECT < k -> ind ino <> 0) -> data_ids d' ino k = data_ids d ino k /\ ids d' ino k = ids d ino k.
Proof.
  intros Hb Hk. assert (data_ids d' ino k = data_ids d ino k) as He; [|unfold ids; by rewrite He].
  unfold data_ids. apply list_fmap_ext. intros i n Hn. apply lookup_seqZ in Hn.
  unfold bid. destruct (Z.ltb_spec n NDIRECT); [done|]. rewrite Hb; [done|]. apply Hk. lia.
Qed.

Lemma own_frame d d' u u' ino k F : own d u ino k F ->
  (ind ino <> 0 -> blk d' (ind ino) = blk d (ind ino)) ->
  (forall b, b ∈ ids d ino k \/ F b -> in_use u' b <> 0) -> own d' u' ino k F.
Proof.
  intros [Hi Hk Hind Hids Hnd HF] Hb Hu. destruct (ids_frame d d' ino k Hb Hind) as [_ He].
  split; rewrite ?He; try done.
  - intros b Hin. destruct (Hids b Hin) as (? & _ & ?). split_and!; auto.
  - intros b Hin. destruct (HF b Hin). auto.
Qed.

(** ** Running the operations *)

Definition tick (s : bmgr) : bmgr := Bmgr (bm_d s) (using_blocks s) (bm_sb s) (S (ticks s)).

(** The inode table entry of [inum]. *)
Definition inode_at (d : disk) (inum : Z) : inode := decode_inode (blk d (11 + inum)).

Lemma free_blocks_tick s : free_blocks (tick s) = free_blocks s.
Proof. done. Qed.

Section run.
Context `{Env}.
Implicit Types (s : bmgr) (ino : inode) (F : Z -> Prop).

Lemma iblock_eq s inum : bm_sb s = default_sb -> inode_block s inum = 11 + inum.
Proof.
  intros Hs. unfold inode_block. rewrite Hs. unfold IBLOCK. simpl sb_nblocks.
  unfold IPB. rewrite Z.div_1_r. change (BLOCK_NUM / BPB) with 8. lia.
Qed.

Lemma iblock_on_disk inum : 0 <= inum < INODE_NUM -> on_disk (11 + inum) = true.
Proof.
  intros. unfold on_disk. change BLOCK_NUM with 32768. change INODE_NUM with 1024 in *.
  apply andb_true_iff. lia.
Qed.

Lemma run_get_inode inum s : bm_sb s = default_sb -> 0 <= inum < INODE_NUM ->
  get_inode inum s = Ok (Some (inode_at (bm_d s) inum), tick s).
Proof.
  intros Hs Hi. unfold get_inode.
  assert ((inum <? 0) || (INODE_NUM <=? inum) = false) as -> by (apply orb_false_iff; lia).
  erewrite bind_ok by reflexivity. erewrite bind_ok by reflexivity.
  rewrite iblock_eq by done. erewrite bind_ok by reflexivity.
  unfold mret, M_ret, disk_read_block. cbn [bm_d]. by rewrite iblock_on_disk.
Qed.

Lemma run_put_inode inum ino s : bm_sb s = default_sb -> 0 <= inum < INODE_NUM ->
  put_inode inum ino s =
  Ok (tt, tick (Bmgr (disk_write_block (bm_d s) (11 + inum) (encode_inode ino (blk (bm_d s) (11 + inum))))
            (using_blocks s) (bm_sb s) (ticks s))).
Proof.
  intros Hs Hi. unfold put_inode. erewrite bind_ok by reflexivity. erewrite bind_ok by reflexivity.
  rewrite iblock_eq by done. erewrite bind_ok by reflexivity.
  unfold disk_read_block. cbn [bm_d]. rewrite iblock_on_disk by done. done.
Qed.

Lemma run_get_nth s u ino k F n : own (bm_d s) u ino k F -> 0 <= n < k ->
  get_nth_blockid ino n s = Ok (bid (bm_d s) ino n, tick s).
Proof.
  intros Ho Hn. unfold get_nth_blockid, bid. erewrite bind_ok by reflexivity.
  pose proof (ow_k _ _ _ _ _ Ho). destruct (Z.ltb_spec n NDIRECT); [done|].
  destruct (Z.ltb_spec n MAXFILE); [|lia]. fold (ind ino).
  assert (ind ino <> 0) as Hi by (apply (ow_ind _ _ _ _ _ Ho); lia).
  destruct (Z.eqb_spec (ind ino) 0); [done|]. erewrite bind_ok by reflexivity.
  erewrite bind_ok by reflexivity. unfold mret, M_ret, disk_read_block. cbn [bm_d].
  by rewrite data_block_on_disk by (by eapply own_ind).
Qed.

(** ** Allocation of a block of a file *)

Lemma get_set_block ino n m v : length (i_blocks ino) = 101%nat -> 0 <= n <= 100 -> 0 <= m ->
  get_block (set_blocks (Z.to_nat n) v ino) m = if decide (n = m) then v else get_block ino m.
Proof.
  intros Hl Hn Hm. unfold get_block, set_blocks. cbn [i_blocks].
  rewrite !nth_lookup. destruct (decide (n = m)) as [->|Hne].
  - rewrite list_lookup_insert_eq by lia. done.
  - rewrite list_lookup_insert_ne by lia. done.
Qed.

Lemma set_blocks_ok ino n v : inode_ok ino -> in_u 32 v -> inode_ok (set_blocks n v ino).
Proof.
  intros [Ht Hw Hl] Hv. split; simpl; [done | | by rewrite length_insert].
  unfold inode_words in *. apply Forall_app in Hw as [H1 H2]. apply Forall_app. split; [done|].
  simpl. by apply Forall_insert.
Qed.

(** What an operation on one file leaves alone: the inode table and the blocks
    of the others. *)
Record keeps (F : Z -> Prop) (s s' : bmgr) : Prop := {
  kp_sb : bm_sb s' = bm_sb s;
  kp_disk : disk_ok (bm_d s) -> disk_ok (bm_d s');
  kp_blk : forall b, b < FILEBLOCK default_sb \/ F b -> blk (bm_d s') b = blk (bm_d s) b }.

Lemma keeps_refl F s : keeps F s s.
Proof. by split. Qed.

Lemma keeps_trans F s1 s2 s3 : keeps F s1 s2 -> keeps F s2 s3 -> keeps F s1 s3.
Proof.
  intros [A1 B1 C1] [A2 B2 C2]. split; [congruence | auto|]. intros b Hb. by rewrite C2, C1.
Qed.

(** The other fields of an inode whose blocks change. *)
Definition same_attrs (ino ino' : inode) : Prop :=
  i_type ino' = i_type ino /\ i_size ino' = i_size ino.

Lemma data_ids_S d ino k : 0 <= k -> data_ids d ino (k + 1) = data_ids d ino k ++ [bid d ino k].
Proof.
  intros Hk. unfold data_ids. rewrite seqZ_app by lia. rewrite fmap_app. do 2 f_equal.
Qed.

(** One more block in use for the file. *)
Lemma own_add d d' u ino ino' k k' F b : own d u ino k F -> data_block b -> in_use u b = 0 ->
  inode_ok ino' -> 0 <= k' <= MAXFILE -> (NDIRECT < k' -> ind ino' <> 0) ->
  ids d' ino' k' ≡ₚ b :: ids d ino k -> own d' (<[b := 1]> u) ino' k' F.
Proof.
  intros Ho Hb Hu Hok Hk Hi Hp.
  assert (forall b', in_use u b' <> 0 -> in_use (<[b := 1]> u) b' <> 0) as Hmono
    by (intros b' ?; rewrite in_use_insert; by case_decide).
  split; [done | lia | done | | |].
  - intros b' Hb'. rewrite Hp in Hb'. apply elem_of_cons in Hb' as [->|Hb'].
    + split; [done|]. rewrite in_use_insert, decide_True by done. split; [done|].
      intros HF. destruct (ow_F _ _ _ _ _ Ho b HF). lia.
    + destruct (ow_ids _ _ _ _ _ Ho b' Hb') as (? & ? & ?). auto.
  - rewrite Hp. apply NoDup_cons. split; [|apply Ho].
    intros Hin. destruct (ow_ids _ _ _ _ _ Ho b Hin) as (? & ? & ?). lia.
  - intros b' HF. destruct (ow_F _ _ _ _ _ Ho b' HF). auto.
Qed.

Lemma own_grow d d' u ino ino' k F b : own d u ino k F -> k < MAXFILE -> data_block b ->
  in_use u b = 0 -> inode_ok ino' -> ind ino' = ind ino -> (NDIRECT <= k -> ind ino <> 0) ->
  (forall n, 0 <= n < k -> bid d' ino' n = bid d ino n) -> bid d' ino' k = b ->
  own d' (<[b := 1]> u) ino' (k + 1) F.
Proof.
  intros Ho Hk Hb Hu Hok Hind Hi Hbid Hbk. pose proof (ow_k _ _ _ _ _ Ho).
  assert (data_ids d' ino' k = data_ids d ino k) as Hd.
  { apply list_fmap_ext. intros i n Hn%lookup_seqZ. apply Hbid. lia. }
  assert (ids d' ino' (k + 1) ≡ₚ b :: ids d ino k) as Hp.
  { unfold ids. rewrite data_ids_S, Hd, Hbk, Hind by lia. rewrite <- app_assoc.
    simpl. by rewrite <- Permutation_middle. }
  eapply own_add; [done.. | lia | | done]. intros. rewrite Hind. apply Hi. lia.
Qed.

Lemma own_new_ind d u ino k F b : own d u ino k F -> k <= NDIRECT -> ind ino = 0 -> data_block b ->
  in_use u b = 0 -> own d (<[b := 1]> u) (set_blocks (Z.to_nat NDIRECT) b ino) k F.
Proof.
  intros Ho Hk Hind Hb Hu. pose proof (ow_k _ _ _ _ _ Ho) as Hk0. pose proof (ow_inode _ _ _ _ _ Ho) as Hok.
  set (ino' := set_blocks (Z.to_nat NDIRECT) b ino).
  pose proof (proj1 (data_block_range b) Hb) as Hr.
  assert (ind ino' = b) as Hi'.
  { unfold ind, ino'. rewrite get_set_block; [by rewrite decide_True | apply Hok | consts; lia..]. }
  assert (data_ids d ino' k = data_ids d ino k) as Hd.
  { apply list_fmap_ext. intros i n Hn%lookup_seqZ. unfold bid. destruct (Z.ltb_spec n NDIRECT); [|lia].
    unfold ino'. rewrite get_set_block; [by rewrite decide_False by lia | apply Hok | consts; lia..]. }
  assert (ids d ino' k ≡ₚ b :: ids d ino k) as Hp.
  { unfold ids. rewrite Hd, Hind, Hi'. destruct (Z.eqb_spec b 0); [lia|]. simpl.
    rewrite app_nil_r. by rewrite <- Permutation_cons_append. }
  eapply own_add; [done.. | apply set_blocks_ok; [done | unfold in_u; lia] | lia | lia | done].
Qed.

(** The state after [alloc_block] took [b]. *)
Definition took (b : Z) (s : bmgr) : bmgr :=
  Bmgr (bm_d s) (<[b := 1]> (using_blocks s)) (bm_sb s) (ticks s).

Lemma run_alloc s : bm_sb s = default_sb -> (1 <= length (free_blocks s))%nat ->
  exists b, alloc_block s = Ok (b, took b s) /\ data_block b /\ in_use (using_blocks s) b = 0 /\
    (length (free_blocks (took b s)) + 1 = length (free_blocks s))%nat.
Proof.
  intros Hs Hl. destruct (free_blocks s) as [|b l] eqn:E; [simpl in Hl; lia|].
  destruct (alloc_block_ok s b l E) as (Ha & Hf & Hr & Hu). rewrite Hs in Hr.
  exists b. split_and!; try done; try apply Hr. unfold took. rewrite Hf. simpl. lia.
Qed.

(** The blocks needed for the data block [k]. *)
Definition need_ind (ino : inode) : nat := if ind ino =? 0 then 1 else 0.

(** The branch of [alloc_nth_block] below [NDIRECT]. *)
Lemma run_alloc_direct s ino k F : own (bm_d s) (using_blocks s) ino k F -> bm_sb s = default_sb ->
  k < NDIRECT -> (1 <= length (free_blocks s))%nat ->
  exists ino' s', alloc_nth_block ino k s = Ok (ino', s') /\
    own (bm_d s') (using_blocks s') ino' (k + 1) F /\ keeps F s s' /\ same_attrs ino ino' /\
    ind ino' = ind ino /\ (length (free_blocks s') + 1 = length (free_blocks s))%nat.
Proof.
  intros Ho Hs Hk Hl. pose proof (ow_k _ _ _ _ _ Ho). pose proof (ow_inode _ _ _ _ _ Ho) as Hok.
  destruct (run_alloc (tick s)) as (b & Ha & Hb & Hu & Hf); [done..|].
  unfold alloc_nth_block. erewrite bind_ok by reflexivity.
  destruct (Z.ltb_spec k NDIRECT); [|lia]. erewrite bind_ok by exact Ha.
  eexists _, _; split; [reflexivity|]. pose proof (proj1 (data_block_range b) Hb).
  assert (ind (set_blocks (Z.to_nat k) b ino) = ind ino) as Hi.
  { unfold ind. rewrite get_set_block by (try apply Hok; consts; lia). by rewrite decide_False by lia. }
  split_and!; [| by split | done.. ].
  eapply (own_grow (bm_d s) _ _ ino); try done; [consts; lia | | lia | |].
  - apply set_blocks_ok; [done | unfold in_u; lia].
  - intros n Hn. unfold bid. destruct (Z.ltb_spec n NDIRECT); [|lia].
    rewrite get_set_block by (try apply Hok; consts; lia). by rewrite decide_False by lia.
  - unfold bid. destruct (Z.ltb_spec k NDIRECT); [|lia].
    rewrite get_set_block by (try apply Hok; consts; lia). by rewrite decide_True.
Qed.

(** The rest of the other branch, once the file has an indirect block. *)
Definition alloc_indirect (ino : inode) (n : Z) (buf : bytes) : M bmgr inode :=
  buf ← read_block (get_block ino NDIRECT) buf;
  b ← alloc_block;
  write_block (get_block ino NDIRECT) (set_word buf (Z.to_nat (n - NDIRECT)) b) ≫= fun _ =>
  mret ino.

Lemma run_alloc_indirect s ino k F buf : own (bm_d s) (using_blocks s) ino k F ->
  bm_sb s = default_sb -> disk_ok (bm_d s) -> NDIRECT <= k < MAXFILE -> ind ino <> 0 ->
  (1 <= length (free_blocks s))%nat ->
  exists s', alloc_indirect ino k buf s = Ok (ino, s') /\
    own (bm_d s') (using_blocks s') ino (k + 1) F /\ keeps F s s' /\
    (length (free_blocks s') + 1 = length (free_blocks s))%nat.
Proof.
  intros Ho Hs Hd Hk Hi Hl. destruct (own_ind _ _ _ _ _ Ho Hi) as (Hib & Hiu & HiF).
  pose proof (data_block_on_disk _ Hib) as Hon.
  destruct (run_alloc s) as (b & Ha & Hb & Hu & Hf); [done..|].
  pose proof (proj1 (data_block_range b) Hb).
  unfold alloc_indirect. fold (ind ino). erewrite bind_ok by reflexivity.
  erewrite bind_ok by exact Ha. erewrite bind_ok by reflexivity.
  unfold disk_read_block. rewrite Hon. eexists; split; [reflexivity|].
  set (w := Z.to_nat (k - NDIRECT)).
  assert (4 * w + 4 <= length (blk (bm_d s) (ind ino)))%nat as Hw by (rewrite Hd; subst w; consts; lia).
  split_and!; [| split; simpl; [done | |] | done].
  - eapply (own_grow (bm_d s) _ _ ino); try done; [lia | apply Ho | |].
    + intros n Hn. unfold bid. destruct (Z.ltb_spec n NDIRECT); [done|]. simpl.
      rewrite blk_write, decide_True by done. apply word_at_set_ne; [done | subst w; lia].
    + unfold bid. destruct (Z.ltb_spec k NDIRECT); [lia|]. simpl.
      rewrite blk_write, decide_True by done. fold w. rewrite word_at_set_eq by done.
      apply Z.mod_small. lia.
  - intros Hdk. apply disk_ok_write; [done|]. rewrite length_set_word by done. apply Hdk.
  - intros b' Hb'. rewrite blk_write by done. rewrite decide_False; [done|].
    intros <-. destruct Hb' as [Hlt|HF]; [|done]. destruct Hib. lia.
Qed.

(** Blocks taken by the data blocks [j], ..., [j + n - 1]: one each, and the
    indirect block when it is the first one beyond [NDIRECT]. *)
Definition need (ino : inode) (n : nat) (j : Z) : nat :=
  n + (if (NDIRECT <? j + Z.of_nat n) && (ind ino =? 0) then 1 else 0).

Lemma run_alloc_nth s ino k F : own (bm_d s) (using_blocks s) ino k F -> bm_sb s = default_sb ->
  disk_ok (bm_d s) -> k < MAXFILE -> (need ino 1 k <= length (free_blocks s))%nat ->
  exists ino' s', alloc_nth_block ino k s = Ok (ino', s') /\
    own (bm_d s') (using_blocks s') ino' (k + 1) F /\ keeps F s s' /\ same_attrs ino ino' /\
    (ind ino' = 0 -> ind ino = 0 /\ k < NDIRECT) /\
    (length (free_blocks s') + need ino 1 k = length (free_blocks s))%nat.
Proof.
  intros Ho Hs Hd Hk. unfold need. destruct (Z.ltb_spec NDIRECT (k + Z.of_nat 1)) as [Hlt|Hge]; intros Hl.
  2:{ destruct (run_alloc_direct s ino k F) as (ino' & s' & E & ? & ? & ? & Hi & ?);
        [done.. | lia | simpl in Hl; lia|].
      exists ino', s'. rewrite Hi. simpl. split_and!; try done; lia. }
  unfold alloc_nth_block. erewrite bind_ok by reflexivity.
  destruct (Z.ltb_spec k NDIRECT); [lia|]. destruct (Z.ltb_spec k MAXFILE); [|lia].
  cbn [andb] in *. fold (ind ino). destruct (Z.eqb_spec (ind ino) 0) as [Hi|Hi].
  - assert (k = NDIRECT) as ->.
    { destruct (decide (NDIRECT < k)); [by destruct (ow_ind _ _ _ _ _ Ho)|lia]. }
    destruct (run_alloc (tick s)) as (b0 & Ha & Hb & Hu & Hf); [done | rewrite free_blocks_tick; lia|].
    pose proof (proj1 (data_block_range b0) Hb).
    pose proof (own_new_ind _ _ _ _ _ b0 Ho ltac:(lia) Hi Hb Hu) as Ho1.
    set (ino1 := set_blocks (Z.to_nat NDIRECT) b0 ino) in *.
    assert (ind ino1 = b0) as Hi1.
    { unfold ind, ino1. rewrite get_set_block; [by rewrite decide_True | apply Ho | consts; lia..]. }
    destruct (run_alloc_indirect (took b0 (tick s)) ino1 NDIRECT F (stack (ticks s)))
      as (s' & E & Ho' & Hk' & Hf'); [done.. | lia | rewrite free_blocks_tick in Hf; lia|].
    exists ino1, s'. rewrite (bind_ok _ _ _ ino1 (took b0 (tick s))) by (erewrite bind_ok by exact Ha; done).
    split; [exact E|]. split_and!; [done | | done | lia.. | rewrite free_blocks_tick in Hf; lia].
    eapply keeps_trans; [|exact Hk']. by split.
  - destruct (run_alloc_indirect (tick s) ino k F (stack (ticks s))) as (s' & E & Ho' & Hk' & Hf');
      [done.. | rewrite free_blocks_tick; lia|].
    exists ino, s'. erewrite bind_ok by reflexivity. split; [exact E|].
    split_and!; [done | | done | lia.. | rewrite free_blocks_tick in Hf'; lia].
    eapply keeps_trans; [|exact Hk']. by split.
Qed.

Lemma need_one ino n j : (need ino 1 j <= need ino (S n) j)%nat.
Proof.
  unfold need. destruct (ind ino =? 0); rewrite ?andb_false_r, ?andb_true_r; [|lia].
  destruct (Z.ltb_spec NDIRECT (j + Z.of_nat 1)), (Z.ltb_spec NDIRECT (j + Z.of_nat (S n))); lia.
Qed.

Lemma need_step ino ino1 n j : (ind ino1 = 0 -> ind ino = 0 /\ j < NDIRECT) ->
  (need ino 1 j + need ino1 n (j + 1) <= need ino (S n) j)%nat.
Proof.
  intros Hi. unfold need. replace (j + 1 + Z.of_nat n) with (j + Z.of_nat (S n)) by lia.
  destruct (Z.eqb_spec (ind ino1) 0) as [H1|H1].
  - destruct (Hi H1) as [-> Hj]. cbn [Z.eqb]. rewrite !andb_true_r.
    destruct (Z.ltb_spec NDIRECT (j + Z.of_nat 1)); [lia|]. destruct (_ <? _); lia.
  - rewrite andb_false_r. destruct (ind ino =? 0); rewrite ?andb_false_r, ?andb_true_r; [|lia].
    destruct (Z.ltb_spec NDIRECT (j + Z.of_nat 1)), (Z.ltb_spec NDIRECT (j + Z.of_nat (S n))); lia.
Qed.

Lemma run_alloc_range n : forall s ino j F, own (bm_d s) (using_blocks s) ino j F ->
  bm_sb s = default_sb -> disk_ok (bm_d s) -> j + Z.of_nat n <= MAXFILE ->
  (need ino n j <= length (free_blocks s))%nat ->
  exists ino' s', alloc_range n j ino s = Ok (ino', s') /\
    own (bm_d s') (using_blocks s') ino' (j + Z.of_nat n) F /\ keeps F s s' /\ same_attrs ino ino' /\
    (length (free_blocks s) <= length (free_blocks s') + need ino n j)%nat.
Proof.
  induction n as [|n IH]; intros s ino j F Ho Hs Hd Hj Hn.
  - exists ino, s. rewrite Z.add_0_r. split_and!; [done | done | apply keeps_refl | done | lia].
  - cbn [alloc_range].
    destruct (run_alloc_nth s ino j F) as (ino1 & s1 & E1 & Ho1 & K1 & A1 & Hi1 & F1); [done.. | lia | |].
    { etransitivity; [apply need_one | exact Hn]. }
    erewrite bind_ok by exact E1.
    destruct (IH s1 ino1 (j + 1) F) as (ino' & s' & E & Ho' & K' & A' & F'); [done | | | lia | |].
    + destruct K1. congruence.
    + by destruct K1; auto.
    + pose proof (need_step ino ino1 n j Hi1). lia.
    + exists ino', s'. split; [exact E|]. replace (j + Z.of_nat (S n)) with (j + 1 + Z.of_nat n) by lia.
      split_and!; [done | by eapply keeps_trans | destruct A1, A'; split; congruence |].
      pose proof (need_step ino ino1 n j Hi1). lia.
Qed.

(** ** Release of the blocks at the end of a file *)

Lemma free_blocks_mono s s' : bm_sb s' = bm_sb s ->
  (forall b, in_use (using_blocks s') b <> 0 -> in_use (using_blocks s) b <> 0) ->
  (length (free_blocks s) <= length (free_blocks s'))%nat.
Proof.
  intros Hs Hu. unfold free_blocks, free_list. rewrite Hs. generalize (seqZ (FILEBLOCK (bm_sb s))
    (Z.of_nat (Z.to_nat (BLOCK_NUM - FILEBLOCK (bm_sb s))))). intros L.
  induction L as [|b L IH]; [done|]. rewrite !filter_cons.
  destruct (decide (in_use (using_blocks s) b = 0)) as [E|E]; [|destruct (decide _); simpl; lia].
  rewrite decide_True; [simpl; lia|]. destruct (decide (in_use (using_blocks s') b = 0)); [done|].
  by destruct (Hu b).
Qed.

Lemma ids_sub d ino j k : 0 <= j <= k -> ids d ino j `sublist_of` ids d ino k.
Proof.
  intros Hj. unfold ids. apply sublist_app; [|done]. unfold data_ids.
  replace k with (j + (k - j)) by lia. rewrite seqZ_app, fmap_app by lia. by apply sublist_inserts_r.
Qed.

Lemma own_shrink d u ino j k F : own d u ino k F -> 0 <= j <= k -> own d u ino j F.
Proof.
  intros Ho Hj. pose proof (ids_sub d ino j k Hj) as Hs. pose proof (ow_k _ _ _ _ _ Ho).
  split; [apply Ho | lia | intros; apply (ow_ind _ _ _ _ _ Ho); lia | | | apply Ho].
  - intros b Hb. apply (ow_ids _ _ _ _ _ Ho). by eapply elem_of_submseteq, sublist_submseteq.
  - eapply sublist_NoDup; [apply Ho | exact Hs].
Qed.

Lemma run_free_range s ino n j F :
  own (bm_d s) (using_blocks s) ino (j + Z.of_nat n) F -> 0 <= j ->
  exists s', free_range n j ino s = Ok (tt, s') /\ bm_d s' = bm_d s /\ bm_sb s' = bm_sb s /\
    (forall b, in_use (using_blocks s') b <> 0 -> in_use (using_blocks s) b <> 0) /\
    (forall b, b ∈ (bid (bm_d s) ino <$> seqZ j (Z.of_nat n)) -> in_use (using_blocks s') b = 0) /\
    own (bm_d s') (using_blocks s') ino j F.
Proof.
  intros Ho Hj.
  destruct (for_ok (fun i s' => bm_d s' = bm_d s /\ bm_sb s' = bm_sb s /\
     (forall b, in_use (using_blocks s') b <> 0 -> in_use (using_blocks s) b <> 0) /\
     (forall m, j <= m < i -> in_use (using_blocks s') (bid (bm_d s) ino m) = 0) /\
     (forall b, in_use (using_blocks s) b <> 0 -> (forall m, j <= m < i -> b <> bid (bm_d s) ino m) ->
        in_use (using_blocks s') b <> 0))
     n j (fun j => id ← get_nth_blockid ino j; free_block id) s) as (s' & E & Hd & Hs & Hm & Hz & Hu).
  - split_and!; auto. lia.
  - intros i s' Hi (Hd & Hs & Hm & Hz & Hu).
    erewrite bind_ok by (eapply run_get_nth; [rewrite Hd; exact Ho | lia]).
    eexists; split; [reflexivity|]. simpl. rewrite Hd. split_and!; [done.. | | |].
    + intros b. rewrite in_use_insert. case_decide; [done|]. apply Hm.
    + intros m Hm'. rewrite in_use_insert. case_decide as Hx; [done|]. apply Hz.
      destruct (decide (m = i)) as [->|]; [done | lia].
    + intros b Hb Hne. rewrite in_use_insert. rewrite decide_False by (intros <-; by apply (Hne i); [lia|]).
      apply Hu; [done|]. intros m Hm'. apply Hne. lia.
  - exists s'. split_and!; [exact E | done.. | |].
    { intros b. rewrite list_elem_of_fmap. intros (m & -> & Hm'%elem_of_seqZ). by apply Hz. }
    assert (own (bm_d s) (using_blocks s) ino j F) as Hj' by (eapply own_shrink; [exact Ho | lia]).
    eapply own_frame; [exact Hj' | by rewrite Hd |]. intros b Hb. apply Hu.
    + destruct Hb as [Hb|Hb]; [by apply (ow_ids _ _ _ _ _ Hj') | by apply (ow_F _ _ _ _ _ Hj')].
    + intros m Hm' ->. destruct (own_bid _ _ _ _ _ m Ho) as (_ & _ & HnF); [lia|].
      destruct Hb as [Hb|Hb]; [|done]. apply elem_of_ids in Hb as [(n' & Hn' & He)|[_ He]].
      * assert (m = n'); [|lia]. eapply own_bid_inj; [exact Ho | lia | lia | done].
      * eapply (own_bid_ind _ _ _ _ _ m); [exact Ho | lia | done].
Qed.

(** ** Writing the data blocks *)

(** The disk after the blocks of the file below [i] were written from [buf]. *)
Record written (ino : inode) (F : Z -> Prop) (s s' : bmgr) : Prop := {
  wr_keeps : keeps F s s';
  wr_using : using_blocks s' = using_blocks s;
  wr_ind : ind ino <> 0 -> blk (bm_d s') (ind ino) = blk (bm_d s) (ind ino) }.

Lemma written_own ino k F s s' : own (bm_d s) (using_blocks s) ino k F -> written ino F s s' ->
  own (bm_d s') (using_blocks s') ino k F /\ forall n, 0 <= n < k -> bid (bm_d s') ino n = bid (bm_d s) ino n.
Proof.
  intros Ho [K U I]. split.
  - eapply own_frame; [exact Ho | done|]. rewrite U. intros b [Hb|Hb].
    + by apply (ow_ids _ _ _ _ _ Ho).
    + by apply (ow_F _ _ _ _ _ Ho).
  - intros n Hn. unfold bid. destruct (Z.ltb_spec n NDIRECT); [done|]. rewrite I; [done|].
    apply (ow_ind _ _ _ _ _ Ho). lia.
Qed.

(** One block of the file is written. *)
Lemma run_write_nth s ino k F i b : own (bm_d s) (using_blocks s) ino k F -> 0 <= i < k ->
  length b = 512%nat ->
  exists s', (id ← get_nth_blockid ino i; write_block id b) s = Ok (tt, s') /\
    written ino F s s' /\
    forall m, 0 <= m < k -> blk (bm_d s') (bid (bm_d s) ino m) =
      if decide (m = i) then b else blk (bm_d s) (bid (bm_d s) ino m).
Proof.
  intros Ho Hi Hb. destruct (own_bid _ _ _ _ _ i Ho Hi) as (Hdb & _ & HnF).
  pose proof (data_block_on_disk _ Hdb) as Hon.
  erewrite bind_ok by (by eapply run_get_nth). eexists; split; [reflexivity|]. simpl.
  split; [split; [split| |]|]; simpl; try done.
  - intros Hd. by apply disk_ok_write.
  - intros b' Hb'. rewrite blk_write by done. rewrite decide_False; [done|]. intros <-.
    destruct Hb' as [Hlt|HF]; [|done]. destruct Hdb. lia.
  - intros _. rewrite blk_write by done. rewrite decide_False; [done|].
    by eapply own_bid_ind.
  - intros m Hm. rewrite blk_write by done. destruct (decide (m = i)) as [->|Hne].
    + by rewrite decide_True.
    + rewrite decide_False; [done|]. intros He. apply Hne. symmetry. by eapply own_bid_inj.
Qed.

Lemma written_trans ino F s1 s2 s3 : written ino F s1 s2 -> written ino F s2 s3 -> written ino F s1 s3.
Proof.
  intros [A1 B1 C1] [A2 B2 C2]. split; [by eapply keeps_trans | congruence|]. intros Hi. by rewrite C2, C1.
Qed.

Lemma run_write_blocks s ino k F buf n : own (bm_d s) (using_blocks s) ino k F ->
  Z.of_nat n <= k -> (n * 512 <= length buf)%nat ->
  exists s', write_blocks ino buf n s = Ok (tt, s') /\ written ino F s s' /\
    forall m, 0 <= m < Z.of_nat n -> blk (bm_d s') (bid (bm_d s) ino m) = chunk buf m BLOCK_SIZE.
Proof.
  intros Ho Hn Hb. unfold write_blocks.
  destruct (for_ok (fun i s' => written ino F s s' /\
     forall m, 0 <= m < i -> blk (bm_d s') (bid (bm_d s) ino m) = chunk buf m BLOCK_SIZE)
     n 0 (fun i => id ← get_nth_blockid ino i; write_block id (chunk buf i BLOCK_SIZE)) s)
     as (s' & E & HI).
  - split; [split; [apply keeps_refl | done..] | lia].
  - intros i s1 Hi [W1 H1]. destruct (written_own _ _ _ _ _ Ho W1) as [Ho1 Hb1].
    destruct (run_write_nth s1 ino k F i (chunk buf i BLOCK_SIZE)) as (s2 & E2 & W2 & H2);
      [done | lia | |].
    { unfold chunk. rewrite length_take, length_drop. consts. lia. }
    exists s2. split; [exact E2|]. split; [by eapply written_trans|]. intros m Hm.
    rewrite <- (Hb1 m) by lia. rewrite H2 by lia. destruct (decide (m = i)) as [->|]; [done|].
    rewrite Hb1 by lia. apply H1. lia.
  - exists s'. split; [exact E|]. exact HI.
Qed.
End run.

(** ** The invariant of the file system *)

Definition inum_ok (inum : Z) : Prop := 0 <= inum < INODE_NUM.

(** The number of data blocks and all blocks of the file [inum]. *)
Definition nblk (d : disk) (inum : Z) : Z := blocks_num (i_size (inode_at d inum)).
Definition file_ids (d : disk) (inum : Z) : list Z := ids d (inode_at d inum) (nblk d inum).

(** The blocks of the files other than [inum]. *)
Definition foreign (d : disk) (inum : Z) (b : Z) : Prop :=
  exists j, inum_ok j /\ j <> inum /\ b ∈ file_ids d j.

Definition contents (d : disk) (inum : Z) : bytes :=
  take (Z.to_nat (i_size (inode_at d inum)))
    (concat (blk d <$> data_ids d (inode_at d inum) (nblk d inum))).

Record fs_inv (s : bmgr) : Prop := {
  fs_sb : bm_sb s = default_sb;
  fs_disk : disk_ok (bm_d s);
  fs_own : forall inum, inum_ok inum ->
    own (bm_d s) (using_blocks s) (inode_at (bm_d s) inum) (nblk (bm_d s) inum)
      (foreign (bm_d s) inum) }.

(** The file [j] is the same in both states. *)
Record same_file (d d' : disk) (j : Z) : Prop := {
  sf_inode : inode_at d' j = inode_at d j;
  sf_ids : file_ids d' j = file_ids d j;
  sf_contents : contents d' j = contents d j }.

Lemma own_ext d u ino k F F' : (forall b, F b <-> F' b) -> own d u ino k F -> own d u ino k F'.
Proof.
  intros HF [A B C D E G]. split; try done.
  - intros b Hb. destruct (D b Hb) as (? & ? & ?). rewrite <- HF. auto.
  - intros b Hb. apply G. by apply HF.
Qed.

Section update.
Context (s s' : bmgr) (inum : Z).
Hypothesis Hinv : fs_inv s.
Hypothesis Hinum : inum_ok inum.
Hypothesis Hsb : bm_sb s' = default_sb.
Hypothesis Hdisk : disk_ok (bm_d s').
Hypothesis Htable : forall j, inum_ok j -> j <> inum -> blk (bm_d s') (11 + j) = blk (bm_d s) (11 + j).
Hypothesis Hframe : forall b, foreign (bm_d s) inum b -> blk (bm_d s') b = blk (bm_d s) b.
Hypothesis Hown : own (bm_d s') (using_blocks s') (inode_at (bm_d s') inum) (nblk (bm_d s') inum)
                    (foreign (bm_d s) inum).

Lemma update_others j : inum_ok j -> j <> inum -> same_file (bm_d s) (bm_d s') j.
Proof.
  intros Hj Hne. pose proof (fs_own _ Hinv j Hj) as Ho.
  assert (inode_at (bm_d s') j = inode_at (bm_d s) j) as Hi by (unfold inode_at; by rewrite Htable).
  assert (forall b, b ∈ file_ids (bm_d s) j -> blk (bm_d s') b = blk (bm_d s) b) as Hb.
  { intros b Hb. apply Hframe. by exists j. }
  destruct (ids_frame (bm_d s) (bm_d s') (inode_at (bm_d s) j) (nblk (bm_d s) j)) as [Hd Hids].
  { intros Hind. apply Hb. unfold file_ids. apply elem_of_ids. by right. }
  { apply Ho. }
  assert (nblk (bm_d s') j = nblk (bm_d s) j) as Hn by (unfold nblk; by rewrite Hi).
  split; [done | unfold file_ids; by rewrite Hi, Hn|].
  unfold contents. rewrite Hi, Hn, Hd. do 2 f_equal. apply list_fmap_ext. intros i b Hib.
  apply Hb. unfold file_ids, ids. apply elem_of_app. left. by eapply list_elem_of_lookup_2.
Qed.

Lemma update_foreign b : foreign (bm_d s') inum b <-> foreign (bm_d s) inum b.
Proof.
  unfold foreign. split; intros (j & Hj & Hne & Hb); exists j; (split; [done|]); (split; [done|]);
    destruct (update_others j Hj Hne) as [_ E _]; congruence.
Qed.

Lemma update_own j : inum_ok j -> j <> inum ->
  own (bm_d s') (using_blocks s') (inode_at (bm_d s') j) (nblk (bm_d s') j) (foreign (bm_d s') j).
Proof.
  intros Hj Hne. pose proof (fs_own _ Hinv j Hj) as [A B C D E G].
  pose proof (update_others j Hj Hne) as [Hi Hids _].
  assert (nblk (bm_d s') j = nblk (bm_d s) j) as Hn by (unfold nblk; by rewrite Hi).
  assert (forall b, b ∈ file_ids (bm_d s) j -> foreign (bm_d s) inum b) as HF by (intros; by exists j).
  unfold file_ids in Hids. rewrite Hi, Hn in *. split; rewrite ?Hids; try done.
  - intros b Hb. destruct (D b Hb) as (H1 & _ & H3). split; [done|].
    split; [by apply (ow_F _ _ _ _ _ Hown), HF|]. intros (i & Hio & Hij & Hib).
    destruct (decide (i = inum)) as [->|Hin].
    + destruct (ow_ids _ _ _ _ _ Hown b Hib) as (_ & _ & Hn'). by apply Hn', HF.
    + apply H3. exists i. split_and!; try done. by destruct (update_others i Hio Hin) as [_ <- _].
  - intros b (i & Hio & Hij & Hib). destruct (decide (i = inum)) as [->|Hin].
    + destruct (ow_ids _ _ _ _ _ Hown b Hib) as (? & ? & _). done.
    + apply (ow_F _ _ _ _ _ Hown). exists i. split_and!; try done.
      by destruct (update_others i Hio Hin) as [_ <- _].
Qed.

(** An operation that changed only the file [inum], and left it well formed,
    keeps the invariant. *)
Lemma fs_update : fs_inv s'.
Proof.
  split; [done..|]. intros j Hj. destruct (decide (j = inum)) as [->|Hne]; [|by apply update_own].
  eapply own_ext; [|exact Hown]. intros b. symmetry. apply update_foreign.
Qed.
End update.

(** ** Storing the inode of a file *)

Lemma own_attrs d u ino ino' k F : i_blocks ino' = i_blocks ino -> inode_ok ino' ->
  own d u ino k F -> own d u ino' k F.
Proof.
  intros Hb Hok [A B C D E G].
  assert (ind ino' = ind ino) as Hi by (unfold ind, get_block; by rewrite Hb).
  assert (ids d ino' k = ids d ino k) as He.
  { unfold ids. rewrite Hi. f_equal. unfold data_ids. apply list_fmap_ext. intros i n _.
    unfold bid, get_block. by rewrite Hb, Hi. }
  split; rewrite ?He, ?Hi; done.
Qed.

Lemma data_ids_attrs d ino ino' k : i_blocks ino' = i_blocks ino -> data_ids d ino' k = data_ids d ino k.
Proof.
  intros Hb. unfold data_ids. apply list_fmap_ext. intros i n _.
  unfold bid, ind, get_block. by rewrite Hb.
Qed.

Section files.
Context `{Env}.

Lemma keeps_blk F s s' b : keeps F s s' -> b < FILEBLOCK default_sb \/ F b ->
  blk (bm_d s') b = blk (bm_d s) b.
Proof. intros K. apply K. Qed.

(** The last step of the operations: [put_inode] in a state [s1] whose blocks
    are already those of the inode [ino]. *)
Lemma finish_put s s1 inum ino : fs_inv s -> inum_ok inum ->
  keeps (foreign (bm_d s) inum) s s1 -> inode_ok ino ->
  own (bm_d s1) (using_blocks s1) ino (blocks_num (i_size ino)) (foreign (bm_d s) inum) ->
  exists s', put_inode inum ino s1 = Ok (tt, s') /\ fs_inv s' /\ inode_at (bm_d s') inum = ino /\
    (forall b, 1035 <= b -> blk (bm_d s') b = blk (bm_d s1) b) /\
    using_blocks s' = using_blocks s1 /\
    forall j, inum_ok j -> j <> inum -> same_file (bm_d s) (bm_d s') j.
Proof.
  intros Hinv Hi K Hok Ho.
  assert (bm_sb s1 = default_sb) as Hs1 by (destruct K; rewrite kp_sb0; apply Hinv).
  assert (disk_ok (bm_d s1)) as Hd1 by (apply K, Hinv).
  pose proof (iblock_on_disk inum Hi) as Hon.
  set (d' := disk_write_block (bm_d s1) (11 + inum) (encode_inode ino (blk (bm_d s1) (11 + inum)))).
  assert (forall b, b <> 11 + inum -> blk d' b = blk (bm_d s1) b) as Hne.
  { intros b Hb. unfold d'. rewrite blk_write by done. by rewrite decide_False. }
  assert (inode_at d' inum = ino) as Hino.
  { unfold inode_at, d'. rewrite blk_write, decide_True by done. apply decode_encode; [done | apply Hd1]. }
  unfold inum_ok in Hi. consts.
  set (s' := tick (Bmgr d' (using_blocks s1) (bm_sb s1) (ticks s1))).
  assert (disk_ok d') as Hd'.
  { unfold d'. apply disk_ok_write; [done|]. apply length_encode; [done | apply Hd1]. }
  assert (forall j, inum_ok j -> j <> inum -> blk d' (11 + j) = blk (bm_d s) (11 + j)) as Ht.
  { intros j Hj Hij. rewrite Hne by lia. apply (keeps_blk _ _ _ _ K). left.
    unfold inum_ok in Hj. change (FILEBLOCK default_sb) with 1035. consts. lia. }
  assert (forall b, foreign (bm_d s) inum b -> blk d' b = blk (bm_d s) b) as Hf.
  { intros b Hb. destruct (ow_F _ _ _ _ _ Ho b Hb) as [Hdb _]. rewrite data_block_range in Hdb.
    rewrite Hne by lia. apply (keeps_blk _ _ _ _ K). by right. }
  assert (own d' (using_blocks s1) (inode_at d' inum) (nblk d' inum) (foreign (bm_d s) inum)) as Ho'.
  { unfold nblk. rewrite Hino. eapply own_frame; [exact Ho | |].
    - intros Hind. apply Hne. destruct (own_ind _ _ _ _ _ Ho Hind) as [Hdb _].
      rewrite data_block_range in Hdb. lia.
    - intros b [Hb|Hb]; [by apply (ow_ids _ _ _ _ _ Ho) | by apply (ow_F _ _ _ _ _ Ho)]. }
  exists s'. split; [by apply run_put_inode; [|consts] |].
  split_and!; [by apply (fs_update s s' inum) | done | intros; apply Hne; lia | done|].
  by apply (update_others s s' inum).
Qed.

(** The blocks that writing [size] bytes to [ino] allocates. *)
Definition blocks_needed (ino : inode) (size : Z) : nat :=
  need ino (Z.to_nat (blocks_num size - blocks_num (i_size ino))) (blocks_num (i_size ino)).

Lemma run_resize s ino old new F :
  own (bm_d s) (using_blocks s) ino old F -> bm_sb s = default_sb -> disk_ok (bm_d s) ->
  0 <= new <= MAXFILE -> (need ino (Z.to_nat (new - old)) old <= length (free_blocks s))%nat ->
  exists ino' s',
    (if old <? new then alloc_range (Z.to_nat (new - old)) old ino
     else if new <? old then free_range (Z.to_nat (old - new)) new ino ≫= fun _ => mret ino
     else mret ino) s = Ok (ino', s') /\
    own (bm_d s') (using_blocks s') ino' new F /\ keeps F s s' /\ same_attrs ino ino' /\
    (length (free_blocks s) <= length (free_blocks s') + need ino (Z.to_nat (new - old)) old)%nat.
Proof.
  intros Ho Hs Hd Hn Hneed. destruct (Z.ltb_spec old new); [|destruct (Z.ltb_spec new old)].
  - destruct (run_alloc_range (Z.to_nat (new - old)) s ino old F) as (ino' & s' & E & Ho' & ?);
      [done.. | lia | done|].
    exists ino', s'. by replace (old + Z.of_nat (Z.to_nat (new - old))) with new in Ho' by lia.
  - destruct (run_free_range s ino (Z.to_nat (old - new)) new F) as (s' & E & Hd' & Hs' & Hu' & _ & Ho');
      [by replace (new + _) with old by lia | lia|].
    exists ino, s'. erewrite bind_ok by exact E. split_and!; [done.. | |done|].
    { by split; rewrite ?Hd'. }
    pose proof (free_blocks_mono s s' Hs' Hu'). lia.
  - exists ino, s. assert (new = old) as -> by lia. split_and!; [done.. | lia].
Qed.

Lemma seqZ_1 i : seqZ i 1 = [i].
Proof. rewrite seqZ_cons by lia. by rewrite seqZ_nil. Qed.

Lemma concat_chunks buf n : (n * 512 <= length buf)%nat ->
  concat ((fun i => chunk buf i BLOCK_SIZE) <$> seqZ 0 (Z.of_nat n)) = take (n * 512) buf.
Proof.
  induction n as [|n IH]; intros Hn; [done|].
  replace (Z.of_nat (S n)) with (Z.of_nat n + 1) by lia. rewrite seqZ_app by lia.
  rewrite fmap_app, concat_app, IH by lia. rewrite Z.add_0_l.
  rewrite seqZ_1.
  cbn [fmap list_fmap concat]. rewrite app_nil_r. unfold chunk. consts.
  replace (Z.to_nat (Z.of_nat n * 512)) with (n * 512)%nat by lia.
  rewrite take_take_drop. f_equal. lia.
Qed.

(** The blocks hold [buf] once the whole chunks and the remainder are written. *)
Lemma written_contents (f : Z -> bytes) buf temp : 
  let size := Z.of_nat (length buf) in
  let q := Z.quot size BLOCK_SIZE in let r := Z.rem size BLOCK_SIZE in
  (forall i, 0 <= i < q -> f i = chunk buf i BLOCK_SIZE) ->
  (r <> 0 -> f q = fill (chunk buf q r) temp) ->
  take (length buf) (concat (f <$> seqZ 0 (blocks_num size))) = buf.
Proof.
  intros size q r Hf Hr. consts.
  pose proof (Z.quot_rem size 512 ltac:(lia)) as Hqr. fold q r in Hqr.
  pose proof (Z.rem_bound_pos size 512 ltac:(lia) ltac:(lia)) as Hrb. fold r in Hrb.
  assert (f <$> seqZ 0 q = (fun i => chunk buf i 512) <$> seqZ 0 q) as Hq.
  { apply list_fmap_ext. intros i x Hx%lookup_seqZ. apply Hf. lia. }
  assert (concat (f <$> seqZ 0 q) = take (Z.to_nat q * 512) buf) as Hc.
  { rewrite Hq. replace q with (Z.of_nat (Z.to_nat q)) at 1 by lia. apply concat_chunks. lia. }
  unfold blocks_num. consts. destruct (decide (r = 0)) as [Hr0|Hr0].
  - replace (if size =? 0 then 0 else (size - 1) / 512 + 1) with q.
    + rewrite Hc, take_take. apply take_ge. lia.
    + destruct (Z.eqb_spec size 0) as [H0|H0]; [lia|]. 
      assert ((size - 1) / 512 = q - 1); [|lia]. symmetry. apply (Z.div_unique_pos _ _ _ 511); lia.
  - replace (if size =? 0 then 0 else (size - 1) / 512 + 1) with (q + 1).
    + rewrite seqZ_app, fmap_app, concat_app, Hc by lia. rewrite Z.add_0_l.
      rewrite seqZ_1. cbn [fmap list_fmap concat]. rewrite app_nil_r, Hr by done.
      unfold fill, chunk. consts. rewrite take_app. rewrite take_ge by (rewrite length_take; lia).
      rewrite length_take. rewrite (take_ge (drop _ buf)) by (rewrite length_drop; lia).
      replace (Z.to_nat (q * 512)) with (Z.to_nat q * 512)%nat by lia.
      rewrite take_app_le by (rewrite length_drop; lia).
      rewrite (take_ge (drop _ _)) by (rewrite length_drop; lia). apply take_drop.
    + destruct (Z.eqb_spec size 0) as [H0|H0]; [lia|].
      assert ((size - 1) / 512 = q); [|lia]. symmetry. apply (Z.div_unique_pos _ _ _ (r - 1)); lia.
Qed.

Lemma blocks_num_bounds size : 0 <= size -> 0 <= blocks_num size /\
  size <= blocks_num size * 512 /\ blocks_num size * 512 < size + 512.
Proof.
  intros Hs. unfold blocks_num. consts. destruct (Z.eqb_spec size 0); [lia|].
  pose proof (Z.div_mod (size - 1) 512 ltac:(lia)).
  pose proof (Z.mod_pos_bound (size - 1) 512 ltac:(lia)). lia.
Qed.

(** The data of the whole file is written: the loop and the remainder. *)
Lemma run_write_data s ino F buf temp :
  let size := Z.of_nat (length buf) in
  let q := Z.quot size BLOCK_SIZE in let r := Z.rem size BLOCK_SIZE in
  own (bm_d s) (using_blocks s) ino (blocks_num size) F -> length temp = 512%nat ->
  exists s1 s2, write_blocks ino buf (Z.to_nat q) s = Ok (tt, s1) /\
    (if r =? 0 then mret tt
     else id ← get_nth_blockid ino q; write_block id (fill (chunk buf q r) temp)) s1 = Ok (tt, s2) /\
    written ino F s s2 /\
    take (length buf) (concat (blk (bm_d s2) <$> data_ids (bm_d s) ino (blocks_num size))) = buf.
Proof.
  intros size q r Ho Ht.
  pose proof (Z.quot_rem size 512 ltac:(lia)) as Hqr.
  pose proof (Z.rem_bound_pos size 512 ltac:(lia) ltac:(lia)) as Hrb.
  change (Z.quot size 512) with q in Hqr. change (Z.rem size 512) with r in Hqr, Hrb.
  destruct (blocks_num_bounds size) as (Hb0 & Hb1 & Hb2); [lia|].
  destruct (run_write_blocks s ino (blocks_num size) F buf (Z.to_nat q)) as (s1 & E1 & W1 & C1);
    [done | lia | lia|].
  destruct (written_own _ _ _ _ _ Ho W1) as [Ho1 Hbid].
  assert (exists s2, (if r =? 0 then mret tt
     else id ← get_nth_blockid ino q; write_block id (fill (chunk buf q r) temp)) s1 = Ok (tt, s2) /\
     written ino F s1 s2 /\ (forall m, 0 <= m < q -> blk (bm_d s2) (bid (bm_d s) ino m) = chunk buf m BLOCK_SIZE) /\
     (r <> 0 -> blk (bm_d s2) (bid (bm_d s) ino q) = fill (chunk buf q r) temp)) as (s2 & E2 & W2 & C2 & R2).
  { destruct (Z.eqb_spec r 0) as [Hr|Hr].
    - exists s1. split_and!; [done | by split | intros; apply C1; lia | done].
    - destruct (run_write_nth s1 ino (blocks_num size) F q (fill (chunk buf q r) temp))
        as (s2 & E2 & W2 & C2); [done | lia | |].
      { unfold fill, chunk. rewrite length_app, length_drop, length_take, length_drop. consts. lia. }
      exists s2. split_and!; [done.. | |].
      + intros m Hm. rewrite <- Hbid by lia. rewrite C2 by lia. rewrite decide_False by lia.
        rewrite Hbid by lia. apply C1. lia.
      + intros _. rewrite <- Hbid by lia. rewrite C2 by lia. by rewrite decide_True. }
  exists s1, s2. split_and!; [done.. | by eapply written_trans |].
  unfold data_ids. rewrite <- list_fmap_compose.
  apply (written_contents (blk (bm_d s2) ∘ bid (bm_d s) ino) buf temp); [exact C2 | exact R2].
Qed.

Lemma set_attrs_ok ino n a m c : inode_ok ino -> in_u 32 n -> in_u 32 a -> in_u 32 m -> in_u 32 c ->
  inode_ok (set_times a m c (set_size n ino)).
Proof.
  intros [Ht Hw Hl] Hn Ha Hm Hc. split; [done | | done].
  unfold inode_words in *. apply Forall_app in Hw as [_ Hw]. apply Forall_app. split; [|done].
  simpl. repeat (apply Forall_cons; split; [done|]). apply Forall_nil_2.
Qed.

Lemma u32_range z : in_u 32 (u32 z).
Proof. apply Z.mod_pos_bound. lia. Qed.

Lemma keeps_tick F s : keeps F s (tick s).
Proof. by split. Qed.

(** What [write_file] does, on the state and on its file. *)
(** Writing the block of the inode does not change the blocks of the file. *)
Lemma blocks_put d d' u ino k F : own d u ino k F -> (forall b, 1035 <= b -> blk d' b = blk d b) ->
  data_ids d' ino k = data_ids d ino k /\ blk d' <$> data_ids d ino k = blk d <$> data_ids d ino k.
Proof.
  intros Ho Hb. split; apply list_fmap_ext.
  - intros i n Hn%lookup_seqZ. unfold bid. destruct (Z.ltb_spec n NDIRECT); [done|].
    rewrite Hb; [done|]. destruct (own_ind _ _ _ _ _ Ho) as [Hdb _]; [apply (ow_ind _ _ _ _ _ Ho); lia|].
    rewrite data_block_range in Hdb. lia.
  - intros i b Hib%list_elem_of_lookup_2. apply elem_of_data_ids in Hib as (n & Hn & ->).
    apply Hb. destruct (own_bid _ _ _ _ _ n Ho Hn) as [Hdb _]. rewrite data_block_range in Hdb. lia.
Qed.

Lemma run_write_file s inum buf : fs_inv s -> inum_ok inum ->
  Z.of_nat (length buf) < MAXFILE * BLOCK_SIZE ->
  (blocks_needed (inode_at (bm_d s) inum) (Z.of_nat (length buf)) <= length (free_blocks s))%nat ->
  exists s', write_file inum buf (Z.of_nat (length buf)) s = Ok (tt, s') /\ fs_inv s' /\
    contents (bm_d s') inum = buf /\
    i_type (inode_at (bm_d s') inum) = i_type (inode_at (bm_d s) inum) /\
    i_size (inode_at (bm_d s') inum) = Z.of_nat (length buf) /\
    (length (free_blocks s) <= length (free_blocks s') +
       blocks_needed (inode_at (bm_d s) inum) (Z.of_nat (length buf)))%nat /\
    forall j, inum_ok j -> j <> inum -> same_file (bm_d s) (bm_d s') j.
Proof.
  intros Hinv Hi Hlen Hneed. set (size := Z.of_nat (length buf)) in *.
  pose proof (fs_own _ Hinv inum Hi) as Ho. pose proof (fs_sb _ Hinv) as Hsb.
  pose proof (fs_disk _ Hinv) as Hdk.
  set (ino := inode_at (bm_d s) inum) in *. set (F := foreign (bm_d s) inum) in *.
  assert (0 <= size < 116736) as Hsz by (change (MAXFILE * BLOCK_SIZE) with 116736 in Hlen; lia).
  destruct (blocks_num_bounds size) as (Hb0 & Hb1 & Hb2); [lia|].
  unfold write_file. erewrite bind_ok by reflexivity.
  assert ((0 <=? size) && (u32 size <? MAXFILE * BLOCK_SIZE) = true) as ->.
  { unfold u32. rewrite Z.mod_small by lia. apply andb_true_iff. lia. }
  erewrite bind_ok by reflexivity.
  erewrite bind_ok by (apply run_get_inode; done). cbn [bm_d]. fold ino. cbv beta iota zeta.
  set (s1 := tick _).
  destruct (run_resize s1 ino (nblk (bm_d s) inum) (blocks_num size) F) as (ino2 & s2 & E2 & Ho2 & K2 & A2 & Hf2);
    [done.. | consts; lia | exact Hneed|].
  change (blocks_num (i_size ino)) with (nblk (bm_d s) inum).
  erewrite bind_ok by exact E2. cbv beta.
  destruct (run_write_data s2 ino2 F buf (stack (ticks s))) as (s3 & s4 & E3 & E4 & W & C);
    [done | apply length_stack|].
  erewrite bind_ok by exact E3. erewrite bind_ok by exact E4.
  erewrite bind_ok by reflexivity. erewrite bind_ok by reflexivity. erewrite bind_ok by reflexivity.
  destruct (written_own _ _ _ _ _ Ho2 W) as [Ho4 Hbid].
  set (ino5 := set_times _ _ _ _). set (s5 := Bmgr _ _ _ _).
  assert (inode_ok ino5) as Hok5
    by (apply set_attrs_ok; [apply Ho2 | unfold in_u; lia | apply u32_range..]).
  destruct (finish_put s s5 inum ino5) as (s' & E5 & Hinv' & Hino' & Hb' & Hu' & Hoth); [done.. | |done| |].
  { eapply keeps_trans; [|eapply keeps_trans; [exact K2|]]; [by split|]. 
    destruct W as [K4 _ _]. eapply keeps_trans; [exact K4 | by split]. }
  { eapply own_attrs; [| done | exact Ho4]. done. }
  exists s'. split; [exact E5|]. split; [done|]. rewrite Hino'. split_and!; [| | done | | done].
  - etransitivity; [|exact C]. unfold contents, nblk. rewrite Hino'.
    change (i_size ino5) with size. unfold size at 1. rewrite Nat2Z.id. f_equal. f_equal.
    destruct (blocks_put _ (bm_d s') _ _ _ _ Ho4 Hb') as [Eids Eblk].
    assert (data_ids (bm_d s4) ino2 (blocks_num size) = data_ids (bm_d s2) ino2 (blocks_num size)) as E42
      by (apply list_fmap_ext; intros i n Hn%lookup_seqZ; apply Hbid; lia).
    change (bm_d s5) with (bm_d s4) in *. by rewrite (data_ids_attrs _ ino2), Eids, Eblk, E42 by done.
  - destruct A2 as [A2 _]. exact A2.
  - assert (free_blocks s' = free_blocks s2) as ->; [|exact Hf2]. unfold free_blocks.
    rewrite (fs_sb _ Hinv'), Hu'. change (using_blocks s5) with (using_blocks s4).
    destruct W as [_ -> _], K2 as [-> _ _]. change (bm_sb s1) with (bm_sb s).
    rewrite Hsb. reflexivity.
Qed.

(** A bound that does not depend on the file. *)
Lemma blocks_needed_le ino size : 0 <= size -> 0 <= i_size ino ->
  (blocks_needed ino size <= Z.to_nat (blocks_num size) + 1)%nat.
Proof.
  intros Hs Hi. unfold blocks_needed, need. destruct (blocks_num_bounds (i_size ino) Hi).
  destruct (_ && _); lia.
Qed.

(** ** Reading a file *)

(** Equal but for the number of uses of the surroundings. *)
Definition same_state (s s' : bmgr) : Prop :=
  bm_d s' = bm_d s /\ using_blocks s' = using_blocks s /\ bm_sb s' = bm_sb s.

Lemma fs_inv_same s s' : same_state s s' -> fs_inv s -> fs_inv s'.
Proof. intros (Hd & Hu & Hs) [A B C]. split; rewrite ?Hd, ?Hu, ?Hs; done. Qed.

Lemma run_read_nth s u ino k F i buf : own (bm_d s) u ino k F -> 0 <= i < k ->
  (id ← get_nth_blockid ino i; read_block id buf) s = Ok (blk (bm_d s) (bid (bm_d s) ino i), tick s).
Proof.
  intros Ho Hi. erewrite bind_ok by (by eapply run_get_nth). unfold read_block, disk_read_block.
  by rewrite data_block_on_disk by (by eapply own_bid).
Qed.

Lemma run_read_blocks u ino k F n : forall i s buf out, own (bm_d s) u ino k F ->
  disk_ok (bm_d s) -> 0 <= i -> i + Z.of_nat n <= k ->
  exists s' buf', read_blocks ino n i buf out s =
    Ok ((buf', out ++ concat (blk (bm_d s) <$> (bid (bm_d s) ino <$> seqZ i (Z.of_nat n)))), s') /\
    same_state s s'.
Proof.
  induction n as [|n IH]; intros i s buf out Ho Hd Hi Hn.
  - exists s, buf. simpl. by rewrite app_nil_r.
  - cbn [read_blocks]. rewrite seqZ_S.
    pose proof (run_read_nth s u ino k F i buf Ho ltac:(lia)) as E.
    assert ((b ← (id ← get_nth_blockid ino i; read_block id buf);
             read_blocks ino n (i + 1) b (out ++ take (Z.to_nat BLOCK_SIZE) b)) s =
            (id ← get_nth_blockid ino i; b ← read_block id buf;
             read_blocks ino n (i + 1) b (out ++ take (Z.to_nat BLOCK_SIZE) b)) s) as <-.
    { unfold mbind, M_bind. by destruct (get_nth_blockid ino i s) as [[? ?]|]. }
    erewrite bind_ok by exact E.
    destruct (IH (i + 1) (tick s) (blk (bm_d s) (bid (bm_d s) ino i))
      (out ++ take (Z.to_nat BLOCK_SIZE) (blk (bm_d s) (bid (bm_d s) ino i)))) as (s' & buf' & E' & Hs);
      [done | done | lia | lia|].
    exists s', buf'. split; [|done]. rewrite E'. do 3 f_equal. rewrite <- app_assoc. f_equal.
    rewrite take_ge; [done|]. rewrite Hd. consts. lia.
Qed.

Lemma length_blks d l : disk_ok d -> length (concat (blk d <$> l)) = (length l * 512)%nat.
Proof.
  intros Hd. induction l as [|b l IH]; [done|]. cbn [fmap list_fmap concat]. rewrite length_app, Hd.
  fold (blk d <$> l). rewrite IH. simpl. lia.
Qed.

Lemma run_read_file s inum : fs_inv s -> inum_ok inum ->
  exists s', read_file inum s = Ok (Some (contents (bm_d s) inum), s') /\ same_state s s'.
Proof.
  intros Hinv Hi. pose proof (fs_own _ Hinv inum Hi) as Ho.
  pose proof (fs_sb _ Hinv) as Hsb. pose proof (fs_disk _ Hinv) as Hdk.
  unfold contents. unfold nblk in *. set (ino := inode_at (bm_d s) inum) in *.
  assert (0 <= i_size ino < 2 ^ 32) as Hs0.
  { pose proof (io_words _ (ow_inode _ _ _ _ _ Ho)) as Hw. unfold inode_words in Hw.
    simpl in Hw. by apply Forall_cons in Hw as [? _]. }
  destruct (blocks_num_bounds (i_size ino)) as (Hb0 & Hb1 & Hb2); [lia|].
  pose proof (ow_k _ _ _ _ _ Ho) as Hk. change MAXFILE with 228 in Hk.
  set (size := i_size ino) in *.
  unfold read_file. erewrite bind_ok by reflexivity.
  erewrite bind_ok by (apply run_get_inode; done). cbn [bm_d]. fold ino size. cbv beta iota zeta.
  assert (s32 size = size) as -> by (apply to_signed_id; unfold in_s; simpl; lia).
  assert (u32 size <=? MAXFILE * BLOCK_SIZE = true) as ->.
  { unfold u32. rewrite Z.mod_small by lia. change (MAXFILE * BLOCK_SIZE) with 116736. lia. }
  erewrite bind_ok by reflexivity.
  pose proof (Z.quot_rem size 512 ltac:(lia)) as Hqr.
  pose proof (Z.rem_bound_pos size 512 ltac:(lia) ltac:(lia)) as Hrb.
  change BLOCK_SIZE with 512.
  set (q := Z.quot size 512) in *. set (r := Z.rem size 512) in *.
  set (s1 := tick _).
  destruct (run_read_blocks (using_blocks s) ino (blocks_num size) (foreign (bm_d s) inum) (Z.to_nat q) 0 s1
    (stack (ticks s)) []) as (s2 & buf2 & E2 & Hs2); [done | done | lia | lia|].
  erewrite bind_ok by exact E2. cbv beta iota.
  change (bm_d s1) with (bm_d s) in *. rewrite Z2Nat.id by lia. simpl ([] ++ _).
  assert (length (concat (blk (bm_d s) <$> (bid (bm_d s) ino <$> seqZ 0 q))) = Z.to_nat (q * 512)) as Hlen.
  { rewrite length_blks, length_fmap, length_seqZ by done. lia. }
  unfold data_ids. destruct (Z.eqb_spec r 0) as [Hr|Hr].
  - exists s2. assert (blocks_num size = q) as -> by lia. split; [|done].
    unfold mret, M_ret. rewrite take_ge by lia. done.
  - assert (bm_d s2 = bm_d s) as Hd2 by apply Hs2.
    erewrite (bind_ok (get_nth_blockid ino q)) by (eapply run_get_nth; [rewrite Hd2; exact Ho | lia]).
    unfold read_block at 1. rewrite (bind_ok _ _ _ (blk (bm_d s) (bid (bm_d s) ino q)) (tick s2)).
    2:{ unfold disk_read_block. change (bm_d (tick s2)) with (bm_d s2). rewrite Hd2. by rewrite data_block_on_disk by (eapply own_bid; [exact Ho | lia]). }
    exists (tick s2). split; [|destruct Hs2 as (? & ? & ?); done].
    unfold mret, M_ret. do 3 f_equal. assert (blocks_num size = q + 1) as -> by lia.
    rewrite seqZ_app, !fmap_app, concat_app, Z.add_0_l, seqZ_1 by lia.
    rewrite take_app, Hlen. rewrite (take_ge (concat _)) by lia. f_equal.
    cbn [fmap list_fmap concat]. rewrite app_nil_r. f_equal. lia.
Qed.

(** ** Allocation and release of inodes *)

Lemma cleared_ok ino ty : inode_ok ino -> in_s 16 ty -> inode_ok (Inode ty 0 0 0 0 (i_blocks ino)).
Proof.
  intros [_ Hw Hl] Ht. split; [done | | done]. unfold inode_words in *.
  apply Forall_app in Hw as [_ Hw]. apply Forall_app. split; [|done].
  simpl. repeat (apply Forall_cons; split; [unfold in_u; lia|]). apply Forall_nil_2.
Qed.

(** Storing an inode of size 0 with the blocks of the old one. *)
Lemma run_put_cleared s s1 inum ty k : fs_inv s -> inum_ok inum -> in_s 16 ty ->
  keeps (foreign (bm_d s) inum) s s1 -> 0 <= k ->
  own (bm_d s1) (using_blocks s1) (inode_at (bm_d s) inum) k (foreign (bm_d s) inum) ->
  exists s', put_inode inum (Inode ty 0 0 0 0 (i_blocks (inode_at (bm_d s) inum))) s1 = Ok (tt, s') /\
    fs_inv s' /\ inode_at (bm_d s') inum = Inode ty 0 0 0 0 (i_blocks (inode_at (bm_d s) inum)) /\
    contents (bm_d s') inum = [] /\ using_blocks s' = using_blocks s1 /\
    forall j, inum_ok j -> j <> inum -> same_file (bm_d s) (bm_d s') j.
Proof.
  intros Hinv Hi Hty K Hk Ho. pose proof (ow_inode _ _ _ _ _ Ho) as Hok.
  set (ino0 := Inode ty 0 0 0 0 _). assert (inode_ok ino0) as Hok0 by (by apply cleared_ok).
  destruct (finish_put s s1 inum ino0) as (s' & E & Hinv' & Hino & _ & Hu & Hoth); [done.. | |].
  { change (blocks_num (i_size ino0)) with 0.
    eapply own_attrs; [| done | eapply own_shrink; [exact Ho | lia]]. done. }
  exists s'. split_and!; try done. unfold contents. by rewrite Hino.
Qed.

Lemma run_alloc_inode_from ty n : forall i s, fs_inv s -> 0 <= i <= INODE_NUM ->
  i + Z.of_nat n = INODE_NUM + 1 ->
  (exists j s', i <= j < INODE_NUM /\ i_type (inode_at (bm_d s) j) = 0 /\
     alloc_inode_from ty n i s = Ok (j, s') /\ fs_inv s' /\
     i_type (inode_at (bm_d s') j) = s16 ty /\ contents (bm_d s') j = [] /\
     i_blocks (inode_at (bm_d s') j) = i_blocks (inode_at (bm_d s) j) /\
     using_blocks s' = using_blocks s /\
     forall m, inum_ok m -> m <> j -> same_file (bm_d s) (bm_d s') m) \/
  ((forall j, i <= j < INODE_NUM -> i_type (inode_at (bm_d s) j) <> 0) /\
   alloc_inode_from ty n i s = Crash NullDeref).
Proof.
  induction n as [|n IH]; intros i s Hinv Hi Hn; [lia|]. cbn [alloc_inode_from].
  destruct (decide (i = INODE_NUM)) as [->|Hne].
  { right. split; [lia|]. by erewrite bind_ok by reflexivity. }
  assert (inum_ok i) as Hio by (unfold inum_ok; lia).
  erewrite bind_ok by (apply run_get_inode; [apply Hinv | done]). cbv beta iota.
  destruct (Z.eqb_spec (i_type (inode_at (bm_d s) i)) 0) as [H0|H0].
  - left. destruct (run_put_cleared s (tick s) i (s16 ty) (nblk (bm_d s) i))
      as (s' & E & Hinv' & Hino & Hc & Hu & Hoth);
      [done | done | by apply to_signed_range | by split | apply (ow_k _ _ _ _ _ (fs_own _ Hinv i Hio))
      | exact (fs_own _ Hinv i Hio)|].
    exists i, s'. erewrite bind_ok by exact E. rewrite Hino. split_and!; try done; lia.
  - destruct (IH (i + 1) (tick s)) as [(j & s' & Hj & Hrest)|[Hall Hcr]]; [|lia|lia|..].
    + by eapply fs_inv_same; [|exact Hinv].
    + left. exists j, s'. split; [lia | done].
    + right. split; [|done]. intros j Hj. destruct (decide (j = i)) as [->|]; [done|].
      apply Hall. lia.
Qed.

Lemma run_free_inode s s1 inum k : fs_inv s -> inum_ok inum -> 0 <= k ->
  keeps (foreign (bm_d s) inum) s s1 -> i_type (inode_at (bm_d s) inum) <> 0 ->
  own (bm_d s1) (using_blocks s1) (inode_at (bm_d s) inum) k (foreign (bm_d s) inum) ->
  exists s', free_inode inum s1 = Ok (tt, s') /\ fs_inv s' /\
    inode_at (bm_d s') inum = Inode 0 0 0 0 0 (i_blocks (inode_at (bm_d s) inum)) /\
    contents (bm_d s') inum = [] /\ using_blocks s' = using_blocks s1 /\
    forall j, inum_ok j -> j <> inum -> same_file (bm_d s) (bm_d s') j.
Proof.
  intros Hinv Hi Hk K Ht Ho. unfold free_inode.
  assert (bm_sb s1 = default_sb) as Hs1 by (destruct K; rewrite kp_sb0; apply Hinv).
  erewrite bind_ok by (by apply run_get_inode). cbv beta iota.
  assert (inode_at (bm_d s1) inum = inode_at (bm_d s) inum) as ->.
  { unfold inode_at. rewrite (keeps_blk _ _ _ _ K); [done|]. left. unfold inum_ok in Hi.
    change (FILEBLOCK default_sb) with 1035. consts. lia. }
  destruct (Z.eqb_spec (i_type (inode_at (bm_d s) inum)) 0); [done|]. erewrite bind_ok by reflexivity.
  apply (run_put_cleared s (tick s1) inum 0 k); try done.
  eapply keeps_trans; [exact K | by split].
Qed.

(** Removal of a file that has no block beyond its direct ones. *)
Lemma run_remove_file s inum : fs_inv s -> inum_ok inum -> i_type (inode_at (bm_d s) inum) <> 0 ->
  nblk (bm_d s) inum <= NDIRECT ->
  exists s', remove_file inum s = Ok (tt, s') /\ fs_inv s' /\
    i_type (inode_at (bm_d s') inum) = 0 /\ contents (bm_d s') inum = [] /\
    (forall b, in_use (using_blocks s') b <> 0 -> in_use (using_blocks s) b <> 0) /\
    (forall b, b ∈ data_ids (bm_d s) (inode_at (bm_d s) inum) (nblk (bm_d s) inum) ->
       in_use (using_blocks s') b = 0) /\
    forall j, inum_ok j -> j <> inum -> same_file (bm_d s) (bm_d s') j.
Proof.
  intros Hinv Hi Ht Hn. pose proof (fs_own _ Hinv inum Hi) as Ho.
  pose proof (ow_k _ _ _ _ _ Ho) as Hk.
  unfold remove_file. erewrite bind_ok by (apply run_get_inode; [apply Hinv | done]). cbv beta iota zeta.
  fold (nblk (bm_d s) inum).
  destruct (run_free_range (tick s) (inode_at (bm_d s) inum) (Z.to_nat (nblk (bm_d s) inum)) 0
    (foreign (bm_d s) inum)) as (s1 & E & Hd & Hs & Hu & Hfr & Ho1); [by rewrite Z.add_0_l, Z2Nat.id by lia | lia|].
  erewrite bind_ok by exact E. destruct (Z.ltb_spec NDIRECT (nblk (bm_d s) inum)); [lia|].
  erewrite bind_ok by reflexivity.
  destruct (run_free_inode s s1 inum 0) as (s' & E' & Hinv' & Hino & Hc & Hu' & Hoth); try done.
  { by split; rewrite ?Hd, ?Hs. }
  exists s'. split_and!; try done.
  - by rewrite Hino.
  - intros b. rewrite Hu'. apply Hu.
  - intros b Hb. rewrite Hu'. apply Hfr. by rewrite Z2Nat.id by lia.
Qed.
End files.
