(* ===== verification/FileStore.v ===== *)
(** * The interface between the extent server and the inode layer

    What src/lab41/extent_server.cc uses of [inode_manager]: the operations as a
    class of methods over an abstract store, and what they promise to a client,
    in terms of the type and the contents of each file.  Inode.v provides the
    operations, InodeCorrect.v discharges the laws. *)

From S2P Require Import Prelude Disk Inode.

Class FileStore (S : Type) := {
  im_alloc_inode : Z -> M S Z;
  im_read_file : Z -> M S (option bytes);
  im_write_file : Z -> bytes -> Z -> M S unit;
  im_getattr : Z -> M S (option attr);
  im_remove_file : Z -> M S unit }.

(** The largest file that can be written and the largest that can be removed
    without leaving a stale indirect block behind. *)
Definition max_file : Z := MAXFILE * BLOCK_SIZE.
Definition max_direct : Z := NDIRECT * BLOCK_SIZE.

Definition inum_valid (i : Z) : Prop := 0 <= i < INODE_NUM.

(** [st_file s i] is the type of the file [i] (0 when the inode is free) and its
    contents; [st_free s] the number of blocks left. *)
Class FileStoreOk (S : Type) `{!FileStore S} := {
  st_ok : S -> Prop;
  st_file : S -> Z -> Z * bytes;
  st_free : S -> Z;
  st_write i buf s : st_ok s -> inum_valid i -> Z.of_nat (length buf) < max_file ->
    blocks_num (Z.of_nat (length buf)) + 1 <= st_free s ->
    exists s', im_write_file i buf (Z.of_nat (length buf)) s = Ok (tt, s') /\ st_ok s' /\
      st_file s' i = (fst (st_file s i), buf) /\
      st_free s - (blocks_num (Z.of_nat (length buf)) + 1) <= st_free s' /\
      forall j, inum_valid j -> j <> i -> st_file s' j = st_file s j;
  st_read i s : st_ok s -> inum_valid i ->
    exists s', im_read_file i s = Ok (Some (snd (st_file s i)), s') /\ st_ok s' /\
      st_free s' = st_free s /\ forall j, st_file s' j = st_file s j;
  st_getattr i s : st_ok s -> inum_valid i ->
    exists a s', im_getattr i s = Ok (Some a, s') /\ st_ok s' /\
      a_type a = u32 (fst (st_file s i)) /\ a_size a = Z.of_nat (length (snd (st_file s i))) /\
      st_free s' = st_free s /\ forall j, st_file s' j = st_file s j;
  st_alloc ty s : st_ok s ->
    (exists i s', im_alloc_inode ty s = Ok (i, s') /\ 1 <= i < INODE_NUM /\ st_ok s' /\
       fst (st_file s i) = 0 /\ st_file s' i = (s16 ty, []) /\ st_free s' = st_free s /\
       forall j, inum_valid j -> j <> i -> st_file s' j = st_file s j) \/
    (im_alloc_inode ty s = Crash NullDeref /\
       forall i, 1 <= i < INODE_NUM -> fst (st_file s i) <> 0);
  st_remove i s : st_ok s -> inum_valid i -> fst (st_file s i) <> 0 ->
    Z.of_nat (length (snd (st_file s i))) <= max_direct ->
    exists s', im_remove_file i s = Ok (tt, s') /\ st_ok s' /\
      st_file s' i = (0, []) /\ st_free s <= st_free s' /\
      forall j, inum_valid j -> j <> i -> st_file s' j = st_file s j }.
