(* ===== verification/InodeCorrect.v ===== *)
(** * The inode layer is a file store

    The laws of FileStore.v for the operations of Inode.v, the initial state,
    and the properties of single operations: reading back what was written,
    allocation, removal, and what goes wrong after the removal of a file with
    an indirect block. *)

From S2P Require Import Prelude Disk Inode InodeSpec FileStore.

#[export] Instance inode_store `{Env} : FileStore bmgr := {|
  im_alloc_inode := alloc_inode;
  im_read_file := read_file;
  im_write_file := write_file;
  im_getattr := getattr;
  im_remove_file := remove_file |}.

(** ** The contents have the size of the inode *)

Lemma length_blocks d l : disk_ok d -> length (concat (blk d <$> l)) = (length l * 512)%nat.
Proof.
  intros Hd. induction l as [|b l IH]; [done|]. cbn [fmap list_fmap concat].
  rewrite length_app, Hd. fold (blk d <$> l). rewrite IH. simpl. lia.
Qed.

Lemma inode_size_range d inum : 0 <= i_size (inode_at d inum) < 2 ^ 32.
Proof. unfold inode_at. simpl. apply word_at_range. Qed.

Lemma length_contents d inum : disk_ok d ->
  Z.of_nat (length (contents d inum)) = i_size (inode_at d inum).
Proof.
  intros Hd. pose proof (inode_size_range d inum).
  destruct (blocks_num_bounds (i_size (inode_at d inum))) as (? & ? & ?); [lia|].
  unfold contents. rewrite length_take, length_blocks by done.
  unfold data_ids, nblk. rewrite length_fmap, length_seqZ. lia.
Qed.

Definition file_of (s : bmgr) (i : Z) : Z * bytes :=
  (i_type (inode_at (bm_d s) i), contents (bm_d s) i).

Lemma file_of_same s s' j : same_file (bm_d s) (bm_d s') j -> file_of s' j = file_of s j.
Proof. intros [Hi _ Hc]. unfold file_of. by rewrite Hi, Hc. Qed.

Lemma file_of_state s s' j : same_state s s' -> file_of s' j = file_of s j.
Proof. intros (Hd & _). unfold file_of. by rewrite Hd. Qed.

Lemma free_of_state s s' : same_state s s' -> free_blocks s' = free_blocks s.
Proof. intros (_ & Hu & Hs). unfold free_blocks. by rewrite Hu, Hs. Qed.

Section laws.
Context `{Env}.

Lemma write_law i buf s : fs_inv s -> inum_valid i -> Z.of_nat (length buf) < max_file ->
  blocks_num (Z.of_nat (length buf)) + 1 <= Z.of_nat (length (free_blocks s)) ->
  exists s', write_file i buf (Z.of_nat (length buf)) s = Ok (tt, s') /\ fs_inv s' /\
    file_of s' i = (fst (file_of s i), buf) /\
    Z.of_nat (length (free_blocks s)) - (blocks_num (Z.of_nat (length buf)) + 1) <=
      Z.of_nat (length (free_blocks s')) /\
    forall j, inum_valid j -> j <> i -> file_of s' j = file_of s j.
Proof.
  intros Hinv Hi Hlen Hfree. pose proof (inode_size_range (bm_d s) i).
  destruct (blocks_num_bounds (Z.of_nat (length buf))) as (? & _ & _); [lia|].
  pose proof (blocks_needed_le (inode_at (bm_d s) i) (Z.of_nat (length buf)) ltac:(lia) ltac:(lia)).
  destruct (run_write_file s i buf) as (s' & E & Hinv' & Hc & Ht & _ & Hf & Hoth); [done.. | lia|].
  exists s'. split_and!; [done.. | | lia |].
  - unfold file_of. by rewrite Hc, Ht.
  - intros j Hj Hne. by apply file_of_same, Hoth.
Qed.

Lemma getattr_law i s : fs_inv s -> inum_valid i ->
  exists a s', getattr i s = Ok (Some a, s') /\ fs_inv s' /\
    a_type a = u32 (fst (file_of s i)) /\ a_size a = Z.of_nat (length (snd (file_of s i))) /\
    free_blocks s' = free_blocks s /\ forall j, file_of s' j = file_of s j.
Proof.
  intros Hinv Hi. unfold getattr.
  erewrite bind_ok by (apply run_get_inode; [apply Hinv | done]). cbv beta iota.
  eexists _, _. split; [reflexivity|]. split; [by eapply fs_inv_same; [|exact Hinv]|].
  simpl. rewrite length_contents by apply Hinv. done.
Qed.

Lemma alloc_law ty s : fs_inv s ->
  (exists i s', alloc_inode ty s = Ok (i, s') /\ 1 <= i < INODE_NUM /\ fs_inv s' /\
     fst (file_of s i) = 0 /\ file_of s' i = (s16 ty, []) /\
     free_blocks s' = free_blocks s /\
     forall j, inum_valid j -> j <> i -> file_of s' j = file_of s j) \/
  (alloc_inode ty s = Crash NullDeref /\
     forall i, 1 <= i < INODE_NUM -> fst (file_of s i) <> 0).
Proof.
  intros Hinv. unfold alloc_inode.
  destruct (run_alloc_inode_from ty (Z.to_nat INODE_NUM) 1 s Hinv)
    as [(i & s' & Hi & H0 & E & Hinv' & Ht & Hc & _ & Hu & Hoth)|[Hall Hcr]]; [consts; lia | consts; lia | |].
  - left. exists i, s'. split_and!; try done; try lia.
    + unfold file_of. by rewrite Ht, Hc.
    + unfold free_blocks. rewrite (fs_sb _ Hinv), (fs_sb _ Hinv'), Hu. reflexivity.
    + intros j Hj Hne. by apply file_of_same, Hoth.
  - right. split; [done|]. intros i Hi. by apply Hall.
Qed.

Lemma remove_law i s : fs_inv s -> inum_valid i -> fst (file_of s i) <> 0 ->
  Z.of_nat (length (snd (file_of s i))) <= max_direct ->
  exists s', remove_file i s = Ok (tt, s') /\ fs_inv s' /\ file_of s' i = (0, []) /\
    Z.of_nat (length (free_blocks s)) <= Z.of_nat (length (free_blocks s')) /\
    forall j, inum_valid j -> j <> i -> file_of s' j = file_of s j.
Proof.
  intros Hinv Hi Ht Hlen. simpl in Hlen. rewrite length_contents in Hlen by apply Hinv.
  pose proof (inode_size_range (bm_d s) i).
  destruct (blocks_num_bounds (i_size (inode_at (bm_d s) i))) as (? & ? & ?); [lia|].
  change max_direct with 51200 in Hlen.
  destruct (run_remove_file s i) as (s' & E & Hinv' & Ht0 & Hc & Hmono & _ & Hoth); [done.. | |].
  { unfold nblk. consts. lia. }
  exists s'. split_and!; [done.. | | |].
  - unfold file_of. by rewrite Ht0, Hc.
  - apply inj_le, free_blocks_mono; [|done]. rewrite (fs_sb _ Hinv), (fs_sb _ Hinv'). reflexivity.
  - intros j Hj Hne. by apply file_of_same, Hoth.
Qed.

#[export] Program Instance inode_store_ok : FileStoreOk bmgr := {|
  st_ok := fs_inv;
  st_file := file_of;
  st_free s := Z.of_nat (length (free_blocks s));
  st_write := write_law;
  st_remove := remove_law |}.
Next Obligation.
  intros i s Hinv Hi. destruct (run_read_file s i Hinv Hi) as (s' & E & Hs).
  exists s'. split_and!; [done | by eapply fs_inv_same | by rewrite (free_of_state s s') |].
  intros j. by apply file_of_state.
Qed.
Next Obligation.
  intros i s Hinv Hi. destruct (getattr_law i s Hinv Hi) as (a & s' & E & ? & ? & ? & Hf & ?).
  exists a, s'. split_and!; try done. by rewrite Hf.
Qed.
Next Obligation.
  intros ty s Hinv. destruct (alloc_law ty s Hinv) as [(i & s' & E & ? & ? & ? & ? & Hf & ?)|?]; [left|by right].
  exists i, s'. split_and!; try done; try lia. by rewrite Hf.
Qed.
End laws.

(** ** The initial state *)

Lemma in_use_mark n : forall i u b,
  in_use (mark_used n i u) b = if decide (i <= b < i + Z.of_nat n) then 1 else in_use u b.
Proof.
  induction n as [|n IH]; intros i u b; cbn [mark_used].
  - by rewrite decide_False by lia.
  - rewrite IH, in_use_insert. repeat case_decide; try done; lia.
Qed.

Lemma length_sb_bytes sb junk : (500 <= length junk)%nat -> length (sb_bytes sb junk) = 512%nat.
Proof. intros. unfold sb_bytes. rewrite !length_app, length_take, !length_le_enc. lia. Qed.

Lemma zero_inode : decode_inode zero_block = Inode 0 0 0 0 0 (replicate 101 0).
Proof. vm_compute. reflexivity. Qed.

Section init.
Context (junk : bytes) (Hjunk : (500 <= length junk)%nat).

Lemma inode_at_new inum : inum_ok inum ->
  inode_at (bm_d (new_bmgr junk)) inum = Inode 0 0 0 0 0 (replicate 101 0).
Proof.
  intros Hi. unfold inum_ok in Hi. consts. unfold inode_at. cbn [bm_d new_bmgr].
  rewrite blk_write by done. rewrite decide_False by lia. apply zero_inode.
Qed.

Lemma file_ids_new inum : inum_ok inum -> file_ids (bm_d (new_bmgr junk)) inum = [].
Proof. intros Hi. unfold file_ids, nblk. rewrite inode_at_new by done. reflexivity. Qed.

Lemma fs_inv_new : fs_inv (new_bmgr junk).
Proof.
  assert (disk_ok (bm_d (new_bmgr junk))) as Hd.
  { apply disk_ok_write; [|by apply length_sb_bytes]. intros id. unfold blk, new_disk.
    by rewrite lookup_empty. }
  split; [done | done|]. intros inum Hi. pose proof (file_ids_new inum Hi) as Hids.
  unfold file_ids in Hids. unfold nblk in *. rewrite inode_at_new in * by done.
  change (blocks_num (i_size (Inode 0 0 0 0 0 (replicate 101 0)))) with 0 in *.
  split; rewrite ?Hids.
  - rewrite <- zero_inode. apply decode_ok.
  - consts; lia.
  - consts; lia.
  - intros b Hb. by apply elem_of_nil in Hb.
  - constructor.
  - intros b (j & Hj & _ & Hb). rewrite file_ids_new in Hb by done. by apply elem_of_nil in Hb.
Qed.

Lemma free_blocks_new : free_blocks (new_bmgr junk) = seqZ 1035 31733.
Proof.
  unfold free_blocks, free_list, new_bmgr. cbn [using_blocks bm_sb].
  change (FILEBLOCK default_sb) with 1035. change BLOCK_NUM with 32768.
  rewrite Z2Nat.id by lia. change (32768 - 1035) with 31733.
  rewrite (filter_ext_elem _ (fun _ => True)).
  - induction (seqZ 1035 31733) as [|x l IH]; [done|]. rewrite filter_cons, decide_True by done. by f_equal.
  - intros x Hx%elem_of_seqZ. rewrite in_use_mark, Z2Nat.id by lia. rewrite decide_False by lia. done.
Qed.
End init.

(** ** An environment for closed runs *)

Definition zero_env : Env := {|
  clock := fun n => Z.of_nat n;
  stack := fun _ => replicate 512 x00;
  length_stack := fun _ => eq_refl |}.

Lemma inum_ok_1 : inum_ok 1.
Proof. unfold inum_ok. consts. lia. Qed.

(** A constructed file system satisfies the invariant, has an empty root
    directory at inode 1, every other inode free and every data block free. *)
Lemma new_inode_manager_run `{Env} junk : (500 <= length junk)%nat ->
  exists s, new_inode_manager junk = Ok s /\ fs_inv s /\
    file_of s 1 = (extent_types.T_DIR, []) /\
    (forall j, inum_valid j -> j <> 1 -> file_of s j = (0, [])) /\
    free_blocks s = seqZ 1035 31733.
Proof.
  intros Hj. pose proof (fs_inv_new junk Hj) as Hinv.
  assert (forall j, inum_valid j -> file_of (new_bmgr junk) j = (0, [])) as Hnew.
  { intros j Hv. unfold file_of, contents. by rewrite inode_at_new. }
  unfold new_inode_manager.
  destruct (run_alloc_inode_from extent_types.T_DIR (Z.to_nat INODE_NUM) 1 (new_bmgr junk) Hinv)
    as [(i & s' & Hi & H0 & E & Hinv' & Ht & Hc & _ & Hu & Hoth)|[Hall _]]; [consts; lia | consts; lia | |].
  2:{ exfalso. apply (Hall 1); [consts; lia|]. rewrite (inode_at_new junk Hj) by apply inum_ok_1. done. }
  assert (i = 1) as ->.
  { change (Z.to_nat INODE_NUM) with (S (Z.to_nat 1023)) in E. cbn [alloc_inode_from] in E.
    erewrite bind_ok in E by (apply run_get_inode; [done | apply inum_ok_1]).
    rewrite (inode_at_new junk Hj) in E by apply inum_ok_1. cbn [i_type Z.eqb] in E.
    inv_bind E. by injection E. }
  unfold alloc_inode. rewrite E. exists s'.
  split; [reflexivity|]. split; [exact Hinv'|]. split; [|split].
  - unfold file_of. rewrite Ht, Hc. reflexivity.
  - intros j Hv Hne. erewrite file_of_same by (by apply Hoth). by apply Hnew.
  - rewrite <- (free_blocks_new junk Hj). unfold free_blocks. rewrite (fs_sb _ Hinv'), Hu. reflexivity.
Qed.

(** ** Refinement of an abstract file map *)

Section refinement.
Context {S : Type} `{FileStoreOk S}.

Inductive fop :=
  | OpAlloc (ty : Z)
  | OpRead (i : Z)
  | OpWrite (i : Z) (buf : bytes)
  | OpGetattr (i : Z)
  | OpRemove (i : Z).

Inductive fret :=
  | RInum (i : Z)
  | RData (b : option bytes)
  | RAttr (a : option attr)
  | RUnit.

Definition run_op (op : fop) : M S fret :=
  match op with
  | OpAlloc ty => i ← im_alloc_inode ty; mret (RInum i)
  | OpRead i => b ← im_read_file i; mret (RData b)
  | OpWrite i buf => im_write_file i buf (Z.of_nat (length buf)) ≫= fun _ => mret RUnit
  | OpGetattr i => a ← im_getattr i; mret (RAttr a)
  | OpRemove i => im_remove_file i ≫= fun _ => mret RUnit
  end.

Fixpoint run_ops (ops : list fop) : M S (list fret) :=
  match ops with
  | [] => mret []
  | op :: ops' => r ← run_op op; rs ← run_ops ops'; mret (r :: rs)
  end.

(** The abstract state: the type and contents of each file. *)
Definition fmap_t : Type := Z -> Z * bytes.

Definition agree_but (a a' : fmap_t) (i : Z) : Prop :=
  forall j, inum_valid j -> j <> i -> a' j = a j.
Definition agree (a a' : fmap_t) : Prop := forall j, inum_valid j -> a' j = a j.

Inductive spec_op (a : fmap_t) : fop -> fret -> fmap_t -> Prop :=
  | spec_alloc ty i a' : 1 <= i < INODE_NUM -> fst (a i) = 0 -> a' i = (s16 ty, []) ->
      agree_but a a' i -> spec_op a (OpAlloc ty) (RInum i) a'
  | spec_read i a' : agree a a' -> spec_op a (OpRead i) (RData (Some (snd (a i)))) a'
  | spec_write i buf a' : a' i = (fst (a i), buf) -> agree_but a a' i ->
      spec_op a (OpWrite i buf) RUnit a'
  | spec_getattr i at_ a' : a_type at_ = u32 (fst (a i)) ->
      a_size at_ = Z.of_nat (length (snd (a i))) -> agree a a' ->
      spec_op a (OpGetattr i) (RAttr (Some at_)) a'
  | spec_remove i a' : a' i = (0, []) -> agree_but a a' i -> spec_op a (OpRemove i) RUnit a'.

Inductive spec_run : fmap_t -> list fop -> list fret -> fmap_t -> Prop :=
  | spec_nil a : spec_run a [] [] a
  | spec_cons a op r a1 ops rs a2 : spec_op a op r a1 -> spec_run a1 ops rs a2 ->
      spec_run a (op :: ops) (r :: rs) a2.

(** When an operation may be called. *)
(** When an operation does what the map does.  A removed file has no indirect
    block: [remove_file] would leave its number in the inode. *)
Definition op_pre (a : fmap_t) (op : fop) : Prop :=
  match op with
  | OpAlloc _ => exists i, 1 <= i < INODE_NUM /\ fst (a i) = 0
  | OpRead i | OpGetattr i => inum_valid i
  | OpWrite i buf => inum_valid i /\ Z.of_nat (length buf) < max_file
  | OpRemove i => inum_valid i /\ fst (a i) <> 0 /\ Z.of_nat (length (snd (a i))) <= max_direct
  end.

(** Each operation may be called in every state the specification allows. *)
Fixpoint pre_run (a : fmap_t) (ops : list fop) : Prop :=
  match ops with
  | [] => True
  | op :: ops' => op_pre a op /\ forall r a', spec_op a op r a' -> pre_run a' ops'
  end.

(** An upper bound on the blocks a sequence takes. *)
Definition op_cost (op : fop) : Z :=
  match op with OpWrite _ buf => blocks_num (Z.of_nat (length buf)) + 1 | _ => 0 end.
Definition ops_cost (ops : list fop) : Z := foldr (fun op n => op_cost op + n) 0 ops.

Lemma ops_cost_nonneg ops : 0 <= ops_cost ops.
Proof.
  induction ops as [|op ops IH]; simpl; [lia|]. destruct op; simpl; try lia.
  destruct (blocks_num_bounds (Z.of_nat (length buf))) as (? & _); lia.
Qed.

Lemma run_op_refines op s : st_ok s -> op_pre (st_file s) op -> op_cost op <= st_free s ->
  exists r s', run_op op s = Ok (r, s') /\ st_ok s' /\ spec_op (st_file s) op r (st_file s') /\
    st_free s - op_cost op <= st_free s'.
Proof.
  intros Hok Hpre Hc. destruct op as [ty|i|i buf|i|i]; simpl in *.
  - destruct Hpre as (i0 & Hi0 & Hz0).
    destruct (st_alloc ty s Hok) as [(i & s' & E & Hi & Hok' & Hz & Hf & Hfr & Hoth)|[_ Hall]];
      [|by destruct (Hall i0)].
    exists (RInum i), s'. erewrite bind_ok by exact E. split_and!; [done.. | by econstructor | lia].
  - destruct (st_read i s Hok Hpre) as (s' & E & Hok' & Hfr & Hoth).
    eexists _, s'. erewrite bind_ok by exact E. split_and!; [done.. | by constructor; intros j _ | lia].
  - destruct Hpre as [Hi Hlen]. destruct (st_write i buf s Hok Hi Hlen Hc) as (s' & E & Hok' & Hf & Hfr & Hoth).
    exists RUnit, s'. erewrite bind_ok by exact E. split_and!; [done.. | by constructor | lia].
  - destruct (st_getattr i s Hok Hpre) as (a & s' & E & Hok' & Ht & Hs & Hfr & Hoth).
    eexists _, s'. erewrite bind_ok by exact E.
    split_and!; [done.. | by constructor; [..|intros j _] | lia].
  - destruct Hpre as (Hi & Ht & Hlen). destruct (st_remove i s Hok Hi Ht Hlen) as (s' & E & Hok' & Hf & Hfr & Hoth).
    exists RUnit, s'. erewrite bind_ok by exact E. split_and!; [done.. | by constructor | lia].
Qed.

Lemma run_ops_refines ops : forall s, st_ok s -> pre_run (st_file s) ops -> ops_cost ops <= st_free s ->
  exists rs s', run_ops ops s = Ok (rs, s') /\ st_ok s' /\ spec_run (st_file s) ops rs (st_file s').
Proof.
  induction ops as [|op ops IH]; intros s Hok Hpre Hc.
  { exists [], s. split_and!; [done.. | constructor]. }
  simpl in Hpre, Hc. destruct Hpre as [Hop Hrest]. pose proof (ops_cost_nonneg ops).
  destruct (run_op_refines op s Hok Hop ltac:(lia)) as (r & s1 & E1 & Hok1 & Hs1 & Hf1).
  destruct (IH s1 Hok1) as (rs & s2 & E2 & Hok2 & Hs2); [by eapply Hrest | lia|].
  exists (r :: rs), s2. cbn [run_ops]. erewrite bind_ok by exact E1. erewrite bind_ok by exact E2.
  split_and!; [done.. | by econstructor].
Qed.
End refinement.

(** ** Properties *)

Section properties.
Context `{Env}.

(** C3. The inode layer refines an abstract map from inode numbers to a type and
    contents: a sequence of operations runs to its end and returns and stores
    what the same sequence does on the map, as long as there is a free inode for
    each allocation, the writes are of fewer than 228 blocks and the disk has
    free blocks for all of them, and only files of at most 100 blocks are
    removed.  The last is no limit of the disk: [remove_file] of a larger file
    leaves the number of its freed indirect block in the inode, and the contract
    fails ([stale_indirect_block_corrupts]). *)
Theorem fs_refines (ops : list fop) (s : bmgr) :
  fs_inv s -> pre_run (file_of s) ops -> ops_cost ops <= Z.of_nat (length (free_blocks s)) ->
  exists rs s', run_ops ops s = Ok (rs, s') /\ fs_inv s' /\
    spec_run (file_of s) ops rs (file_of s').
Proof. intros Hinv Hpre Hc. exact (run_ops_refines ops s Hinv Hpre Hc). Qed.


(** [alloc_inode] hands out the number of a free inode and makes it an empty
    file of the given type; when all of 1..1023 are taken it does not return 1 as
    its last line intends but dereferences the null pointer [get_inode] gives for
    inode 1024. *)
Lemma alloc_inode_free_or_crash (ty : Z) (s : bmgr) :
  fs_inv s ->
  (exists i s', alloc_inode ty s = Ok (i, s') /\ 1 <= i < INODE_NUM /\ fs_inv s' /\
     fst (file_of s i) = 0 /\ file_of s' i = (s16 ty, []) /\
     forall j, inum_valid j -> j <> i -> file_of s' j = file_of s j) \/
  (alloc_inode ty s = Crash NullDeref /\
     forall i, 1 <= i < INODE_NUM -> fst (file_of s i) <> 0).
Proof.
  intros Hinv. destruct (alloc_law ty s Hinv) as [(i & s' & ? & ? & ? & ? & ? & _ & ?)|?]; [|by right].
  left. exists i, s'. by split_and!; try lia.
Qed.

(** [remove_file] of an allocated file of at most 100 blocks frees its inode
    and each of its data blocks and leaves every other file as it was. *)
Lemma remove_file_frees (s : bmgr) (i : Z) :
  fs_inv s -> inum_valid i -> i_type (inode_at (bm_d s) i) <> 0 -> nblk (bm_d s) i <= NDIRECT ->
  exists s', remove_file i s = Ok (tt, s') /\ fs_inv s' /\ file_of s' i = (0, []) /\
    (forall b, b ∈ data_ids (bm_d s) (inode_at (bm_d s) i) (nblk (bm_d s) i) ->
       in_use (using_blocks s') b = 0) /\
    forall j, inum_valid j -> j <> i -> file_of s' j = file_of s j.
Proof.
  intros Hinv Hi Ht Hn.
  destruct (run_remove_file s i Hinv Hi Ht Hn) as (s' & E & Hinv' & Ht' & Hc & _ & Hfr & Hoth).
  exists s'. split; [exact E|]. split; [exact Hinv'|]. split; [unfold file_of; by rewrite Ht', Hc|].
  split; [exact Hfr|]. intros j Hj Hne. by apply file_of_same, Hoth.
Qed.
End properties.

(** ** Closed runs *)

Section samples.
#[local] Existing Instance zero_env.

Definition fresh_fs : bmgr := new_bmgr (replicate 500 x00).

Lemma fresh_inv : fs_inv fresh_fs.
Proof. by apply fs_inv_new. Qed.

Lemma fresh_free : Z.of_nat (length (free_blocks fresh_fs)) = 31733.
Proof. unfold fresh_fs. rewrite (free_blocks_new (replicate 500 x00) (le_n 500)). by rewrite length_seqZ. Qed.

Lemma fresh_file i : inum_valid i -> file_of fresh_fs i = (0, []).
Proof.
  intros Hv. unfold file_of, contents, fresh_fs.
  by rewrite (inode_at_new (replicate 500 x00) (le_n 500)).
Qed.

Lemma inum_valid_5 : inum_valid 5.
Proof. unfold inum_valid. consts. lia. Qed.

Definition sample_ops : list fop :=
  [OpAlloc extent_types.T_FILE; OpWrite 5 (str "hello"); OpRead 5].

Lemma fs_refines_witness :
  exists rs s', run_ops sample_ops fresh_fs = Ok (rs, s') /\ fs_inv s' /\
    spec_run (file_of fresh_fs) sample_ops rs (file_of s').
Proof.
  apply (fs_refines sample_ops fresh_fs); [apply fresh_inv | | rewrite fresh_free; vm_compute; discriminate].
  cbn [pre_run sample_ops op_pre]. split_and!.
  - exists 5. split; [consts; lia|]. by rewrite fresh_file by apply inum_valid_5.
  - intros _ a _. split; [split; [apply inum_valid_5 | vm_compute; reflexivity]|].
    intros _ a' _. split; [apply inum_valid_5 | done].
Defined.


Lemma alloc_inode_free_or_crash_witness :
  exists i s', alloc_inode extent_types.T_FILE fresh_fs = Ok (i, s') /\ 1 <= i < INODE_NUM /\
    file_of s' i = (extent_types.T_FILE, []).
Proof.
  destruct (alloc_inode_free_or_crash extent_types.T_FILE fresh_fs fresh_inv)
    as [(i & s' & E & Hi & _ & _ & Hf & _)|[_ Hall]].
  - exists i, s'. split_and!; [exact E | apply Hi | apply Hi | exact Hf].
  - destruct (Hall 5); [consts; lia|]. by rewrite fresh_file by apply inum_valid_5.
Defined.

(** A file system with an empty root directory, inode 1. *)
Definition one_file_fs : bmgr :=
  match alloc_inode extent_types.T_DIR fresh_fs with Ok (_, s) => s | Crash _ => fresh_fs end.

Lemma one_file_inv : fs_inv one_file_fs /\ file_of one_file_fs 1 = (extent_types.T_DIR, []) /\
  (forall j, inum_valid j -> j <> 1 -> file_of one_file_fs j = (0, [])) /\
  Z.of_nat (length (free_blocks one_file_fs)) = 31733.
Proof.
  unfold one_file_fs.
  destruct (alloc_law extent_types.T_DIR fresh_fs fresh_inv)
    as [(i & s' & E & Hi & Hinv & _ & Hf & Hfr & Hoth)|[E Hall]].
  - assert (match alloc_inode extent_types.T_DIR fresh_fs with
            | Ok (i, _) => i =? 1 | Crash _ => false end = true) as Hc by (vm_compute; reflexivity).
    rewrite E in *. assert (i = 1) as -> by lia. split; [exact Hinv|]. split; [exact Hf|].
    split; [|rewrite Hfr; exact fresh_free]. intros j Hj Hne. rewrite Hoth by done. by apply fresh_file.
  - destruct (Hall 5); [consts; lia|]. by rewrite fresh_file by apply inum_valid_5.
Qed.

Lemma remove_file_frees_witness :
  exists s', remove_file 1 one_file_fs = Ok (tt, s') /\ fs_inv s' /\ file_of s' 1 = (0, []).
Proof.
  destruct (remove_file_frees one_file_fs 1) as (s' & E & Hinv & Hf & _).
  - apply one_file_inv.
  - apply inum_ok_1.
  - vm_compute. discriminate.
  - vm_compute. discriminate.
  - exists s'. split; [exact E|]. split; [exact Hinv | exact Hf].
Defined.

(** ** After the removal of a file with an indirect block *)

(** Two files of 101 blocks each. *)
Definition big (c : byte) : bytes := replicate 51201 c.

(** A file of 101 blocks is written and removed, its inode is given to a new
    file [b], a third file [c] is written, then [b]; [c] is read. *)
Definition stale_run : M bmgr (option bytes) :=
  a ← alloc_inode extent_types.T_FILE;
  write_file a (big x61) 51201 ≫= fun _ =>
  remove_file a ≫= fun _ =>
  b ← alloc_inode extent_types.T_FILE;
  c ← alloc_inode extent_types.T_FILE;
  write_file c (big x63) 51201 ≫= fun _ =>
  write_file b (big x62) 51201 ≫= fun _ =>
  read_file c.

Definition last_of (r : res (option bytes * bmgr)) : option byte :=
  match r with Ok (Some l, _) => last l | _ => None end.

(** Removing a file of more than 100 blocks leaves the number of its freed
    indirect block in the inode ([bzero] clears a copy that is never stored):
    when the inode is used again and the block has gone to another file, a write
    to the one changes the bytes of the other. *)
Lemma stale_indirect_block_corrupts :
  exists l s, stale_run fresh_fs = Ok (Some l, s) /\ l <> big x63.
Proof.
  assert (last_of (stale_run fresh_fs) = Some x62) as Hl by (vm_compute; reflexivity).
  unfold last_of in Hl. destruct (stale_run fresh_fs) as [[[l|] s]|]; try discriminate.
  exists l, s. split; [reflexivity|]. intros ->. vm_compute in Hl. discriminate.
Qed.
End samples.
