(* ===== verification/Services.v ===== *)
(** * The services of the program and their wire types

    Which procedures the servers register and with which parameter types
    (src/lab41/extent_smain.cc, lock_smain.cc, ydb_smain.cc, demo_server.cc, the
    constructors of extent_client and lock_client_cache), and which calls the
    clients make (extent_client.cc, extent_server.cc, lock_client.cc,
    lock_client_cache.cc, lock_server_cache.cc, ydb_client.cc, demo_client.cc).
    The templates of rpc.h do not relate the two: a request is only bytes. *)

From S2P Require Import Prelude Marshall RpcServer RpcClient Rpc RpcSystem RemoteCall Disk Inode.

(** ** Wire types *)

(** The types that occur in remote methods: [int], [unsigned int] and [uint32_t],
    [unsigned long long], [std::string], [extent_protocol::attr]. *)
Inductive wty := WInt | WUint | WUll | WString | WAttr.

#[export] Instance wty_eq_dec : EqDecision wty.
Proof. solve_decision. Defined.

Definition wtype (t : wty) : Type :=
  match t with WInt | WUint | WUll => Z | WString => bytes | WAttr => attr end.

Section attr.
Context `{Mem}.

(** [operator<<] and [operator>>] of [extent_protocol::attr] *)
Definition m_put_attr (a : attr) : M marshall unit :=
  m_put_u32 (a_type a) ≫= fun _ => m_put_u32 (a_atime a) ≫= fun _ =>
  m_put_u32 (a_mtime a) ≫= fun _ => m_put_u32 (a_ctime a) ≫= fun _ => m_put_u32 (a_size a).
Definition u_get_attr : M unmarshall attr :=
  ty ← u_get_u32; at_ ← u_get_u32; mt ← u_get_u32; ct ← u_get_u32; sz ← u_get_u32;
  mret (Attr ty at_ mt ct sz).

Definition attr_valid (a : attr) : Prop :=
  in_u 32 (a_type a) /\ in_u 32 (a_atime a) /\ in_u 32 (a_mtime a) /\ in_u 32 (a_ctime a) /\
  in_u 32 (a_size a).

Definition c_attr : codec attr :=
  Codec m_put_attr u_get_attr attr_valid
    (fun a => be32 (a_type a) ++ be32 (a_atime a) ++ be32 (a_mtime a) ++ be32 (a_ctime a) ++
              be32 (a_size a)).

Lemma reads_word x : in_u 32 x -> reads (be32 x) u_get_u32 x.
Proof. intros Hx. apply (codec_reads (c := c_u32) x Hx). Qed.

#[export] Instance c_attr_ok : CodecOk c_attr.
Proof.
  split; intros a Ha; cbn [c_put c_get c_wire c_valid c_attr] in *.
  - unfold m_put_attr. auto 10 using writes_app, writes_be32.
  - destruct a as [ty at_ mt ct sz], Ha as (? & ? & ? & ? & ?).
    cbn [a_type a_atime a_mtime a_ctime a_size] in *.
    do 4 (eapply reads_bind; [by apply reads_word|]).
    eapply (reads_map _ _ (fun sz => Attr _ _ _ _ sz)). by apply reads_word.
Qed.

Definition wcodec (t : wty) : codec (wtype t) :=
  match t with
  | WInt => c_s32 | WUint => c_u32 | WUll => c_u64 | WString => c_string | WAttr => c_attr
  end.

#[export] Instance wcodec_ok t : CodecOk (wcodec t).
Proof. destruct t; apply _. Qed.

Definition wparams (ts : list wty) : list param := (fun t => Param (wtype t) (wcodec t)) <$> ts.

#[export] Instance wparams_ok ts : ParamsOk (wparams ts).
Proof. apply Forall_fmap, Forall_true. intros t. apply wcodec_ok. Qed.
End attr.

(** ** Signatures *)

(** A remote method or a call of one: the procedure number, the types of the
    arguments and the type of the reply. *)
Record signature := Sig { sg_proc : Z; sg_args : list wty; sg_ret : wty }.

#[export] Instance signature_eq_dec : EqDecision signature.
Proof. solve_decision. Defined.

(** The layout of a value on the wire: a fixed number of bytes, or a string. *)
Definition layout (t : wty) : option nat :=
  match t with WInt | WUint => Some 4%nat | WUll => Some 8%nat | WAttr => Some 20%nat
             | WString => None end.

(** The call [s] is one the method [m] understands. *)
Definition agrees (s m : signature) : bool :=
  bool_decide (sg_proc s = sg_proc m) &&
  bool_decide (layout <$> sg_args s = layout <$> sg_args m) &&
  bool_decide (layout (sg_ret s) = layout (sg_ret m)).

Module extent_rpc.
Definition put : Z := 0x6001.
Definition get : Z := 0x6002.
Definition getattr : Z := 0x6003.
Definition remove : Z := 0x6004.
Definition create : Z := 0x6005.
Definition createSymLink : Z := 0x6006.
(** [rextent_protocol] *)
Definition remove_handler : Z := 0x5002.
Definition update_handler : Z := 0x5003.
End extent_rpc.

Module lock_rpc.
Definition acquire : Z := 0x7001.
Definition release : Z := 0x7002.
Definition stat : Z := 0x7003.
(** [rlock_protocol] *)
Definition revoke : Z := 0x8001.
Definition retry : Z := 0x8002.
End lock_rpc.

Module ydb_rpc.
Definition transaction_begin : Z := 0x9001.
Definition transaction_commit : Z := 0x9002.
Definition transaction_abort : Z := 0x9003.
Definition get : Z := 0x9004.
Definition set : Z := 0x9005.
Definition del : Z := 0x9006.
End ydb_rpc.

Module demo_rpc.
Definition stat : Z := 0x7001.
End demo_rpc.

(** *** What the servers register *)

Definition extent_server_sigs : list signature :=
  [Sig extent_rpc.get [WString; WUll] WString;
   Sig extent_rpc.getattr [WString; WUll] WAttr;
   Sig extent_rpc.put [WString; WUll; WString] WInt;
   Sig extent_rpc.remove [WString; WUll; WString; WUll] WInt;
   Sig extent_rpc.create [WUint; WString; WUll; WString] WUll;
   Sig extent_rpc.createSymLink [WString; WUll; WString; WString] WUll].

Definition extent_client_handlers : list signature :=
  [Sig extent_rpc.update_handler [WUll; WAttr; WString] WInt;
   Sig extent_rpc.remove_handler [WUll] WInt].

(** lock_smain.cc registers the caching server. *)
Definition lock_server_cache_sigs : list signature :=
  [Sig lock_rpc.stat [WUll] WInt;
   Sig lock_rpc.release [WUll; WString] WInt;
   Sig lock_rpc.acquire [WUll; WString] WInt].

Definition lock_client_cache_handlers : list signature :=
  [Sig lock_rpc.revoke [WUll] WInt; Sig lock_rpc.retry [WUll] WInt].

(** The three servers of ydb_smain.cc override the same methods. *)
Definition ydb_server_sigs : list signature :=
  [Sig ydb_rpc.transaction_begin [WInt] WInt;
   Sig ydb_rpc.transaction_commit [WInt] WInt;
   Sig ydb_rpc.transaction_abort [WInt] WInt;
   Sig ydb_rpc.get [WInt; WString] WString;
   Sig ydb_rpc.set [WInt; WString; WString] WInt;
   Sig ydb_rpc.del [WInt; WString] WInt].

Definition demo_server_sigs : list signature := [Sig demo_rpc.stat [WInt; WUll] WInt].

(** *** What the clients call *)

(** [extent_client::create] *)
Definition extent_client_create : signature := Sig extent_rpc.create [WUint] WUll.

(** [create], [createFileAndDir], [createSymLink], [get], [getattr], [put],
    [remove] *)
Definition extent_client_calls : list signature :=
  [extent_client_create;
   Sig extent_rpc.create [WUint; WString; WUll; WString] WUll;
   Sig extent_rpc.createSymLink [WString; WUll; WString; WString] WUll;
   Sig extent_rpc.get [WString; WUll] WString;
   Sig extent_rpc.getattr [WString; WUll] WAttr;
   Sig extent_rpc.put [WString; WUll; WString] WInt;
   Sig extent_rpc.remove [WString; WUll; WString; WUll] WInt].

(** The two calls of [extent_server::broadcast]. *)
Definition broadcast_calls : list signature :=
  [Sig extent_rpc.remove_handler [WUll] WInt;
   Sig extent_rpc.update_handler [WUll; WAttr; WString] WInt].

(** [release] and [revoke_handler], [wait_lock]; the callbacks of the server. *)
Definition lock_client_cache_calls : list signature :=
  [Sig lock_rpc.release [WUll; WString] WInt; Sig lock_rpc.acquire [WUll; WString] WInt].
Definition lock_server_cache_calls : list signature :=
  [Sig lock_rpc.revoke [WUll] WInt; Sig lock_rpc.retry [WUll] WInt].

(** [cl->id()] is unsigned. *)
Definition lock_client_stat : signature := Sig lock_rpc.stat [WUint; WUll] WInt.
Definition lock_client_acquire : signature := Sig lock_rpc.acquire [WUint; WUll] WInt.
Definition lock_client_release : signature := Sig lock_rpc.release [WUint; WUll] WInt.
Definition lock_client_calls : list signature :=
  [lock_client_stat; lock_client_acquire; lock_client_release].

Definition ydb_client_calls : list signature :=
  [Sig ydb_rpc.transaction_begin [WInt] WInt;
   Sig ydb_rpc.transaction_commit [WInt] WInt;
   Sig ydb_rpc.transaction_abort [WInt] WInt;
   Sig ydb_rpc.get [WInt; WString] WString;
   Sig ydb_rpc.set [WInt; WString; WString] WInt;
   Sig ydb_rpc.del [WInt; WString] WInt].

Definition demo_client_calls : list signature := [Sig demo_rpc.stat [WUint; WUll] WInt].

(** Who calls whom: the calls of the client that agree with a method of the
    server, those that do not, and the methods. *)
Record service := Service { sv_calls : list signature; sv_mismatched : list signature; sv_meths : list signature }.

Definition services : list service :=
  [Service (tail extent_client_calls) [extent_client_create] extent_server_sigs;
   Service broadcast_calls [] extent_client_handlers;
   Service lock_client_cache_calls [] lock_server_cache_sigs;
   Service lock_server_cache_calls [] lock_client_cache_handlers;
   Service [] lock_client_calls lock_server_cache_sigs;
   Service ydb_client_calls [] ydb_server_sigs;
   Service demo_client_calls [] demo_server_sigs].

(** ** Agreement *)

Section agreement.
Context `{Mem}.

(** What is written as one type can be read as another of the same layout. *)
Lemma layout_reads t t' (x : wtype t) : layout t = layout t' -> c_valid (wcodec t) x ->
  exists x' : wtype t', reads (c_wire (wcodec t) x) (c_get (wcodec t')) x'.
Proof.
  intros Hl Hv. destruct (decide (t = t')) as [->|Hne]; [exists x; by apply codec_reads|].
  destruct t, t'; try done; cbn.
  - exists (u32 (u32 x)). apply reads_u32.
  - exists (s32 x). apply reads_s32.
Qed.

Lemma layouts_read ts : forall ts' (a : args (wparams ts)), layout <$> ts = layout <$> ts' ->
  args_valid _ a ->
  exists a' : args (wparams ts'), reads (args_wire _ a) (unmarshall_args (wparams ts')) a'.
Proof.
  induction ts as [|t ts IH]; intros [|t' ts'] a Hl Hv; try done; cbn in *.
  { exists tt. apply reads_ret. }
  injection Hl as Ht Hts. destruct a as [x a], Hv as [Hx Ha]; cbn in *.
  destruct (layout_reads t t' x Ht Hx) as (x' & Rx). destruct (IH ts' a Hts Ha) as (a' & Ra).
  exists (x', a'). eapply reads_bind; [exact Rx|]. by apply (reads_map _ _ (pair x')).
Qed.

(** The server reads every request of the call [s] to its end, and the client
    every reply. *)
Definition understood (s m : signature) : Prop :=
  (forall a : args (wparams (sg_args s)), args_valid _ a ->
     exists a', reads (args_wire _ a) (unmarshall_args (wparams (sg_args m))) a') /\
  (forall r : wtype (sg_ret m), c_valid (wcodec (sg_ret m)) r ->
     exists r', reads (c_wire (wcodec (sg_ret m)) r) (c_get (wcodec (sg_ret s))) r').

Lemma agrees_understood s m : agrees s m = true -> sg_proc s = sg_proc m /\ understood s m.
Proof.
  unfold agrees. rewrite !andb_true_iff, !bool_decide_eq_true. intros [[Hp Ha] Hr].
  split; [done|]. split; [intros a; by apply layouts_read | intros r; by apply layout_reads].
Qed.

(** No procedure number is registered twice. *)
Definition service_ok (sv : service) : bool :=
  forallb (fun s => existsb (agrees s) (sv_meths sv)) (sv_calls sv) &&
  forallb (fun s => negb (existsb (agrees s) (sv_meths sv))) (sv_mismatched sv) &&
  bool_decide (NoDup (rpc_const.bind :: (sg_proc <$> sv_meths sv))).

Lemma services_ok : forallb service_ok services = true.
Proof. vm_compute. reflexivity. Qed.

(** In each of [services] every call that is not mismatched has the number of
    exactly one registered method, whose unmarshalling reads all that the caller
    marshals, for all arguments, and whose replies the caller can read. *)
Lemma services_agree (sv : service) (s : signature) : sv ∈ services -> s ∈ sv_calls sv ->
  NoDup (rpc_const.bind :: (sg_proc <$> sv_meths sv)) /\
  exists m, m ∈ sv_meths sv /\ sg_proc s = sg_proc m /\ understood s m.
Proof.
  intros Hsv Hs. pose proof services_ok as Hok. rewrite forallb_forall in Hok.
  apply list_elem_of_In in Hsv. specialize (Hok _ Hsv). unfold service_ok in Hok.
  apply andb_true_iff in Hok as [[Hc _]%andb_true_iff Hn]. apply bool_decide_eq_true in Hn. split; [exact Hn|].
  rewrite forallb_forall in Hc. apply list_elem_of_In in Hs. specialize (Hc _ Hs).
  apply existsb_exists in Hc as (m & Hin & Ha). exists m. split; [by apply list_elem_of_In|].
  by apply agrees_understood.
Qed.
End agreement.

(** ** Typed calls *)

Section stubs.
Context `{Mem} {S : Type}.

(** [cl->call(proc, a1, ..., r)] at the types of [sg]; [r] keeps its value when
    the call fails. *)
Definition stub (sg : signature) (c : conn) (a : args (wparams (sg_args sg))) (r : wtype (sg_ret sg))
    : M (ends S) (Z * wtype (sg_ret sg)) :=
  remote_call (wcodec (sg_ret sg)) (wparams (sg_args sg)) c (sg_proc sg) a r.

(** The handler that [reg] makes of a method. *)
Definition reg_sig (m : signature) (meth : args (wparams (sg_args m)) -> M S (Z * wtype (sg_ret m)))
    : handler S :=
  reg_fn (wparams (sg_args m)) (wcodec (sg_ret m)) meth.

(** The server has a method registered for each of [sigs], whatever it does. *)
Definition registers (srv : @rpcs S) (sigs : list signature) : Prop :=
  forall m, m ∈ sigs -> exists meth, procs srv !! sg_proc m = Some (reg_sig m meth).

(** An unsigned argument arrives at a method with an [int] parameter as the
    [int] with the same bits. *)
Lemma stub_unsigned proc ts ret c (x : Z) (a : args (wparams ts)) r : in_u 32 x ->
  stub (Sig proc (WUint :: ts) ret) c (x, a) r = stub (Sig proc (WInt :: ts) ret) c (s32 x, a) r.
Proof.
  intros Hx. unfold stub, remote_call, call. cbn. unfold m_put_s32.
  by rewrite u32_of_s32, u32_in.
Qed.

(** A link on which one more call can be made. *)
Definition usable (clt : rpcc) (srv : @rpcs S) : Prop :=
  linked clt srv /\ in_u 32 (nonce_ srv) /\ xid_ clt + 1 < 2 ^ 31.

(** A call on a server whose method cannot read it. *)
Lemma stub_refused c (sg m : signature) a r0 meth clt srv :
  usable clt srv -> 1 < sg_proc sg < 2 ^ 31 -> procs srv !! sg_proc sg = Some (reg_sig m meth) ->
  args_valid _ a -> fits (args_wire _ a) -> unreadable (wparams (sg_args m)) (args_wire _ a) ->
  stub sg c a r0 (clt, srv) = Crash AssertFail.
Proof.
  intros (Hl & Hn & Hx) Hp Hproc Hv Hf Hbad. unfold stub, rpc_const.bind in *.
  eapply (remote_call_refused _ _ _ (wcodec (sg_ret m)) (wparams_ok _) meth); try done;
    unfold rpc_const.bind, in_s; lia.
Qed.
End stubs.

(** ** lock_client: the client without a cache *)

Module lock_client.
Section lock_client.
Context `{Mem} {S : Type} (c : conn).

(** [VERIFY(cl->call(proc, cl->id(), lid, r) == OK); return r;] *)
Definition checked (sg : signature) (a : args (wparams (sg_args sg))) (r0 : wtype (sg_ret sg))
    : M (ends S) (wtype (sg_ret sg)) :=
  '(ret, r) ← stub sg c a r0; verify (ret =? 0) ≫= fun _ => mret r.

Definition stat (lid : Z) : M (ends S) Z := fun x =>
  checked lock_client_stat (clt_nonce (fst x), (lid, tt)) 0 x.
Definition acquire (lid : Z) : M (ends S) Z := fun x =>
  checked lock_client_acquire (clt_nonce (fst x), (lid, tt)) 0 x.
Definition release (lid : Z) : M (ends S) Z := fun x =>
  checked lock_client_release (clt_nonce (fst x), (lid, tt)) 0 x.
End lock_client.
End lock_client.

Section lock_client_calls.
Context `{Mem} {S : Type}.

Lemma lock_wire (n lid : Z) :
  args_wire (wparams [WUint; WUll]) (n, (lid, tt)) =
  be32 n ++ be32 (u32 (Z.shiftr lid 32)) ++ be32 (u32 lid).
Proof. cbn [args_wire wparams fmap list_fmap p_codec wcodec c_wire c_u32 c_u64 fst snd].
  by rewrite app_nil_r. Qed.

Lemma reads_ull (x y : Z) : exists v, reads (be32 x ++ be32 y) u_get_u64 v.
Proof.
  eexists. eapply reads_bind; [apply reads_u32|].
  eapply (reads_map _ _ (fun l => Z.lor l _)). apply reads_u32.
Qed.

(** One number is read of the two sent. *)
Lemma stat_unreadable (n lid : Z) :
  unreadable (wparams [WUll]) (args_wire (wparams [WUint; WUll]) (n, (lid, tt))).
Proof.
  rewrite lock_wire. intros u Hu Ho Hd. destruct (reads_ull n (u32 (Z.shiftr lid 32))) as (v & Rv).
  eexists (v, tt), _. cbn [unmarshall_args wparams fmap list_fmap p_codec wcodec c_get c_u64].
  rewrite (bind_ok _ _ _ _ _ (Rv u _ Hu Ho ltac:(rewrite <- app_assoc; exact Hd))).
  split; [reflexivity|]. unfold u_okdone. cbn. rewrite Ho. apply Z.eqb_neq.
  apply (f_equal length) in Hd. rewrite length_drop, !length_app in Hd. cbn in Hd.
  destruct Hu as (? & ? & ?). lia.
Qed.

(** The low half of the number is taken for the length of a string. *)
Lemma acquire_unreadable (n lid : Z) : 0 < lid < 2 ^ 31 ->
  unreadable (wparams [WUll; WString]) (args_wire (wparams [WUint; WUll]) (n, (lid, tt))).
Proof.
  intros Hl. rewrite lock_wire. intros u Hu Ho Hd.
  destruct (reads_ull n (u32 (Z.shiftr lid 32))) as (v & Rv).
  rewrite app_assoc in Hd. eexists (v, ([], tt)), _.
  cbn [unmarshall_args wparams fmap list_fmap p_codec wcodec c_get c_u64 c_string].
  rewrite (bind_ok _ _ _ _ _ (Rv u _ Hu Ho Hd)). destruct (u_adv_fit u _ _ Hu Hd) as [Hu1 Hd1].
  set (u1 := u_adv u _) in *.
  assert (u_ind u1 + 4 = u_sz u1) as Hend.
  { apply (f_equal length) in Hd1. rewrite length_drop in Hd1. cbn in Hd1.
    destruct Hu1 as (Hs & Hi & _). cbn in *. lia. }
  pose proof Hu1 as (_ & Hi1 & Hm1).
  pose proof (reads_u32 (u32 lid) u1 [] Hu1 Ho ltac:(by rewrite app_nil_r)) as R4.
  assert (u_get_string [] u1 = Ok ([], Unmarshall (u_buf u1) (u_sz u1) (u_ind u1 + 4) false)) as Es.
  { unfold u_get_string. rewrite (bind_ok _ _ _ _ _ R4), (bind_ok _ _ _ _ _ eq_refl).
    rewrite !(u32_of lid) by lia. change (u_ok (u_adv u1 _)) with (u_ok u). rewrite Ho.
    unfold u_rawbytes. rewrite (bind_ok _ _ _ _ _ eq_refl).
    cbn [u_adv u_sz u_ind u_buf u_ok length be32 app].
    rewrite u32_in by (unfold in_u, INT_MAX in *; lia).
    destruct (Z.ltb_spec (u_sz u1) (u_ind u1 + Z.of_nat 4 + lid)); [done | lia]. }
  unfold mbind, M_bind. rewrite Es. split; reflexivity.
Qed.

Lemma lock_args_valid (n lid : Z) : in_u 32 n -> in_u 64 lid ->
  args_valid (wparams [WUint; WUll]) (n, (lid, tt)) /\
  fits (args_wire (wparams [WUint; WUll]) (n, (lid, tt))).
Proof. intros. split; [done|]. rewrite lock_wire. unfold fits. rewrite header_sz. cbn. lia. Qed.

(** Against the methods of [lock_server] each call is a run of the method with the
    client's number and the lock. *)
Lemma lock_client_checked_runs c proc meth lid clt (srv : @rpcs S) r st' :
  usable clt srv -> 1 < proc < 2 ^ 31 -> in_u 64 lid -> cn_dead c = false ->
  procs srv !! proc = Some (reg_sig (Sig proc [WInt; WUll] WInt) meth) ->
  meth (s32 (clt_nonce clt), (lid, tt)) (app srv) = Ok ((0, r), st') -> in_s 32 r ->
  exists srv', lock_client.checked c (Sig proc [WUint; WUll] WInt) (clt_nonce clt, (lid, tt)) 0 (clt, srv) =
      Ok (r, (called clt, srv')) /\ app srv' = st' /\ linked (called clt) srv'.
Proof.
  intros (Hl & Hn & Hx) Hp Hlid Hc Hproc Hm Hr.
  assert (0 < clt_nonce clt < 2 ^ 31) as Hid by (destruct Hl as [Hrd _]; apply Hrd).
  assert (s32 (clt_nonce clt) = clt_nonce clt) as Es by (apply s32_id, in_s_of; lia).
  unfold lock_client.checked. rewrite stub_unsigned by (unfold in_u; lia).
  edestruct (linked_call (wparams [WInt; WUll]) c_s32 (wparams_ok _) meth c proc) as (srv' & E & Ea & Hl' & _);
    [exact Hl | | | done | done | exact Hproc | done | | | exact Hm | lia | done | |].
  - unfold rpc_const.bind. lia.
  - unfold in_s. lia.
  - cbn. rewrite Es. unfold in_s. split_and!; try done; lia.
  - unfold fits. rewrite header_sz. cbn. lia.
  - unfold fits. rewrite header_sz. cbn. lia.
  - exists srv'. split; [|done]. unfold stub. by rewrite (bind_ok _ _ _ _ _ E).
Qed.

(** C39. The lock client without a cache does not work with the lock server that
    lock_smain.cc starts: [stat] of any lock, and [acquire] and [release] of a lock
    whose number is positive and below 2^31, are requests the registered methods of
    [lock_server_cache] cannot read, and the server fails its [VERIFY]. *)
Theorem lock_client_crashes_cache_server (c : conn) (lid : Z) (clt : rpcc) (srv : @rpcs S) :
  usable clt srv -> registers srv lock_server_cache_sigs -> 0 <= lid < 2 ^ 31 ->
  lock_client.stat c lid (clt, srv) = Crash AssertFail /\
  (0 < lid -> lock_client.acquire c lid (clt, srv) = Crash AssertFail /\
              lock_client.release c lid (clt, srv) = Crash AssertFail).
Proof.
  intros Hu Hreg Hl.
  assert (in_u 64 lid) by (unfold in_u; lia).
  assert (in_u 32 (clt_nonce clt)) as Hn.
  { destruct Hu as [[Hrd _] _]. pose proof (rd_nonce _ _ Hrd). unfold in_u. lia. }
  destruct (lock_args_valid _ lid Hn ltac:(done)) as [Hv Hf].
  destruct (Hreg _ ltac:(left)) as (mstat & Hstat).
  destruct (Hreg _ ltac:(right; left)) as (mrel & Hrel).
  destruct (Hreg _ ltac:(do 2 right; left)) as (macq & Hacq).
  unfold lock_client.stat, lock_client.acquire, lock_client.release, lock_client.checked, mbind, M_bind.
  split; [|intros Hpos; split].
  - erewrite stub_refused; try done. apply stat_unreadable.
  - erewrite (stub_refused _ _ (Sig lock_rpc.acquire [WUll; WString] WInt)); try done.
    apply acquire_unreadable. lia.
  - erewrite (stub_refused _ _ (Sig lock_rpc.release [WUll; WString] WInt)); try done.
    apply acquire_unreadable. lia.
Qed.
End lock_client_calls.

(** ** extent_client::create and the start of the ydb servers *)

Section ydb_start.
Context `{Mem} {S : Type} (c : conn).

(** [extent_client::create]; [id] is the value of the caller's variable. *)
Definition ec_create_old (type id : Z) : M (ends S) Z :=
  '(ret, id) ← stub extent_client_create c (type, tt) id;
  verify (0 =? ret) ≫= fun _ => mret id.

(** The loop of the constructor of [ydb_server]. *)
Definition ydb_server_alloc : M (ends S) unit :=
  for_ 1022 2 (fun _ => ec_create_old extent_types.T_FILE 0 ≫= fun _ => mret tt).

(** Reading at the end of the buffer fails and moves nothing. *)
Definition fail (u : unmarshall) : unmarshall := Unmarshall (u_buf u) (u_sz u) (u_ind u) false.

Lemma rawbyte_end u : u_sz u <= u_ind u -> u_rawbyte u = Ok (0, fail u).
Proof.
  intros Hu. unfold u_rawbyte, mbind, M_bind, getS. by destruct (Z.leb_spec (u_sz u) (u_ind u)); [|lia].
Qed.

Lemma u32_end u : u_sz u <= u_ind u -> u_get_u32 u = Ok (0, fail u).
Proof.
  intros Hu. unfold u_get_u32. do 4 (rewrite (bind_ok _ _ _ _ _ (rawbyte_end _ Hu));
    change (fail (fail u)) with (fail u); try change (u_sz u) with (u_sz (fail u)) in Hu).
  reflexivity.
Qed.

Lemma u64_end u : u_sz u <= u_ind u -> u_get_u64 u = Ok (0, fail u).
Proof.
  intros Hu. unfold u_get_u64. rewrite (bind_ok _ _ _ _ _ (u32_end u Hu)).
  by rewrite (bind_ok _ _ _ _ _ (u32_end (fail u) Hu)).
Qed.

Lemma string_end u s : u_sz u <= u_ind u -> u_get_string s u = Ok (s, fail u).
Proof.
  intros Hu. unfold u_get_string. rewrite (bind_ok _ _ _ _ _ (u32_end u Hu)). reflexivity.
Qed.

(** The type alone is not the argument list of [extent_server::create]. *)
Lemma create_unreadable (ty : Z) :
  unreadable (wparams [WUint; WString; WUll; WString]) (args_wire (wparams [WUint]) (ty, tt)).
Proof.
  intros u Hu Ho Hd. cbn [args_wire wparams fmap list_fmap p_codec wcodec c_wire c_u32 fst snd] in Hd.
  set (u1 := u_adv u 4).
  assert (u_sz u1 <= u_ind u1) as He.
  { apply (f_equal length) in Hd. rewrite length_drop in Hd. cbn in *. destruct Hu as (? & ? & ?). lia. }
  eexists (u32 ty, ([], (0, ([], tt)))), (fail u1).
  cbn [unmarshall_args wparams fmap list_fmap p_codec wcodec c_get c_u32 c_u64 c_string].
  rewrite (bind_ok _ _ _ _ _ (reads_u32 ty u [] Hu Ho Hd)).
  change (u_adv u (length (be32 ty))) with u1. unfold mbind, M_bind.
  rewrite (string_end u1 [] He), (u64_end (fail u1) He), (string_end (fail (fail u1)) [] He).
  split; reflexivity.
Qed.

(** C40. The ydb servers do not start in this tree: the constructor of [ydb_server]
    allocates its inodes with [extent_client::create], which sends the type alone,
    and the extent server that extent_smain.cc starts fails its [VERIFY] on the first
    of these requests. *)
Theorem ydb_server_start_crashes (clt : rpcc) (srv : @rpcs S) :
  usable clt srv -> registers srv extent_server_sigs ->
  ydb_server_alloc (clt, srv) = Crash AssertFail.
Proof.
  intros Hu Hreg. destruct (Hreg _ ltac:(do 4 right; left)) as (m & Hm).
  unfold ydb_server_alloc. change 1022%nat with (Datatypes.S 1021). cbn [for_].
  unfold mbind at 1, M_bind at 1, mbind at 1, M_bind at 1, ec_create_old, mbind at 1, M_bind at 1.
  rewrite (stub_refused c extent_client_create
    (Sig extent_rpc.create [WUint; WString; WUll; WString] WUll) _ _ m); try done.
  apply create_unreadable.
Qed.
End ydb_start.

(** A client bound to a server that lock_smain.cc set up, with the methods of the
    caching lock server left abstract. *)
Definition sample_reg (m : signature) (r : wtype (sg_ret m)) : Z * handler unit :=
  (sg_proc m, reg_sig (H := zero_mem) m (fun _ => mret (0, r))).

Definition sample_lock_procs : gmap Z (handler unit) := list_to_map
  [sample_reg (Sig lock_rpc.stat [WUll] WInt) 0;
   sample_reg (Sig lock_rpc.release [WUll; WString] WInt) 0;
   sample_reg (Sig lock_rpc.acquire [WUll; WString] WInt) 0].

Definition sample_lock_server : @rpcs unit := Rpcs 7 0 0 ∅ sample_lock_procs ∅ ∅ tt.

Definition sample_clt (nonce : Z) : rpcc := set_bound nonce (called (new_rpcc true 5 0)).

Lemma sample_usable {S} procs (a : S) : usable (sample_clt 7) (Rpcs 7 0 0 ∅ procs ∅ ∅ a).
Proof.
  split; [split; [split|]|]; cbn; try done; try (vm_compute; done).
  split; [done|]. vm_compute. repeat constructor; done.
Qed.

Lemma lock_client_crashes_cache_server_witness :
  lock_client.stat (H := zero_mem) sample_conn 1 (sample_clt 7, sample_lock_server) = Crash AssertFail /\
  (0 < 1 -> lock_client.acquire (H := zero_mem) sample_conn 1 (sample_clt 7, sample_lock_server) = Crash AssertFail /\
            lock_client.release (H := zero_mem) sample_conn 1 (sample_clt 7, sample_lock_server) = Crash AssertFail).
Proof.
  apply (@lock_client_crashes_cache_server zero_mem unit sample_conn 1 (sample_clt 7) sample_lock_server).
  - apply sample_usable.
  - intros m Hm. unfold lock_server_cache_sigs in Hm. rewrite !elem_of_cons, elem_of_nil in Hm.
    destruct Hm as [->|[->|[->|[]]]]; eexists; reflexivity.
  - lia.
Defined.

Definition sample_extent_procs : gmap Z (handler unit) := list_to_map
  [sample_reg (Sig extent_rpc.get [WString; WUll] WString) [];
   sample_reg (Sig extent_rpc.getattr [WString; WUll] WAttr) (Attr 0 0 0 0 0);
   sample_reg (Sig extent_rpc.put [WString; WUll; WString] WInt) 0;
   sample_reg (Sig extent_rpc.remove [WString; WUll; WString; WUll] WInt) 0;
   sample_reg (Sig extent_rpc.create [WUint; WString; WUll; WString] WUll) 0;
   sample_reg (Sig extent_rpc.createSymLink [WString; WUll; WString; WString] WUll) 0].

Lemma ydb_server_start_crashes_witness :
  ydb_server_alloc (H := zero_mem) sample_conn
    (sample_clt 7, Rpcs 7 0 0 ∅ sample_extent_procs ∅ ∅ tt) = Crash AssertFail.
Proof.
  apply (@ydb_server_start_crashes zero_mem unit sample_conn (sample_clt 7)).
  - apply sample_usable.
  - intros m Hm. unfold extent_server_sigs in Hm. rewrite !elem_of_cons, elem_of_nil in Hm.
    destruct Hm as [->|[->|[->|[->|[->|[->|[]]]]]]]; eexists; reflexivity.
Defined.
