(* ===== verification/RpcTcp.v ===== *)
(** * The RPC server behind a connection

    A connection writes the length of a PDU over its first four bytes, where the
    marshaller leaves room ([writepdu] of src/lab41/rpc/connection.cc).  Nothing
    in the unmarshaller or in [rpcs::dispatch] of rpc.cc looks at these bytes.
    [rpcs::got_pdu] queues every PDU on a pool of ten threads (ThrPool.v), which
    dispatch them in an order of their own.  Composed here are the stream from a
    client, the pool, the server and the stream back: the server serves the
    requests the client sent, each once, in an order in which at most nine that
    came later overtake a request. *)

From S2P Require Import Prelude Marshall RpcServer RpcClient Rpc RpcSystem RemoteCall Disk Inode Services.
From S2P Require Import Connection ConnectionCorrect ThrPool.

(** ** Readers that do not look at the first four bytes *)

(** Two buffers that differ in these bytes only, at the same position behind them. *)
Record tail_eq (u v : unmarshall) : Prop := {
  te_len : length (u_buf v) = length (u_buf u);
  te_tail : drop 4 (u_buf v) = drop 4 (u_buf u);
  te_sz : u_sz v = u_sz u;
  te_ind : u_ind v = u_ind u;
  te_ok : u_ok v = u_ok u;
  te_pos : 4 <= u_ind u }.

(** The outcome of a reader on two such buffers. *)
Definition same_read {A} (r r' : res (A * unmarshall)) : Prop :=
  match r, r' with
  | Ok (a, u), Ok (a', v) => a = a' /\ tail_eq u v
  | Crash f, Crash f' => f = f'
  | _, _ => False
  end.

(** [g] gives the same value on both. *)
Definition blind {A} (g : M unmarshall A) : Prop :=
  forall u v, tail_eq u v -> same_read (g u) (g v).

Lemma blind_ret {A} (a : A) : blind (mret a).
Proof. intros u v Huv. done. Qed.

Lemma blind_bind {A B} (g : M unmarshall A) (k : A -> M unmarshall B) :
  blind g -> (forall a, blind (k a)) -> blind (g ≫= k).
Proof.
  intros Hg Hk u v Huv. specialize (Hg u v Huv). unfold mbind, M_bind.
  destruct (g u) as [[a u']|], (g v) as [[a' v']|]; cbn in Hg; try done.
  destruct Hg as [<- Huv']. by apply Hk.
Qed.

Lemma tail_lookup u v i : tail_eq u v -> (4 <= i)%nat -> u_buf v !! i = u_buf u !! i.
Proof.
  intros Huv Hi. replace i with (4 + (i - 4))%nat by lia. rewrite <- !lookup_drop. by rewrite (te_tail _ _ Huv).
Qed.

Lemma tail_drop u v i : tail_eq u v -> (4 <= i)%nat -> drop i (u_buf v) = drop i (u_buf u).
Proof.
  intros Huv Hi. replace i with (4 + (i - 4))%nat by lia. rewrite <- !drop_drop. by rewrite (te_tail _ _ Huv).
Qed.

Lemma tail_move u v i ok : tail_eq u v -> 4 <= i ->
  tail_eq (Unmarshall (u_buf u) (u_sz u) i ok) (Unmarshall (u_buf v) (u_sz u) i ok).
Proof. intros [] Hi. by split. Qed.

Lemma blind_rawbyte : blind u_rawbyte.
Proof.
  intros u v Huv. pose proof (te_pos _ _ Huv). unfold u_rawbyte, mbind, M_bind, getS, putS, mret, M_ret, crash.
  rewrite (te_sz _ _ Huv), (te_ind _ _ Huv), (te_ok _ _ Huv).
  destruct (u_sz u <=? u_ind u); [split; [done | by apply tail_move]|].
  rewrite (tail_lookup u v _ Huv) by lia. destruct (u_buf u !! Z.to_nat (u_ind u)); [|done].
  split; [done | apply tail_move; [done | lia]].
Qed.

Lemma blind_rawbytes ss n : 0 <= n -> blind (u_rawbytes ss n).
Proof.
  intros Hn u v Huv. pose proof (te_pos _ _ Huv).
  unfold u_rawbytes, mbind, M_bind, getS, putS, mret, M_ret, crash.
  rewrite (te_sz _ _ Huv), (te_ind _ _ Huv), (te_ok _ _ Huv), (te_len _ _ Huv).
  destruct (u_sz u <? u32 (u_ind u + n)); [split; [done | by apply tail_move]|].
  destruct (u_ind u + n <=? Z.of_nat (length (u_buf u))); [|done].
  rewrite (tail_drop u v _ Huv) by lia. split; [done | apply tail_move; [done | lia]].
Qed.

Create HintDb blind.
#[local] Hint Resolve blind_ret blind_bind blind_rawbyte : blind.

Lemma blind_u32 : blind u_get_u32.
Proof. unfold u_get_u32. auto 10 with blind. Qed.

Lemma blind_s32 : blind u_get_s32.
Proof. unfold u_get_s32. auto 10 with blind. Qed.

Lemma blind_unpack : blind u_unpack.
Proof. unfold u_unpack. auto 10 with blind. Qed.
#[local] Hint Resolve blind_u32 blind_s32 blind_unpack : blind.

(** [u_get_u32] gives a 32-bit number. *)
Lemma u32_nonneg u x u' : u_get_u32 u = Ok (x, u') -> 0 <= x.
Proof.
  unfold u_get_u32. intros E. do 4 inv_bind E. injection E as <- _.
  apply Z.mod_pos_bound. lia.
Qed.

Lemma blind_string s : blind (u_get_string s).
Proof.
  intros u v Huv. pose proof (blind_u32 u v Huv) as H1. unfold u_get_string, mbind, M_bind, getS.
  destruct (u_get_u32 u) as [[n u']|] eqn:E, (u_get_u32 v) as [[n' v']|]; cbn in H1; try done.
  destruct H1 as [<- Huv']. rewrite (te_ok _ _ Huv'). destruct (u_ok u'); [|done].
  apply blind_rawbytes; [by eapply u32_nonneg | done].
Qed.

Lemma blind_wcodec `{Mem} t : blind (c_get (wcodec t)).
Proof.
  destruct t; cbn; auto using blind_string with blind; unfold u_get_u64, u_get_attr; auto 20 with blind.
Qed.

Lemma blind_args `{Mem} ts : blind (unmarshall_args (wparams ts)).
Proof.
  induction ts as [|t ts IH]; cbn; auto using blind_wcodec with blind.
Qed.

(** ** The server *)

Section server.
Context `{Mem} {S : Type}.

(** The handlers that [reg] makes of methods with the wire types of the program. *)
Definition typed_server (s : @rpcs S) : Prop :=
  forall p f, procs s !! p = Some f ->
    exists ts R (cr : codec R) (meth : args (wparams ts) -> M S (Z * R)), f = reg_fn (wparams ts) cr meth.

Lemma reg_fn_blind {R} ts (cr : codec R) (meth : args (wparams ts) -> M S (Z * R)) u v m st :
  tail_eq u v -> reg_fn (wparams ts) cr meth v m st = reg_fn (wparams ts) cr meth u m st.
Proof.
  intros Huv. pose proof (blind_args ts u v Huv) as Ha. unfold reg_fn, on, mbind, M_bind.
  destruct (unmarshall_args (wparams ts) u) as [[a u']|], (unmarshall_args (wparams ts) v) as [[a' v']|];
    cbn in Ha; try done; [|by subst].
  destruct Ha as [<- Huv']. unfold u_okdone. by rewrite (te_ok _ _ Huv'), (te_ind _ _ Huv'), (te_sz _ _ Huv').
Qed.

(** [unpack_req_header] behind its first [seek]. *)
Definition unpack_words : M unmarshall req_header :=
  xid ← u_unpack; proc ← u_unpack; clt ← u_unpack; srv ← u_unpack; rep ← u_unpack;
  u_seek RPC_HEADER_SZ ≫= fun _ => mret (ReqHeader xid proc (u32 clt) (u32 srv) rep).

Lemma blind_words : blind unpack_words.
Proof.
  assert (blind (u_seek RPC_HEADER_SZ)) as Hs by (intros u v []; split; [done | by split]).
  unfold unpack_words. auto 20 with blind.
Qed.

Lemma tail_stamp b : (4 <= length b)%nat ->
  tail_eq (Unmarshall b (Z.of_nat (length b)) sizeof_rpc_sz true)
    (Unmarshall (stamp b) (Z.of_nat (length (stamp b))) sizeof_rpc_sz true).
Proof.
  intros Hb. split; cbn [u_buf u_sz u_ind u_ok]; [by apply length_stamp | | by rewrite length_stamp | done.. |].
  - unfold stamp. apply drop_app_exact. by rewrite length_htonl.
  - unfold sizeof_rpc_sz. lia.
Qed.

Lemma unpack_stamp b : (4 <= length b)%nat ->
  same_read (u_unpack_req_header (unmarshall_of b)) (u_unpack_req_header (unmarshall_of (stamp b))).
Proof.
  intros Hb.
  change (same_read (unpack_words (Unmarshall b (Z.of_nat (length b)) sizeof_rpc_sz true))
    (unpack_words (Unmarshall (stamp b) (Z.of_nat (length (stamp b))) sizeof_rpc_sz true))).
  by apply blind_words, tail_stamp.
Qed.

(** The server does not see the length a connection puts in front of a request:
    any request is answered as it was sent. *)
Lemma dispatch_stamp c b s : (4 <= length b)%nat -> typed_server s ->
  dispatch c (stamp b) s = dispatch c b s.
Proof.
  intros Hb Hty. pose proof (unpack_stamp b Hb) as Hu.
  unfold dispatch, dispatch_start, on, mbind, M_bind, getS, modS, mret, M_ret, crash.
  destruct (u_unpack_req_header (unmarshall_of b)) as [[h u]|],
    (u_unpack_req_header (unmarshall_of (stamp b))) as [[h' v]|]; cbn in Hu; try done; [|by subst].
  destruct Hu as [<- Huv]. rewrite (te_ok _ _ Huv). destruct (negb (u_ok u)); [reflexivity|].
  destruct (negb (rq_srv_nonce h =? 0) && negb (rq_srv_nonce h =? nonce_ s)); [reflexivity|].
  destruct (procs s !! rq_proc h) as [f|] eqn:Hp; [|reflexivity].
  destruct (Hty _ _ Hp) as (ts & R & cr & meth & ->).
  destruct (rq_clt_nonce h =? 0).
  - destruct (counting_ s =? 0); by rewrite (reg_fn_blind _ _ _ u v).
  - destruct (checkduplicate_and_update _ _ _) as [[| | |] w]; [|reflexivity..].
    cbn [counting_ upd_window upd_conns].
    destruct (counting_ s =? 0); by rewrite (reg_fn_blind _ _ _ u v).
Qed.

(** *** [dispatch] registers nothing *)

Definition keeps_procs {A} (m : M (@rpcs S) A) : Prop :=
  forall s a s', m s = Ok (a, s') -> procs s' = procs s.

Lemma keeps_bind {A B} (m : M (@rpcs S) A) (k : A -> M (@rpcs S) B) :
  keeps_procs m -> (forall a, keeps_procs (k a)) -> keeps_procs (m ≫= k).
Proof.
  intros Hm Hk s b s' E. inv_bind E. rewrite (Hk _ _ _ _ E). by eapply Hm.
Qed.
Lemma keeps_ret {A} (a : A) : keeps_procs (mret a).
Proof. by intros s a' s' [= _ <-]. Qed.
Lemma keeps_get : keeps_procs getS.
Proof. by intros s a' s' [= _ <-]. Qed.
Lemma keeps_mod g : (forall s, procs (g s) = procs s) -> keeps_procs (modS g).
Proof. intros Hg s a' s' [= _ <-]. apply Hg. Qed.
Lemma keeps_crash {A} e : keeps_procs (crash (A := A) e).
Proof. done. Qed.
Lemma keeps_verify b : keeps_procs (verify b).
Proof. intros s a s' E. unfold verify in E. destruct b; [by injection E as _ <-|done]. Qed.
Lemma keeps_on {T A} (m : M T A) t : keeps_procs (on m t).
Proof. intros s a s' E. unfold on in E. destruct (m t); [by injection E as _ <-|done]. Qed.

Create HintDb keeps.
#[local] Hint Resolve keeps_bind keeps_ret keeps_get keeps_mod keeps_crash keeps_verify keeps_on : keeps.

Lemma dispatch_keeps c b : keeps_procs (dispatch c b).
Proof.
  assert (forall xid ret, keeps_procs (failure_reply xid ret)) as Hf.
  { intros. unfold failure_reply. apply keeps_bind; [auto with keeps|]. intros [[] ?]. auto with keeps. }
  assert (forall c h ret rep, keeps_procs (dispatch_finish c h ret rep)) as Hfin.
  { intros c0 h ret rep. unfold dispatch_finish. do 2 (apply keeps_bind; [auto with keeps|]; intros _).
    apply keeps_bind; [auto with keeps|]. intros [[] rep1].
    apply keeps_bind; [auto with keeps|]. intros s.
    apply keeps_bind; [destruct (0 <? rq_clt_nonce h); auto with keeps|]. intros _.
    destruct (conns s !! rq_clt_nonce h); [auto with keeps|]. destruct (cn_dead c0); auto with keeps. }
  unfold dispatch, dispatch_start. apply keeps_bind.
  - apply keeps_bind; [auto with keeps|]. intros [h u]. destruct (negb (u_ok u)); [auto with keeps|].
    apply keeps_bind; [auto with keeps|]. intros s. destruct (_ && _); [auto with keeps|].
    destruct (procs s !! rq_proc h); [|auto with keeps]. destruct (_ =? 0); [auto with keeps|].
    apply keeps_bind; [auto with keeps|]. intros _. destruct (checkduplicate_and_update _ _ _) as [st w].
    apply keeps_bind; [auto with keeps|]. intros _. destruct st; auto with keeps.
  - intros [|?|h f u]; [auto with keeps..|]. apply keeps_bind; [auto with keeps|]. intros s1.
    apply keeps_bind; [destruct (counting_ s1 =? 0); auto with keeps|]. intros _.
    apply keeps_bind; [auto with keeps|]. intros s.
    apply keeps_bind; [|intros [[ret rep] a]; auto 10 with keeps].
    intros s0 r s2 E. destruct (f u new_marshall (app s)) as [[? ?]|]; [by injection E as _ <-|done].
Qed.

(** Requests given to the server directly, in an order. *)
Fixpoint dispatch_all (c : conn) (bufs : list bytes) : M (@rpcs S) (list (conn * bytes)) :=
  match bufs with
  | [] => mret []
  | b :: bufs' => r ← dispatch c b; rs ← dispatch_all c bufs'; mret (r ++ rs)
  end.

Lemma dispatch_all_stamp c bufs : Forall (fun b => (4 <= length b)%nat) bufs -> forall s, typed_server s ->
  dispatch_all c (stamp <$> bufs) s = dispatch_all c bufs s.
Proof.
  induction 1 as [|b bufs Hb Hbs IH]; intros s Hty; [done|]. cbn [fmap list_fmap dispatch_all].
  unfold mbind at 1, M_bind at 1. unfold mbind at 2, M_bind at 2.
  rewrite dispatch_stamp by done. destruct (dispatch c b s) as [[r s1]|] eqn:E; [|done].
  assert (typed_server s1) as Hty1.
  { unfold typed_server. by rewrite (dispatch_keeps _ _ _ _ _ E). }
  specialize (IH s1 Hty1). unfold mbind, M_bind in *. cbn. by rewrite IH.
Qed.

(** ** The client's side *)

(** What the client reads of a reply: the header, the value, and whether that was
    all. *)
Definition reply_of (t : wty) (b : bytes) : res (reply_header * wtype t * bool) :=
  '(h, u) ← u_unpack_reply_header (unmarshall_of b);
  '(x, u') ← c_get (wcodec t) (u_take_in u); Ok (h, x, u_okdone u').

Definition unpack_reply_words : M unmarshall reply_header :=
  xid ← u_unpack; ret ← u_unpack;
  u_seek RPC_HEADER_SZ ≫= fun _ => mret (ReplyHeader xid ret).

Lemma blind_seek : blind (u_seek RPC_HEADER_SZ).
Proof. intros u v []; split; [done | by split]. Qed.

Lemma blind_reply_words : blind unpack_reply_words.
Proof. unfold unpack_reply_words. auto 20 using blind_seek with blind. Qed.

Lemma reply_of_stamp t b : (4 <= length b)%nat -> reply_of t (stamp b) = reply_of t b.
Proof.
  intros Hb. unfold reply_of.
  assert (same_read (u_unpack_reply_header (unmarshall_of b)) (u_unpack_reply_header (unmarshall_of (stamp b)))) as Hu.
  { change (same_read (unpack_reply_words (Unmarshall b (Z.of_nat (length b)) sizeof_rpc_sz true))
      (unpack_reply_words (Unmarshall (stamp b) (Z.of_nat (length (stamp b))) sizeof_rpc_sz true))).
    by apply blind_reply_words, tail_stamp. }
  destruct (u_unpack_reply_header (unmarshall_of b)) as [[h u]|],
    (u_unpack_reply_header (unmarshall_of (stamp b))) as [[h' v]|]; cbn in Hu; try done; [|by subst].
  destruct Hu as [<- Huv]. cbn.
  assert (tail_eq (u_take_in u) (u_take_in v)) as Ht.
  { destruct Huv as [? ? Hsz ? ? ?]. unfold u_take_in. rewrite Hsz. by split. }
  pose proof (blind_wcodec t _ _ Ht) as Hr.
  destruct (c_get (wcodec t) (u_take_in u)) as [[x u']|], (c_get (wcodec t) (u_take_in v)) as [[x' v']|];
    cbn in Hr; try done; [|by subst].
  destruct Hr as [<- Huv']. cbn. unfold u_okdone.
  by rewrite (te_ok _ _ Huv'), (te_ind _ _ Huv'), (te_sz _ _ Huv').
Qed.

(** What came through a connection is, but for the lengths, a first part of what was
    sent. *)
Lemma got_prefix l : rtc link_step new_link l -> exists k,
  l_got l = stamp <$> take k (l_sent l) /\ Forall (fun b => (4 <= length b)%nat) (take k (l_sent l)) /\
  (drained l -> take k (l_sent l) = l_sent l).
Proof.
  intros Hi%link_reach_inv. exists (length (l_got l)).
  assert (l_got l = stamp <$> take (length (l_got l)) (l_sent l)) as E.
  { destruct (ki_got l Hi) as [rest Hp]. rewrite fmap_take, Hp. by rewrite take_app_length. }
  split; [exact E|]. split.
  - apply Forall_take. eapply Forall_impl; [apply (ki_sent l Hi)|]. intros b Hb%pdu_len. lia.
  - intros Hd%drained_all; [|done]. apply take_ge. rewrite Hd, length_fmap. lia.
Qed.

(** ** A connection, the pool and the server

    [ts_done] lists the PDUs dispatched, in order, [ts_out] all replies and
    [ts_pend] those not yet handed to a connection. *)
Record tcps := Tcps {
  ts_up : link;
  ts_pool : pool bytes;
  ts_srv : @rpcs S;
  ts_done : list bytes;
  ts_out : list (conn * bytes);
  ts_pend : list (conn * bytes);
  ts_down : link }.

Definition new_tcps (srv : @rpcs S) : tcps := Tcps new_link (new_pool 10 false) srv [] [] [] new_link.

(** [rpcs::got_pdu], as far as the job goes: its value, and the pool. *)
Definition queue_pdu (t : Z) (b : bytes) (p : pool bytes) : bool * pool bytes :=
  let '(r, p) := addJob t (Some b) (tp_block p) p in (bool_decide (r = Some true), p).

(** The worker [w] is done with its job. *)
Definition finish_job (w : nat) (p : pool bytes) : pool bytes :=
  Pool (tp_q p) (<[w := Idle]> (tp_th p)) (tp_block p) (tp_closing p) (tp_put p) (tp_got p).

Inductive tcp_step (c : conn) (s : tcps) : tcps -> Prop :=
  | tcp_net up : link_step (ts_up s) up -> l_got up = l_got (ts_up s) ->
      tcp_step c s (Tcps up (ts_pool s) (ts_srv s) (ts_done s) (ts_out s) (ts_pend s) (ts_down s))
  | tcp_pdu up t b p : link_step (ts_up s) up -> l_got up = l_got (ts_up s) ++ [b] ->
      queue_pdu t b (ts_pool s) = (true, p) ->
      tcp_step c s (Tcps up p (ts_srv s) (ts_done s) (ts_out s) (ts_pend s) (ts_down s))
  | tcp_take w : tp_th (ts_pool s) !! w = Some Idle ->
      tcp_step c s (Tcps (ts_up s) (takeJob w (ts_pool s)) (ts_srv s) (ts_done s) (ts_out s) (ts_pend s) (ts_down s))
  | tcp_wake i w b q r : f_deq (tp_q (ts_pool s)) !! i = Some (Z.of_nat w, b) ->
      deq_wake i (tp_q (ts_pool s)) = Some (r, q) ->
      tcp_step c s (Tcps (ts_up s) (took w r q (ts_pool s)) (ts_srv s) (ts_done s) (ts_out s) (ts_pend s) (ts_down s))
  | tcp_dispatch w b r srv : tp_th (ts_pool s) !! w = Some (Busy b) -> dispatch c b (ts_srv s) = Ok (r, srv) ->
      tcp_step c s (Tcps (ts_up s) (finish_job w (ts_pool s)) srv (ts_done s ++ [b]) (ts_out s ++ r) (ts_pend s ++ r)
                      (ts_down s))
  | tcp_reply l1 b l2 down : ts_pend s = l1 ++ (c, b) :: l2 -> link_step (ts_down s) down ->
      l_sent down = l_sent (ts_down s) ++ [b] ->
      tcp_step c s (Tcps (ts_up s) (ts_pool s) (ts_srv s) (ts_done s) (ts_out s) (l1 ++ l2) down)
  | tcp_back down : link_step (ts_down s) down -> l_sent down = l_sent (ts_down s) ->
      tcp_step c s (Tcps (ts_up s) (ts_pool s) (ts_srv s) (ts_done s) (ts_out s) (ts_pend s) down).

(** The jobs the workers are running. *)
Definition job_of (x : @wstate bytes) : list bytes := match x with Busy j => [j] | _ => [] end.
Definition running (th : list (@wstate bytes)) : list bytes := th ≫= job_of.

Lemma running_insert th w x y : th !! w = Some x ->
  running (<[w := y]> th) ++ job_of x ≡ₚ running th ++ job_of y.
Proof.
  revert w. induction th as [|z th IH]; intros [|w] Hw; simplify_eq/=.
  - rewrite (Permutation_app_comm (job_of y)), (Permutation_app_comm (job_of x) (running th)).
    rewrite <- !(assoc_L (++)). by rewrite (Permutation_app_comm (job_of x)).
  - rewrite <- !(assoc_L (++)). f_equiv. by apply IH.
Qed.

Lemma running_length th : (length (running th) <= length th)%nat.
Proof.
  induction th as [|x th IH]; [done|]. change (running (x :: th)) with (job_of x ++ running th).
  rewrite length_app. destruct x; simpl; lia.
Qed.

(** What the server has done is what it does when it is given the PDUs directly; the
    PDUs taken from the queue are done or running; what went back are replies. *)
Record tcps_inv (c : conn) (s0 : @rpcs S) (s : tcps) : Prop := {
  ti_up : rtc link_step new_link (ts_up s);
  ti_down : rtc link_step new_link (ts_down s);
  ti_pool : rtc pstep (new_pool 10 false) (ts_pool s);
  ti_open : tp_closing (ts_pool s) = false;
  ti_put : tp_put (ts_pool s) = Some <$> l_got (ts_up s);
  ti_taken : Some <$> (ts_done s ++ running (tp_th (ts_pool s))) ≡ₚ tp_got (ts_pool s);
  ti_srv : dispatch_all c (ts_done s) s0 = Ok (ts_out s, ts_srv s);
  ti_out : l_sent (ts_down s) ++ (ts_pend s).*2 ⊆+ (ts_out s).*2 }.

Lemma dispatch_all_cons c b bufs s0 r s1 rs s2 : dispatch c b s0 = Ok (r, s1) -> dispatch_all c bufs s1 = Ok (rs, s2) ->
  dispatch_all c (b :: bufs) s0 = Ok (r ++ rs, s2).
Proof. intros H1 H2. cbn [dispatch_all]. unfold mbind, M_bind. rewrite H1. cbn. by rewrite H2. Qed.

Lemma dispatch_all_snoc c bufs b s0 out s r s' :
  dispatch_all c bufs s0 = Ok (out, s) -> dispatch c b s = Ok (r, s') ->
  dispatch_all c (bufs ++ [b]) s0 = Ok (out ++ r, s').
Proof.
  revert s0 out. induction bufs as [|b0 bufs IH]; intros s0 out H0 Hd.
  - injection H0 as <- <-. replace ([] ++ r) with (r ++ []) by apply app_nil_r.
    eapply dispatch_all_cons; [exact Hd|reflexivity].
  - cbn [dispatch_all] in H0. apply bind_inv in H0 as (r0 & s1 & E0 & H0). apply bind_inv in H0 as (rs & s2 & E1 & H0).
    injection H0 as <- <-. rewrite <- (assoc_L (++)). cbn [app]. eapply dispatch_all_cons; [exact E0|].
    by eapply IH.
Qed.

(** A worker that takes the next job: it becomes what the job is. *)
Lemma taken_ok done th w x r got : Some <$> (done ++ running th) ≡ₚ got -> th !! w = Some x -> job_of x = [] ->
  (forall j, r = Some j -> is_Some j) ->
  Some <$> (done ++ running (<[w := after_take r]> th)) ≡ₚ got ++ option_list r.
Proof.
  intros Hg Hx Hj Hr. pose proof (running_insert th w x (after_take r) Hx) as Hi. rewrite Hj, (right_id_L [] (++)) in Hi.
  rewrite Hi, (assoc_L (++)), fmap_app, Hg. destruct r as [[j|]|]; [done| |done]. by destruct (Hr None eq_refl).
Qed.

Lemma pool_takes s0 c s r q : tcps_inv c s0 s -> q_ (tp_q (ts_pool s)) = option_list r ++ q ->
  forall j, r = Some j -> is_Some j.
Proof.
  intros Hi Hq j ->. destruct (pool_reach_inv _ _ _ (ti_pool _ _ _ Hi)) as [Hf _ _ _ _ _].
  pose proof (si_order _ Hf) as Ho. cbn [fs_put fs_got fs_q] in Ho. rewrite Hq, (ti_put _ _ _ Hi) in Ho.
  assert (j ∈ Some <$> l_got (ts_up s)) as (b & -> & _)%list_elem_of_fmap; [|done].
  rewrite Ho. apply elem_of_app. right. left.
Qed.

Lemma took_inv s0 c s w x r q : tcps_inv c s0 s -> tp_th (ts_pool s) !! w = Some x -> job_of x = [] ->
  q_ (tp_q (ts_pool s)) = option_list r ++ q_ q -> pstep (ts_pool s) (took w r q (ts_pool s)) ->
  tcps_inv c s0 (Tcps (ts_up s) (took w r q (ts_pool s)) (ts_srv s) (ts_done s) (ts_out s) (ts_pend s) (ts_down s)).
Proof.
  intros Hi Hx Hj Hq Hp. pose proof (pool_takes s0 c s r (q_ q) Hi Hq) as Hr. destruct Hi as [H1 H2 H3 H4 H5 H6 H7 H8].
  split; cbn [ts_up ts_pool ts_srv ts_done ts_out ts_pend ts_down]; try done; [by eapply rtc_r|].
  unfold took. cbn [tp_th tp_got]. by eapply taken_ok.
Qed.

Ltac tcps_fields := cbn [ts_up ts_pool ts_srv ts_done ts_out ts_pend ts_down tp_put tp_got tp_th tp_closing finish_job].

Lemma tcp_step_inv c s0 s s' : tcps_inv c s0 s -> tcp_step c s s' -> tcps_inv c s0 s'.
Proof.
  intros Hi Hs. pose proof Hi as [H1 H2 H3 H4 H5 H6 H7 H8].
  destruct Hs as [up Hl Hg|up t b p Hl Hg Hp|w Hw|i w b q r Hd Hq|w b r srv Hw Hd|l1 b l2 down Hp Hl Hs|down Hl Hs].
  - split; tcps_fields; try done; [exact (rtc_r _ _ _ H1 Hl)|by rewrite Hg].
  - unfold queue_pdu in Hp. destruct (addJob t (Some b) (tp_block (ts_pool s)) (ts_pool s)) as [ok p'] eqn:Ea.
    injection Hp as Hok%bool_decide_eq_true ->.
    assert (pstep (ts_pool s) p) as Hst by (pose proof (p_add (ts_pool s) t b H4) as Hst; by rewrite Ea in Hst).
    unfold addJob in Ea. destruct (enq t (Some b) _ _) as [r q] eqn:Ee. injection Ea as -> <-. subst ok.
    split; tcps_fields; try done; [exact (rtc_r _ _ _ H1 Hl)|exact (rtc_r _ _ _ H3 Hst)|].
    by rewrite H5, Hg, fmap_app.
  - unfold takeJob. destruct (deq (Z.of_nat w) (tp_q (ts_pool s))) as [r q] eqn:E.
    eapply took_inv; [done|done|done|by apply (deq_data _ _ _ _ E)|].
    pose proof (p_take (ts_pool s) w Hw) as Hst. unfold takeJob in Hst. by rewrite E in Hst.
  - pose proof (p_take_wake (ts_pool s) i w b q r Hd Hq) as Hst. unfold deq_wake in Hq. rewrite Hd in Hq. injection Hq as E.
    assert (tp_th (ts_pool s) !! w = Some Waiting) as Hw.
    { apply (wo_wait _ _ (pi_wait _ _ (pool_reach_inv _ _ _ H3))). eapply (list_elem_of_lookup_2 _ i). by rewrite list_lookup_fmap, Hd. }
    eapply took_inv; [done|done|done| |done]. by apply (deq_data _ _ _ _ E).
  - split; tcps_fields; try done.
    + eapply rtc_r; [done|]. by eapply p_finish.
    + rewrite <- H6. apply fmap_Permutation. pose proof (running_insert _ w _ Idle Hw) as Hr. cbn [job_of] in Hr.
      rewrite (right_id_L [] (++)) in Hr. rewrite <- Hr, <- (assoc_L (++)). f_equiv. apply Permutation_app_comm.
    + by eapply dispatch_all_snoc.
    + rewrite !fmap_app, (assoc_L (++)). by apply submseteq_app.
  - split; tcps_fields; try done; [exact (rtc_r _ _ _ H2 Hl)|]. rewrite Hs. revert H8. rewrite Hp, !fmap_app, fmap_cons.
    intros <-. cbn [snd]. rewrite <- (app_assoc (l_sent (ts_down s))). apply Permutation_submseteq, Permutation_app_head.
    exact (Permutation_middle (l1.*2) (l2.*2) b).
  - split; tcps_fields; try done; [exact (rtc_r _ _ _ H2 Hl)|by rewrite Hs].
Qed.

Lemma tcps_reach_inv c s0 s : rtc (tcp_step c) (new_tcps s0) s -> tcps_inv c s0 s.
Proof.
  intros Hr. assert (tcps_inv c s0 (new_tcps s0)) as H0 by (split; cbn; by try apply rtc_refl).
  revert H0. induction Hr as [|s1 s2 s3 Hs _ IH]; [done|]. intros H1. apply IH. by eapply tcp_step_inv.
Qed.

(** Nothing is queued and no worker runs a job. *)
Definition pool_empty (p : pool bytes) : Prop := q_ (tp_q p) = [] /\ running (tp_th p) = [].

Lemma somes_bind {A} (l : list A) : (Some <$> l) ≫= option_list = l.
Proof. induction l as [|x l IH]; [done|]. cbn. by f_equal. Qed.

(** What was taken from the queue is a first part of what came. *)
Lemma taken_prefix c s0 s : tcps_inv c s0 s -> exists k,
  ts_done s ++ running (tp_th (ts_pool s)) ≡ₚ take k (l_got (ts_up s)) /\
  (pool_empty (ts_pool s) -> take k (l_got (ts_up s)) = l_got (ts_up s)).
Proof.
  intros Hi. destruct (pool_reach_inv _ _ _ (ti_pool _ _ _ Hi)) as [Hf _ _ _ _ _].
  pose proof (si_order _ Hf) as Ho. cbn [fs_put fs_got fs_q] in Ho. rewrite (ti_put _ _ _ Hi) in Ho.
  exists (length (tp_got (ts_pool s))).
  assert (Some <$> take (length (tp_got (ts_pool s))) (l_got (ts_up s)) = tp_got (ts_pool s)) as E
    by (by rewrite fmap_take, Ho, take_app_length).
  split.
  - rewrite <- (somes_bind (ts_done s ++ _)), <- (somes_bind (take _ _)). by rewrite E, (ti_taken _ _ _ Hi).
  - intros [Hq _]. rewrite Hq, (right_id_L [] (++)) in Ho. rewrite <- Ho, length_fmap. by apply take_ge.
Qed.

Lemma unstamp (l : list bytes) k (sent : list bytes) : l ≡ₚ take k (stamp <$> sent) ->
  exists bufs, l = stamp <$> bufs /\ bufs ≡ₚ take k sent.
Proof. rewrite <- fmap_take. intros (bufs & -> & Hp)%Permutation_map_inv. by exists bufs. Qed.

Lemma dispatch_all_unstamped c bufs s0 out srv : Forall (fun b => (4 <= length b)%nat) bufs -> typed_server s0 ->
  dispatch_all c (stamp <$> bufs) s0 = Ok (out, srv) -> dispatch_all c bufs s0 = Ok (out, srv).
Proof. intros Hb Hty <-. symmetry. by apply dispatch_all_stamp. Qed.

End server.

Section sample.
#[local] Existing Instance zero_mem.

Lemma sample_typed : typed_server sample_server.
Proof.
  intros p f Hp. cbn in Hp. apply lookup_singleton_Some in Hp as [_ <-].
  by exists [WInt], Z, c_s32, sample_meth.
Qed.

(** A request over the connection, and its reply back. *)
Definition sample_request : bytes := replicate 4 x00 ++ req_wire (ReqHeader 1 7 5 99 0) ++ be32 3.
Definition sample_reply : bytes :=
  match dispatch sample_conn (stamp sample_request) sample_server with Ok ([(_, b)], _) => b | _ => [] end.
Definition sample_after : @rpcs Z :=
  match dispatch sample_conn (stamp sample_request) sample_server with Ok (_, s) => s | _ => sample_server end.
Definition queued_pool : pool bytes := snd (addJob 9 (Some (stamp sample_request)) false (new_pool 10 false)).
Definition busy_pool : pool bytes := takeJob 0 queued_pool.
Definition sent_link (b : bytes) (got : bool) : link :=
  Link new_connection new_connection (if got then [] else stamp b) [b] (if got then [stamp b] else []).
Definition sample_state (sent done : bool) (p : pool bytes) (down : link) : tcps :=
  Tcps (sent_link sample_request sent) p (if done then sample_after else sample_server)
    (if done then [stamp sample_request] else []) (if done then [(sample_conn, sample_reply)] else []) [] down.
Definition sample_tcps : tcps := sample_state true true (finish_job 0 busy_pool) (sent_link sample_reply false).

Lemma send_whole b : b = sample_request \/ b = sample_reply -> link_step new_link (sent_link b false).
Proof.
  intros [->| ->]; eapply (link_send new_link _ (WDone 28)); try reflexivity; vm_compute; split; congruence.
Qed.

Lemma read_whole : link_step (sent_link sample_request false) (sent_link sample_request true).
Proof.
  apply (link_read (sent_link sample_request false) (RData (htonl 28)) (RData (drop 4 sample_request))
    (stamp sample_request) true new_connection (Some (stamp sample_request)) []); [|reflexivity|reflexivity].
  apply takes_both; try reflexivity; vm_compute; split; congruence.
Qed.

Lemma sample_queued : queue_pdu 9 (stamp sample_request) (new_pool 10 false) = (true, queued_pool).
Proof. vm_compute. reflexivity. Qed.
Lemma sample_idle : tp_th queued_pool !! 0%nat = Some Idle.
Proof. reflexivity. Qed.
Lemma sample_busy : tp_th busy_pool !! 0%nat = Some (Busy (stamp sample_request)).
Proof. vm_compute. reflexivity. Qed.
Lemma sample_dispatched : dispatch sample_conn (stamp sample_request) sample_server =
  Ok ([(sample_conn, sample_reply)], sample_after).
Proof.
  assert (match dispatch sample_conn (stamp sample_request) sample_server with
    Ok ([(c, _)], _) => bool_decide (c = sample_conn) | _ => false end = true) as H1 by (vm_compute; reflexivity).
  unfold sample_reply, sample_after.
  destruct (dispatch sample_conn (stamp sample_request) sample_server) as [[[|[c b] [|]] s]|]; try discriminate H1.
  by apply bool_decide_eq_true in H1 as ->.
Qed.
#[local] Opaque sample_after sample_reply sample_server queued_pool busy_pool dispatch.

Lemma sample_tcps_reach : rtc (tcp_step sample_conn) (new_tcps sample_server) sample_tcps.
Proof.
  eapply rtc_l; [exact (tcp_net _ (new_tcps sample_server) _ (send_whole sample_request ltac:(by left)) eq_refl)|].
  eapply rtc_l; [exact (tcp_pdu _ (Tcps (sent_link sample_request false) (new_pool 10 false) sample_server [] [] [] new_link)
    _ 9 _ _ read_whole eq_refl sample_queued)|].
  eapply rtc_l; [exact (tcp_take _ (sample_state true false queued_pool new_link) 0 sample_idle)|].
  eapply rtc_l; [exact (tcp_dispatch _ (sample_state true false busy_pool new_link) 0 _ _ _ sample_busy sample_dispatched)|].
  apply rtc_once.
  exact (tcp_reply _ (Tcps (sent_link sample_request true) (finish_job 0 busy_pool) sample_after [stamp sample_request]
    [(sample_conn, sample_reply)] [(sample_conn, sample_reply)] new_link) [] sample_reply [] _ eq_refl
    (send_whole sample_reply ltac:(by right)) eq_refl).
Qed.

End sample.
