(* ===== verification/Extent.v ===== *)
(** * Extent server and extent client

    Classes [extent_server] (src/lab41/extent_server.cc) and [extent_client]
    (src/lab41/extent_client.cc): the server's caches over the inode layer, the
    registration of clients and the callbacks it broadcasts, the client's
    caches.  The server is written against the interface of FileStore.v.  A call
    of a client is whole ([run_eop]), or its reply travels while other calls run
    ([istep]). *)

From S2P Require Import Prelude Disk Inode FileStore.

(** ** Strings *)

(** [std::ostream << unsigned long long]: decimal digits. *)
Fixpoint digits (fuel : nat) (n : Z) (acc : bytes) : bytes :=
  match fuel with
  | O => acc
  | S fuel' =>
      let acc := bof (48 + n mod 10) :: acc in
      if n / 10 =? 0 then acc else digits fuel' (n / 10) acc
  end.
(** A 64-bit number has at most 20 digits. *)
Definition filename (inum : Z) : bytes := digits 20 inum [].

(** [s.find(pat)]: the first position at which [pat] occurs. *)
Fixpoint is_prefix (pat l : bytes) : bool :=
  match pat, l with
  | [], _ => true
  | p :: pat', x :: l' => bool_decide (p = x) && is_prefix pat' l'
  | _ :: _, [] => false
  end.
Fixpoint find_str (pat l : bytes) : option nat :=
  if is_prefix pat l then Some O
  else match l with [] => None | _ :: l' => S <$> find_str pat l' end.
(** [s.find(pat, pos)] *)
Definition find_str_from (pat l : bytes) (pos : nat) : option nat :=
  if (length l <? pos)%nat then None else (fun i => (pos + i)%nat) <$> find_str pat (drop pos l).

(** The order of [std::string] keys in a [std::map]. *)
Fixpoint bytes_le (a b : bytes) : bool :=
  match a, b with
  | [], _ => true
  | _ :: _, [] => false
  | x :: a', y :: b' =>
      if bval x <? bval y then true else if bval y <? bval x then false else bytes_le a' b'
  end.

(** ** extent_server *)

Module extent_protocol.
Definition OK : Z := 0.
Definition NOENT : Z := 2.
End extent_protocol.

(** The callbacks of [rextent_protocol]. *)
Inductive callback :=
  | RRemove (id : Z)
  | RUpdate (id : Z) (a : attr) (data : bytes).

(** A callback sent to a client. *)
Definition message : Type := (bytes * callback)%type.

Definition zero_attr : attr := Attr 0 0 0 0 0.

Section server.
Context {S : Type} `{FileStore S}.

Record extent_server := ExtentServer {
  es_im : S;
  es_clients : gmap bytes (gset Z);
  es_data : gmap Z bytes;
  es_attr : gmap Z attr }.

(** [extent_server::extent_server] over a new inode manager [im]. *)
Definition new_extent_server (im : S) : extent_server := ExtentServer im ∅ ∅ ∅.

Definition set_im (im : S) (s : extent_server) : extent_server :=
  ExtentServer im (es_clients s) (es_data s) (es_attr s).

(** [dataCache[id]], [attrCache[id]]: a missing entry is created empty. *)
Definition data_of (s : extent_server) (id : Z) : bytes := default [] (es_data s !! id).
Definition attr_of (s : extent_server) (id : Z) : attr := default zero_attr (es_attr s !! id).

(** A call on [im]. *)
Definition im_call {A} (m : M S A) : M extent_server A := fun s =>
  match m (es_im s) with
  | Ok (a, im) => Ok (a, set_im im s)
  | Crash f => Crash f
  end.

(** [id &= 0x7fffffff] *)
Definition mask (id : Z) : Z := Z.land id 0x7fffffff.

Definition registered (s : extent_server) (c : bytes) (id : Z) : Prop :=
  id ∈ default ∅ (es_clients s !! c).

(** [clients[client_id].insert(id)] *)
Definition register (c : bytes) (id : Z) : M extent_server unit :=
  modS (fun s => ExtentServer (es_im s)
    (<[c := {[id]} ∪ default ∅ (es_clients s !! c)]> (es_clients s)) (es_data s) (es_attr s)).

(** The clients registered for [id], in the order of the map. *)
Definition listeners (s : extent_server) (id : Z) : list bytes :=
  fst <$> filter (fun p => id ∈ p.2)
    (merge_sort (fun p q : bytes * gset Z => bytes_le (fst p) (fst q)) (map_to_list (es_clients s))).

(** The callbacks of one [broadcast]. *)
Definition broadcast (id : Z) (is_remove : bool) : M extent_server (list message) := fun s =>
  Ok ((fun c => (c, if is_remove then RRemove id else RUpdate id (attr_of s id) (data_of s id)))
        <$> listeners s id, s).

Definition update_cache (id0 : Z) : M extent_server (list message) :=
  let id := mask id0 in
  b ← im_call (im_read_file (u32 id));
  let buf := default [] b in
  a ← im_call (im_getattr (u32 id));
  let at_ := default zero_attr a in
  modS (fun s => ExtentServer (es_im s) (es_clients s) (<[id := buf]> (es_data s))
                   (<[id := at_]> (es_attr s))) ≫= fun _ =>
  broadcast id false.

(** The entry [name:inum/] of a directory. *)
Definition entry (name : bytes) (id : Z) : bytes := name ++ [x3a] ++ filename id ++ [x2f].

Definition write_str (id : Z) (buf : bytes) : M extent_server unit :=
  im_call (im_write_file (u32 id) buf (Z.of_nat (length buf))).

(** The status, the new id and the callbacks sent. *)
Definition es_create (type : Z) (client_id : bytes) (parent : Z) (name : bytes)
    : M extent_server (Z * Z * list message) :=
  id ← im_call (im_alloc_inode type);
  if id =? INODE_NUM then mret (extent_protocol.NOENT, id, [])
  else
    s ← getS;
    let buf := data_of s parent ++ entry name id in
    write_str parent buf ≫= fun _ =>
    m1 ← update_cache parent;
    m2 ← update_cache id;
    register client_id id ≫= fun _ =>
    mret (extent_protocol.OK, id, m1 ++ m2).

Definition es_createSymLink (client_id : bytes) (parent : Z) (name link : bytes)
    : M extent_server (Z * Z * list message) :=
  id ← im_call (im_alloc_inode extent_types.T_SYMLINK);
  write_str id link ≫= fun _ =>
  s ← getS;
  let buf := data_of s parent ++ entry name id in
  write_str parent buf ≫= fun _ =>
  m1 ← update_cache parent;
  m2 ← update_cache id;
  register client_id id ≫= fun _ =>
  mret (extent_protocol.OK, id, m1 ++ m2).

Definition es_put (client_id : bytes) (id0 : Z) (buf : bytes) : M extent_server (Z * list message) :=
  let id := mask id0 in
  write_str id buf ≫= fun _ =>
  m ← update_cache id;
  register client_id id ≫= fun _ =>
  mret (extent_protocol.OK, m).

Definition es_get (client_id : bytes) (id : Z) : M extent_server (Z * bytes) :=
  s ← getS;
  register client_id id ≫= fun _ => mret (extent_protocol.OK, data_of s id).

Definition es_getattr (client_id : bytes) (id : Z) : M extent_server (Z * attr) :=
  s ← getS;
  register client_id id ≫= fun _ => mret (extent_protocol.OK, attr_of s id).

(** [buf.erase(start, end - start + 1)] with [start] and [end] as [int]: not
    found is -1, which as a position throws and as a count means the rest. *)
Definition erase_entry (buf name : bytes) : res bytes :=
  match find_str name buf with
  | None => Crash Uncaught
  | Some start =>
      let end_ := match find_str_from [x2f] buf start with Some e => Z.of_nat e | None => -1 end in
      let count := end_ - Z.of_nat start + 1 in
      Ok (take start buf ++
          if count <? 0 then [] else drop (start + Z.to_nat count) buf)
  end.

Definition es_remove (client_id : bytes) (parent : Z) (name : bytes) (id0 : Z)
    : M extent_server (Z * list message) :=
  let id := mask id0 in
  im_call (im_remove_file (u32 id)) ≫= fun _ =>
  s ← getS;
  match erase_entry (data_of s parent) name with
  | Crash f => crash f
  | Ok buf =>
      write_str parent buf ≫= fun _ =>
      m1 ← update_cache parent;
      modS (fun s => ExtentServer (es_im s) (es_clients s) (delete id (es_data s))
                       (delete id (es_attr s))) ≫= fun _ =>
      m2 ← broadcast id true;
      register client_id id ≫= fun _ =>
      mret (extent_protocol.OK, m1 ++ m2)
  end.
End server.

(** ** extent_client *)

Record extent_client := ExtentClient { ec_data : gmap Z bytes; ec_attr : gmap Z attr }.

Definition new_extent_client : extent_client := ExtentClient ∅ ∅.

Definition remove_handler (eid : Z) (c : extent_client) : extent_client :=
  ExtentClient (delete eid (ec_data c)) (delete eid (ec_attr c)).

Definition update_handler (eid : Z) (a : attr) (data : bytes) (c : extent_client) : extent_client :=
  ExtentClient (<[eid := data]> (ec_data c)) (<[eid := a]> (ec_attr c)).

Definition run_callback (cb : callback) (c : extent_client) : extent_client :=
  match cb with
  | RRemove id => remove_handler id c
  | RUpdate id a data => update_handler id a data c
  end.

(** The end of a [get] or [getattr] that went to the server. *)
Definition store_data (eid : Z) (buf : bytes) (c : extent_client) : extent_client :=
  ExtentClient (<[eid := buf]> (ec_data c)) (ec_attr c).
Definition store_attr (eid : Z) (a : attr) (c : extent_client) : extent_client :=
  ExtentClient (ec_data c) (<[eid := a]> (ec_attr c)).

(** ** The server and its clients

    Clients are known by their [client_id].  A call runs its handler at the
    server and the callbacks the handler makes, in their order, before it
    returns, as the calls in [broadcast] do; a callback to a client that is not
    there is lost. *)

Definition deliver1 (cl : gmap bytes extent_client) (m : message) : gmap bytes extent_client :=
  match cl !! fst m with
  | Some c => <[fst m := run_callback (snd m) c]> cl
  | None => cl
  end.
Definition deliver (ms : list message) (cl : gmap bytes extent_client) : gmap bytes extent_client :=
  fold_left deliver1 ms cl.

Section system.
Context {S : Type} `{FileStore S}.

Record esys := Esys { sy_srv : @extent_server S; sy_cl : gmap bytes extent_client }.

Inductive eop :=
  | CGet (c : bytes) (eid : Z)
  | CGetattr (c : bytes) (eid : Z)
  | CPut (c : bytes) (eid : Z) (buf : bytes)
  | CCreate (c : bytes) (type parent : Z) (name : bytes)
  | CSymlink (c : bytes) (parent : Z) (name link : bytes)
  | CRemove (c : bytes) (eid parent : Z) (name : bytes).

Inductive eret :=
  | EData (b : bytes)
  | EAttr (a : attr)
  | EId (id : Z)
  | EDone.

(** The calls of [extent_client::get] and [getattr] on the server, which they
    make when the cache has no entry. *)
Definition fetch_data (cid : bytes) (eid : Z) : M esys bytes := fun y =>
  match es_get cid eid (sy_srv y) with
  | Crash f => Crash f
  | Ok ((st, b), s) => if st =? extent_protocol.OK then Ok (b, Esys s (sy_cl y)) else Crash AssertFail
  end.
Definition fetch_attr (cid : bytes) (eid : Z) : M esys attr := fun y =>
  match es_getattr cid eid (sy_srv y) with
  | Crash f => Crash f
  | Ok ((st, a), s) => if st =? extent_protocol.OK then Ok (a, Esys s (sy_cl y)) else Crash AssertFail
  end.

(** The client's own assignment to its cache, after the call has returned. *)
Definition keep (cid : bytes) (c : extent_client) (y : esys) : esys := Esys (sy_srv y) (<[cid := c]> (sy_cl y)).

(** [extent_client::get] and [getattr] of client [c], when no callback reaches
    the client between the call and the assignment; [istep] below lets any
    number of them come in between. *)
Definition ec_get (cid : bytes) (c : extent_client) (eid : Z) : M esys eret := fun y =>
  match ec_data c !! eid with
  | Some b => Ok (EData b, y)
  | None =>
      match fetch_data cid eid y with
      | Crash f => Crash f
      | Ok (b, y') => Ok (EData b, keep cid (store_data eid b c) y')
      end
  end.

Definition ec_getattr (cid : bytes) (c : extent_client) (eid : Z) : M esys eret := fun y =>
  match ec_attr c !! eid with
  | Some a => Ok (EAttr a, y)
  | None =>
      match fetch_attr cid eid y with
      | Crash f => Crash f
      | Ok (a, y') => Ok (EAttr a, keep cid (store_attr eid a c) y')
      end
  end.

(** [put]; [createFileAndDir], [createSymLink] and [remove], which ignore the
    status of the call. *)
Definition ec_put (cid : bytes) (eid : Z) (buf : bytes) : M esys eret := fun y =>
  match es_put cid eid buf (sy_srv y) with
  | Crash f => Crash f
  | Ok ((st, ms), s) =>
      if st =? extent_protocol.OK then Ok (EDone, Esys s (deliver ms (sy_cl y))) else Crash AssertFail
  end.
Definition ec_create (cid : bytes) (type parent : Z) (name : bytes) : M esys eret := fun y =>
  match es_create type cid parent name (sy_srv y) with
  | Crash f => Crash f
  | Ok ((_, id, ms), s) => Ok (EId id, Esys s (deliver ms (sy_cl y)))
  end.
Definition ec_symlink (cid : bytes) (parent : Z) (name link : bytes) : M esys eret := fun y =>
  match es_createSymLink cid parent name link (sy_srv y) with
  | Crash f => Crash f
  | Ok ((_, id, ms), s) => Ok (EId id, Esys s (deliver ms (sy_cl y)))
  end.
Definition ec_remove (cid : bytes) (eid parent : Z) (name : bytes) : M esys eret := fun y =>
  match es_remove cid parent name eid (sy_srv y) with
  | Crash f => Crash f
  | Ok ((_, ms), s) => Ok (EDone, Esys s (deliver ms (sy_cl y)))
  end.

(** One client operation; only a client of the system makes one. *)
Definition run_eop (op : eop) (y : esys) : option (res (eret * esys)) :=
  match op with
  | CGet cid eid => c ← sy_cl y !! cid; Some (ec_get cid c eid y)
  | CGetattr cid eid => c ← sy_cl y !! cid; Some (ec_getattr cid c eid y)
  | CPut cid eid buf => c ← sy_cl y !! cid; Some (ec_put cid eid buf y)
  | CCreate cid type parent name => c ← sy_cl y !! cid; Some (ec_create cid type parent name y)
  | CSymlink cid parent name link => c ← sy_cl y !! cid; Some (ec_symlink cid parent name link y)
  | CRemove cid eid parent name => c ← sy_cl y !! cid; Some (ec_remove cid eid parent name y)
  end.

(** The callbacks the handler of [op] makes. *)
Definition eop_msgs (op : eop) (y : esys) : list message :=
  match op with
  | CGet _ _ | CGetattr _ _ => []
  | CPut cid eid buf => match es_put cid eid buf (sy_srv y) with Ok (_, ms, _) => ms | _ => [] end
  | CCreate cid type parent name =>
      match es_create type cid parent name (sy_srv y) with Ok (_, ms, _) => ms | _ => [] end
  | CSymlink cid parent name link =>
      match es_createSymLink cid parent name link (sy_srv y) with Ok (_, ms, _) => ms | _ => [] end
  | CRemove cid eid parent name =>
      match es_remove cid parent name eid (sy_srv y) with Ok (_, ms, _) => ms | _ => [] end
  end.

(** *** Replies that travel

    A [get] or [getattr] that misses the cache is two steps: the handler at the
    server, and the assignment of its reply to the cache.  In between the reply
    travels, and the callbacks of other calls may reach the client first. *)

Inductive value :=
  | VData (b : bytes)
  | VAttr (a : attr).

(** [fl_late]: a callback for the file has been handled by the client since the
    server gave the reply. *)
Record flight := Flight { fl_cid : bytes; fl_eid : Z; fl_val : value; fl_late : bool }.

(** [i_stale_data] and [i_stale_attr] are the cache entries that were last
    assigned from a late reply. *)
Record isys := Isys {
  i_sys : esys;
  i_flights : list flight;
  i_stale_data : gset (bytes * Z);
  i_stale_attr : gset (bytes * Z) }.

Inductive ievent :=
  | Join (cid : bytes)
  | Change (op : eop)
  | Fetch (cid : bytes) (eid : Z)
  | FetchAttr (cid : bytes) (eid : Z)
  | Store (k : nat).

Definition about (id : Z) (cb : callback) : bool :=
  match cb with RRemove i => i =? id | RUpdate i _ _ => i =? id end.

(** The callbacks that [cid] handles. *)
Definition to_client (cid : bytes) (ms : list message) : list callback :=
  snd <$> filter (fun m : message => fst m = cid) ms.
Definition told (ms : list message) (p : bytes * Z) : bool := existsb (about (snd p)) (to_client (fst p) ms).

Definition overtake (ms : list message) (f : flight) : flight :=
  Flight (fl_cid f) (fl_eid f) (fl_val f) (fl_late f || told ms (fl_cid f, fl_eid f)).
Definition untold (ms : list message) (st : gset (bytes * Z)) : gset (bytes * Z) :=
  filter (fun p => told ms p = false) st.

Definition store_value (eid : Z) (v : value) (c : extent_client) : extent_client :=
  match v with VData b => store_data eid b c | VAttr a => store_attr eid a c end.
Definition restale (late : bool) (p : bytes * Z) (st : gset (bytes * Z)) : gset (bytes * Z) :=
  if late then {[p]} ∪ st else st ∖ {[p]}.

Definition is_change (op : eop) : bool := match op with CGet _ _ | CGetattr _ _ => false | _ => true end.

Definition istep (s : isys) (ev : ievent) : option (res isys) :=
  let y := i_sys s in
  match ev with
  | Join cid =>
      match sy_cl y !! cid with
      | None => Some (Ok (Isys (keep cid new_extent_client y) (i_flights s) (i_stale_data s) (i_stale_attr s)))
      | Some _ => None
      end
  | Change op =>
      if is_change op then
        r ← run_eop op y;
        Some ('(_, y') ← r;
              Ok (Isys y' (overtake (eop_msgs op y) <$> i_flights s)
                    (untold (eop_msgs op y) (i_stale_data s)) (untold (eop_msgs op y) (i_stale_attr s))))
      else None
  | Fetch cid eid =>
      c ← sy_cl y !! cid;
      match ec_data c !! eid with
      | Some _ => None
      | None => Some ('(b, y') ← fetch_data cid eid y;
                      Ok (Isys y' (i_flights s ++ [Flight cid eid (VData b) false]) (i_stale_data s) (i_stale_attr s)))
      end
  | FetchAttr cid eid =>
      c ← sy_cl y !! cid;
      match ec_attr c !! eid with
      | Some _ => None
      | None => Some ('(a, y') ← fetch_attr cid eid y;
                      Ok (Isys y' (i_flights s ++ [Flight cid eid (VAttr a) false]) (i_stale_data s) (i_stale_attr s)))
      end
  | Store k =>
      f ← i_flights s !! k;
      c ← sy_cl y !! fl_cid f;
      let p := (fl_cid f, fl_eid f) in
      Some (Ok (Isys (keep (fl_cid f) (store_value (fl_eid f) (fl_val f) c) y) (delete k (i_flights s))
        (match fl_val f with VData _ => restale (fl_late f) p (i_stale_data s) | VAttr _ => i_stale_data s end)
        (match fl_val f with VData _ => i_stale_attr s | VAttr _ => restale (fl_late f) p (i_stale_attr s) end)))
  end.

Inductive ireach (srv : extent_server) : isys -> Prop :=
  | ireach_init : ireach srv (Isys (Esys srv ∅) [] ∅ ∅)
  | ireach_step s ev s' : ireach srv s -> istep s ev = Some (Ok s') -> ireach srv s'.
End system.

(** ** The interface of the extent client

    What yfs_client.cc uses of [extent_client]: one operation of a client on the
    extent service, none when there is no such client; and the constructor of the
    client [cid], with the random numbers it draws. *)
Class ExtentService (X : Type) := {
  ext_op : eop -> X -> option (res (eret * X));
  ext_join : bytes -> Z -> Z -> X -> res X }.

#[export] Instance direct_service {S} `{FileStore S} : ExtentService (@esys S) := {|
  ext_op := run_eop;
  ext_join cid _ _ y := Ok (Esys (sy_srv y) (<[cid := new_extent_client]> (sy_cl y))) |}.
