(* ===== verification/ExtentCorrect.v ===== *)
(** * Correctness of the extent service

    Cache coherence of the extent clients with the server in every run of the
    system of Extent.v, up to the entries stored from replies that callbacks
    overtook, the caches of the server against the files of the store
    below it, and the behaviours of [get] and [remove] that break them. *)

From S2P Require Import Prelude Disk Inode InodeSpec FileStore InodeCorrect Extent.

(** ** Cache coherence *)

Section coherence.
Context {S : Type} `{FileStore S}.
Implicit Types (s : @extent_server S) (cl : gmap bytes extent_client).

(** What a client has cached is what the server has, and the server knows. *)
Definition client_coh s (cid : bytes) (c : extent_client) : Prop :=
  forall id,
    (forall v, ec_data c !! id = Some v -> registered s cid id /\ data_of s id = v) /\
    (forall a, ec_attr c !! id = Some a -> registered s cid id /\ attr_of s id = a).

Definition coh s cl : Prop := forall cid c, cl !! cid = Some c -> client_coh s cid c.

(** Only the store below changed. *)
Definition same_caches s s' : Prop :=
  es_clients s' = es_clients s /\ es_data s' = es_data s /\ es_attr s' = es_attr s.

Lemma coh_same s s' cl : same_caches s s' -> coh s cl -> coh s' cl.
Proof.
  intros (Hc & Hd & Ha) Hcoh cid c Hcl id. unfold registered, data_of, attr_of.
  rewrite Hc, Hd, Ha. by apply Hcoh.
Qed.

Lemma im_call_inv {A} (m : M S A) s a s' : im_call m s = Ok (a, s') -> same_caches s s'.
Proof. unfold im_call. destruct (m (es_im s)) as [[? ?]|]; intros; simplify_eq. done. Qed.

Lemma coh_register s cl cid id s' : register cid id s = Ok (tt, s') -> coh s cl -> coh s' cl.
Proof.
  intros [= <-] Hcoh cid' c Hcl id'. specialize (Hcoh cid' c Hcl id').
  assert (forall cid' id', registered s cid' id' -> registered (ExtentServer (es_im s)
    (<[cid := {[id]} ∪ default ∅ (es_clients s !! cid)]> (es_clients s)) (es_data s) (es_attr s)) cid' id') as Hreg.
  { intros cid1 id1. unfold registered. simpl. destruct (decide (cid1 = cid)) as [->|].
    - rewrite lookup_insert_eq. simpl. set_solver.
    - by rewrite lookup_insert_ne. }
  destruct Hcoh as [Hd Ha]. split; intros v Hv; [destruct (Hd v Hv) | destruct (Ha v Hv)]; auto.
Qed.

(** The effect of one broadcast on the clients. *)
Lemma deliver_lookup (f : callback) L cl cid :
  (forall c, run_callback f (run_callback f c) = run_callback f c) ->
  deliver ((fun c => (c, f)) <$> L) cl !! cid =
    (if decide (cid ∈ L) then run_callback f <$> cl !! cid else cl !! cid).
Proof.
  intros Hidem. unfold deliver. revert cl. induction L as [|c L IH]; intros cl; [done|].
  cbn [fmap list_fmap fold_left]. fold ((fun c => (c, f)) <$> L). rewrite IH. unfold deliver1. simpl.
  destruct (cl !! c) as [k|] eqn:Hk.
  - destruct (decide (cid = c)) as [->|Hne].
    + rewrite lookup_insert_eq, (decide_True (P := c ∈ c :: L)) by left. rewrite Hk. simpl.
      by destruct (decide (c ∈ L)); simpl; rewrite ?Hidem.
    + rewrite lookup_insert_ne by done. do 2 case_decide; set_solver.
  - do 2 case_decide; try set_solver. assert (cid = c) as -> by set_solver. by rewrite Hk.
Qed.

Lemma callback_idem f c : run_callback f (run_callback f c) = run_callback f c.
Proof.
  destruct f; simpl; unfold remove_handler, update_handler; simpl; f_equal;
    (apply insert_insert_eq || apply delete_delete_eq).
Qed.

Lemma elem_of_listeners s id cid : cid ∈ listeners s id <-> registered s cid id.
Proof.
  unfold listeners, registered. rewrite list_elem_of_fmap. split.
  - intros ([c ids] & -> & Hf). apply list_elem_of_filter in Hf as [Hid Hin].
    rewrite merge_sort_Permutation in Hin. apply elem_of_map_to_list in Hin. simpl in *. by rewrite Hin.
  - destruct (es_clients s !! cid) as [ids|] eqn:E; simpl; [|set_solver].
    intros Hid. exists (cid, ids). split; [done|]. apply list_elem_of_filter. split; [done|].
    rewrite merge_sort_Permutation. by apply elem_of_map_to_list.
Qed.

(** The state [s'] of the server differs from [s] in the caches of [id]. *)
Definition only_id s s' (id : Z) : Prop :=
  es_clients s' = es_clients s /\
  (forall j, j <> id -> data_of s' j = data_of s j) /\
  (forall j, j <> id -> attr_of s' j = attr_of s j).

Lemma coh_other s s' cl id cid c j : only_id s s' id -> coh s cl -> cl !! cid = Some c -> j <> id ->
  (forall v, ec_data c !! j = Some v -> registered s' cid j /\ data_of s' j = v) /\
  (forall a, ec_attr c !! j = Some a -> registered s' cid j /\ attr_of s' j = a).
Proof.
  intros (Hc & Hd & Ha) Hcoh Hcl Hj. unfold registered. rewrite Hc, Hd, Ha by done. by apply (Hcoh cid c).
Qed.

Lemma coh_update s s' cl id : only_id s s' id -> coh s cl ->
  coh s' (deliver ((fun c => (c, RUpdate id (attr_of s' id) (data_of s' id))) <$> listeners s' id) cl).
Proof.
  intros Hon Hcoh cid c. rewrite deliver_lookup by (intros; apply callback_idem).
  pose proof (fun c0 H0 j => coh_other s s' cl id cid c0 j Hon Hcoh H0) as Hold.
  destruct Hon as (Hc & _ & _).
  case_decide as Hl.
  - apply elem_of_listeners in Hl. intros Hcl j.
    destruct (cl !! cid) as [c0|] eqn:Hc0; [|done]. simpl in Hcl. simplify_eq. simpl.
    destruct (decide (j = id)) as [->|Hj].
    + rewrite !lookup_insert_eq. split; intros ? [= <-]; done.
    + rewrite !lookup_insert_ne by done. by apply Hold.
  - intros Hcl j. destruct (decide (j = id)) as [->|Hj]; [|by apply Hold].
    split; intros v Hv; exfalso; apply Hl, elem_of_listeners; unfold registered;
      rewrite Hc; by apply (Hcoh cid c Hcl id) in Hv as [? _].
Qed.

Lemma coh_removed s s' cl id : only_id s s' id -> coh s cl ->
  coh s' (deliver ((fun c => (c, RRemove id)) <$> listeners s' id) cl).
Proof.
  intros Hon Hcoh cid c. rewrite deliver_lookup by (intros; apply callback_idem).
  pose proof (fun c0 H0 j => coh_other s s' cl id cid c0 j Hon Hcoh H0) as Hold.
  destruct Hon as (Hc & _ & _).
  case_decide as Hl.
  - intros Hcl j. destruct (cl !! cid) as [c0|] eqn:Hc0; [|done]. simpl in Hcl. simplify_eq. simpl.
    destruct (decide (j = id)) as [->|Hj].
    + rewrite !lookup_delete_eq. done.
    + rewrite !lookup_delete_ne by done. by apply Hold.
  - intros Hcl j. destruct (decide (j = id)) as [->|Hj]; [|by apply Hold].
    split; intros v Hv; exfalso; apply Hl, elem_of_listeners; unfold registered;
      rewrite Hc; by apply (Hcoh cid c Hcl id) in Hv as [? _].
Qed.

(** ** The handlers *)

Lemma coh_update_cache s cl id ms s' : update_cache id s = Ok (ms, s') -> coh s cl ->
  coh s' (deliver ms cl).
Proof.
  intros E Hcoh. unfold update_cache in E. inv_bind E. inv_bind E. inv_bind E.
  injection Hstep1 as _ <-. unfold broadcast in E. injection E as <- <-.
  apply im_call_inv in Hstep, Hstep0.
  assert (coh s1 cl) as Hcoh1 by (eapply coh_same; [exact Hstep0|]; by eapply coh_same).
  eapply coh_update; [|exact Hcoh1]. unfold only_id, data_of, attr_of. simpl.
  split; [done|]. split; intros j Hj; by rewrite lookup_insert_ne.
Qed.

Lemma deliver_app m1 m2 cl : deliver (m1 ++ m2) cl = deliver m2 (deliver m1 cl).
Proof. apply fold_left_app. Qed.

Lemma coh_put s cl cid id buf st ms s' : es_put cid id buf s = Ok ((st, ms), s') -> coh s cl ->
  coh s' (deliver ms cl).
Proof.
  intros E Hcoh. unfold es_put in E. inv_bind E. inv_bind E. inv_bind E.
  injection E as <- <- <-. eapply coh_register; [by destruct a1|].
  eapply coh_update_cache; [done|]. by eapply coh_same; [by eapply im_call_inv|].
Qed.

Lemma coh_create s cl ty cid parent name st id ms s' :
  es_create ty cid parent name s = Ok ((st, id, ms), s') -> coh s cl -> coh s' (deliver ms cl).
Proof.
  intros E Hcoh. unfold es_create in E. inv_bind E. apply im_call_inv in Hstep.
  pose proof (coh_same _ _ _ Hstep Hcoh) as Hcoh0. destruct (a =? INODE_NUM).
  { injection E as <- <- <- <-. done. }
  inv_bind E. injection Hstep0 as <- <-. do 4 inv_bind E. injection E as <- <- <- <-.
  rewrite deliver_app. eapply coh_register; [by destruct a3|].
  eapply coh_update_cache; [done|]. eapply coh_update_cache; [done|].
  by eapply coh_same; [by eapply im_call_inv|].
Qed.

Lemma coh_symlink s cl cid parent name link st id ms s' :
  es_createSymLink cid parent name link s = Ok ((st, id, ms), s') -> coh s cl -> coh s' (deliver ms cl).
Proof.
  intros E Hcoh. unfold es_createSymLink in E. do 2 inv_bind E. apply im_call_inv in Hstep, Hstep0.
  inv_bind E. injection Hstep1 as <- <-. do 4 inv_bind E. injection E as <- <- <- <-.
  rewrite deliver_app. eapply coh_register; [by destruct a4|].
  eapply coh_update_cache; [done|]. eapply coh_update_cache; [done|].
  eapply coh_same; [by eapply im_call_inv|]. eapply coh_same; [exact Hstep0|]. by eapply coh_same.
Qed.

Lemma coh_remove s cl cid parent name id st ms s' :
  es_remove cid parent name id s = Ok ((st, ms), s') -> coh s cl -> coh s' (deliver ms cl).
Proof.
  intros E Hcoh. unfold es_remove in E. inv_bind E. apply im_call_inv in Hstep.
  inv_bind E. injection Hstep0 as <- <-. destruct (erase_entry _ _) as [buf|]; [|done].
  do 5 inv_bind E. injection E as <- <- <-. injection Hstep2 as _ <-.
  unfold broadcast in Hstep3. injection Hstep3 as <- <-.
  rewrite deliver_app. eapply coh_register; [by destruct a4|].
  eapply coh_removed; cycle 1.
  { eapply coh_update_cache; [done|]. eapply coh_same; [by eapply im_call_inv|]. by eapply coh_same. }
  unfold only_id, data_of, attr_of. simpl. split; [done|]. split; intros j Hj; by rewrite lookup_delete_ne.
Qed.

Lemma registered_register s cid id :
  registered (ExtentServer (es_im s) (<[cid := {[id]} ∪ default ∅ (es_clients s !! cid)]> (es_clients s))
    (es_data s) (es_attr s)) cid id.
Proof. unfold registered. simpl. rewrite lookup_insert_eq. simpl. set_solver. Qed.

(** The calls register the client and return what the caches have. *)
Definition registering (cid : bytes) (id : Z) s : @extent_server S :=
  ExtentServer (es_im s) (<[cid := {[id]} ∪ default ∅ (es_clients s !! cid)]> (es_clients s)) (es_data s) (es_attr s).
Lemma fetch_data_run cid eid (y : esys) :
  fetch_data cid eid y = Ok (data_of (sy_srv y) eid, Esys (registering cid eid (sy_srv y)) (sy_cl y)).
Proof. reflexivity. Qed.
Lemma fetch_attr_run cid eid (y : esys) :
  fetch_attr cid eid y = Ok (attr_of (sy_srv y) eid, Esys (registering cid eid (sy_srv y)) (sy_cl y)).
Proof. reflexivity. Qed.

Lemma coh_get (y : esys) cid c eid r y' : sy_cl y !! cid = Some c -> ec_get cid c eid y = Ok (r, y') ->
  coh (sy_srv y) (sy_cl y) -> coh (sy_srv y') (sy_cl y').
Proof.
  intros Hc E Hcoh. unfold ec_get, keep in E. destruct (ec_data c !! eid) as [b|] eqn:Hhit; [by simplify_eq|].
  rewrite fetch_data_run in E. simplify_eq. simpl.
  pose proof (coh_register (sy_srv y) (sy_cl y) cid eid _ eq_refl Hcoh) as Hreg.
  intros cid' c'. rewrite lookup_insert_Some. intros [[<- <-]|[_ Hc']]; [|by apply Hreg].
  intros id. destruct (Hreg cid c Hc id) as [Hd Ha]. simpl. split; [|exact Ha].
  intros v. rewrite lookup_insert_Some. intros [[<- <-]|[_ Hv]]; [|by apply Hd].
  split; [apply registered_register | done].
Qed.

Lemma coh_getattr (y : esys) cid c eid r y' : sy_cl y !! cid = Some c ->
  ec_getattr cid c eid y = Ok (r, y') -> coh (sy_srv y) (sy_cl y) -> coh (sy_srv y') (sy_cl y').
Proof.
  intros Hc E Hcoh. unfold ec_getattr, keep in E. destruct (ec_attr c !! eid) as [b|] eqn:Hhit; [by simplify_eq|].
  rewrite fetch_attr_run in E. simplify_eq. simpl.
  pose proof (coh_register (sy_srv y) (sy_cl y) cid eid _ eq_refl Hcoh) as Hreg.
  intros cid' c'. rewrite lookup_insert_Some. intros [[<- <-]|[_ Hc']]; [|by apply Hreg].
  intros id. destruct (Hreg cid c Hc id) as [Hd Ha]. simpl. split; [exact Hd|].
  intros v. rewrite lookup_insert_Some. intros [[<- <-]|[_ Hv]]; [|by apply Ha].
  split; [apply registered_register | done].
Qed.

(** An operation that changes files: what it does to any clients. *)
Lemma coh_change op (y y' : esys) r : is_change op = true -> run_eop op y = Some (Ok (r, y')) ->
  sy_cl y' = deliver (eop_msgs op y) (sy_cl y) /\
  forall cl, coh (sy_srv y) cl -> coh (sy_srv y') (deliver (eop_msgs op y) cl).
Proof.
  intros Hch E. destruct op; try done; simpl in E; destruct (sy_cl y !! c) as [k|] eqn:Hk; simpl in E; try done; injection E as E; simpl.
  - unfold ec_put in E. destruct (es_put _ _ _ _) as [[[st ms] s]|] eqn:Eh; [|done].
    destruct (st =? _); simplify_eq. split; [done|]. intros cl. by eapply coh_put.
  - unfold ec_create in E. destruct (es_create _ _ _ _ _) as [[[[st id] ms] s]|] eqn:Eh; simplify_eq.
    split; [done|]. intros cl. by eapply coh_create.
  - unfold ec_symlink in E. destruct (es_createSymLink _ _ _ _ _) as [[[[st id] ms] s]|] eqn:Eh; simplify_eq.
    split; [done|]. intros cl. by eapply coh_symlink.
  - unfold ec_remove in E. destruct (es_remove _ _ _ _ _) as [[[st ms] s]|] eqn:Eh; simplify_eq.
    split; [done|]. intros cl. by eapply coh_remove.
Qed.

(** *** The callbacks of one client *)

Definition run_callbacks (cbs : list callback) (c : extent_client) : extent_client :=
  fold_left (fun c cb => run_callback cb c) cbs c.

Lemma deliver_at ms cl cid : deliver ms cl !! cid = run_callbacks (to_client cid ms) <$> cl !! cid.
Proof.
  unfold deliver. revert cl. induction ms as [|[d cb] ms IH]; intros cl; [simpl; by destruct (cl !! cid)|].
  cbn [fold_left]. rewrite IH. unfold to_client, deliver1. rewrite filter_cons. simpl.
  destruct (decide (d = cid)) as [->|Hne].
  - destruct (cl !! cid) as [c|] eqn:Hc; [|by rewrite Hc]. by rewrite lookup_insert_eq.
  - destruct (cl !! d); [|done]. by rewrite lookup_insert_ne.
Qed.

(** Callbacks act on each entry by itself: those for [id] determine it, whatever
    it was, and the others leave it. *)
Lemma run_entry cbs id : exists (gd : option bytes -> option bytes) (ga : option attr -> option attr),
  (forall c, ec_data (run_callbacks cbs c) !! id = gd (ec_data c !! id)) /\
  (forall c, ec_attr (run_callbacks cbs c) !! id = ga (ec_attr c !! id)) /\
  if existsb (about id) cbs then (forall x x', gd x = gd x') /\ (forall x x', ga x = ga x')
  else (forall x, gd x = x) /\ (forall x, ga x = x).
Proof.
  induction cbs as [|cb cbs (gd & ga & Hd & Ha & Hab)]; [by exists (fun x => x), (fun x => x)|]. simpl.
  destruct (about id cb) eqn:Hcb.
  - exists (fun _ => gd match cb with RRemove _ => None | RUpdate _ _ d => Some d end),
      (fun _ => ga match cb with RRemove _ => None | RUpdate _ a _ => Some a end).
    split; [|split; [|done]]; intros c; [rewrite Hd | rewrite Ha]; f_equal;
      destruct cb; apply Z.eqb_eq in Hcb as ->; simpl; by rewrite ?lookup_insert_eq, ?lookup_delete_eq.
  - exists gd, ga. split; [|split; [|done]]; intros c; [rewrite Hd | rewrite Ha]; f_equal;
      destruct cb; apply Z.eqb_neq in Hcb; simpl; by rewrite ?lookup_insert_ne, ?lookup_delete_ne.
Qed.

(** ** The invariant of the interleaved system *)

(** The entries of a client that are not stale. *)
Definition fresh_part (cid : bytes) (sd sa : gset (bytes * Z)) (c : extent_client) : extent_client :=
  ExtentClient (filter (fun p => (cid, fst p) ∉ sd) (ec_data c)) (filter (fun p => (cid, fst p) ∉ sa) (ec_attr c)).

Definition flight_coh s (f : flight) : Prop :=
  fl_late f = false -> registered s (fl_cid f) (fl_eid f) /\
  match fl_val f with VData b => data_of s (fl_eid f) = b | VAttr a => attr_of s (fl_eid f) = a end.

Record iinv (s : isys) : Prop := {
  ii_cl cid c : sy_cl (i_sys s) !! cid = Some c ->
    client_coh (sy_srv (i_sys s)) cid (fresh_part cid (i_stale_data s) (i_stale_attr s) c);
  ii_fl f : f ∈ i_flights s -> flight_coh (sy_srv (i_sys s)) f }.

Lemma fresh_data cid sd sa c id v :
  ec_data (fresh_part cid sd sa c) !! id = Some v <-> ec_data c !! id = Some v /\ (cid, id) ∉ sd.
Proof. simpl. by rewrite map_lookup_filter_Some. Qed.
Lemma fresh_attr cid sd sa c id a :
  ec_attr (fresh_part cid sd sa c) !! id = Some a <-> ec_attr c !! id = Some a /\ (cid, id) ∉ sa.
Proof. simpl. by rewrite map_lookup_filter_Some. Qed.

Lemma coh_singleton s cid c : client_coh s cid c -> coh s {[cid := c]}.
Proof. intros Hc cid' c' [<- <-]%lookup_singleton_Some. exact Hc. Qed.

(** What an operation that sends [ms] keeps. *)
Section change.
Context (s s' : @extent_server S) (ms : list message).
Hypothesis Hms : forall cl, coh s cl -> coh s' (deliver ms cl).

Lemma client_change cid c : client_coh s cid c -> client_coh s' cid (run_callbacks (to_client cid ms) c).
Proof.
  intros Hc. apply (Hms _ (coh_singleton s cid c Hc)). by rewrite deliver_at, lookup_singleton_eq.
Qed.

Lemma fresh_change cid sd sa c : client_coh s cid (fresh_part cid sd sa c) ->
  client_coh s' cid (fresh_part cid (untold ms sd) (untold ms sa) (run_callbacks (to_client cid ms) c)).
Proof.
  intros Hc%client_change id. destruct (Hc id) as [Hd Ha]. split; intros v.
  - intros [Hv Hn]%fresh_data. apply Hd. revert Hv Hn.
    destruct (run_entry (to_client cid ms) id) as (gd & ga & Ed & _ & Hab). rewrite !Ed. intros Hv Hn.
    destruct (existsb _ _) eqn:Ht; [destruct Hab as [Hab _]; by rewrite (Hab _ (ec_data c !! id))|].
    destruct Hab as [Hab _]. rewrite Hab in *. apply fresh_data. split; [done|].
    intros Hin. apply Hn, elem_of_filter. split; [exact Ht|done].
  - intros [Hv Hn]%fresh_attr. apply Ha. revert Hv Hn.
    destruct (run_entry (to_client cid ms) id) as (gd & ga & _ & Ea & Hab). rewrite !Ea. intros Hv Hn.
    destruct (existsb _ _) eqn:Ht; [destruct Hab as [_ Hab]; by rewrite (Hab _ (ec_attr c !! id))|].
    destruct Hab as [_ Hab]. rewrite Hab in *. apply fresh_attr. split; [done|].
    intros Hin. apply Hn, elem_of_filter. split; [exact Ht|done].
Qed.

(** A reply in flight is like an entry of a cache until a callback for its file
    arrives. *)
Definition as_cached (f : flight) : extent_client := store_value (fl_eid f) (fl_val f) new_extent_client.

Lemma flight_cached s0 f : client_coh s0 (fl_cid f) (as_cached f) <->
  registered s0 (fl_cid f) (fl_eid f) /\
  match fl_val f with VData b => data_of s0 (fl_eid f) = b | VAttr a => attr_of s0 (fl_eid f) = a end.
Proof.
  destruct f as [cid eid [b|a] late]; unfold as_cached; simpl; split.
  - intros Hc. apply (Hc eid). simpl. by rewrite lookup_insert_eq.
  - intros [Hr Hb] id. split; intros v; simpl; [|by rewrite lookup_empty].
    rewrite lookup_insert_Some, lookup_empty. by intros [[<- <-]|[_ ?]].
  - intros Hc. apply (Hc eid). simpl. by rewrite lookup_insert_eq.
  - intros [Hr Hb] id. split; intros v; simpl; [by rewrite lookup_empty|].
    rewrite lookup_insert_Some, lookup_empty. by intros [[<- <-]|[_ ?]].
Qed.

Lemma flight_change f : flight_coh s f -> flight_coh s' (overtake ms f).
Proof.
  intros Hf [Hl Ht]%orb_false_iff. simpl in *.
  apply (flight_cached s' f). pose proof (client_change _ _ (proj2 (flight_cached s f) (Hf Hl))) as Hc.
  intros id. destruct (Hc id) as [Hd Ha], (run_entry (to_client (fl_cid f) ms) id) as (gd & ga & Ed & Ea & Hab).
  rewrite Ed in Hd. rewrite Ea in Ha. destruct (decide (id = fl_eid f)) as [->|Hne].
  - unfold told in Ht. simpl in Ht. rewrite Ht in Hab. destruct Hab as [H1 H2]. rewrite H1 in Hd. by rewrite H2 in Ha.
  - unfold as_cached. destruct (fl_val f); split; intros v; simpl; rewrite ?lookup_insert_ne, ?lookup_empty by done; done.
Qed.
End change.

(** A registration changes nothing else. *)
Lemma client_register s cid id s' cid' c : register cid id s = Ok (tt, s') -> client_coh s cid' c -> client_coh s' cid' c.
Proof. intros Hr Hc. apply (coh_register s {[cid' := c]} cid id s' Hr (coh_singleton _ _ _ Hc)). by rewrite lookup_singleton_eq. Qed.

Lemma flight_register s cid id s' f : register cid id s = Ok (tt, s') -> flight_coh s f -> flight_coh s' f.
Proof. intros Hr Hf Hl. apply flight_cached. eapply client_register; [exact Hr|]. apply flight_cached. by apply Hf. Qed.

Lemma iinv_fetch (s : isys) cid eid v srv : iinv s -> register cid eid (sy_srv (i_sys s)) = Ok (tt, srv) ->
  match v with VData b => data_of (sy_srv (i_sys s)) eid = b | VAttr a => attr_of (sy_srv (i_sys s)) eid = a end ->
  iinv (Isys (Esys srv (sy_cl (i_sys s))) (i_flights s ++ [Flight cid eid v false]) (i_stale_data s) (i_stale_attr s)).
Proof.
  intros [H1 H2] Hr Hv. split; simpl.
  - intros cid' c Hc. eapply client_register; [exact Hr|]. by apply H1.
  - intros f [Hf| ->%list_elem_of_singleton]%elem_of_app; [by eapply flight_register; [exact Hr|apply H2]|].
    intros _. simpl. injection Hr as <-. split; [apply registered_register | by destruct v].
Qed.

Lemma iinv_store (s : isys) k f c : iinv s -> i_flights s !! k = Some f -> sy_cl (i_sys s) !! fl_cid f = Some c ->
  iinv (Isys (keep (fl_cid f) (store_value (fl_eid f) (fl_val f) c) (i_sys s)) (delete k (i_flights s))
    (match fl_val f with VData _ => restale (fl_late f) (fl_cid f, fl_eid f) (i_stale_data s) | VAttr _ => i_stale_data s end)
    (match fl_val f with VData _ => i_stale_attr s | VAttr _ => restale (fl_late f) (fl_cid f, fl_eid f) (i_stale_attr s) end)).
Proof.
  intros [H1 H2] Hk Hc. assert (flight_coh (sy_srv (i_sys s)) f) as Hf by (by eapply H2, list_elem_of_lookup_2).
  split; simpl; [|intros g Hg; apply H2; eapply elem_of_submseteq; [exact Hg | apply sublist_submseteq, sublist_delete]].
  intros cid c'. rewrite lookup_insert_Some. intros [[<- <-]|[Hne Hc']] id; simpl.
  - destruct (H1 _ _ Hc id) as [Hd Ha]. destruct f as [cid eid [b|a] late]; simpl in *; split; intros v.
    + rewrite map_lookup_filter_Some. simpl. rewrite lookup_insert_Some. intros [[[<- <-]|[Hne Hv]] Hn].
      * apply Hf. destruct late; [|done]. simpl in Hn. set_solver.
      * apply Hd, map_lookup_filter_Some. split; [done|]. intros Hin. apply Hn. unfold restale. destruct late; set_solver.
    + rewrite map_lookup_filter_Some. intros Hv. by apply Ha, map_lookup_filter_Some.
    + rewrite map_lookup_filter_Some. intros Hv. by apply Hd, map_lookup_filter_Some.
    + rewrite map_lookup_filter_Some. simpl. rewrite lookup_insert_Some. intros [[[<- <-]|[Hne Hv]] Hn].
      * apply Hf. destruct late; [|done]. simpl in Hn. set_solver.
      * apply Ha, map_lookup_filter_Some. split; [done|]. intros Hin. apply Hn. unfold restale. destruct late; set_solver.
  - destruct (H1 _ _ Hc' id) as [Hd Ha]. simpl in *. split; intros v.
    + rewrite map_lookup_filter_Some. intros [Hv Hn]. apply Hd, map_lookup_filter_Some. split; [done|]. intros Hin. apply Hn.
      destruct (fl_val f); [|done]. unfold restale. destruct (fl_late f); set_solver.
    + rewrite map_lookup_filter_Some. intros [Hv Hn]. apply Ha, map_lookup_filter_Some. split; [done|]. intros Hin. apply Hn.
      destruct (fl_val f); [done|]. unfold restale. destruct (fl_late f); set_solver.
Qed.

Lemma iinv_step (s : isys) ev (s' : isys) : iinv s -> istep s ev = Some (Ok s') -> iinv s'.
Proof.
  intros Hinv E. destruct ev as [cid|op|cid eid|cid eid|k]; simpl in E.
  - destruct (sy_cl (i_sys s) !! cid) eqn:Hc; [done|]. injection E as <-. destruct Hinv as [H1 H2]. split; simpl; [|done].
    intros cid' c. rewrite lookup_insert_Some. intros [[<- <-]|[_ Hc']]; [|by apply H1].
    intros id. split; intros v; [rewrite fresh_data | rewrite fresh_attr]; simpl; rewrite lookup_empty; by intros [? _].
  - destruct (is_change op) eqn:Hch; [|done]. destruct (run_eop op (i_sys s)) as [[[r y']|]|] eqn:Er; simpl in E; try done.
    injection E as <-. destruct (coh_change op (i_sys s) y' r Hch Er) as [Hcl Hms], Hinv as [H1 H2]. split; simpl.
    + intros cid c. rewrite Hcl, deliver_at. intros (c0 & Hc0 & ->)%fmap_Some_1. apply (fresh_change _ _ _ Hms). by apply H1.
    + intros g (f & -> & Hf)%list_elem_of_fmap. apply (flight_change _ _ _ Hms). by apply H2.
  - destruct (sy_cl (i_sys s) !! cid); [|done]. simpl in E. destruct (ec_data _ !! eid); [done|].
    injection E as <-. exact (iinv_fetch s cid eid (VData _) _ Hinv eq_refl eq_refl).
  - destruct (sy_cl (i_sys s) !! cid); [|done]. simpl in E. destruct (ec_attr _ !! eid); [done|].
    injection E as <-. exact (iinv_fetch s cid eid (VAttr _) _ Hinv eq_refl eq_refl).
  - destruct (i_flights s !! k) as [f|] eqn:Hk; [|done]. simpl in E.
    destruct (sy_cl (i_sys s) !! fl_cid f) as [c|] eqn:Hc; [|done]. simpl in E. injection E as <-. by eapply iinv_store.
Qed.

Lemma ireach_inv srv (s : isys) : ireach srv s -> iinv s.
Proof.
  induction 1 as [|s ev s' _ IH E]; [|by eapply iinv_step]. split; simpl; [|by intros f Hf%not_elem_of_nil].
  intros cid c. by rewrite lookup_empty.
Qed.

(** C7. Cached entries are right unless a callback overtook the reply they come
    from: in every interleaving of the clients' calls in which the reply of a
    [get] or [getattr] may travel while other calls run and their callbacks are
    handled, whenever the last reply a client stored for a file was not a late
    one, its [get] and [getattr] of the file return what the server holds at that
    moment, answered from the cache or not; and the next callback for the file
    makes the entry right again.  The handler of a call that changes files runs
    with its callbacks as one step of the server. *)
Theorem extent_clients_coherent (srv : extent_server) (s : isys) (cid : bytes) (c : extent_client) (eid : Z) :
  ireach srv s -> sy_cl (i_sys s) !! cid = Some c ->
  let y := i_sys s in
  ((cid, eid) ∉ i_stale_data s -> exists y', run_eop (CGet cid eid) y = Some (Ok (EData (data_of (sy_srv y) eid), y'))) /\
  ((cid, eid) ∉ i_stale_attr s -> exists y', run_eop (CGetattr cid eid) y = Some (Ok (EAttr (attr_of (sy_srv y) eid), y'))) /\
  forall op (s' : isys), istep s (Change op) = Some (Ok s') -> told (eop_msgs op y) (cid, eid) = true ->
    (cid, eid) ∉ i_stale_data s' /\ (cid, eid) ∉ i_stale_attr s'.
Proof.
  intros Hr Hc y. pose proof (ii_cl _ (ireach_inv srv s Hr) cid c Hc eid) as [Hd Ha]. fold y in Hc, Hd, Ha.
  simpl. rewrite Hc. simpl. unfold ec_get, ec_getattr. split_and!.
  - intros Hn. destruct (ec_data c !! eid) as [b|] eqn:E; [|eauto]. destruct (Hd b) as [_ ->]; [|eauto]. by apply fresh_data.
  - intros Hn. destruct (ec_attr c !! eid) as [a|] eqn:E; [|eauto]. destruct (Ha a) as [_ ->]; [|eauto]. by apply fresh_attr.
  - intros op s' E Ht. fold y in E. destruct (is_change op); [|done]. destruct (run_eop op y) as [[[r y']|]|]; simpl in E; try done.
    injection E as <-. simpl. split; intros [Hf _]%elem_of_filter; congruence.
Qed.
End coherence.

(** ** The server's caches and the files *)

Section files.
Context {S : Type} `{FileStoreOk S}.
Implicit Types (s : @extent_server S).

(** The caches of [id] agree with the file: its data, and its attributes when
    they are cached. *)
Definition cache_ok s (id : Z) : Prop :=
  data_of s id = snd (st_file (es_im s) id) /\
  forall a, es_attr s !! id = Some a ->
    a_type a = u32 (fst (st_file (es_im s) id)) /\
    a_size a = Z.of_nat (length (snd (st_file (es_im s) id))).

Record es_inv s : Prop := {
  ei_store : st_ok (es_im s);
  ei_cache : forall id, inum_valid id -> cache_ok s id }.

Lemma mask_id id : inum_valid id -> mask id = id /\ u32 id = id.
Proof.
  unfold inum_valid. change INODE_NUM with 1024. intros Hi. unfold mask, u32. split.
  - change 0x7fffffff with (Z.ones 31). rewrite Z.land_ones by lia. apply Z.mod_small. lia.
  - apply Z.mod_small. lia.
Qed.

(** [update_cache] of a valid id brings its caches up to date, announces them
    and touches nothing else. *)
Lemma run_update_cache s id : st_ok (es_im s) -> inum_valid id ->
  exists s', update_cache id s =
      Ok ((fun c => (c, RUpdate id (attr_of s' id) (data_of s' id))) <$> listeners s' id, s') /\
    st_ok (es_im s') /\ st_free (es_im s') = st_free (es_im s) /\
    (forall j, st_file (es_im s') j = st_file (es_im s) j) /\
    es_clients s' = es_clients s /\ cache_ok s' id /\
    forall j, j <> id -> es_data s' !! j = es_data s !! j /\ es_attr s' !! j = es_attr s !! j.
Proof.
  intros Hok Hi. destruct (mask_id id Hi) as [Hm Hu]. unfold update_cache. rewrite Hm, Hu.
  destruct (st_read id (es_im s) Hok Hi) as (im1 & E1 & Hok1 & Hf1 & Hfile1).
  rewrite (bind_ok _ _ s (Some (snd (st_file (es_im s) id))) (set_im im1 s))
    by (unfold im_call; by rewrite E1).
  destruct (st_getattr id im1 Hok1 Hi) as (a & im2 & E2 & Hok2 & Ht & Hs & Hf2 & Hfile2).
  rewrite (bind_ok _ _ (set_im im1 s) (Some a) (set_im im2 s))
    by (unfold im_call; simpl; by rewrite E2).
  erewrite bind_ok by reflexivity. eexists; split; [reflexivity|]. simpl.
  split_and!; [done | lia | intros j; by rewrite Hfile2, Hfile1 | done | |].
  - unfold cache_ok, data_of. simpl. rewrite !lookup_insert_eq, Hfile2, Hfile1. simpl. split; [done|].
    intros a' [= <-]. by rewrite <- Hfile1.
  - intros j Hj. by rewrite !lookup_insert_ne.
Qed.

Lemma cache_ok_frame s s' id : cache_ok s id -> es_data s' !! id = es_data s !! id ->
  es_attr s' !! id = es_attr s !! id -> st_file (es_im s') id = st_file (es_im s) id -> cache_ok s' id.
Proof. intros [Hd Ha] Ed Ea Ef. unfold cache_ok, data_of. rewrite Ed, Ea, Ef. done. Qed.

(** Writing a file through the server, in the middle of a handler. *)
Lemma run_write_str s id buf : st_ok (es_im s) -> inum_valid id -> Z.of_nat (length buf) < max_file ->
  blocks_num (Z.of_nat (length buf)) + 1 <= st_free (es_im s) ->
  exists im, write_str id buf s = Ok (tt, set_im im s) /\ st_ok im /\
    st_file im id = (fst (st_file (es_im s) id), buf) /\
    st_free (es_im s) - (blocks_num (Z.of_nat (length buf)) + 1) <= st_free im /\
    forall j, inum_valid j -> j <> id -> st_file im j = st_file (es_im s) j.
Proof.
  intros Hok Hi Hlen Hfree. destruct (mask_id id Hi) as [_ Hu].
  destruct (st_write id buf (es_im s) Hok Hi Hlen Hfree) as (im & E & Hrest).
  exists im. split; [|exact Hrest]. unfold write_str, im_call. rewrite Hu. by rewrite E.
Qed.

Lemma run_register s cid id : exists s', register cid id s = Ok (tt, s') /\ es_im s' = es_im s /\
  es_data s' = es_data s /\ es_attr s' = es_attr s /\ registered s' cid id.
Proof. eexists; split; [reflexivity|]. split_and!; try done. apply registered_register. Qed.

Lemma run_es_put cid id buf s :
  es_inv s -> inum_valid id -> Z.of_nat (length buf) < max_file ->
  blocks_num (Z.of_nat (length buf)) + 1 <= st_free (es_im s) ->
  exists ms s', es_put cid id buf s = Ok ((extent_protocol.OK, ms), s') /\ es_inv s' /\
    st_file (es_im s') id = (fst (st_file (es_im s) id), buf) /\ data_of s' id = buf /\
    (forall j, inum_valid j -> j <> id -> st_file (es_im s') j = st_file (es_im s) j) /\
    registered s' cid id /\
    forall c cb, (c, cb) ∈ ms <-> registered s c id /\ cb = RUpdate id (attr_of s' id) buf.
Proof.
  intros [Hok Hcache] Hi Hlen Hfree. destruct (mask_id id Hi) as [Hm Hu]. unfold es_put. rewrite Hm.
  destruct (run_write_str s id buf Hok Hi Hlen Hfree) as (im & E1 & Hok1 & Hf1 & _ & Hoth1).
  erewrite bind_ok by exact E1.
  destruct (run_update_cache (set_im im s) id Hok1 Hi) as (s2 & E2 & Hok2 & _ & Hf2 & Hcl2 & Hc2 & Hoth2).
  erewrite bind_ok by exact E2.
  destruct (run_register s2 cid id) as (s3 & E3 & Him & Hd & Ha & Hreg).
  erewrite bind_ok by exact E3. eexists _, s3. split; [reflexivity|].
  assert (data_of s2 id = buf) as Hbuf by (destruct Hc2 as [-> _]; by rewrite Hf2; simpl; rewrite Hf1).
  split_and!.
  - split; [by rewrite Him|]. intros j Hj. destruct (decide (j = id)) as [->|Hne].
    + eapply cache_ok_frame; [exact Hc2 | by rewrite Hd | by rewrite Ha | by rewrite Him].
    + destruct (Hoth2 j Hne) as [Hdj Haj]. eapply cache_ok_frame; [by apply Hcache | by rewrite Hd, Hdj
        | by rewrite Ha, Haj | rewrite Him, Hf2; by apply Hoth1].
  - by rewrite Him, Hf2.
  - unfold data_of. by rewrite Hd.
  - intros j Hj Hne. rewrite Him, Hf2. by apply Hoth1.
  - done.
  - intros c cb. rewrite list_elem_of_fmap. setoid_rewrite elem_of_listeners.
    assert (forall c, registered s2 c id <-> registered s c id) as Hr by (intros c'; unfold registered; by rewrite Hcl2).
    assert (attr_of s3 id = attr_of s2 id) as -> by (unfold attr_of; by rewrite Ha).
    rewrite Hbuf. setoid_rewrite Hr. split; [intros (c' & ? & ?); by simplify_eq | intros [? ->]; eauto].
Qed.

Lemma length_filename id : inum_valid id -> (length (filename id) <= 4)%nat.
Proof.
  intros Hi. assert (forallb (fun i => length (filename i) <=? 4)%nat (seqZ 0 1024) = true) as Hall
    by (vm_compute; reflexivity).
  rewrite forallb_forall in Hall. apply Nat.leb_le, Hall. apply list_elem_of_In, elem_of_seqZ.
  unfold inum_valid in Hi. change INODE_NUM with 1024 in Hi. lia.
Qed.

Lemma blocks_num_mono a b : 0 <= a <= b -> blocks_num a <= blocks_num b.
Proof.
  intros Hab. unfold blocks_num. destruct (Z.eqb_spec a 0), (Z.eqb_spec b 0); try lia.
  - pose proof (Z.div_pos (b - 1) BLOCK_SIZE ltac:(lia) ltac:(done)). lia.
  - pose proof (Z.div_le_mono (a - 1) (b - 1) BLOCK_SIZE ltac:(done) ltac:(lia)). lia.
Qed.

(** The end of [create] and [createSymLink]: the entry of the new file [id], whose
    caches need not be up to date yet, is added to the directory. *)
Lemma run_add_entry cid parent id name s :
  let size := Z.of_nat (length (data_of s parent) + length name) + 6 in
  let buf := data_of s parent ++ entry name id in
  st_ok (es_im s) -> (forall j, inum_valid j -> j <> id -> cache_ok s j) -> inum_valid parent -> inum_valid id -> id <> parent ->
  size < max_file -> blocks_num size + 1 <= st_free (es_im s) ->
  exists ms s', (write_str parent buf ≫= fun _ => m1 ← update_cache parent; m2 ← update_cache id;
      register cid id ≫= fun _ => mret (extent_protocol.OK, id, m1 ++ m2)) s = Ok ((extent_protocol.OK, id, ms), s') /\
    es_inv s' /\ st_file (es_im s') parent = (fst (st_file (es_im s) parent), buf) /\ data_of s' parent = buf /\ registered s' cid id /\
    st_free (es_im s) - (blocks_num size + 1) <= st_free (es_im s') /\
    forall j, inum_valid j -> j <> parent -> st_file (es_im s') j = st_file (es_im s) j.
Proof.
  intros size buf Hok Hcache Hp Hidv Hne Hlen Hfree.
  assert (Z.of_nat (length buf) <= size) as Hbl.
  { pose proof (length_filename id Hidv). unfold buf, entry, size. rewrite !length_app. simpl. lia. }
  pose proof (blocks_num_mono (Z.of_nat (length buf)) size ltac:(lia)).
  destruct (run_write_str s parent buf) as (im2 & E2 & Hok2 & Hf2 & Hfr2 & Hoth2); [done | done | lia | lia|].
  erewrite bind_ok by exact E2.
  destruct (run_update_cache (set_im im2 s) parent Hok2 Hp) as (s3 & E3 & Hok3 & Hfr3 & Hf3 & Hcl3 & Hc3 & Ho3).
  erewrite bind_ok by exact E3.
  destruct (run_update_cache s3 id Hok3 Hidv) as (s4 & E4 & Hok4 & Hfr4 & Hf4 & Hcl4 & Hc4 & Ho4).
  erewrite bind_ok by exact E4.
  destruct (run_register s4 cid id) as (s5 & E5 & Him & Hd & Ha & Hreg).
  erewrite bind_ok by exact E5. simpl in Hf3.
  assert (forall j, st_file (es_im s5) j = st_file im2 j) as Hfile by (intros j; by rewrite Him, Hf4, Hf3).
  eexists _, s5. split; [reflexivity|]. split_and!; try done.
  - split; [by rewrite Him|]. intros j Hj. destruct (decide (j = id)) as [->|Hji].
    { eapply cache_ok_frame; [exact Hc4 | by rewrite Hd | by rewrite Ha | by rewrite Him]. }
    destruct (Ho4 j Hji) as [Hdj Haj]. destruct (decide (j = parent)) as [->|Hjp].
    { eapply cache_ok_frame; [exact Hc3 | by rewrite Hd, Hdj | by rewrite Ha, Haj | by rewrite Him, Hf4]. }
    destruct (Ho3 j Hjp) as [Hdj' Haj']. eapply cache_ok_frame;
      [by apply Hcache | by rewrite Hd, Hdj, Hdj' | by rewrite Ha, Haj, Haj' | rewrite Hfile, Hoth2; done].
  - by rewrite Hfile.
  - destruct (Ho4 parent) as [Hdp _]; [done|]. unfold data_of. rewrite Hd, Hdp. fold (data_of s3 parent).
    destruct Hc3 as [-> _]. by rewrite Hf3, Hf2.
  - rewrite Him, Hfr4, Hfr3. simpl. lia.
  - intros j Hj Hjp. by rewrite Hfile, Hoth2.
Qed.

(** A free inode for a new file of type [ty]. *)
Lemma run_alloc_free ty s : es_inv s -> (exists i, 1 <= i < INODE_NUM /\ fst (st_file (es_im s) i) = 0) ->
  exists id im, im_call (im_alloc_inode ty) s = Ok (id, set_im im s) /\ 1 <= id < INODE_NUM /\ st_ok im /\
    fst (st_file (es_im s) id) = 0 /\ st_file im id = (s16 ty, []) /\ st_free im = st_free (es_im s) /\
    (forall j, inum_valid j -> j <> id -> st_file im j = st_file (es_im s) j) /\
    forall j, inum_valid j -> j <> id -> cache_ok (set_im im s) j.
Proof.
  intros [Hok Hcache] Hex.
  destruct (st_alloc ty (es_im s) Hok) as [(id & im & E & Hid & Hok1 & Hz & Hf1 & Hfr1 & Hoth1)|[_ Hall]];
    [|destruct Hex as (i & Hi & Hi0); by destruct (Hall i)].
  exists id, im. split_and!; try done; try lia; [unfold im_call; by rewrite E|].
  intros j Hj Hji. eapply cache_ok_frame; [by apply Hcache | done | done | by apply Hoth1].
Qed.

Lemma run_es_create ty cid parent name s :
  let size := Z.of_nat (length (data_of s parent) + length name) + 6 in
  es_inv s -> inum_valid parent -> fst (st_file (es_im s) parent) <> 0 ->
  (exists i, 1 <= i < INODE_NUM /\ fst (st_file (es_im s) i) = 0) ->
  size < max_file -> blocks_num size + 1 <= st_free (es_im s) ->
  exists id ms s', es_create ty cid parent name s = Ok ((extent_protocol.OK, id, ms), s') /\
    es_inv s' /\ 1 <= id < INODE_NUM /\ fst (st_file (es_im s) id) = 0 /\
    st_file (es_im s') id = (s16 ty, []) /\
    st_file (es_im s') parent = (fst (st_file (es_im s) parent), data_of s parent ++ entry name id) /\
    data_of s' parent = data_of s parent ++ entry name id /\ registered s' cid id /\
    st_free (es_im s) - (blocks_num size + 1) <= st_free (es_im s') /\
    forall j, inum_valid j -> j <> id -> j <> parent -> st_file (es_im s') j = st_file (es_im s) j.
Proof.
  intros size Hinv Hp Hpt Hex Hlen Hfree. unfold es_create.
  destruct (run_alloc_free ty s Hinv Hex) as (id & im1 & E1 & Hid & Hok1 & Hz & Hf1 & Hfr1 & Hoth1 & Hc1).
  assert (inum_valid id) as Hidv by (unfold inum_valid; lia). assert (id <> parent) as Hne by (intros ->; done).
  erewrite bind_ok by exact E1. destruct (Z.eqb_spec id INODE_NUM); [lia|].
  rewrite (bind_ok _ _ _ _ _ eq_refl). cbv beta zeta.
  destruct (run_add_entry cid parent id name (set_im im1 s)) as (ms & s' & E2 & Hinv' & Hfp & Hdp & Hreg & Hfr & Hoth); try done.
  { simpl. by rewrite Hfr1. }
  exists id, ms, s'. split; [exact E2|]. simpl in *. split_and!; try done; try lia.
  - by rewrite Hoth.
  - by rewrite Hfp, Hoth1.
  - by rewrite Hfr1 in Hfr.
  - intros j Hj Hji Hjp. by rewrite Hoth, Hoth1.
Qed.

(** [createSymLink], which also writes the target of the link. *)
Lemma run_es_symlink cid parent name link s :
  let size := Z.of_nat (length (data_of s parent) + length name) + 6 in
  es_inv s -> inum_valid parent -> fst (st_file (es_im s) parent) <> 0 ->
  (exists i, 1 <= i < INODE_NUM /\ fst (st_file (es_im s) i) = 0) ->
  Z.of_nat (length link) < max_file -> size < max_file ->
  blocks_num (Z.of_nat (length link)) + 1 + (blocks_num size + 1) <= st_free (es_im s) ->
  exists id ms s', es_createSymLink cid parent name link s = Ok ((extent_protocol.OK, id, ms), s') /\
    es_inv s' /\ 1 <= id < INODE_NUM /\ fst (st_file (es_im s) id) = 0 /\
    st_file (es_im s') id = (s16 extent_types.T_SYMLINK, link) /\
    data_of s' parent = data_of s parent ++ entry name id /\
    forall j, inum_valid j -> j <> id -> j <> parent -> st_file (es_im s') j = st_file (es_im s) j.
Proof.
  intros size Hinv Hp Hpt Hex Hll Hlen Hfree. unfold es_createSymLink.
  destruct (run_alloc_free extent_types.T_SYMLINK s Hinv Hex) as (id & im1 & E1 & Hid & Hok1 & Hz & Hf1 & Hfr1 & Hoth1 & Hc1).
  assert (inum_valid id) as Hidv by (unfold inum_valid; lia). assert (id <> parent) as Hne by (intros ->; done).
  assert (0 <= blocks_num size).
  { unfold blocks_num. destruct (Z.eqb_spec size 0); [lia|]. pose proof (Z.div_pos (size - 1) BLOCK_SIZE ltac:(lia) ltac:(done)). lia. }
  erewrite bind_ok by exact E1.
  destruct (run_write_str (set_im im1 s) id link) as (im2 & E2 & Hok2 & Hf2 & Hfr2 & Hoth2); [done | done | done | simpl; lia|].
  erewrite bind_ok by exact E2. rewrite (bind_ok _ _ _ _ _ eq_refl). cbv beta zeta. simpl in Hf2, Hfr2, Hoth2.
  destruct (run_add_entry cid parent id name (set_im im2 (set_im im1 s))) as (ms & s' & E3 & Hinv' & Hfp & Hdp & Hreg & Hfr & Hoth); try done.
  { intros j Hj Hji. eapply cache_ok_frame; [by apply Hc1 | done | done | by apply Hoth2]. }
  { change (blocks_num size + 1 <= st_free im2). lia. }
  exists id, ms, s'. split; [exact E3|]. simpl in *. split_and!; try done; try lia.
  - by rewrite Hoth, Hf2, Hf1.
  - intros j Hj Hji Hjp. by rewrite Hoth, Hoth2, Hoth1.
Qed.

Lemma erase_entry_length buf name buf' : erase_entry buf name = Ok buf' -> (length buf' <= length buf)%nat.
Proof.
  unfold erase_entry. destruct (find_str name buf) as [start|]; [|done]. intros [= <-].
  rewrite length_app, length_take. destruct (_ <? 0); rewrite ?length_drop; simpl; [lia|].
  destruct (Nat.le_gt_cases start (length buf)); [|lia].
  match goal with |- context [Z.to_nat ?c] => pose proof (Nat.le_0_l (Z.to_nat c)) end. lia.
Qed.

Lemma run_es_remove cid parent id name buf s :
  es_inv s -> inum_valid parent -> inum_valid id -> id <> parent ->
  fst (st_file (es_im s) id) <> 0 ->
  Z.of_nat (length (snd (st_file (es_im s) id))) <= max_direct ->
  erase_entry (data_of s parent) name = Ok buf ->
  Z.of_nat (length (data_of s parent)) < max_file ->
  blocks_num (Z.of_nat (length (data_of s parent))) + 1 <= st_free (es_im s) ->
  exists ms s', es_remove cid parent name id s = Ok ((extent_protocol.OK, ms), s') /\ es_inv s' /\
    st_file (es_im s') id = (0, []) /\ es_data s' !! id = None /\
    st_file (es_im s') parent = (fst (st_file (es_im s) parent), buf) /\ data_of s' parent = buf /\
    (forall j, inum_valid j -> j <> id -> j <> parent -> st_file (es_im s') j = st_file (es_im s) j) /\
    forall c, registered s c id -> (c, RRemove id) ∈ ms.
Proof.
  intros [Hok Hcache] Hp Hi Hne Ht Hsm He Hlen Hfree. destruct (mask_id id Hi) as [Hm Hu].
  unfold es_remove. rewrite Hm, Hu.
  destruct (st_remove id (es_im s) Hok Hi Ht Hsm) as (im1 & E1 & Hok1 & Hf1 & Hfr1 & Hoth1).
  rewrite (bind_ok _ _ s tt (set_im im1 s)) by (unfold im_call; by rewrite E1).
  rewrite (bind_ok _ _ _ _ _ eq_refl). change (data_of (set_im im1 s) parent) with (data_of s parent).
  rewrite He. pose proof (erase_entry_length _ _ _ He).
  pose proof (blocks_num_mono (Z.of_nat (length buf)) (Z.of_nat (length (data_of s parent))) ltac:(lia)).
  destruct (run_write_str (set_im im1 s) parent buf) as (im2 & E2 & Hok2 & Hf2 & _ & Hoth2);
    [done | done | lia | simpl; lia|].
  erewrite bind_ok by exact E2.
  destruct (run_update_cache (set_im im2 (set_im im1 s)) parent Hok2 Hp)
    as (s3 & E3 & Hok3 & _ & Hf3 & Hcl3 & Hc3 & Ho3).
  erewrite bind_ok by exact E3. rewrite (bind_ok _ _ _ _ _ eq_refl). rewrite (bind_ok _ _ _ _ _ eq_refl).
  set (s4 := ExtentServer _ _ _ _). simpl in Hf2, Hf3, Hoth2, Hcl3.
  destruct (run_register s4 cid id) as (s5 & E5 & Him & Hd & Ha & Hreg). erewrite bind_ok by exact E5.
  assert (forall j, st_file (es_im s5) j = st_file im2 j) as Hfile by (intros j; by rewrite Him).
  assert (st_file im2 id = (0, [])) as Hfid by (rewrite Hoth2; done).
  assert (st_file im2 parent = (fst (st_file (es_im s) parent), buf)) as Hfp by (rewrite Hf2, Hoth1; done).
  assert (es_data s5 !! id = None /\ es_attr s5 !! id = None) as [Hdn Han]
    by (rewrite Hd, Ha; split; apply lookup_delete_eq).
  eexists _, s5. split; [reflexivity|]. split_and!; try done.
  - split; [by rewrite Him|]. intros j Hj. destruct (decide (j = id)) as [->|Hji].
    { split; [unfold data_of; by rewrite Hdn, Hfile, Hfid | by rewrite Han]. }
    assert (es_data s5 !! j = es_data s3 !! j /\ es_attr s5 !! j = es_attr s3 !! j) as [Hdj Haj]
      by (rewrite Hd, Ha; simpl; by rewrite !lookup_delete_ne).
    destruct (decide (j = parent)) as [->|Hjp].
    { eapply cache_ok_frame; [exact Hc3 | done | done | by rewrite Hfile, Hf3]. }
    destruct (Ho3 j Hjp) as [Hdj' Haj']. eapply cache_ok_frame;
      [by apply Hcache | by rewrite Hdj, Hdj' | by rewrite Haj, Haj' | rewrite Hfile, Hoth2, Hoth1; done].
  - by rewrite Hfile.
  - by rewrite Hfile.
  - unfold data_of. rewrite Hd. simpl. rewrite lookup_delete_ne by done. fold (data_of s3 parent).
    destruct Hc3 as [-> _]. by rewrite Hf3, Hfp.
  - intros j Hj Hji Hjp. by rewrite Hfile, Hoth2, Hoth1.
  - intros c Hc. apply elem_of_app. right. apply list_elem_of_fmap. exists c. split; [done|].
    apply elem_of_listeners. unfold registered. simpl. by rewrite Hcl3.
Qed.

(** [remove] of a file that is small enough frees its inode, replaces the
    parent directory by [erase_entry] of it, drops the file from the caches and
    tells every client registered for it. *)
Lemma extent_remove_correct (cid : bytes) (parent id : Z) (name buf : bytes) (s : @extent_server S) :
  es_inv s -> inum_valid parent -> inum_valid id -> id <> parent ->
  fst (st_file (es_im s) id) <> 0 ->
  Z.of_nat (length (snd (st_file (es_im s) id))) <= max_direct ->
  erase_entry (data_of s parent) name = Ok buf ->
  Z.of_nat (length (data_of s parent)) < max_file ->
  blocks_num (Z.of_nat (length (data_of s parent))) + 1 <= st_free (es_im s) ->
  exists ms s', es_remove cid parent name id s = Ok ((extent_protocol.OK, ms), s') /\ es_inv s' /\
    st_file (es_im s') id = (0, []) /\ es_data s' !! id = None /\
    st_file (es_im s') parent = (fst (st_file (es_im s) parent), buf) /\ data_of s' parent = buf /\
    (forall j, inum_valid j -> j <> id -> j <> parent -> st_file (es_im s') j = st_file (es_im s) j) /\
    forall c, registered s c id -> (c, RRemove id) ∈ ms.
Proof. apply run_es_remove. Qed.
End files.

(** ** Closed runs over the inode layer *)

Section samples.
#[local] Existing Instance zero_env.

(** A server whose root directory is empty. *)
Definition sample_es : @extent_server bmgr := new_extent_server one_file_fs.

Lemma sample_es_inv : es_inv sample_es.
Proof.
  destruct one_file_inv as (Hinv & H1 & Hoth & _). split; [exact Hinv|]. intros id Hi. split; [|done].
  change (data_of sample_es id) with (@nil byte). change (st_file (es_im sample_es) id) with (file_of one_file_fs id).
  destruct (decide (id = 1)) as [->|Hne]; [by rewrite H1 | by rewrite Hoth].
Qed.

Lemma sample_es_free : st_free (es_im sample_es) = 31733.
Proof. apply one_file_inv. Qed.

(** A file [foo] created in the root directory, as inode 2. *)
Definition sample_es2 : @extent_server bmgr :=
  match es_create extent_types.T_FILE (str "c1") 1 (str "foo") sample_es with
  | Ok (_, s) => s | Crash _ => sample_es end.

Lemma sample_es2_ok : es_inv sample_es2 /\ data_of sample_es2 1 = str "foo:2/" /\
  file_of (es_im sample_es2) 2 = (extent_types.T_FILE, []) /\ 31000 <= st_free (es_im sample_es2).
Proof.
  destruct (run_es_create extent_types.T_FILE (str "c1") 1 (str "foo") sample_es)
    as (id & ms & s' & E & Hinv & _ & _ & Hf & _ & Hd & _ & Hfree & _).
  - apply sample_es_inv.
  - apply inum_ok_1.
  - change (fst (file_of one_file_fs 1) <> 0). destruct one_file_inv as (_ & -> & _). discriminate.
  - exists 5. split; [consts; lia|]. change (fst (file_of one_file_fs 5) = 0).
    destruct one_file_inv as (_ & _ & Hoth & _). rewrite Hoth; [reflexivity | apply inum_valid_5 | lia].
  - vm_compute. reflexivity.
  - rewrite sample_es_free. vm_compute. discriminate.
  - assert (match es_create extent_types.T_FILE (str "c1") 1 (str "foo") sample_es with
            | Ok (_, id, _, _) => id =? 2 | Crash _ => false end = true) as Hc
      by (vm_compute; reflexivity).
    unfold sample_es2. rewrite E in *. assert (id = 2) as -> by lia.
    rewrite sample_es_free in Hfree.
    split_and!; [exact Hinv | exact Hd | exact Hf | etransitivity; [|exact Hfree]; vm_compute; discriminate].
Qed.

Lemma extent_remove_correct_witness :
  exists ms s', es_remove (str "c1") 1 (str "foo") 2 sample_es2 = Ok ((extent_protocol.OK, ms), s') /\
    es_inv s' /\ data_of s' 1 = [].
Proof.
  destruct sample_es2_ok as (Hinv & Hd & Hf & Hfree).
  destruct (extent_remove_correct (str "c1") 1 2 (str "foo") [] sample_es2)
    as (ms & s' & E & Hinv' & _ & _ & _ & Hd' & _); try rewrite Hd.
  - exact Hinv.
  - apply inum_ok_1.
  - unfold inum_valid. consts. lia.
  - discriminate.
  - change (fst (file_of (es_im sample_es2) 2) <> 0). rewrite Hf. discriminate.
  - change (Z.of_nat (length (snd (file_of (es_im sample_es2) 2))) <= max_direct). rewrite Hf. vm_compute. discriminate.
  - vm_compute. reflexivity.
  - vm_compute. reflexivity.
  - etransitivity; [|exact Hfree]. vm_compute. discriminate.
  - exists ms, s'. split; [exact E|]. split; [exact Hinv' | exact Hd'].
Defined.

(** [remove] erases from the first place the name occurs as a substring:
    removing [b] from a directory with the entries [ab] (inode 2) and [b] (inode
    3) leaves one entry, [ab], that leads to the removed inode 3. *)
Lemma remove_erases_substring :
  erase_entry (entry (str "ab") 2 ++ entry (str "b") 3) (str "b") = Ok (entry (str "ab") 3).
Proof. vm_compute. reflexivity. Qed.

(** ** A race between [get] and a callback *)

Fixpoint irun (s : isys (S := bmgr)) (evs : list ievent) : option isys :=
  match evs with
  | [] => Some s
  | ev :: evs' => match istep s ev with Some (Ok s') => irun s' evs' | _ => None end
  end.

Lemma irun_reach srv evs : forall s s', ireach srv s -> irun s evs = Some s' -> ireach srv s'.
Proof.
  induction evs as [|ev evs IH]; intros s s' Hs Hr; simpl in Hr; [by simplify_eq|].
  destruct (istep s ev) as [[s1|]|] eqn:He; try done. eapply IH; [|done]. by eapply ireach_step.
Qed.

(** Client [c1] asks for the file 1; before it stores the reply in its cache,
    client [c2] puts new contents and the callback reaches [c1]. *)
Definition race_events : list ievent :=
  [Join (str "c1"); Join (str "c2"); Fetch (str "c1") 1; Change (CPut (str "c2") 1 (str "new")); Store 0].

(** A reply can be overtaken by a callback: when the callback for a concurrent
    [put] is handled before the client stores the reply, the client keeps the
    old contents although the server has the new ones. *)
Lemma get_race_leaves_stale_cache :
  match irun (Isys (Esys sample_es ∅) [] ∅ ∅) race_events with
  | Some s => bool_decide ((str "c1", 1) ∈ i_stale_data s) = true /\ data_of (sy_srv (i_sys s)) 1 = str "new" /\
      match run_eop (CGet (str "c1") 1) (i_sys s) with Some (Ok (EData b, _)) => b = [] | _ => False end
  | None => False
  end.
Proof. vm_compute. repeat split. Qed.

(** The same calls with the reply stored first. *)
Definition calm_events : list ievent :=
  [Join (str "c1"); Join (str "c2"); Fetch (str "c1") 1; Store 0; Change (CPut (str "c2") 1 (str "new"))].
Definition calm_state : isys (S := bmgr) :=
  default (Isys (Esys sample_es ∅) [] ∅ ∅) (irun (Isys (Esys sample_es ∅) [] ∅ ∅) calm_events).

Lemma calm_reach : ireach sample_es calm_state.
Proof.
  unfold calm_state. destruct (irun _ calm_events) as [s|] eqn:E; [|apply ireach_init].
  eapply irun_reach; [apply ireach_init | exact E].
Qed.

Lemma extent_clients_coherent_witness :
  bool_decide (data_of (sy_srv (i_sys calm_state)) 1 = str "new") = true /\
  exists y', run_eop (CGet (str "c1") 1) (i_sys calm_state) =
    Some (Ok (EData (data_of (sy_srv (i_sys calm_state)) 1), y')).
Proof.
  split; [vm_compute; reflexivity|].
  destruct (sy_cl (i_sys calm_state) !! str "c1") as [c|] eqn:Hc.
  - destruct (extent_clients_coherent sample_es calm_state (str "c1") c 1 calm_reach Hc) as [H1 _]. apply H1.
    apply (bool_decide_unpack _). vm_compute. exact I.
  - exfalso. revert Hc. apply (bool_decide_unpack (_ = None -> False)). vm_compute. exact I.
Defined.
End samples.
