(* ===== verification/ExtentRpc.v ===== *)
(** * The extent service over RPC

    The extent server as extent_smain.cc sets it up and the extent clients as
    their constructor does: every call of Extent.v is a request to the server's
    endpoint, every callback of [broadcast] a request to the endpoint of the
    client, bound on first use ([handle::safebind]).  The system refines the
    one of Extent.v, which calls the methods directly. *)

From S2P Require Import Prelude Marshall RpcServer RpcClient Rpc RpcSystem RemoteCall Services.
From S2P Require Import Disk Inode FileStore Extent.

Section extent_rpc.
Context `{Mem} {S : Type} `{FileStore S}.
(** The connection requests come in on; the numbers [random()] gives to the
    handles; what is in the unset [int] reply of a method. *)
Context (c : conn) (rnd : bytes -> Z) (junk : Z).

(** ** The client's endpoint *)

Definition sg_update : signature := Sig extent_rpc.update_handler [WUll; WAttr; WString] WInt.
Definition sg_remove_cb : signature := Sig extent_rpc.remove_handler [WUll] WInt.

Definition m_update_handler (a : args (wparams (sg_args sg_update))) : M extent_client (Z * Z) :=
  let '(eid, (at_, (data, _))) := a in
  modS (update_handler eid at_ data) ≫= fun _ => mret (extent_protocol.OK, junk).
Definition m_remove_handler (a : args (wparams (sg_args sg_remove_cb))) : M extent_client (Z * Z) :=
  let '(eid, _) := a in
  modS (remove_handler eid) ≫= fun _ => mret (extent_protocol.OK, junk).

(** [new rpcs(rextent_port)] and the two registrations of the constructor. *)
Definition extent_client_rpcs (nonce : Z) : res (@rpcs extent_client) :=
  s ← new_rpcs nonce 0 new_extent_client;
  '(_, s) ← reg1 (sg_proc sg_update) (reg_sig sg_update m_update_handler) s;
  '(_, s) ← reg1 (sg_proc sg_remove_cb) (reg_sig sg_remove_cb m_remove_handler) s;
  Ok s.

(** ** The server process

    Its state is the extent server, the handles it has bound, and, since its
    methods call them back, the endpoints of the clients. *)

Record server_app := ServerApp {
  sa_es : @extent_server S;
  sa_hdl : gmap bytes rpcc;
  sa_peers : gmap bytes (@rpcs extent_client) }.

Definition set_es (es : extent_server) (w : server_app) : server_app :=
  ServerApp es (sa_hdl w) (sa_peers w).
Definition set_link (cid : bytes) (e : ends extent_client) (w : server_app) : server_app :=
  ServerApp (sa_es w) (<[cid := fst e]> (sa_hdl w)) (<[cid := snd e]> (sa_peers w)).

(** [handle h(cid); h.safebind()]: bound on first use; a client that is gone
    cannot be bound. *)
Definition safebind (cid : bytes) : M server_app bool := fun w =>
  match sa_peers w !! cid with
  | None => Ok (false, w)
  | Some peer =>
      match sa_hdl w !! cid with
      | Some _ => Ok (true, w)
      | None =>
          match bind c (new_rpcc true (rnd cid) 0, peer) with
          | Crash f => Crash f
          | Ok (ret, e) =>
              if ret <? 0
              then Ok (false, ServerApp (sa_es w) (sa_hdl w) (<[cid := snd e]> (sa_peers w)))
              else Ok (true, set_link cid e w)
          end
      end
  end.

(** The call of [broadcast]; its result is not looked at. *)
Definition call_back (cb : callback) : M (ends extent_client) unit :=
  match cb with
  | RRemove id => stub sg_remove_cb c (id, tt) junk ≫= fun _ => mret tt
  | RUpdate id a data => stub sg_update c (id, (a, (data, tt))) junk ≫= fun _ => mret tt
  end.

Definition send_callback (m : message) : M server_app unit := fun w =>
  match safebind (fst m) w with
  | Crash f => Crash f
  | Ok (false, w) => Ok (tt, w)
  | Ok (true, w) =>
      match sa_hdl w !! fst m, sa_peers w !! fst m with
      | Some cl, Some peer =>
          match call_back (snd m) (cl, peer) with
          | Crash f => Crash f
          | Ok (_, e) => Ok (tt, set_link (fst m) e w)
          end
      | _, _ => Crash NullDeref
      end
  end.

Fixpoint send_callbacks (ms : list message) : M server_app unit :=
  match ms with
  | [] => mret tt
  | m :: ms' => send_callback m ≫= fun _ => send_callbacks ms'
  end.

(** A method of the extent server with the callbacks it makes. *)
Definition es_method {A} (m : M extent_server (A * list message)) : M server_app A := fun w =>
  match m (sa_es w) with
  | Crash f => Crash f
  | Ok ((a, ms), es) => (send_callbacks ms ≫= fun _ => mret a) (set_es es w)
  end.

Definition sg_get : signature := Sig extent_rpc.get [WString; WUll] WString.
Definition sg_getattr : signature := Sig extent_rpc.getattr [WString; WUll] WAttr.
Definition sg_put : signature := Sig extent_rpc.put [WString; WUll; WString] WInt.
Definition sg_remove : signature := Sig extent_rpc.remove [WString; WUll; WString; WUll] WInt.
Definition sg_create : signature := Sig extent_rpc.create [WUint; WString; WUll; WString] WUll.
Definition sg_createSymLink : signature :=
  Sig extent_rpc.createSymLink [WString; WUll; WString; WString] WUll.

Definition m_get (a : args (wparams (sg_args sg_get))) : M server_app (Z * bytes) :=
  let '(cid, (id, _)) := a in es_method (r ← es_get cid id; mret (r, [])).
Definition m_getattr (a : args (wparams (sg_args sg_getattr))) : M server_app (Z * attr) :=
  let '(cid, (id, _)) := a in es_method (r ← es_getattr cid id; mret (r, [])).
Definition m_put (a : args (wparams (sg_args sg_put))) : M server_app (Z * Z) :=
  let '(cid, (id, (buf, _))) := a in
  es_method ('(st, ms) ← es_put cid id buf; mret ((st, junk), ms)).
Definition m_remove (a : args (wparams (sg_args sg_remove))) : M server_app (Z * Z) :=
  let '(cid, (parent, (name, (id, _)))) := a in
  es_method ('(st, ms) ← es_remove cid parent name id; mret ((st, junk), ms)).
Definition m_create (a : args (wparams (sg_args sg_create))) : M server_app (Z * Z) :=
  let '(type, (cid, (parent, (name, _)))) := a in es_method (es_create type cid parent name).
Definition m_createSymLink (a : args (wparams (sg_args sg_createSymLink))) : M server_app (Z * Z) :=
  let '(cid, (parent, (name, (link, _)))) := a in
  es_method (es_createSymLink cid parent name link).

(** The main function of the extent server, up to its loop. *)
Definition extent_smain (nonce count : Z) (im : S) : res (@rpcs server_app) :=
  s ← new_rpcs nonce count (ServerApp (new_extent_server im) ∅ ∅);
  '(_, s) ← reg1 extent_rpc.get (reg_sig sg_get m_get) s;
  '(_, s) ← reg1 extent_rpc.getattr (reg_sig sg_getattr m_getattr) s;
  '(_, s) ← reg1 extent_rpc.put (reg_sig sg_put m_put) s;
  '(_, s) ← reg1 extent_rpc.remove (reg_sig sg_remove m_remove) s;
  '(_, s) ← reg1 extent_rpc.create (reg_sig sg_create m_create) s;
  '(_, s) ← reg1 extent_rpc.createSymLink (reg_sig sg_createSymLink m_createSymLink) s;
  Ok s.

(** ** The system *)

Record rsys := Rsys { rs_srv : @rpcs server_app; rs_clt : gmap bytes rpcc }.

Definition peers (x : rsys) : gmap bytes (@rpcs extent_client) := sa_peers (app (rs_srv x)).

(** The client [cid] writes its own cache. *)
Definition set_cache (cid : bytes) (f : extent_client -> extent_client) (x : rsys) : rsys :=
  let w := app (rs_srv x) in
  Rsys (upd_app (ServerApp (sa_es w) (sa_hdl w)
          (alter (fun p => upd_app (f (app p)) p) cid (sa_peers w))) (rs_srv x)) (rs_clt x).

(** [cl->call(...)] of client [cid]. *)
Definition client_call (cid : bytes) (sg : signature) (a : args (wparams (sg_args sg)))
    (r : wtype (sg_ret sg)) : M rsys (Z * wtype (sg_ret sg)) := fun x =>
  match rs_clt x !! cid with
  | None => Crash NullDeref
  | Some cl =>
      match stub sg c a r (cl, rs_srv x) with
      | Crash f => Crash f
      | Ok (v, e) => Ok (v, Rsys (snd e) (<[cid := fst e]> (rs_clt x)))
      end
  end.

Definition r_get (cid : bytes) (k : extent_client) (eid : Z) : M rsys eret :=
  match ec_data k !! eid with
  | Some b => mret (EData b)
  | None =>
      '(ret, buf) ← client_call cid sg_get (cid, (eid, tt)) [];
      verify (ret =? extent_protocol.OK) ≫= fun _ =>
      modS (set_cache cid (store_data eid buf)) ≫= fun _ => mret (EData buf)
  end.
Definition r_getattr (cid : bytes) (k : extent_client) (eid : Z) : M rsys eret :=
  match ec_attr k !! eid with
  | Some a => mret (EAttr a)
  | None =>
      '(ret, a) ← client_call cid sg_getattr (cid, (eid, tt)) zero_attr;
      verify (extent_protocol.OK =? ret) ≫= fun _ =>
      modS (set_cache cid (store_attr eid a)) ≫= fun _ => mret (EAttr a)
  end.
Definition r_put (cid : bytes) (eid : Z) (buf : bytes) : M rsys eret :=
  '(ret, _) ← client_call cid sg_put (cid, (eid, (buf, tt))) junk;
  verify (extent_protocol.OK =? ret) ≫= fun _ => mret EDone.
Definition r_create (cid : bytes) (type parent : Z) (name : bytes) : M rsys eret :=
  '(_, eid) ← client_call cid sg_create (type, (cid, (parent, (name, tt)))) 0; mret (EId eid).
Definition r_symlink (cid : bytes) (parent : Z) (name link : bytes) : M rsys eret :=
  '(_, eid) ← client_call cid sg_createSymLink (cid, (parent, (name, (link, tt)))) 0; mret (EId eid).
Definition r_remove (cid : bytes) (eid parent : Z) (name : bytes) : M rsys eret :=
  client_call cid sg_remove (cid, (parent, (name, (eid, tt)))) junk ≫= fun _ => mret EDone.

Definition run_rop (op : eop) (x : rsys) : option (res (eret * rsys)) :=
  match op with
  | CGet cid eid => p ← peers x !! cid; Some (r_get cid (app p) eid x)
  | CGetattr cid eid => p ← peers x !! cid; Some (r_getattr cid (app p) eid x)
  | CPut cid eid buf => p ← peers x !! cid; Some (r_put cid eid buf x)
  | CCreate cid type parent name => p ← peers x !! cid; Some (r_create cid type parent name x)
  | CSymlink cid parent name link => p ← peers x !! cid; Some (r_symlink cid parent name link x)
  | CRemove cid eid parent name => p ← peers x !! cid; Some (r_remove cid eid parent name x)
  end.

(** [extent_client::extent_client] with the identity [cid]: [n1] is the number of
    its RPC client, [n2] the nonce of its endpoint.  A failing [bind] is only
    reported. *)
Definition join (cid : bytes) (n1 n2 : Z) (x : rsys) : res rsys :=
  match bind c (new_rpcc true n1 0, rs_srv x) with
  | Crash f => Crash f
  | Ok (_, (cl, srv)) =>
      peer ← extent_client_rpcs n2;
      let w := app srv in
      Ok (Rsys (upd_app (ServerApp (sa_es w) (sa_hdl w) (<[cid := peer]> (sa_peers w))) srv)
               (<[cid := cl]> (rs_clt x)))
  end.
End extent_rpc.
