(* ===== verification/ExtentRpcCorrect.v ===== *)
(** * The extent service over RPC refines the extent service

    Every run of the clients of Extent.v within the sizes a request can carry is
    a run of the system of ExtentRpc.v with the same results, and leaves the same
    server and the same caches. *)

From S2P Require Import Prelude Marshall RpcServer RpcClient Rpc RpcSystem RemoteCall Services.
From S2P Require Import Disk Inode FileStore Extent ExtentRpc.

(** ** Sizes *)

(** Short enough for four such strings to fit a request. *)
Definition short (b : bytes) : Prop := Z.of_nat (length b) < 2 ^ 27.

Definition callback_small (cb : callback) : Prop :=
  match cb with
  | RRemove id => in_u 64 id
  | RUpdate id a data => in_u 64 id /\ attr_valid a /\ short data
  end.

Definition eop_small (op : eop) : Prop :=
  match op with
  | CGet cid eid | CGetattr cid eid => short cid /\ in_u 64 eid
  | CPut cid eid buf => short cid /\ in_u 64 eid /\ short buf
  | CCreate cid type parent name => in_u 32 type /\ short cid /\ in_u 64 parent /\ short name
  | CSymlink cid parent name link => short cid /\ in_u 64 parent /\ short name /\ short link
  | CRemove cid eid parent name => short cid /\ in_u 64 parent /\ short name /\ in_u 64 eid
  end.

Definition eret_small (r : eret) : Prop :=
  match r with
  | EData b => short b
  | EAttr a => attr_valid a
  | EId id => in_u 64 id
  | EDone => True
  end.

Lemma length_be32 x : length (be32 x) = 4%nat.
Proof. reflexivity. Qed.

(** Close a goal about the validity or the size of a message. *)
Ltac sigs :=
  unfold sg_get, sg_getattr, sg_put, sg_remove, sg_create, sg_createSymLink, sg_update, sg_remove_cb.
Ltac fits_tac :=
  unfold fits, short in *; rewrite header_sz; sigs;
  cbn [args_wire wparams fmap list_fmap p_codec wcodec c_wire c_u32 c_s32 c_u64 c_string c_attr fst snd
       sg_args sg_ret];
  rewrite ?length_app, ?length_be32; cbn [length]; lia.
Ltac valid_tac :=
  sigs;
  cbn [args_valid wparams fmap list_fmap p_codec wcodec c_valid c_u32 c_s32 c_u64 c_string c_attr fst snd
       sg_args sg_ret];
  unfold short, INT_MAX in *; split_and!; try done; lia.

Ltac ret_tac :=
  sigs; cbn [wcodec sg_ret c_valid c_s32 c_u64 c_string c_attr];
  first [assumption | unfold short, INT_MAX in *; lia].
Ltac proc_tac := split; vm_compute; (discriminate || reflexivity).

(** ** What the handlers send *)

Lemma dom_deliver ms : forall cl : gmap bytes extent_client, dom (deliver ms cl) = dom cl.
Proof.
  induction ms as [|m ms IH]; intros cl; [done|]. unfold deliver in *. cbn. rewrite IH. unfold deliver1.
  destruct (cl !! fst m) as [k|] eqn:E; [|done]. apply dom_insert_lookup_L. by eexists.
Qed.

#[export] Instance eret_eq_dec : EqDecision eret.
Proof. solve_decision. Defined.

(** A client [cid] starts, or a client does [op] and gets [r]. *)
Inductive event :=
  | EvJoin (cid : bytes) (n1 n2 : Z)
  | EvOp (op : eop) (r : eret).

Section messages.
Context {S : Type} `{FileStore S}.

Lemma es_create_status type cid parent name s st id ms s' :
  es_create type cid parent name s = Ok ((st, id, ms), s') -> 0 <= st < 2 ^ 31.
Proof.
  unfold es_create. intros E. inv_bind E.
  destruct (_ =? INODE_NUM); [injection E as <- _ _ _; unfold extent_protocol.NOENT; lia|].
  do 5 inv_bind E. injection E as <- _ _ _. unfold extent_protocol.OK. lia.
Qed.

Lemma es_createSymLink_status cid parent name link s st id ms s' :
  es_createSymLink cid parent name link s = Ok ((st, id, ms), s') -> 0 <= st < 2 ^ 31.
Proof.
  unfold es_createSymLink. intros E. do 7 inv_bind E.
  injection E as <- _ _ _. unfold extent_protocol.OK. lia.
Qed.

Lemma es_remove_status cid parent name id s st ms s' :
  es_remove cid parent name id s = Ok ((st, ms), s') -> 0 <= st < 2 ^ 31.
Proof.
  unfold es_remove. intros E. do 2 inv_bind E. destruct (erase_entry _ _); [|done].
  do 5 inv_bind E. injection E as <- _ _. unfold extent_protocol.OK. lia.
Qed.
End messages.

Section correct.
Context `{Mem} {S : Type} `{FileStore S}.
Context (c : conn) (rnd : bytes -> Z) (junk : Z).
Context (Hc : cn_dead c = false) (Hrnd : forall cid, 0 < rnd cid < 2 ^ 31) (Hjunk : in_s 32 junk).

(** ** The clients' endpoints *)

(** The endpoint of a client is as its constructor made it; the handle of the
    server, if it has one, has [n] calls left. *)
Record peer_ok (n : Z) (hdl : option rpcc) (p : @rpcs extent_client) : Prop := {
  pe_nonce : 0 <= nonce_ p < 2 ^ 31;
  pe_bind : procs p !! rpc_const.bind = Some (bind_handler (nonce_ p));
  pe_update : procs p !! sg_proc sg_update = Some (reg_sig sg_update (m_update_handler junk));
  pe_remove : procs p !! sg_proc sg_remove_cb = Some (reg_sig sg_remove_cb (m_remove_handler junk));
  pe_link : match hdl with
            | Some cl => linked cl p /\ xid_ cl + n < 2 ^ 31
            | None => (forall k, window_of p k = []) /\ 2 + n < 2 ^ 31
            end }.

Lemma peer_ok_served n h k x p p' h' : peer_ok n h p -> served k x p p' ->
  match h' with
  | Some cl => linked cl p' /\ xid_ cl + n < 2 ^ 31
  | None => (forall k, window_of p' k = []) /\ 2 + n < 2 ^ 31
  end -> peer_ok n h' p'.
Proof.
  intros [? ? ? ? ?] [En Ep _ _] Hl. split; rewrite ?En, ?Ep; done.
Qed.

Lemma peer_ok_mono n n' h p : peer_ok n h p -> n' <= n -> peer_ok n' h p.
Proof. intros [] Hle. split; try done. destruct h; intuition lia. Qed.

(** Binding the handle of a client. *)
Lemma bind_peer n cid p : peer_ok n None p ->
  exists cl p', bind c (new_rpcc true (rnd cid) 0, p) = Ok (0, (cl, p')) /\
    peer_ok n (Some cl) p' /\ app p' = app p.
Proof.
  intros Hp. destruct (pe_link _ _ _ Hp) as [Hw Hn].
  destruct (bind_links c (rnd cid) p (Hrnd cid) (pe_nonce _ _ _ Hp) Hc (Hw _) (pe_bind _ _ _ Hp))
    as (cl & p' & E & Hl & Ea & _ & Hx & Hsv).
  exists cl, p'. split; [exact E|]. split; [|exact Ea].
  eapply peer_ok_served; [exact Hp | exact Hsv|]. rewrite Hx. by split.
Qed.

(** One callback through a bound handle is one run of the client's handler. *)
Lemma call_back_ok n cb cl p : peer_ok (n + 1) (Some cl) p -> 0 <= n -> callback_small cb ->
  exists cl' p', call_back c junk cb (cl, p) = Ok (tt, (cl', p')) /\
    peer_ok n (Some cl') p' /\ app p' = run_callback cb (app p).
Proof.
  intros Hp Hn Hs. destruct (pe_link _ _ _ Hp) as [Hl Hx].
  assert (in_u 32 (nonce_ p)) as Hnp by (pose proof (pe_nonce _ _ _ Hp); unfold in_u; lia).
  assert (peer_ok n (Some cl) p) as Hp' by (eapply peer_ok_mono; [exact Hp | lia]).
  destruct cb as [id | id a data]; cbn [call_back run_callback].
  - edestruct (linked_call (wparams [WUll]) c_s32 (wparams_ok _) (m_remove_handler junk) c (sg_proc sg_remove_cb)
      (id, tt) junk cl p) as (p' & E & Ea & Hl' & Hsv);
      [exact Hl | discriminate | proc_tac | exact Hnp | lia | exact (pe_remove _ _ _ Hp) | exact Hc |
       valid_tac | fits_tac | reflexivity | proc_tac | exact Hjunk | fits_tac |].
    unfold stub. rewrite (bind_ok _ _ _ _ _ E). exists (called cl), p'.
    split; [reflexivity|]. split; [|exact Ea]. eapply peer_ok_served; [exact Hp' | exact Hsv|].
    split; [exact Hl'|]. cbn. lia.
  - destruct Hs as (Hid & Ha & Hd).
    edestruct (linked_call (wparams [WUll; WAttr; WString]) c_s32 (wparams_ok _) (m_update_handler junk) c
      (sg_proc sg_update) (id, (a, (data, tt))) junk cl p) as (p' & E & Ea & Hl' & Hsv);
      [exact Hl | discriminate | proc_tac | exact Hnp | lia | exact (pe_update _ _ _ Hp) | exact Hc |
       valid_tac | fits_tac | reflexivity | proc_tac | exact Hjunk | fits_tac |].
    unfold stub. rewrite (bind_ok _ _ _ _ _ E). exists (called cl), p'.
    split; [reflexivity|]. split; [|exact Ea]. eapply peer_ok_served; [exact Hp' | exact Hsv|].
    split; [exact Hl'|]. cbn. lia.
Qed.

(** ** Broadcasts *)

Definition peers_ok (n : Z) (w : server_app (S := S)) : Prop :=
  (forall cid p, sa_peers w !! cid = Some p -> peer_ok n (sa_hdl w !! cid) p) /\
  (forall cid, sa_peers w !! cid = None -> sa_hdl w !! cid = None).

Lemma peers_ok_mono n n' w : peers_ok n w -> n' <= n -> peers_ok n' w.
Proof. intros [Hw Hh] Hle. split; [|done]. intros cid p Hp. eapply peer_ok_mono; [by apply Hw | done]. Qed.

Lemma set_link_ok n w cid cl p : peers_ok n w -> peer_ok n (Some cl) p ->
  peers_ok n (set_link cid (cl, p) w).
Proof.
  intros [Hw Hh] Hp. split; intros cid'; cbn; destruct (decide (cid' = cid)) as [->|Hne];
    rewrite ?lookup_insert_eq, ?lookup_insert_ne by done; try apply Hw; try apply Hh; try done.
  by intros p' [= <-].
Qed.

(** [safebind] binds a client that is there and does not touch the caches. *)
Lemma callback_bind_ok n w cid p : peers_ok n w -> sa_peers w !! cid = Some p ->
  exists w' cl p', safebind c rnd cid w = Ok (true, w') /\ peers_ok n w' /\ sa_es w' = sa_es w /\
    sa_hdl w' !! cid = Some cl /\ sa_peers w' !! cid = Some p' /\
    app <$> sa_peers w' = app <$> sa_peers w.
Proof.
  intros Hw Hp. unfold safebind. rewrite Hp. destruct (sa_hdl w !! cid) as [cl|] eqn:Hh.
  { exists w, cl, p. done. }
  pose proof (proj1 Hw cid p Hp) as Hpe. rewrite Hh in Hpe.
  destruct (bind_peer n cid p Hpe) as (cl & p' & E & Hpe' & Ea). rewrite E. cbn.
  exists (set_link cid (cl, p') w), cl, p'. split; [done|]. split; [by apply set_link_ok|].
  cbn. rewrite !lookup_insert_eq. do 3 (split; [reflexivity|]).
  rewrite fmap_insert, Ea. apply insert_id. by rewrite lookup_fmap, Hp.
Qed.

Lemma send_callback_ok n w m : peers_ok (n + 1) w -> 0 <= n -> callback_small (snd m) ->
  exists w', send_callback c rnd junk m w = Ok (tt, w') /\ peers_ok n w' /\ sa_es w' = sa_es w /\
    app <$> sa_peers w' = deliver1 (app <$> sa_peers w) m.
Proof.
  intros Hw Hn Hs. unfold send_callback, deliver1. rewrite lookup_fmap.
  destruct (sa_peers w !! fst m) as [p|] eqn:Hp; cbn.
  - destruct (callback_bind_ok _ w (fst m) p Hw Hp) as (w1 & cl & p1 & E1 & Hw1 & Hes & Hh1 & Hp1 & Ha1).
    rewrite E1, Hh1, Hp1. pose proof (proj1 Hw1 _ _ Hp1) as Hpe. rewrite Hh1 in Hpe.
    destruct (call_back_ok n (snd m) cl p1 Hpe Hn Hs) as (cl' & p' & E2 & Hpe' & Ea). rewrite E2.
    exists (set_link (fst m) (cl', p') w1). split; [done|]. split.
    { apply set_link_ok; [|done]. eapply peers_ok_mono; [exact Hw1 | lia]. }
    split; [done|]. cbn. rewrite fmap_insert, Ea, Ha1. do 2 f_equal.
    apply (f_equal (.!! fst m)) in Ha1. rewrite !lookup_fmap, Hp1, Hp in Ha1. cbn in Ha1. congruence.
  - unfold safebind. rewrite Hp. exists w. split; [done|]. split; [|done].
    eapply peers_ok_mono; [exact Hw | lia].
Qed.

Lemma send_callbacks_ok ms : forall n w, peers_ok (n + Z.of_nat (length ms)) w -> 0 <= n ->
  Forall (fun m => callback_small (snd m)) ms ->
  exists w', send_callbacks c rnd junk ms w = Ok (tt, w') /\ peers_ok n w' /\ sa_es w' = sa_es w /\
    app <$> sa_peers w' = deliver ms (app <$> sa_peers w).
Proof.
  induction ms as [|m ms IH]; intros n w Hw Hn Hs; cbn [send_callbacks].
  { exists w. split; [done|]. split; [|done]. eapply peers_ok_mono; [exact Hw | cbn; lia]. }
  apply Forall_cons in Hs as [Hm Hs].
  destruct (send_callback_ok (n + Z.of_nat (length ms)) w m) as (w1 & E1 & Hw1 & Hes1 & Ha1);
    [eapply peers_ok_mono; [exact Hw | cbn; lia] | lia | done |].
  rewrite (bind_ok _ _ _ _ _ E1). destruct (IH n w1 Hw1 Hn Hs) as (w2 & E2 & Hw2 & Hes2 & Ha2).
  exists w2. split; [done|]. split; [done|]. split; [congruence|]. rewrite Ha2, Ha1. done.
Qed.

(** A method of the server, with the callbacks it makes, does to the server and
    to the caches what it does in Extent.v. *)
Lemma es_method_ok {A} (m : M extent_server (A * list message)) n w a ms es :
  m (sa_es w) = Ok ((a, ms), es) -> peers_ok (n + Z.of_nat (length ms)) w -> 0 <= n ->
  Forall (fun m => callback_small (snd m)) ms ->
  exists w', es_method c rnd junk m w = Ok (a, w') /\ peers_ok n w' /\ sa_es w' = es /\
    app <$> sa_peers w' = deliver ms (app <$> sa_peers w).
Proof.
  intros Em Hw Hn Hs. unfold es_method. rewrite Em.
  destruct (send_callbacks_ok ms n (set_es es w) Hw Hn Hs) as (w' & E & Hw' & Hes & Ha).
  rewrite (bind_ok _ _ _ _ _ E). exists w'. done.
Qed.

(** ** The simulation *)

Record server_procs (srv : @rpcs (server_app (S := S))) : Prop := {
  sp_bind : procs srv !! rpc_const.bind = Some (bind_handler (nonce_ srv));
  sp_get : procs srv !! extent_rpc.get = Some (reg_sig sg_get (m_get c rnd junk));
  sp_getattr : procs srv !! extent_rpc.getattr = Some (reg_sig sg_getattr (m_getattr c rnd junk));
  sp_put : procs srv !! extent_rpc.put = Some (reg_sig sg_put (m_put c rnd junk));
  sp_remove : procs srv !! extent_rpc.remove = Some (reg_sig sg_remove (m_remove c rnd junk));
  sp_create : procs srv !! extent_rpc.create = Some (reg_sig sg_create (m_create c rnd junk));
  sp_symlink : procs srv !! extent_rpc.createSymLink =
    Some (reg_sig sg_createSymLink (m_createSymLink c rnd junk)) }.

(** The system [x] with RPC stands for the system [y] without: the same server,
    the same caches, and every link has [n] calls left; [used] are the numbers the
    clients drew. *)
Record sim (n : Z) (used : gset Z) (x : rsys (S := S)) (y : esys (S := S)) : Prop := {
  sm_nonce : 0 <= nonce_ (rs_srv x) < 2 ^ 31;
  sm_procs : server_procs (rs_srv x);
  sm_es : sa_es (app (rs_srv x)) = sy_srv y;
  sm_cl : app <$> peers x = sy_cl y;
  sm_peers : peers_ok n (app (rs_srv x));
  sm_dom : forall cid, is_Some (peers x !! cid) -> is_Some (rs_clt x !! cid);
  sm_links : forall cid cl, rs_clt x !! cid = Some cl ->
    linked cl (rs_srv x) /\ xid_ cl + n < 2 ^ 31 /\ clt_nonce cl ∈ used;
  sm_uniq : forall cid1 cid2 cl1 cl2, rs_clt x !! cid1 = Some cl1 -> rs_clt x !! cid2 = Some cl2 ->
    clt_nonce cl1 = clt_nonce cl2 -> cid1 = cid2;
  sm_used : forall k, k ∉ used -> window_of (rs_srv x) k = [];
  sm_room : 2 + n < 2 ^ 31 }.

Lemma server_procs_same srv srv' : nonce_ srv' = nonce_ srv -> procs srv' = procs srv ->
  server_procs srv -> server_procs srv'.
Proof. intros En Ep []. split; rewrite ?En, Ep; assumption. Qed.

Lemma linked_same {T T'} cl (srv : @rpcs T) (srv' : @rpcs T') : nonce_ srv' = nonce_ srv ->
  window_of srv' (clt_nonce cl) = window_of srv (clt_nonce cl) -> linked cl srv -> linked cl srv'.
Proof.
  intros En Ew (Hr & Hb & Hs). split; [by eapply ready_other|]. by rewrite En.
Qed.

Lemma sim_clients n used x y cid : sim n used x y ->
  sy_cl y !! cid = app <$> peers x !! cid.
Proof. intros Hx. rewrite <- (sm_cl _ _ _ _ Hx). apply lookup_fmap. Qed.

(** The state after the client [cid] was served. *)
Lemma sim_called n used x y cid cl srv' y' : sim (n + 1) used x y -> 0 <= n ->
  rs_clt x !! cid = Some cl -> linked (called cl) srv' ->
  served (clt_nonce cl) (xid_ cl) (rs_srv x) srv' ->
  sa_es (app srv') = sy_srv y' -> app <$> sa_peers (app srv') = sy_cl y' ->
  dom (sy_cl y') = dom (sy_cl y) -> peers_ok n (app srv') ->
  sim n used (Rsys srv' (<[cid := called cl]> (rs_clt x))) y'.
Proof.
  intros Hx Hn Hcl Hl [En Ep Eo _] Hes Hap Hdom Hpe.
  destruct (sm_links _ _ _ _ Hx cid cl Hcl) as (_ & Hxid & Hus).
  split; cbn [rs_srv rs_clt].
  - rewrite En. apply Hx.
  - eapply server_procs_same; [exact En | exact Ep | apply Hx].
  - exact Hes.
  - exact Hap.
  - exact Hpe.
  - intros cid' Hp. rewrite lookup_insert_is_Some. destruct (decide (cid = cid')); [by left|].
    right. split; [done|]. apply (sm_dom _ _ _ _ Hx). rewrite <- (fmap_is_Some app).
    rewrite <- (sim_clients _ _ _ _ _ Hx). apply elem_of_dom. rewrite <- Hdom. apply elem_of_dom.
    rewrite <- Hap. rewrite lookup_fmap. by apply fmap_is_Some.
  - intros cid' cl'. destruct (decide (cid' = cid)) as [->|Hne].
    + rewrite lookup_insert_eq. intros [= <-]. split; [done|]. split; [cbn; lia | done].
    + rewrite lookup_insert_ne by done. intros Hcl'.
      destruct (sm_links _ _ _ _ Hx cid' cl' Hcl') as (Hl' & Hx' & Hu'). split; [|split; [lia | done]].
      eapply linked_same; [exact En | | exact Hl']. apply Eo. intros E.
      apply Hne. by apply (sm_uniq _ _ _ _ Hx _ _ _ _ Hcl' Hcl).
  - assert (forall cid' cl', <[cid := called cl]> (rs_clt x) !! cid' = Some cl' ->
      exists cl0, rs_clt x !! cid' = Some cl0 /\ clt_nonce cl0 = clt_nonce cl') as Hold.
    { intros cid' cl'. destruct (decide (cid' = cid)) as [->|]; rewrite ?lookup_insert_eq,
        ?lookup_insert_ne by done; [intros [= <-] | intros]; eauto. }
    intros cid1 cid2 cl1 cl2 H1 H2 E. destruct (Hold _ _ H1) as (? & Hc1 & E1).
    destruct (Hold _ _ H2) as (? & Hc2 & E2). apply (sm_uniq _ _ _ _ Hx _ _ _ _ Hc1 Hc2). congruence.
  - intros k Hk. rewrite Eo; [by apply Hx|]. intros ->. done.
  - pose proof (sm_room _ _ _ _ Hx). lia.
Qed.

(** A call of a client on the server is a run of the method. *)
Lemma client_call_ok n used x y cid sg meth a r0 m b r ms es :
  sim (n + 1 + Z.of_nat (length ms)) used x y -> 0 <= n -> is_Some (sy_cl y !! cid) ->
  procs (rs_srv x) !! sg_proc sg = Some (reg_sig sg meth) -> meth a = es_method c rnd junk m ->
  1 < sg_proc sg < 2 ^ 31 -> args_valid _ a -> fits (args_wire _ a) ->
  m (sy_srv y) = Ok ((b, r, ms), es) -> 0 <= b < 2 ^ 31 ->
  c_valid (wcodec (sg_ret sg)) r -> fits (c_wire (wcodec (sg_ret sg)) r) ->
  Forall (fun m => callback_small (snd m)) ms -> dom (deliver ms (sy_cl y)) = dom (sy_cl y) ->
  exists x', client_call c cid sg a r0 x = Ok ((b, r), x') /\
    sim n used x' (Esys es (deliver ms (sy_cl y))).
Proof.
  intros Hx Hn Hcid Hproc Hmeth Hp Hv Hf Hm Hb Hr Hfr Hms Hdom.
  assert (is_Some (rs_clt x !! cid)) as [cl Hcl].
  { apply (sm_dom _ _ _ _ Hx). rewrite (sim_clients _ _ _ _ _ Hx) in Hcid. by apply fmap_is_Some in Hcid. }
  destruct (sm_links _ _ _ _ Hx cid cl Hcl) as (Hl & Hxid & _).
  destruct (es_method_ok m n (app (rs_srv x)) (b, r) ms es) as (w' & Ew & Hpe & Hes & Hap).
  { rewrite (sm_es _ _ _ _ Hx). exact Hm. }
  { eapply peers_ok_mono; [apply Hx | lia]. }
  { done. }
  { done. }
  destruct (linked_call (wparams (sg_args sg)) (wcodec (sg_ret sg)) (wparams_ok _) meth c (sg_proc sg)
    a r0 cl (rs_srv x) b r w') as (srv' & E & Ea & Hl' & Hsv);
    [exact Hl | unfold rpc_const.bind; lia | unfold in_s; lia | | lia | exact Hproc | exact Hc | exact Hv |
     exact Hf | rewrite Hmeth; exact Ew | exact Hb | exact Hr | exact Hfr |].
  { pose proof (sm_nonce _ _ _ _ Hx). unfold in_u. lia. }
  unfold client_call, stub. rewrite Hcl, E. cbn [fst snd]. eexists. split; [reflexivity|].
  eapply sim_called; [|done|exact Hcl|exact Hl'|exact Hsv|..]; rewrite ?Ea; cbn; try done.
  - destruct Hx. split; try done; [eapply peers_ok_mono; [done|lia] | | lia].
    intros cid' cl' Hcl'. destruct (sm_links0 _ _ Hcl') as (? & ? & ?). split_and!; [done|lia|done].
  - rewrite Hap. f_equal. apply Hx.
Qed.

Lemma sim_mono n n' used x y : sim n used x y -> n' <= n -> sim n' used x y.
Proof.
  intros [] Hle. split; try assumption; [by eapply peers_ok_mono | | lia].
  intros cid cl Hcl. destruct (sm_links0 cid cl Hcl) as (? & ? & ?). split_and!; [done | lia | done].
Qed.

(** A client writes its cache. *)
Lemma set_cache_sim n used x y cid f : sim n used x y ->
  sim n used (set_cache cid f x) (Esys (sy_srv y) (alter f cid (sy_cl y))).
Proof.
  intros [Hno Hpr Hes Hcl [Hpe Hh] Hd Hl Hu Hw Hn].
  assert (forall cid', is_Some (peers (set_cache cid f x) !! cid') <-> is_Some (peers x !! cid')) as Hdom.
  { intros cid'. unfold peers. cbn. apply lookup_alter_is_Some. }
  split; try assumption.
  - by eapply server_procs_same; [..|exact Hpr].
  - cbn. rewrite <- Hcl. apply map_eq. intros i. rewrite lookup_fmap. unfold peers. cbn.
    destruct (decide (i = cid)) as [->|Hne]; rewrite ?lookup_alter_eq, ?lookup_alter_ne, lookup_fmap by done;
      [|done]. by destruct (sa_peers _ !! cid).
  - split; cbn.
    + intros cid' p. destruct (decide (cid' = cid)) as [->|Hne].
      * rewrite lookup_alter_eq. destruct (sa_peers _ !! cid) as [p0|] eqn:E; [|done]. intros [= <-].
        destruct (Hpe _ _ E) as [? ? ? ? Hk]. split; try assumption.
        destruct (sa_hdl _ !! cid); [|done]. destruct Hk as [Hk ?]. split; [|done].
        by eapply linked_same; [| |exact Hk].
      * rewrite lookup_alter_ne by done. apply Hpe.
    + intros cid' Hnone. apply Hh. apply eq_None_not_Some. rewrite <- Hdom.
      by apply eq_None_not_Some.
  - intros cid' Hp. apply Hd. by apply Hdom.
  - intros cid' cl' Hcl'. destruct (Hl _ _ Hcl') as [Hk ?]. split; [|done].
    by eapply linked_same; [| |exact Hk].
Qed.

(** ** The operations *)

Lemma alter_lookup (cid : bytes) (f : extent_client -> extent_client) (k : extent_client)
    (cl : gmap bytes extent_client) : cl !! cid = Some k ->
  alter f cid cl = <[cid := f k]> cl.
Proof.
  intros Hk. apply map_eq. intros i. destruct (decide (i = cid)) as [->|Hne];
    rewrite ?lookup_alter_eq, ?lookup_alter_ne, ?lookup_insert_eq, ?lookup_insert_ne by done; [|done].
  by rewrite Hk.
Qed.

Lemma get_sim n used x y cid k eid r y' : sim (n + 1) used x y -> 0 <= n ->
  sy_cl y !! cid = Some k -> short cid -> in_u 64 eid ->
  ec_get cid k eid y = Ok (r, y') -> eret_small r ->
  exists x', r_get c cid k eid x = Ok (r, x') /\ sim n used x' y'.
Proof.
  intros Hx Hn Hk Hcid Heid E Hr. unfold ec_get, fetch_data, keep in E. unfold r_get.
  destruct (ec_data k !! eid) as [b|].
  { injection E as <- <-. exists x. split; [done|]. eapply sim_mono; [exact Hx | lia]. }
  cbn in E. injection E as <- <-. cbn in Hr.
  edestruct (client_call_ok n used x y cid sg_get (m_get c rnd junk) (cid, (eid, tt)) [])
    as (x' & Ex & Hx');
    [ | exact Hn | by eexists | apply (sp_get _ (sm_procs _ _ _ _ Hx)) | reflexivity | proc_tac
    | valid_tac | fits_tac | reflexivity | proc_tac | ret_tac | fits_tac
    | constructor | done |].
  { eapply sim_mono; [exact Hx | cbn; lia]. }
  rewrite (bind_ok _ _ _ _ _ Ex). eexists. split; [reflexivity|].
  rewrite <- (alter_lookup cid _ k) by done. exact (set_cache_sim _ _ _ _ _ _ Hx').
Qed.

Lemma getattr_sim n used x y cid k eid r y' : sim (n + 1) used x y -> 0 <= n ->
  sy_cl y !! cid = Some k -> short cid -> in_u 64 eid ->
  ec_getattr cid k eid y = Ok (r, y') -> eret_small r ->
  exists x', r_getattr c cid k eid x = Ok (r, x') /\ sim n used x' y'.
Proof.
  intros Hx Hn Hk Hcid Heid E Hr. unfold ec_getattr, fetch_attr, keep in E. unfold r_getattr.
  destruct (ec_attr k !! eid) as [b|].
  { injection E as <- <-. exists x. split; [done|]. eapply sim_mono; [exact Hx | lia]. }
  cbn in E. injection E as <- <-. cbn in Hr.
  edestruct (client_call_ok n used x y cid sg_getattr (m_getattr c rnd junk) (cid, (eid, tt)) zero_attr)
    as (x' & Ex & Hx');
    [ | exact Hn | by eexists | apply (sp_getattr _ (sm_procs _ _ _ _ Hx)) | reflexivity | proc_tac
    | valid_tac | fits_tac | reflexivity | proc_tac | ret_tac | fits_tac | constructor | done |].
  { eapply sim_mono; [exact Hx | cbn; lia]. }
  rewrite (bind_ok _ _ _ _ _ Ex). eexists. split; [reflexivity|].
  rewrite <- (alter_lookup cid _ k) by done. exact (set_cache_sim _ _ _ _ _ _ Hx').
Qed.

Lemma put_sim n used x y cid eid buf r y' :
  let op := CPut cid eid buf in
  sim (n + 1 + Z.of_nat (length (eop_msgs op y))) used x y -> 0 <= n ->
  is_Some (sy_cl y !! cid) -> eop_small op -> ec_put cid eid buf y = Ok (r, y') ->
  Forall (fun m => callback_small (snd m)) (eop_msgs op y) ->
  exists x', r_put c junk cid eid buf x = Ok (r, x') /\ sim n used x' y'.
Proof.
  intros op Hx Hn Hk (Hcid & Heid & Hbuf) E Hms. unfold ec_put in E. unfold r_put.
  cbn [eop_msgs op] in *. destruct (es_put cid eid buf (sy_srv y)) as [[[st ms] es]|] eqn:Ep; [|done].
  destruct (Z.eqb_spec st extent_protocol.OK) as [->|]; [|done]. injection E as <- <-.
  edestruct (client_call_ok n used x y cid sg_put (m_put c rnd junk) (cid, (eid, (buf, tt))) junk)
    as (x' & Ex & Hx');
    [exact Hx | exact Hn | exact Hk | apply (sp_put _ (sm_procs _ _ _ _ Hx)) | reflexivity | proc_tac
    | valid_tac | fits_tac | by rewrite (bind_ok _ _ _ _ _ Ep) | proc_tac | exact Hjunk | fits_tac
    | exact Hms | apply dom_deliver |].
  rewrite (bind_ok _ _ _ _ _ Ex). by exists x'.
Qed.

Lemma create_sim n used x y cid type parent name r y' :
  let op := CCreate cid type parent name in
  sim (n + 1 + Z.of_nat (length (eop_msgs op y))) used x y -> 0 <= n ->
  is_Some (sy_cl y !! cid) -> eop_small op -> ec_create cid type parent name y = Ok (r, y') ->
  eret_small r -> Forall (fun m => callback_small (snd m)) (eop_msgs op y) ->
  exists x', r_create c cid type parent name x = Ok (r, x') /\ sim n used x' y'.
Proof.
  intros op Hx Hn Hk (Hty & Hcid & Hpar & Hname) E Hr Hms. unfold ec_create in E. unfold r_create.
  cbn [eop_msgs op] in *.
  destruct (es_create type cid parent name (sy_srv y)) as [[[[st id] ms] es]|] eqn:Ep; [|done].
  injection E as <- <-. cbn in Hr. pose proof (es_create_status _ _ _ _ _ _ _ _ _ Ep) as Hst.
  edestruct (client_call_ok n used x y cid sg_create (m_create c rnd junk) (type, (cid, (parent, (name, tt)))) 0)
    as (x' & Ex & Hx');
    [exact Hx | exact Hn | exact Hk | apply (sp_create _ (sm_procs _ _ _ _ Hx)) | reflexivity | proc_tac
    | valid_tac | fits_tac | exact Ep | exact Hst | ret_tac | fits_tac | exact Hms | apply dom_deliver |].
  rewrite (bind_ok _ _ _ _ _ Ex). by exists x'.
Qed.

Lemma symlink_sim n used x y cid parent name link r y' :
  let op := CSymlink cid parent name link in
  sim (n + 1 + Z.of_nat (length (eop_msgs op y))) used x y -> 0 <= n ->
  is_Some (sy_cl y !! cid) -> eop_small op -> ec_symlink cid parent name link y = Ok (r, y') ->
  eret_small r -> Forall (fun m => callback_small (snd m)) (eop_msgs op y) ->
  exists x', r_symlink c cid parent name link x = Ok (r, x') /\ sim n used x' y'.
Proof.
  intros op Hx Hn Hk (Hcid & Hpar & Hname & Hlink) E Hr Hms. unfold ec_symlink in E. unfold r_symlink.
  cbn [eop_msgs op] in *.
  destruct (es_createSymLink cid parent name link (sy_srv y)) as [[[[st id] ms] es]|] eqn:Ep; [|done].
  injection E as <- <-. cbn in Hr. pose proof (es_createSymLink_status _ _ _ _ _ _ _ _ _ Ep) as Hst.
  edestruct (client_call_ok n used x y cid sg_createSymLink (m_createSymLink c rnd junk)
      (cid, (parent, (name, (link, tt)))) 0) as (x' & Ex & Hx');
    [exact Hx | exact Hn | exact Hk | apply (sp_symlink _ (sm_procs _ _ _ _ Hx)) | reflexivity | proc_tac
    | valid_tac | fits_tac | exact Ep | exact Hst | ret_tac | fits_tac | exact Hms | apply dom_deliver |].
  rewrite (bind_ok _ _ _ _ _ Ex). by exists x'.
Qed.

Lemma remove_sim n used x y cid eid parent name r y' :
  let op := CRemove cid eid parent name in
  sim (n + 1 + Z.of_nat (length (eop_msgs op y))) used x y -> 0 <= n ->
  is_Some (sy_cl y !! cid) -> eop_small op -> ec_remove cid eid parent name y = Ok (r, y') ->
  Forall (fun m => callback_small (snd m)) (eop_msgs op y) ->
  exists x', r_remove c junk cid eid parent name x = Ok (r, x') /\ sim n used x' y'.
Proof.
  intros op Hx Hn Hk (Hcid & Hpar & Hname & Heid) E Hms. unfold ec_remove in E. unfold r_remove.
  cbn [eop_msgs op] in *.
  destruct (es_remove cid parent name eid (sy_srv y)) as [[[st ms] es]|] eqn:Ep; [|done].
  injection E as <- <-. pose proof (es_remove_status _ _ _ _ _ _ _ _ Ep) as Hst.
  edestruct (client_call_ok n used x y cid sg_remove (m_remove c rnd junk)
      (cid, (parent, (name, (eid, tt)))) junk) as (x' & Ex & Hx');
    [exact Hx | exact Hn | exact Hk | apply (sp_remove _ (sm_procs _ _ _ _ Hx)) | reflexivity | proc_tac
    | valid_tac | fits_tac | by rewrite (bind_ok _ _ _ _ _ Ep) | exact Hst | exact Hjunk | fits_tac
    | exact Hms | apply dom_deliver |].
  rewrite (bind_ok _ _ _ _ _ Ex). by exists x'.
Qed.

(** One operation. *)
Lemma run_rop_sim n used x y op r y' :
  sim (n + 1 + Z.of_nat (length (eop_msgs op y))) used x y -> 0 <= n -> eop_small op ->
  run_eop op y = Some (Ok (r, y')) -> eret_small r ->
  Forall (fun m => callback_small (snd m)) (eop_msgs op y) ->
  exists x', run_rop c junk op x = Some (Ok (r, x')) /\ sim n used x' y'.
Proof.
  intros Hx Hn Hop E Hr Hms.
  destruct op as [cid eid | cid eid | cid eid buf | cid ty par name | cid par name link | cid eid par name];
    cbn in E; destruct (sy_cl y !! cid) as [k|] eqn:Hk; try done; injection E as E;
    pose proof (sim_clients _ _ _ _ cid Hx) as Hp; rewrite Hk in Hp; cbn [run_rop];
    destruct (peers x !! cid) as [p|] eqn:Hpc; try done; injection Hp as Hp; cbn.
  - destruct Hop. destruct (get_sim n used x y cid k eid r y') as (x' & E2 & ?); try done.
    { eapply sim_mono; [exact Hx | cbn; lia]. } exists x'. by rewrite <- Hp, E2.
  - destruct Hop. destruct (getattr_sim n used x y cid k eid r y') as (x' & E2 & ?); try done.
    { eapply sim_mono; [exact Hx | cbn; lia]. } exists x'. by rewrite <- Hp, E2.
  - destruct (put_sim n used x y cid eid buf r y') as (x' & E2 & ?); try done; exists x'; by rewrite E2.
  - destruct (create_sim n used x y cid ty par name r y') as (x' & E2 & ?); try done; exists x'; by rewrite E2.
  - destruct (symlink_sim n used x y cid par name link r y') as (x' & E2 & ?); try done; exists x'; by rewrite E2.
  - destruct (remove_sim n used x y cid eid par name r y') as (x' & E2 & ?); try done; exists x'; by rewrite E2.
Qed.

(** ** Joining and starting *)

Lemma extent_client_rpcs_ok n nonce : 0 <= nonce < 2 ^ 31 -> 2 + n < 2 ^ 31 ->
  exists p, extent_client_rpcs junk nonce = Ok p /\ peer_ok n None p /\ app p = new_extent_client.
Proof.
  intros Hn Hr. unfold extent_client_rpcs. rewrite new_rpcs_ok. cbn [mbind res_bind].
  do 2 reg_step. eexists. split; [reflexivity|]. split; [|reflexivity].
  split; cbn [rs_srv]; [exact Hn | find_proc.. |]. split; [|exact Hr]. intros k. reflexivity.
Qed.

Lemma extent_smain_ok n nonce count im : 0 <= nonce < 2 ^ 31 -> 2 + n < 2 ^ 31 ->
  exists srv, extent_smain c rnd junk nonce count im = Ok srv /\
    sim n ∅ (Rsys srv ∅) (Esys (new_extent_server im) ∅).
Proof.
  intros Hn Hr. unfold extent_smain. rewrite new_rpcs_ok. cbn [mbind res_bind]. do 6 reg_step.
  eexists. split; [reflexivity|].
  split; [exact Hn | split; cbn [rs_srv]; find_proc | reflexivity | reflexivity | | | | | |exact Hr].
  - split; [intros cid p | intros cid]; cbn; rewrite ?lookup_empty; [discriminate | reflexivity].
  - intros cid [p Hp]. discriminate Hp.
  - intros cid cl Hcl. discriminate Hcl.
  - intros c1 c2 cl1 cl2 Hcl. discriminate Hcl.
  - intros k _. reflexivity.
Qed.

Lemma join_sim n used x y cid n1 n2 : sim n used x y -> 0 < n1 < 2 ^ 31 -> n1 ∉ used ->
  0 <= n2 < 2 ^ 31 -> sy_cl y !! cid = None ->
  exists x', join c junk cid n1 n2 x = Ok x' /\
    sim n ({[n1]} ∪ used) x' (Esys (sy_srv y) (<[cid := new_extent_client]> (sy_cl y))).
Proof.
  intros Hx Hn1 Hfr Hn2 Hcid.
  destruct (bind_links c n1 (rs_srv x) Hn1 (sm_nonce _ _ _ _ Hx) Hc (sm_used _ _ _ _ Hx _ Hfr)
    (sp_bind _ (sm_procs _ _ _ _ Hx))) as (cl & srv & E & Hl & Ea & Hcn & Hxid & [En Ep Eo _]).
  destruct (extent_client_rpcs_ok n n2 Hn2 (sm_room _ _ _ _ Hx)) as (p & Epr & Hpe & Hpa).
  unfold join. rewrite E, Epr. eexists. split; [reflexivity|].
  pose proof Hx as [_ Hpr Hes Hcl [Hpo Hh] Hd Hlk Hu Hw Hroom].
  assert (sa_hdl (app (rs_srv x)) !! cid = None) as Hhc.
  { apply Hh. rewrite (sim_clients _ _ _ _ _ Hx) in Hcid. by apply fmap_None in Hcid. }
  split; cbn [rs_srv rs_clt upd_app app nonce_ procs sa_es sa_peers sa_hdl sy_srv sy_cl]; rewrite ?Ea, ?En.
  - apply Hx.
  - eapply server_procs_same; [exact En | exact Ep | exact Hpr].
  - exact Hes.
  - unfold peers. cbn. by rewrite ?Ea, fmap_insert, Hpa, <- Hcl.
  - split; cbn; intros cid'; destruct (decide (cid' = cid)) as [->|];
      rewrite ?lookup_insert_eq, ?lookup_insert_ne by done; rewrite ?Hhc; auto.
    by intros ? [= <-].
  - intros cid'. unfold peers. cbn. rewrite ?Ea, !lookup_insert_is_Some.
    intros [->|[? Hp]]; [by left | right; split; [done | exact (Hd _ Hp)]].
  - intros cid' cl'. destruct (decide (cid' = cid)) as [->|].
    + rewrite lookup_insert_eq. intros [= <-]. rewrite Hcn, Hxid. split; [|split; [exact Hroom|]].
      2:{ by apply elem_of_union_l, elem_of_singleton. }
      by eapply linked_same; [| |exact Hl].
    + rewrite lookup_insert_ne by done. intros Hcl'. destruct (Hlk _ _ Hcl') as (Hlc & ? & Hus).
      split; [|split; [done | by apply elem_of_union_r]]. eapply linked_same; [exact En | | exact Hlc].
      apply Eo. intros Heq. apply Hfr. by rewrite <- Heq.
  - intros c1 c2 cl1 cl2. rewrite !lookup_insert_Some. intros [[<- <-]|[? Hl1]] [[<- <-]|[? Hl2]]; [done | | |].
    + intros Heq. exfalso. apply Hfr. rewrite <- Hcn, Heq. by apply (Hlk _ _ Hl2).
    + intros Heq. exfalso. apply Hfr. rewrite <- Hcn, <- Heq. by apply (Hlk _ _ Hl1).
    + by apply (Hu c1 c2 cl1 cl2).
  - intros k [Hk1%not_elem_of_singleton Hk2]%not_elem_of_union.
    etrans; [exact (Eo k Hk1) | exact (Hw k Hk2)].
  - exact Hroom.
Qed.

(** ** Runs *)

(** One event of the system with RPC, which must give the result recorded. *)
Definition rpc_step (x : rsys (S := S)) (e : event) : option rsys :=
  match e with
  | EvJoin cid n1 n2 => match join c junk cid n1 n2 x with Ok x' => Some x' | Crash _ => None end
  | EvOp op r =>
      match run_rop c junk op x with
      | Some (Ok (r', x')) => if decide (r' = r) then Some x' else None
      | _ => None
      end
  end.
Definition rpc_run (tr : list event) (x : rsys (S := S)) : option rsys :=
  foldl (fun o e => o ≫= fun x => rpc_step x e) (Some x) tr.

(** A run of the system without RPC whose values fit requests, with the number of
    calls it takes and the numbers the clients drew, which are all different. *)
Inductive small_run (im : S) : list event -> Z -> gset Z -> esys (S := S) -> Prop :=
  | Run_start : small_run im [] 0 ∅ (Esys (new_extent_server im) ∅)
  | Run_join tr n used y cid n1 n2 : small_run im tr n used y ->
      0 < n1 < 2 ^ 31 -> n1 ∉ used -> 0 <= n2 < 2 ^ 31 -> sy_cl y !! cid = None ->
      small_run im (tr ++ [EvJoin cid n1 n2]) n ({[n1]} ∪ used)
        (Esys (sy_srv y) (<[cid := new_extent_client]> (sy_cl y)))
  | Run_op tr n used y op r y' : small_run im tr n used y ->
      eop_small op -> run_eop op y = Some (Ok (r, y')) -> eret_small r ->
      Forall (fun m => callback_small (snd m)) (eop_msgs op y) ->
      small_run im (tr ++ [EvOp op r]) (n + 1 + Z.of_nat (length (eop_msgs op y))) used y'.

Lemma small_run_sim im nonce count tr n used y srv : small_run im tr n used y ->
  extent_smain c rnd junk nonce count im = Ok srv -> 0 <= nonce < 2 ^ 31 ->
  forall k, 0 <= k -> 2 + (k + n) < 2 ^ 31 ->
  exists x, rpc_run tr (Rsys srv ∅) = Some x /\ sim k used x y.
Proof.
  intros Hrun Hsrv Hnonce. induction Hrun as [ | tr n used y cid n1 n2 Hrun IH Hn1 Hfr Hn2 Hcid
    | tr n used y op r y' Hrun IH Hop E Hr Hms]; intros k Hk Hkn; unfold rpc_run; rewrite ?foldl_app.
  - destruct (extent_smain_ok k nonce count im Hnonce) as (srv' & Es & Hsim); [lia|].
    rewrite Hsrv in Es. injection Es as <-. by exists (Rsys srv ∅).
  - destruct (IH k Hk Hkn) as (x & Ex & Hx). unfold rpc_run in Ex. rewrite Ex. cbn.
    destruct (join_sim k used x y cid n1 n2) as (x' & -> & Hx'); try done. by exists x'.
  - destruct (IH (k + 1 + Z.of_nat (length (eop_msgs op y)))) as (x & Ex & Hx); [lia | lia |].
    unfold rpc_run in Ex. rewrite Ex. cbn.
    destruct (run_rop_sim k used x y op r y') as (x' & -> & Hx'); try done.
    rewrite decide_True by done. by exists x'.
Qed.

(** C10. The extent service over RPC is the extent service: for every run of clients
    that join and call the server directly, with callbacks delivered directly, the
    system in which the server of extent_smain.cc is reached by requests and calls
    its clients back by requests runs the same events with the same results and ends
    with the same server and the same caches, as long as the number each client
    draws is not zero and no other client has drawn it, no link makes 2^31 calls,
    and the values fit messages.  Two clients with one number would share a reply
    window at the server, and with the number zero a client would have none. *)
Theorem extent_over_rpc (im : S) (nonce count n : Z) (tr : list event) (used : gset Z) (y : esys) :
  0 <= nonce < 2 ^ 31 -> small_run im tr n used y -> n + 2 < 2 ^ 31 ->
  exists srv x, extent_smain c rnd junk nonce count im = Ok srv /\
    rpc_run tr (Rsys srv ∅) = Some x /\
    sa_es (app (rs_srv x)) = sy_srv y /\ app <$> peers x = sy_cl y.
Proof.
  intros Hn Hrun Hb. destruct (extent_smain_ok 0 nonce count im Hn) as (srv & Es & _); [lia|].
  destruct (small_run_sim im nonce count tr n used y srv Hrun Es Hn 0) as (x & Ex & Hx); [lia | lia |].
  exists srv, x. split; [done|]. split; [done|]. split; apply Hx.
Qed.
End correct.

(** ** A run of two clients *)

(** A store that keeps the contents of files in a map. *)
Definition map_store : FileStore (gmap Z bytes) := {|
  im_alloc_inode _ := fun s => Ok (Z.of_nat (size s) + 2, <[Z.of_nat (size s) + 2 := []]> s);
  im_read_file i := fun s => Ok (s !! i, s);
  im_write_file i b _ := fun s => Ok (tt, <[i := b]> s);
  im_getattr i := fun s => Ok (Some (Attr 2 1 1 1 (Z.of_nat (length (default [] (s !! i))))), s);
  im_remove_file i := fun s => Ok (tt, delete i s) |}.

Definition cid_a : bytes := [x61].
Definition cid_b : bytes := [x62].

(** Client a reads the empty file 1 and caches it, client b writes it, and a reads
    what b wrote from its cache. *)
Definition sample_trace : list event :=
  [EvJoin cid_a 5 9; EvJoin cid_b 6 8; EvOp (CGet cid_a 1) (EData []);
   EvOp (CPut cid_b 1 [x78]) EDone; EvOp (CGet cid_a 1) (EData [x78])].

Section sample.
#[local] Existing Instance zero_mem.
#[local] Existing Instance map_store.

Definition sample_im : gmap Z bytes := {[1 := []]}.

Definition after (op : eop) (y : esys (S := gmap Z bytes)) : esys :=
  match run_eop op y with Some (Ok (_, y')) => y' | _ => y end.
Definition sample_y2 : esys (S := gmap Z bytes) :=
  Esys (new_extent_server sample_im)
    (<[cid_b := new_extent_client]> (<[cid_a := new_extent_client]> ∅)).
Definition sample_y3 : esys := after (CGet cid_a 1) sample_y2.
Definition sample_y4 : esys := after (CPut cid_b 1 [x78]) sample_y3.
Definition sample_y5 : esys := after (CGet cid_a 1) sample_y4.

Lemma sample_small_run : small_run (S := gmap Z bytes) sample_im sample_trace 4 {[6; 5]} sample_y5.
Proof.
  change sample_trace with ((((([] ++ [EvJoin cid_a 5 9]) ++ [EvJoin cid_b 6 8])
    ++ [EvOp (CGet cid_a 1) (EData [])]) ++ [EvOp (CPut cid_b 1 [x78]) EDone])
    ++ [EvOp (CGet cid_a 1) (EData [x78])]).
  assert (small_run (S := gmap Z bytes) sample_im (([] ++ [EvJoin cid_a 5 9]) ++ [EvJoin cid_b 6 8]) 0
    {[6; 5]} sample_y2) as H2.
  { replace ({[6; 5]} : gset Z) with ({[6]} ∪ ({[5]} ∪ ∅) : gset Z) by set_solver.
    refine (Run_join sample_im ([] ++ [EvJoin cid_a 5 9]) 0 ({[5]} ∪ ∅)
      (Esys (new_extent_server sample_im) (<[cid_a := new_extent_client]> ∅)) cid_b 6 8 _ _ _ _ _); [|lia | set_solver | lia | by vm_compute].
    refine (Run_join sample_im [] 0 ∅ (Esys (new_extent_server sample_im) ∅) cid_a 5 9 _ _ _ _ _);
      [constructor | lia | set_solver | lia | by vm_compute]. }
  replace 4 with (3 + 1 + Z.of_nat (length (eop_msgs (CGet cid_a 1) sample_y4))) by by vm_compute.
  refine (Run_op sample_im _ _ _ sample_y4 (CGet cid_a 1) (EData [x78]) sample_y5 _ _ _ _ _);
    [ | by vm_compute | vm_compute; reflexivity | by vm_compute | constructor].
  replace 3 with (1 + 1 + Z.of_nat (length (eop_msgs (CPut cid_b 1 [x78]) sample_y3))) by by vm_compute.
  refine (Run_op sample_im _ _ _ sample_y3 (CPut cid_b 1 [x78]) EDone sample_y4 _ _ _ _ _);
    [ | by vm_compute | vm_compute; reflexivity | done | repeat constructor; vm_compute; done].
  replace 1 with (0 + 1 + Z.of_nat (length (eop_msgs (CGet cid_a 1) sample_y2))) by by vm_compute.
  refine (Run_op sample_im _ _ _ sample_y2 (CGet cid_a 1) (EData []) sample_y3 _ _ _ _ _);
    [exact H2 | by vm_compute | vm_compute; reflexivity | by vm_compute | constructor].
Qed.

Lemma extent_over_rpc_witness :
  exists srv x, extent_smain sample_conn (fun _ => 77) 0 33 0 sample_im = Ok srv /\
    rpc_run sample_conn 0 sample_trace (Rsys srv ∅) = Some x /\
    sa_es (app (rs_srv x)) = sy_srv sample_y5 /\ app <$> peers x = sy_cl sample_y5.
Proof.
  refine (extent_over_rpc sample_conn (fun _ => 77) 0 _ _ _ sample_im 33 0 4 sample_trace {[6; 5]} sample_y5
    _ sample_small_run _).
  - reflexivity.
  - intros _. lia.
  - unfold in_s. lia.
  - lia.
  - lia.
Defined.
End sample.
