(* ===== verification/Yfs.v ===== *)
(** * The yfs client

    Class [yfs_client] of src/lab41/yfs_client.cc: the directory format
    [name:inum/...] and its parser, file reads, writes and truncation, name
    operations, each over an extent client, through the interface [ExtentService]
    of Extent.v, and a lock client of which the sequence of calls is recorded. *)

From S2P Require Import Prelude Disk Inode FileStore Extent.

Module yfs_status.
Definition OK : Z := 0.
Definition NOENT : Z := 2.
Definition IOERR : Z := 3.
Definition EXIST : Z := 4.
End yfs_status.

(** ** Numbers in directory entries *)

Definition is_digit (b : byte) : bool := (48 <=? bval b) && (bval b <=? 57).
(** [isspace] in the "C" locale. *)
Definition is_space (b : byte) : bool :=
  (bval b =? 32) || ((9 <=? bval b) && (bval b <=? 13)).

Fixpoint skip_space (l : bytes) : bytes :=
  match l with
  | b :: l' => if is_space b then skip_space l' else l
  | [] => []
  end.

(** The value of the leading digits. *)
Fixpoint read_digits (acc : Z) (l : bytes) : Z :=
  match l with
  | b :: l' => if is_digit b then read_digits (acc * 10 + (bval b - 48)) l' else acc
  | [] => acc
  end.

(** [istringstream(n) >> finum] for an unsigned 64-bit [finum]: 0 when the text
    is no number, the largest value when it does not fit, a leading [-] negates.
    An empty or blank string leaves [finum] unset, and [n2i] returns it. *)
Definition n2i (n : bytes) : res Z :=
  let clamp v := if 2 ^ 64 <=? v then 2 ^ 64 - 1 else v in
  match skip_space n with
  | b :: l =>
      Ok (if bool_decide (b = x2d)
          then (let v := read_digits 0 l in if 2 ^ 64 <=? v then 2 ^ 64 - 1 else u64 (- v))
          else if bool_decide (b = x2b) then clamp (read_digits 0 l)
          else clamp (read_digits 0 (b :: l)))
  | [] => Crash Uninit
  end.

(** ** The directory parser *)

Record dirent := Dirent { de_name : bytes; de_inum : Z }.

#[export] Instance dirent_eq_dec : EqDecision dirent.
Proof. solve_decision. Defined.

(** [buf.find(c, pos)] for one character, with [npos] as [None]. *)
Definition find_char (c : byte) (buf : bytes) (pos : nat) : option nat := find_str_from [c] buf pos.

(** [buf.substr(pos, n)], [None] for a count of [npos] or more. *)
Definition substr (buf : bytes) (pos : nat) (n : option nat) : bytes :=
  match n with Some n => take n (drop pos buf) | None => drop pos buf end.

(** The loop of [readdir]: the positions are [int]s, so that a missing slash
    gives [inum_end] = -1 and sends the search back to position 0. *)
Fixpoint parse_dir (fuel : nat) (buf : bytes) (nm_start : nat) (acc : list dirent) : res (list dirent) :=
  match find_char x3a buf nm_start with
  | None => Ok acc
  | Some nm_end =>
      match fuel with
      | O => Crash NoFuel
      | S fuel' =>
          let name := substr buf nm_start (Some (nm_end - nm_start)%nat) in
          let inum_start := (nm_end + 1)%nat in
          let inum_end := find_char x2f buf inum_start in
          let inum := substr buf inum_start ((fun e => e - inum_start)%nat <$> inum_end) in
          i ← n2i inum;
          let acc := acc ++ [Dirent name i] in
          let nm_start := match inum_end with Some e => (e + 1)%nat | None => O end in
          parse_dir fuel' buf nm_start acc
      end
  end.

(** Each turn of a loop that ends consumes a colon. *)
Definition dirents (buf : bytes) : res (list dirent) := parse_dir (length buf) buf 0 [].

Fixpoint lookup_dirent (name : bytes) (l : list dirent) : option Z :=
  match l with
  | [] => None
  | e :: l' => if bool_decide (de_name e = name) then Some (de_inum e) else lookup_dirent name l'
  end.

(** ** File contents *)

(** [buf.resize(n)] *)
Definition resize_str (buf : bytes) (n : nat) : bytes := take n buf ++ replicate (n - length buf) x00.

(** [data] of [read]: comparisons are between unsigned 64-bit values. *)
Definition read_str (buf : bytes) (size off : Z) : bytes :=
  let buf_size := Z.of_nat (length buf) in
  if buf_size <? u64 off then []
  else if buf_size <? u64 (off + size) then substr buf (Z.to_nat off) None
  else substr buf (Z.to_nat off) (Some (Z.to_nat size)).

(** [for (i = 0; i < size; i++) buf[i + off] = data[i]] *)
Fixpoint store_bytes (data : bytes) (pos : nat) (buf : bytes) : bytes :=
  match data with
  | [] => buf
  | b :: data' => store_bytes data' (pos + 1) (<[pos := b]> buf)
  end.

(** [for (j = buf_size; j < off; j++) buf[j] = 0] *)
Fixpoint zero_bytes (n pos : nat) (buf : bytes) : bytes :=
  match n with O => buf | S n' => zero_bytes n' (pos + 1) (<[pos := x00]> buf) end.

(** The new contents in [write]: [data] has [size] bytes. *)
Definition write_buf (buf data : bytes) (off : Z) : bytes :=
  let buf_size := Z.of_nat (length buf) in
  let size := Z.of_nat (length data) in
  let buf :=
    if buf_size <? u64 (off + size) then
      let buf := resize_str buf (Z.to_nat (u64 (off + size))) in
      if buf_size <? u64 off then zero_bytes (Z.to_nat (off - buf_size)) (Z.to_nat buf_size) buf else buf
    else buf in
  store_bytes data (Z.to_nat off) buf.

(** ** yfs_client *)

Inductive lock_call := LAcquire (id : Z) | LRelease (id : Z).

#[export] Instance lock_call_eq_dec : EqDecision lock_call.
Proof. solve_decision. Defined.

Module yfs.
Section client.
Context {X : Type} `{ExtentService X} (cid : bytes).

(** The extent service and the calls made on [lc], latest last. *)
Record ysys := Ysys { y_es : X; y_locks : list lock_call }.

Definition acquire (id : Z) : M ysys unit := modS (fun y => Ysys (y_es y) (y_locks y ++ [LAcquire id])).
Definition release (id : Z) : M ysys unit := modS (fun y => Ysys (y_es y) (y_locks y ++ [LRelease id])).

(** A call on [ec]. *)
Definition ec_call (op : eop) : M ysys eret := fun y =>
  match ext_op op (y_es y) with
  | Some (Ok (r, e)) => Ok (r, Ysys e (y_locks y))
  | Some (Crash f) => Crash f
  | None => Crash NullDeref
  end.
Definition get_call (id : Z) : M ysys bytes :=
  r ← ec_call (CGet cid id); mret (match r with EData b => b | _ => [] end).
Definition getattr_call (id : Z) : M ysys attr :=
  r ← ec_call (CGetattr cid id); mret (match r with EAttr a => a | _ => zero_attr end).
Definition put_call (id : Z) (buf : bytes) : M ysys unit :=
  ec_call (CPut cid id buf) ≫= fun _ => mret tt.
Definition id_call (op : eop) : M ysys Z :=
  r ← ec_call op; mret (match r with EId i => i | _ => 0 end).

Definition new_yfs_client : M ysys unit :=
  acquire 1 ≫= fun _ => put_call 1 [] ≫= fun _ => release 1.

Definition isfile (inum : Z) : M ysys bool :=
  acquire inum ≫= fun _ => a ← getattr_call inum; release inum ≫= fun _ =>
  mret (a_type a =? extent_types.T_FILE).
Definition isdir (inum : Z) : M ysys bool :=
  acquire inum ≫= fun _ => a ← getattr_call inum; release inum ≫= fun _ =>
  mret (a_type a =? extent_types.T_DIR).
Definition issymlink (inum : Z) : M ysys bool :=
  acquire inum ≫= fun _ => a ← getattr_call inum; release inum ≫= fun _ =>
  mret (a_type a =? extent_types.T_SYMLINK).

Record fileinfo := Fileinfo { fi_size : Z; fi_atime : Z; fi_mtime : Z; fi_ctime : Z }.
Record dirinfo := Dirinfo { di_atime : Z; di_mtime : Z; di_ctime : Z }.

Definition getfile (inum : Z) : M ysys (Z * fileinfo) :=
  acquire inum ≫= fun _ => a ← getattr_call inum;
  release inum ≫= fun _ =>
  mret (yfs_status.OK, Fileinfo (a_size a) (a_atime a) (a_mtime a) (a_ctime a)).
Definition getdir (inum : Z) : M ysys (Z * dirinfo) :=
  acquire inum ≫= fun _ => a ← getattr_call inum;
  release inum ≫= fun _ =>
  mret (yfs_status.OK, Dirinfo (a_atime a) (a_mtime a) (a_ctime a)).

Definition setattr (ino size : Z) : M ysys Z :=
  acquire ino ≫= fun _ => buf ← get_call ino;
  put_call ino (resize_str buf (Z.to_nat size)) ≫= fun _ =>
  release ino ≫= fun _ => mret yfs_status.OK.

Definition readdir (dir : Z) : M ysys (Z * list dirent) :=
  buf ← get_call dir;
  match dirents buf with
  | Ok l => mret (yfs_status.OK, l)
  | Crash f => crash f
  end.

(** [found] and the number found. *)
Definition lookup (parent : Z) (name : bytes) : M ysys (Z * option Z) :=
  '(_, l) ← readdir parent; mret (yfs_status.OK, lookup_dirent name l).

(** [create] and [mkdir]; [None]: [ino_out] is not set. *)
Definition create_entry (type parent : Z) (name : bytes) : M ysys (Z * option Z) :=
  acquire parent ≫= fun _ =>
  '(_, found) ← lookup parent name;
  match found with
  | Some _ => release parent ≫= fun _ => mret (yfs_status.EXIST, None)
  | None => ino ← id_call (CCreate cid type parent name);
            release parent ≫= fun _ => mret (yfs_status.OK, Some ino)
  end.
Definition create (parent : Z) (name : bytes) : M ysys (Z * option Z) :=
  create_entry extent_types.T_FILE parent name.
Definition mkdir (parent : Z) (name : bytes) : M ysys (Z * option Z) :=
  create_entry extent_types.T_DIR parent name.

Definition read (ino size off : Z) : M ysys (Z * bytes) :=
  acquire ino ≫= fun _ => buf ← get_call ino;
  release ino ≫= fun _ => mret (yfs_status.OK, read_str buf size off).

(** The status and [bytes_written]. *)
Definition write (ino : Z) (data : bytes) (off : Z) : M ysys (Z * Z) :=
  acquire ino ≫= fun _ => buf ← get_call ino;
  put_call ino (write_buf buf data off) ≫= fun _ =>
  release ino ≫= fun _ => mret (yfs_status.OK, Z.of_nat (length data)).

Definition symlink (parent : Z) (name link : bytes) : M ysys (Z * option Z) :=
  acquire parent ≫= fun _ =>
  '(_, found) ← lookup parent name;
  match found with
  | Some _ => release parent ≫= fun _ => mret (yfs_status.EXIST, None)
  | None => ino ← id_call (CSymlink cid parent name link);
            release parent ≫= fun _ => mret (yfs_status.OK, Some ino)
  end.

(** [junk] is the value of the uninitialised [inum] when the name is not found. *)
Definition unlink (junk parent : Z) (name : bytes) : M ysys Z :=
  acquire parent ≫= fun _ =>
  '(_, found) ← lookup parent name;
  ec_call (CRemove cid (default junk found) parent name) ≫= fun _ =>
  release parent ≫= fun _ => mret yfs_status.OK.

Definition readlink (ino : Z) : M ysys (Z * bytes) :=
  acquire ino ≫= fun _ => buf ← get_call ino;
  release ino ≫= fun _ => mret (yfs_status.OK, buf).
End client.
End yfs.
