(* ===== verification/YfsCorrect.v ===== *)
(** * Correctness of the yfs client

    The decimal and directory formats are read back as they were written, reads,
    writes and truncation act on file contents as their POSIX counterparts, the
    name operations of Yfs.v keep directories and inodes in step, and what
    happens on names and directories outside the format. *)

From S2P Require Import Prelude Disk Inode InodeSpec FileStore InodeCorrect Extent ExtentCorrect Yfs.

(** ** Decimal numbers *)

Definition digit_byte (b : byte) : Prop := is_digit b = true.

Lemma digit_of n : 0 <= n < 10 -> is_digit (bof (48 + n)) = true /\ bval (bof (48 + n)) = 48 + n.
Proof.
  intros Hn. assert (bval (bof (48 + n)) = 48 + n) as Hb by (rewrite bval_bof; apply Z.mod_small; lia).
  split; [|done]. unfold is_digit. rewrite Hb. apply andb_true_iff. lia.
Qed.

(** The digits of [n], in front of [acc]. *)
Lemma digits_spec fuel : forall n acc, 0 <= n < 10 ^ Z.of_nat fuel -> (0 < fuel)%nat ->
  exists ds, digits fuel n acc = ds ++ acc /\ Forall digit_byte ds /\ ds <> [] /\
    forall a rest, read_digits a (ds ++ rest) = read_digits (a * 10 ^ Z.of_nat (length ds) + n) rest.
Proof.
  induction fuel as [|fuel IH]; intros n acc Hn Hf; [lia|]. cbn [digits].
  pose proof (Z.mod_pos_bound n 10 ltac:(lia)) as Hm.
  pose proof (Z.div_mod n 10 ltac:(lia)) as Hdm.
  destruct (digit_of (n mod 10) Hm) as [Hd Hv]. set (b := bof (48 + n mod 10)) in *.
  destruct (Z.eqb_spec (n / 10) 0) as [H0|H0].
  - exists [b]. split; [done|]. split; [by repeat constructor|]. split; [done|].
    intros a rest. simpl. rewrite Hd, Hv. f_equal. lia.
  - assert (0 < n / 10) as Hpos by (pose proof (Z.div_pos n 10 ltac:(lia) ltac:(lia)); lia).
    assert (0 < fuel)%nat as Hf'.
    { destruct fuel; [|lia]. simpl in Hn. assert (n / 10 = 0) by (apply Z.div_small; lia). lia. }
    destruct (IH (n / 10) (b :: acc)) as (ds & E & Hall & Hne & Hr).
    { split; [lia|]. apply Z.div_lt_upper_bound; [lia|].
      rewrite Nat2Z.inj_succ, Z.pow_succ_r in Hn by lia. lia. }
    { done. }
    exists (ds ++ [b]). split; [by rewrite E, <- app_assoc|].
    split; [apply Forall_app; split; [done | by repeat constructor]|].
    split; [by destruct ds|]. intros a rest. rewrite <- app_assoc, Hr. simpl. rewrite Hd, Hv.
    f_equal. rewrite length_app. simpl. rewrite Nat2Z.inj_add, Z.pow_add_r by lia.
    change (10 ^ Z.of_nat 1) with 10. lia.
Qed.

Lemma filename_digits n : 0 <= n < 2 ^ 64 ->
  Forall digit_byte (filename n) /\ filename n <> [] /\
  forall rest, read_digits 0 (filename n ++ rest) = read_digits n rest.
Proof.
  intros Hn. destruct (digits_spec 20 n []) as (ds & E & Hall & Hne & Hr); [|lia|].
  { assert (2 ^ 64 < 10 ^ Z.of_nat 20) by reflexivity. lia. }
  unfold filename. rewrite E, app_nil_r. split_and!; [done.. |]. intros rest. by rewrite Hr.
Qed.

Lemma digit_plain b : digit_byte b -> is_space b = false /\ b <> x2d /\ b <> x2b /\ b <> x3a /\ b <> x2f.
Proof.
  unfold digit_byte, is_digit, is_space. intros Hd%andb_true_iff.
  split; [apply orb_false_iff; split; [lia | apply andb_false_iff; lia]|].
  split_and!; intros ->; vm_compute in Hd; destruct Hd; discriminate.
Qed.

(** Reading back a printed inode number. *)
Lemma n2i_filename n : 0 <= n < 2 ^ 64 -> n2i (filename n) = Ok n.
Proof.
  intros Hn. destruct (filename_digits n Hn) as (Hall & Hne & Hr). unfold n2i.
  destruct (filename n) as [|b l] eqn:E; [done|]. apply Forall_cons in Hall as [Hb Hall].
  destruct (digit_plain b Hb) as (Hs & Hm & Hp & _). cbn [skip_space]. rewrite Hs.
  rewrite !bool_decide_eq_false_2 by done. specialize (Hr []). rewrite !app_nil_r in Hr.
  rewrite Hr. cbn [read_digits]. f_equal. destruct (Z.leb_spec (2 ^ 64) n); lia.
Qed.

(** ** The directory format *)

Lemma find_char_hit c a b : c ∉ a -> find_str [c] (a ++ c :: b) = Some (length a).
Proof.
  induction a as [|x a IH]; intros Hn; simpl.
  - by rewrite bool_decide_eq_true_2.
  - apply not_elem_of_cons in Hn as [Hx Hn]. rewrite bool_decide_eq_false_2 by done. simpl. by rewrite IH.
Qed.

Lemma find_char_miss c a : c ∉ a -> find_str [c] a = None.
Proof.
  induction a as [|x a IH]; intros Hn; simpl; [done|].
  apply not_elem_of_cons in Hn as [Hx Hn]. rewrite bool_decide_eq_false_2 by done. simpl. by rewrite IH.
Qed.

Lemma find_char_at c pre a b : c ∉ a ->
  find_char c (pre ++ a ++ c :: b) (length pre) = Some (length pre + length a)%nat.
Proof.
  intros Hn. unfold find_char, find_str_from.
  destruct (Nat.ltb_spec (length (pre ++ a ++ c :: b)) (length pre)) as [Hl|_]; [rewrite length_app in Hl; lia|].
  rewrite drop_app_length, find_char_hit by done. done.
Qed.

Lemma find_char_none c pre a : c ∉ a -> find_char c (pre ++ a) (length pre) = None.
Proof.
  intros Hn. unfold find_char, find_str_from. destruct (_ <? _)%nat; [done|].
  by rewrite drop_app_length, find_char_miss.
Qed.

(** The directory with the given entries, and entries that fit the format. *)
Definition show_dir (l : list dirent) : bytes := concat ((fun e => entry (de_name e) (de_inum e)) <$> l).
Definition dirent_ok (e : dirent) : Prop := x3a ∉ de_name e /\ 0 <= de_inum e < 2 ^ 64.

Lemma show_dir_cons e l : show_dir (e :: l) = entry (de_name e) (de_inum e) ++ show_dir l.
Proof. reflexivity. Qed.

Lemma parse_dir_show l : forall fuel pre acc, Forall dirent_ok l -> (length l <= fuel)%nat ->
  parse_dir fuel (pre ++ show_dir l) (length pre) acc = Ok (acc ++ l).
Proof.
  induction l as [|e l IH]; intros fuel pre acc Hok Hf.
  - assert (find_char x3a (pre ++ show_dir []) (length pre) = None) as E
      by (apply find_char_none; apply not_elem_of_nil).
    rewrite (app_nil_r acc). destruct fuel; cbn [parse_dir]; by rewrite E.
  - apply Forall_cons in Hok as [[Hc Hi] Hok]. destruct fuel as [|fuel]; [simpl in Hf; lia|].
    destruct (filename_digits (de_inum e) Hi) as (Hd & _ & _).
    assert (x2f ∉ filename (de_inum e)) as Hs.
    { intros Hin. rewrite Forall_forall in Hd. apply Hd in Hin.
      by destruct (digit_plain _ Hin) as (_ & _ & _ & _ & Hx). }
    rewrite show_dir_cons. unfold entry.
    set (nm := de_name e) in *. set (ds := filename (de_inum e)) in *.
    assert (pre ++ (nm ++ [x3a] ++ ds ++ [x2f]) ++ show_dir l =
            pre ++ nm ++ x3a :: (ds ++ x2f :: show_dir l)) as Hbuf.
    { simpl. rewrite <- !app_assoc. simpl. by rewrite <- !app_assoc. }
    rewrite Hbuf. cbn [parse_dir]. rewrite find_char_at by done.
    assert (pre ++ nm ++ x3a :: (ds ++ x2f :: show_dir l) =
            (pre ++ nm ++ [x3a]) ++ ds ++ x2f :: show_dir l) as Hbuf2 by (by rewrite <- !app_assoc).
    assert (length pre + length nm + 1 = length (pre ++ nm ++ [x3a]))%nat as Hl1
      by (rewrite !length_app; simpl; lia).
    rewrite Hl1, Hbuf2. rewrite find_char_at by done. cbv zeta. cbn [fmap option_fmap option_map].
    assert (substr ((pre ++ nm ++ [x3a]) ++ ds ++ x2f :: show_dir l) (length pre)
      (Some (length pre + length nm - length pre)%nat) = nm) as ->.
    { unfold substr. rewrite <- Hbuf2, drop_app_length. apply take_app_exact. lia. }
    assert (substr ((pre ++ nm ++ [x3a]) ++ ds ++ x2f :: show_dir l) (length (pre ++ nm ++ [x3a]))
      (Some (length (pre ++ nm ++ [x3a]) + length ds - length (pre ++ nm ++ [x3a]))%nat) = ds) as ->.
    { unfold substr. rewrite drop_app_length. apply take_app_exact. lia. }
    unfold ds at 3. rewrite n2i_filename by done. cbn [mbind res_bind].
    assert ((pre ++ nm ++ [x3a]) ++ ds ++ x2f :: show_dir l =
            ((pre ++ nm ++ [x3a]) ++ ds ++ [x2f]) ++ show_dir l) as -> by (by rewrite <- !app_assoc).
    replace (length (pre ++ nm ++ [x3a]) + length ds + 1)%nat
      with (length ((pre ++ nm ++ [x3a]) ++ ds ++ [x2f])) by (rewrite !length_app; simpl; lia).
    rewrite IH by (try done; simpl in Hf; lia). rewrite <- app_assoc. do 2 f_equal. simpl. f_equal.
    by destruct e.
Qed.

Lemma length_show_dir l : (length l <= length (show_dir l))%nat.
Proof.
  induction l as [|e l IH]; [done|]. rewrite show_dir_cons, length_app. unfold entry.
  rewrite !length_app. simpl. lia.
Qed.

Lemma dirents_show l : Forall dirent_ok l -> dirents (show_dir l) = Ok l.
Proof. intros Hok. apply (parse_dir_show l _ [] []); [done | apply length_show_dir]. Qed.

(** C37. The directory format round trip: [readdir]'s parser terminates on every
    directory made of entries whose names have no colon and returns exactly the
    entries that were written. *)
Theorem readdir_roundtrip (l : list dirent) :
  Forall dirent_ok l -> dirents (show_dir l) = Ok l.
Proof. apply dirents_show. Qed.

Lemma readdir_roundtrip_witness :
  dirents (str "a:1/b:1023/") = Ok [Dirent (str "a") 1; Dirent (str "b") 1023].
Proof.
  apply (readdir_roundtrip [Dirent (str "a") 1; Dirent (str "b") 1023]).
  repeat (apply Forall_cons; split; [split; [vm_compute; set_solver | simpl; lia]|]). apply Forall_nil_2.
Defined.

(** Without its final slash an entry sends the parser back to the start of
    the directory for ever: no number of iterations is enough. *)
Lemma readdir_diverges (fuel : nat) (acc : list dirent) :
  parse_dir fuel (str "a:1") 0 acc = Crash NoFuel.
Proof. revert acc. induction fuel as [|fuel IH]; intros acc; [reflexivity|]. apply IH. Qed.

(** A name with a colon is accepted but not found again: the entry of
    [a:b] is read back as the name [a] with the number 0. *)
Lemma colon_in_name_is_lost (ino : Z) :
  inum_valid ino -> dirents (entry (str "a:b") ino) = Ok [Dirent (str "a") 0].
Proof.
  intros Hi.
  assert (forallb (fun i => match dirents (entry (str "a:b") i) with
    | Ok l => bool_decide (l = [Dirent (str "a") 0]) | Crash _ => false end) (seqZ 0 1024) = true) as Hall
    by (vm_compute; reflexivity).
  rewrite forallb_forall in Hall. specialize (Hall ino).
  assert (In ino (seqZ 0 1024)) as Hin.
  { apply list_elem_of_In, elem_of_seqZ. unfold inum_valid in Hi. change INODE_NUM with 1024 in Hi. lia. }
  specialize (Hall Hin). destruct (dirents _); [|done]. by apply bool_decide_eq_true in Hall as ->.
Qed.

Lemma colon_in_name_is_lost_witness :
  inum_valid 7 /\ dirents (entry (str "a:b") 7) = Ok [Dirent (str "a") 0].
Proof.
  assert (inum_valid 7) as Hv by (unfold inum_valid; change INODE_NUM with 1024; lia).
  split; [exact Hv | exact (colon_in_name_is_lost 7 Hv)].
Defined.

(** ** File contents *)

(** What a positioned write leaves in a file: zeros fill a hole. *)
Definition pwrite (buf data : bytes) (off : nat) : bytes :=
  take off (buf ++ replicate (off - length buf) x00) ++ data ++ drop (off + length data) buf.

Lemma store_bytes_spec data : forall pos buf, (pos + length data <= length buf)%nat ->
  store_bytes data pos buf = take pos buf ++ data ++ drop (pos + length data) buf.
Proof.
  induction data as [|b data IH]; intros pos buf Hl; cbn [store_bytes length] in *.
  - rewrite Nat.add_0_r. simpl. by rewrite take_drop.
  - rewrite IH by (rewrite length_insert; lia).
    rewrite drop_insert_lt by lia. rewrite (insert_take_drop buf pos b) at 1 by lia.
    rewrite take_app_add' by (rewrite length_take; lia).
    change (take 1 (b :: drop (S pos) buf)) with [b]. rewrite <- app_assoc. simpl. do 3 f_equal. f_equal. lia.
Qed.

Lemma zero_bytes_id n : forall pos buf, (forall i, (pos <= i < pos + n)%nat -> buf !! i = Some x00) ->
  zero_bytes n pos buf = buf.
Proof.
  induction n as [|n IH]; intros pos buf Hz; [done|]. cbn [zero_bytes].
  rewrite list_insert_id by (apply Hz; lia). apply IH. intros i Hi. apply Hz. lia.
Qed.

Lemma write_buf_pwrite buf data off : 0 <= off -> off + Z.of_nat (length data) < 2 ^ 64 ->
  Z.of_nat (length buf) < 2 ^ 64 -> write_buf buf data off = pwrite buf data (Z.to_nat off).
Proof.
  intros Ho Hs Hb. unfold write_buf, u64. rewrite !Z.mod_small by lia.
  destruct (Z.ltb_spec (Z.of_nat (length buf)) (off + Z.of_nat (length data))) as [Hlt|Hge].
  - set (n := Z.to_nat (off + Z.of_nat (length data))).
    assert (resize_str buf n = buf ++ replicate (n - length buf) x00) as Hr
      by (unfold resize_str; rewrite take_ge by (subst n; lia); done).
    assert (forall z, z = buf ++ replicate (n - length buf) x00 ->
      store_bytes data (Z.to_nat off) z = pwrite buf data (Z.to_nat off)) as Hst.
    { intros z ->. rewrite store_bytes_spec by (rewrite length_app, length_replicate; subst n; lia).
      unfold pwrite. f_equal; [|f_equal].
      - rewrite !take_app. f_equal. rewrite !take_replicate. f_equal. subst n. lia.
      - rewrite !drop_ge by (rewrite ?length_app, ?length_replicate; subst n; lia). done. }
    destruct (Z.ltb_spec (Z.of_nat (length buf)) off); [|by apply Hst].
    rewrite Hr, zero_bytes_id; [by apply Hst|]. intros i Hi.
    rewrite lookup_app_r by lia. apply lookup_replicate_2. subst n. lia.
  - rewrite store_bytes_spec by lia. unfold pwrite. f_equal.
    replace (Z.to_nat off - length buf)%nat with 0%nat by lia. by rewrite app_nil_r.
Qed.

(** [write] computes the contents of a positioned write: the bytes before
    the offset are kept, a gap is filled with zeros, the data is in place and the
    bytes behind it are kept. *)
Lemma write_buf_is_pwrite (buf data : bytes) (off : Z) :
  0 <= off -> off + Z.of_nat (length data) < 2 ^ 64 -> Z.of_nat (length buf) < 2 ^ 64 ->
  write_buf buf data off = pwrite buf data (Z.to_nat off).
Proof. apply write_buf_pwrite. Qed.

Lemma write_buf_is_pwrite_witness :
  write_buf (str "abc") (str "xy") 5 = str "abc" ++ [x00; x00] ++ str "xy" /\
  write_buf (str "abc") (str "xy") 5 = pwrite (str "abc") (str "xy") 5.
Proof.
  split; [vm_compute; reflexivity|]. apply (write_buf_is_pwrite (str "abc") (str "xy") 5); [lia | reflexivity..].
Defined.

Lemma read_str_spec buf size off : 0 <= off -> 0 <= size -> off + size < 2 ^ 64 ->
  read_str buf size off = take (Z.to_nat size) (drop (Z.to_nat off) buf).
Proof.
  intros Ho Hs Hb. unfold read_str, u64. rewrite !Z.mod_small by lia.
  destruct (Z.ltb_spec (Z.of_nat (length buf)) off).
  { rewrite drop_ge by lia. by rewrite take_nil. }
  destruct (Z.ltb_spec (Z.of_nat (length buf)) (off + size)); simpl; [|done].
  rewrite take_ge; [done|]. rewrite length_drop. lia.
Qed.

Lemma length_pwrite buf data off : length (pwrite buf data off) = Nat.max (length buf) (off + length data).
Proof. unfold pwrite. rewrite !length_app, length_take, length_app, length_replicate, length_drop. lia. Qed.

(** What [read] returns from a file just written: the data where it was
    written, and every byte outside of it as before, zero in a gap. *)
Lemma read_after_write (buf data : bytes) (off : Z) :
  0 <= off -> off + Z.of_nat (length data) < 2 ^ 63 -> Z.of_nat (length buf) < 2 ^ 63 ->
  let buf' := write_buf buf data off in
  read_str buf' (Z.of_nat (length data)) off = data /\
  (forall p, 0 <= p < off -> p < Z.of_nat (length buf) -> read_str buf' 1 p = read_str buf 1 p) /\
  (forall p, Z.of_nat (length buf) <= p < off -> data <> [] -> read_str buf' 1 p = [x00]) /\
  (forall p, off + Z.of_nat (length data) <= p < Z.of_nat (length buf) -> read_str buf' 1 p = read_str buf 1 p).
Proof.
  intros Ho Hs Hb. cbv zeta. rewrite write_buf_pwrite by lia.
  set (o := Z.to_nat off). assert (length (take o (buf ++ replicate (o - length buf) x00)) = o) as Hl
    by (rewrite length_take, length_app, length_replicate; lia).
  assert (forall p l, 0 <= p < 2 ^ 63 -> read_str l 1 p = match l !! Z.to_nat p with Some b => [b] | None => [] end) as H1.
  { intros p l Hp. rewrite read_str_spec by lia. change (Z.to_nat 1) with 1%nat.
    destruct (l !! Z.to_nat p) as [b|] eqn:E.
    - by rewrite (drop_S _ b) by done.
    - rewrite drop_ge; [done|]. by apply lookup_ge_None. }
  split_and!.
  - rewrite read_str_spec by lia. fold o. unfold pwrite. rewrite drop_app_exact by done.
    apply take_app_exact. lia.
  - intros p Hp Hp'. rewrite !H1 by lia. unfold pwrite. rewrite lookup_app_l by lia.
    rewrite lookup_take_lt by lia. by rewrite lookup_app_l by lia.
  - intros p Hp Hne. rewrite H1 by lia. unfold pwrite. rewrite lookup_app_l by lia.
    rewrite lookup_take_lt by lia. rewrite lookup_app_r by lia. by rewrite lookup_replicate_2 by lia.
  - intros p Hp. rewrite !H1 by lia. unfold pwrite. rewrite lookup_app_r by lia.
    rewrite lookup_app_r by lia. rewrite lookup_drop. rewrite Hl.
    replace (o + length data + (Z.to_nat p - o - length data))%nat with (Z.to_nat p) by lia. done.
Qed.

Lemma read_after_write_witness :
  read_str (write_buf (str "abc") (str "xy") 5) 2 5 = str "xy" /\
  read_str (write_buf (str "abc") (str "xy") 5) 1 4 = [x00].
Proof.
  destruct (read_after_write (str "abc") (str "xy") 5) as (H1 & _ & H3 & _); [lia | reflexivity.. |].
  split; [exact H1 | apply H3; [simpl; lia | discriminate]].
Defined.

(** ** Removal of an entry *)

Lemma erase_entry_ok pre post name i : x2f ∉ name -> 0 <= i < 2 ^ 64 ->
  find_str name (pre ++ entry name i ++ post) = Some (length pre) ->
  erase_entry (pre ++ entry name i ++ post) name = Ok (pre ++ post).
Proof.
  intros Hn Hi Hf. unfold erase_entry. rewrite Hf.
  destruct (filename_digits i Hi) as (Hd & _ & _).
  assert (x2f ∉ name ++ [x3a] ++ filename i) as Hns.
  { rewrite !not_elem_of_app. split_and!; [done | vm_compute; set_solver|].
    intros Hin. rewrite Forall_forall in Hd. apply Hd in Hin. by destruct (digit_plain _ Hin) as (_ & _ & _ & _ & Hx). }
  set (body := name ++ [x3a] ++ filename i) in *.
  assert (pre ++ entry name i ++ post = pre ++ body ++ x2f :: post) as Hbuf.
  { unfold entry, body. by rewrite <- !app_assoc. }
  rewrite Hbuf. fold (find_char x2f (pre ++ body ++ x2f :: post) (length pre)).
  rewrite find_char_at by done. rewrite take_app_length.
  destruct (Z.ltb_spec (Z.of_nat (length pre + length body) - Z.of_nat (length pre) + 1) 0); [lia|].
  do 2 f_equal. assert (pre ++ body ++ x2f :: post = (pre ++ body ++ [x2f]) ++ post) as ->
    by (by rewrite <- !app_assoc).
  apply drop_app_exact. rewrite !length_app. simpl. lia.
Qed.

(** ** Operations on the whole stack *)

Section stack.
Context {S : Type} `{FileStoreOk S} (cid : bytes).
Notation ysys := (@yfs.ysys (@esys S)).

Definition srv (y : ysys) : @extent_server S := sy_srv (yfs.y_es y).

(** A state of the system in which client [cid] can work. *)
Record yok (y : ysys) : Prop := {
  yo_inv : es_inv (srv y);
  yo_coh : coh (srv y) (sy_cl (yfs.y_es y));
  yo_client : is_Some (sy_cl (yfs.y_es y) !! cid) }.

Definition same_files (s s' : @extent_server S) : Prop :=
  es_im s' = es_im s /\ es_data s' = es_data s /\ es_attr s' = es_attr s.

Lemma same_files_inv s s' : same_files s s' -> es_inv s -> es_inv s'.
Proof.
  intros (Hi & Hd & Ha) [Hok Hc]. split; [by rewrite Hi|]. intros id Hv.
  unfold cache_ok, data_of. rewrite Hi, Hd, Ha. by apply Hc.
Qed.

Lemma deliver_dom ms cl c : is_Some (cl !! c) -> is_Some (deliver ms cl !! c).
Proof.
  unfold deliver. revert cl. induction ms as [|m ms IH]; intros cl Hc; [done|]. simpl. apply IH.
  unfold deliver1. destruct (cl !! m.1) as [k|]; [|done]. rewrite lookup_insert_is_Some'. by right.
Qed.

Lemma run_get_call y id : yok y -> exists y', yfs.get_call cid id y = Ok (data_of (srv y) id, y') /\ yok y' /\
  same_files (srv y) (srv y') /\ yfs.y_locks y' = yfs.y_locks y.
Proof.
  intros [Hinv Hcoh [c Hc]]. unfold yfs.get_call, yfs.ec_call. unfold mbind at 1, M_bind. unfold ext_op, direct_service; simpl run_eop. rewrite Hc.
  simpl. unfold srv in *.
  destruct (ec_get cid c id (yfs.y_es y)) as [[r e]|f] eqn:E.
  - pose proof (coh_get (yfs.y_es y) cid c id r e Hc E Hcoh) as Hcoh'.
    unfold ec_get, fetch_data, keep in E. destruct (ec_data c !! id) as [b|] eqn:Hhit.
    + simplify_eq. destruct (proj1 (Hcoh cid c Hc id) b Hhit) as [_ <-].
      eexists; split; [reflexivity|]. split; [by split|]. done.
    + simpl in E. simplify_eq. eexists; split; [reflexivity|].
      split; [|done]. split; simpl; [by eapply same_files_inv; [|exact Hinv] | done|].
      rewrite lookup_insert_eq. eauto.
  - unfold ec_get, fetch_data, keep in E. destruct (ec_data c !! id); simpl in E; done.
Qed.

Lemma same_files_trans s1 s2 s3 : same_files s1 s2 -> same_files s2 s3 -> same_files s1 s3.
Proof. unfold same_files. intuition congruence. Qed.

(** [readdir] and [lookup] in a well-formed directory. *)
Lemma run_lookup y parent name l : yok y -> data_of (srv y) parent = show_dir l -> Forall dirent_ok l ->
  exists y', yfs.lookup cid parent name y = Ok ((yfs_status.OK, lookup_dirent name l), y') /\ yok y' /\
    same_files (srv y) (srv y') /\ yfs.y_locks y' = yfs.y_locks y.
Proof.
  intros Hy Hd Hl. destruct (run_get_call y parent Hy) as (y' & E & Hy' & Hs & Hlk).
  exists y'. split; [|done]. unfold yfs.lookup, yfs.readdir.
  rewrite (bind_ok _ _ y (yfs_status.OK, l) y'); [done|].
  erewrite bind_ok by exact E. by rewrite Hd, dirents_show.
Qed.

(** The room a new entry for [name] needs. *)
Definition room_for (s : @extent_server S) (parent : Z) (name : bytes) : Prop :=
  let size := Z.of_nat (length (data_of s parent) + length name) + 6 in
  (exists i, 1 <= i < INODE_NUM /\ fst (st_file (es_im s) i) = 0) /\
  size < max_file /\ blocks_num size + 1 <= st_free (es_im s).

Lemma run_create_call y ty parent name : yok y -> inum_valid parent ->
  fst (st_file (es_im (srv y)) parent) <> 0 -> room_for (srv y) parent name ->
  exists id y', yfs.id_call (CCreate cid ty parent name) y = Ok (id, y') /\ yok y' /\
    1 <= id < INODE_NUM /\ fst (st_file (es_im (srv y)) id) = 0 /\
    st_file (es_im (srv y')) id = (s16 ty, []) /\
    data_of (srv y') parent = data_of (srv y) parent ++ entry name id /\
    yfs.y_locks y' = yfs.y_locks y /\
    forall j, inum_valid j -> j <> id -> j <> parent -> st_file (es_im (srv y')) j = st_file (es_im (srv y)) j.
Proof.
  intros [Hinv Hcoh [c Hc]] Hp Ht (Hex & Hsz & Hfr). unfold srv in *.
  destruct (run_es_create ty cid parent name (sy_srv (yfs.y_es y)) Hinv Hp Ht Hex Hsz Hfr)
    as (id & ms & s' & E & Hinv' & Hid & Hz & Hf & _ & Hd & _ & _ & Hoth).
  exists id. unfold yfs.id_call, yfs.ec_call. unfold mbind at 1, M_bind. unfold ext_op, direct_service; simpl run_eop. rewrite Hc. simpl.
  unfold ec_create. rewrite E. simpl. eexists; split; [reflexivity|]. simpl. split_and!; try done; try lia.
  split; simpl; [done | by eapply coh_create | by apply deliver_dom; eauto].
Qed.

Lemma yok_locks y L : yok y -> yok (yfs.Ysys (yfs.y_es y) L).
Proof. intros [A B C]. by split. Qed.

Lemma data_of_same s s' id : same_files s s' -> data_of s' id = data_of s id.
Proof. intros (_ & Hd & _). unfold data_of. by rewrite Hd. Qed.

Lemma dirent_inum_ok id : 1 <= id < INODE_NUM -> 0 <= id < 2 ^ 64.
Proof. change INODE_NUM with 1024. lia. Qed.

Lemma lookup_dirent_app name l e : lookup_dirent name l = None -> de_name e = name ->
  lookup_dirent name (l ++ [e]) = Some (de_inum e).
Proof.
  intros Hl He. induction l as [|x l IH]; simpl in *.
  - by rewrite bool_decide_eq_true_2.
  - case_bool_decide; [done|]. auto.
Qed.

Lemma show_dir_snoc l name id : show_dir l ++ entry name id = show_dir (l ++ [Dirent name id]).
Proof. unfold show_dir. rewrite fmap_app, concat_app. simpl. by rewrite app_nil_r. Qed.

Lemma run_create_entry (ty parent : Z) (name : bytes) (l : list dirent) (y : ysys) :
  yok y -> inum_valid parent -> fst (st_file (es_im (srv y)) parent) <> 0 ->
  data_of (srv y) parent = show_dir l -> Forall dirent_ok l -> x3a ∉ name ->
  lookup_dirent name l = None -> room_for (srv y) parent name ->
  exists id y', yfs.create_entry cid ty parent name y = Ok ((yfs_status.OK, Some id), y') /\ yok y' /\
    1 <= id < INODE_NUM /\ fst (st_file (es_im (srv y)) id) = 0 /\
    st_file (es_im (srv y')) id = (s16 ty, []) /\
    data_of (srv y') parent = show_dir (l ++ [Dirent name id]) /\
    (exists y'', yfs.lookup cid parent name y' = Ok ((yfs_status.OK, Some id), y'')) /\
    yfs.y_locks y' = yfs.y_locks y ++ [LAcquire parent; LRelease parent] /\
    forall j, inum_valid j -> j <> id -> j <> parent -> st_file (es_im (srv y')) j = st_file (es_im (srv y)) j.
Proof.
  intros Hy Hp Ht Hd Hl Hn Hnew Hroom. unfold yfs.create_entry. rewrite (bind_ok _ _ y tt _ eq_refl).
  set (y1 := yfs.Ysys _ _). assert (yok y1) as Hy1 by (by apply yok_locks).
  destruct (run_lookup y1 parent name l Hy1 Hd Hl) as (y2 & E2 & Hy2 & Hs2 & Hk2).
  erewrite bind_ok by exact E2. rewrite Hnew. cbv beta iota.
  change (srv y1) with (srv y) in Hs2. pose proof Hs2 as (Him2 & _ & _).
  destruct (run_create_call y2 ty parent name Hy2 Hp) as (id & y3 & E3 & Hy3 & Hid & Hz & Hf & Hd3 & Hk3 & Hoth).
  { by rewrite Him2. }
  { unfold room_for. by rewrite (data_of_same _ _ _ Hs2), Him2. }
  erewrite bind_ok by exact E3. rewrite (bind_ok _ _ y3 tt _ eq_refl).
  rewrite Him2 in *. rewrite (data_of_same _ _ _ Hs2), Hd, show_dir_snoc in Hd3.
  eexists id, _. split; [reflexivity|].
  split_and!; try done; try lia; try by apply yok_locks.
  - destruct (run_lookup (yfs.Ysys (yfs.y_es y3) (yfs.y_locks y3 ++ [LRelease parent])) parent name (l ++ [Dirent name id]))
      as (y4 & E4 & _); [by apply yok_locks | done | |].
    + apply Forall_app. split; [done|]. apply Forall_cons. split; [|by constructor].
      split; [done | by apply dirent_inum_ok].
    + exists y4. by rewrite (lookup_dirent_app name l (Dirent name id)) in E4.
  - simpl. rewrite Hk3, Hk2. simpl. by rewrite <- app_assoc.
Qed.

(** C12. [create] and [mkdir] of a new name without a colon in a well-formed
    directory, when an inode and enough blocks are free, through the extent
    client, the extent server and the file store: the directory gains exactly the
    entry of a fresh, empty inode of the right type, a following [lookup] finds
    it, no other file changes, and the directory's lock is taken and given back
    once.  A name with a colon is created and not found again
    ([colon_in_name_is_lost]). *)
Theorem yfs_create_correct (ty parent : Z) (name : bytes) (l : list dirent) (y : ysys) :
  yok y -> inum_valid parent -> fst (st_file (es_im (srv y)) parent) <> 0 ->
  data_of (srv y) parent = show_dir l -> Forall dirent_ok l -> x3a ∉ name ->
  lookup_dirent name l = None -> room_for (srv y) parent name ->
  exists id y', yfs.create_entry cid ty parent name y = Ok ((yfs_status.OK, Some id), y') /\ yok y' /\
    1 <= id < INODE_NUM /\ fst (st_file (es_im (srv y)) id) = 0 /\
    st_file (es_im (srv y')) id = (s16 ty, []) /\
    data_of (srv y') parent = show_dir (l ++ [Dirent name id]) /\
    (exists y'', yfs.lookup cid parent name y' = Ok ((yfs_status.OK, Some id), y'')) /\
    yfs.y_locks y' = yfs.y_locks y ++ [LAcquire parent; LRelease parent] /\
    forall j, inum_valid j -> j <> id -> j <> parent -> st_file (es_im (srv y')) j = st_file (es_im (srv y)) j.
Proof. apply run_create_entry. Qed.

(** A name that exists is refused: [create] and [mkdir] return [EXIST],
    change no file, and release the directory's lock. *)
Lemma run_create_existing (ty parent : Z) (name : bytes) (l : list dirent) (i : Z) (y : ysys) :
  yok y -> data_of (srv y) parent = show_dir l -> Forall dirent_ok l ->
  lookup_dirent name l = Some i ->
  exists y', yfs.create_entry cid ty parent name y = Ok ((yfs_status.EXIST, None), y') /\ yok y' /\
    same_files (srv y) (srv y') /\
    yfs.y_locks y' = yfs.y_locks y ++ [LAcquire parent; LRelease parent].
Proof.
  intros Hy Hd Hl Hfound. unfold yfs.create_entry. rewrite (bind_ok _ _ y tt _ eq_refl).
  set (y1 := yfs.Ysys _ _). assert (yok y1) as Hy1 by (by apply yok_locks).
  destruct (run_lookup y1 parent name l Hy1 Hd Hl) as (y2 & E2 & Hy2 & Hs2 & Hk2).
  erewrite bind_ok by exact E2. rewrite Hfound. cbv beta iota. rewrite (bind_ok _ _ y2 tt _ eq_refl).
  eexists. split; [reflexivity|]. split; [by apply yok_locks|]. split; [exact Hs2|].
  simpl. rewrite Hk2. simpl. by rewrite <- app_assoc.
Qed.

Lemma run_put_call y id buf : yok y -> inum_valid id -> Z.of_nat (length buf) < max_file ->
  blocks_num (Z.of_nat (length buf)) + 1 <= st_free (es_im (srv y)) ->
  exists y', yfs.put_call cid id buf y = Ok (tt, y') /\ yok y' /\ data_of (srv y') id = buf /\
    st_file (es_im (srv y')) id = (fst (st_file (es_im (srv y)) id), buf) /\
    yfs.y_locks y' = yfs.y_locks y /\
    forall j, inum_valid j -> j <> id -> st_file (es_im (srv y')) j = st_file (es_im (srv y)) j.
Proof.
  intros [Hinv Hcoh [c Hc]] Hi Hlen Hfree. unfold srv in *.
  destruct (run_es_put cid id buf (sy_srv (yfs.y_es y)) Hinv Hi Hlen Hfree)
    as (ms & s' & E & Hinv' & Hf & Hd & Hoth & _ & _).
  unfold yfs.put_call, yfs.ec_call. unfold mbind at 1, M_bind. unfold ext_op, direct_service; simpl run_eop. rewrite Hc. simpl.
  unfold ec_put. rewrite E. simpl. eexists; split; [reflexivity|]. simpl. split_and!; try done.
  split; simpl; [done | by eapply coh_put | by apply deliver_dom; eauto].
Qed.


Lemma run_unlink (junk parent i : Z) (name : bytes) (l1 l2 : list dirent) (y : ysys) :
  let dir := l1 ++ Dirent name i :: l2 in
  yok y -> inum_valid parent -> inum_valid i -> i <> parent ->
  data_of (srv y) parent = show_dir dir -> Forall dirent_ok dir -> x2f ∉ name ->
  lookup_dirent name l1 = None -> find_str name (show_dir dir) = Some (length (show_dir l1)) ->
  fst (st_file (es_im (srv y)) i) <> 0 ->
  Z.of_nat (length (snd (st_file (es_im (srv y)) i))) <= max_direct ->
  Z.of_nat (length (show_dir dir)) < max_file ->
  blocks_num (Z.of_nat (length (show_dir dir))) + 1 <= st_free (es_im (srv y)) ->
  exists y', yfs.unlink cid junk parent name y = Ok (yfs_status.OK, y') /\ yok y' /\
    data_of (srv y') parent = show_dir (l1 ++ l2) /\ st_file (es_im (srv y')) i = (0, []) /\
    forall j, inum_valid j -> j <> i -> j <> parent -> st_file (es_im (srv y')) j = st_file (es_im (srv y)) j.
Proof.
  intros dir Hy Hp Hi Hne Hd Hok Hn Hl1 Hfind Ht Hsm Hlen Hfree.
  assert (show_dir dir = show_dir l1 ++ entry name i ++ show_dir l2) as Hdir
    by (unfold dir, show_dir; by rewrite fmap_app, concat_app).
  assert (lookup_dirent name dir = Some i) as Hlk.
  { clear -Hl1. unfold dir. induction l1 as [|e l IH]; simpl in *; [by rewrite bool_decide_eq_true_2|].
    case_bool_decide; [done|]. auto. }
  unfold yfs.unlink. rewrite (bind_ok _ _ y tt _ eq_refl).
  set (y1 := yfs.Ysys _ _). assert (yok y1) as Hy1 by (by apply yok_locks).
  destruct (run_lookup y1 parent name dir Hy1 Hd Hok) as (y2 & E2 & Hy2 & Hs2 & Hk2).
  erewrite bind_ok by exact E2. rewrite Hlk. simpl (default junk _).
  change (srv y1) with (srv y) in *. pose proof Hs2 as (Him2 & _ & _).
  pose proof (data_of_same _ _ parent Hs2) as Hd2. rewrite Hd in Hd2.
  destruct Hy2 as [Hinv2 Hcoh2 [c Hc2]].
  destruct (run_es_remove cid parent i name (show_dir (l1 ++ l2)) (srv y2))
    as (ms & s' & E3 & Hinv3 & Hfi & _ & _ & Hd3 & Hoth & _); try done; rewrite ?Him2, ?Hd2; try done.
  { rewrite Hdir. replace (show_dir (l1 ++ l2)) with (show_dir l1 ++ show_dir l2)
      by (unfold show_dir; by rewrite fmap_app, concat_app).
    apply erase_entry_ok; [done | unfold inum_valid in Hi; change INODE_NUM with 1024 in Hi; lia | by rewrite <- Hdir]. }
  rewrite (bind_ok _ _ y2 EDone (yfs.Ysys (Esys s' (deliver ms (sy_cl (yfs.y_es y2)))) (yfs.y_locks y2))).
  2:{ unfold yfs.ec_call. unfold ext_op, direct_service; simpl run_eop. rewrite Hc2. simpl. unfold ec_remove. unfold srv in E3. by rewrite E3. }
  rewrite (bind_ok _ _ _ tt _ eq_refl). eexists. split; [reflexivity|]. rewrite Him2 in Hoth.
  split_and!; [|done..]. split; simpl; [done | by eapply coh_remove | by apply deliver_dom; eauto].
Qed.

(** [unlink] looks at no type: a directory is removed like a file, with whatever
    it contains, although the handler of fuse.cc is described as not allowing
    it. *)
Lemma unlink_removes_directory (junk parent i : Z) (name : bytes) (l1 l2 : list dirent) (y : ysys) :
  let dir := l1 ++ Dirent name i :: l2 in
  yok y -> inum_valid parent -> inum_valid i -> i <> parent ->
  data_of (srv y) parent = show_dir dir -> Forall dirent_ok dir -> x2f ∉ name ->
  lookup_dirent name l1 = None -> find_str name (show_dir dir) = Some (length (show_dir l1)) ->
  fst (st_file (es_im (srv y)) i) = extent_types.T_DIR ->
  Z.of_nat (length (snd (st_file (es_im (srv y)) i))) <= max_direct ->
  Z.of_nat (length (show_dir dir)) < max_file ->
  blocks_num (Z.of_nat (length (show_dir dir))) + 1 <= st_free (es_im (srv y)) ->
  exists y', yfs.unlink cid junk parent name y = Ok (yfs_status.OK, y') /\
    data_of (srv y') parent = show_dir (l1 ++ l2) /\ st_file (es_im (srv y')) i = (0, []).
Proof.
  intros dir Hy Hp Hi Hne Hd Hok Hn Hl1 Hfind Ht Hsm Hlen Hfree.
  destruct (run_unlink junk parent i name l1 l2 y) as (y' & E & _ & H1 & H2 & _); try done; [by rewrite Ht|]. by exists y'.
Qed.

(** C14. [unlink] of a file or a symbolic link of at most 100 blocks, by a name
    without a slash that occurs nowhere in the text of the well-formed directory
    before its entry, when there are blocks to write the directory: the entry is
    gone, the inode is free, no other file changes.  Removing a larger file
    leaves a stale indirect block behind
    ([InodeCorrect.stale_indirect_block_corrupts]), and a name that occurs
    earlier removes the wrong text ([ExtentCorrect.remove_erases_substring]). *)
Theorem yfs_unlink_correct (junk parent i : Z) (name : bytes) (l1 l2 : list dirent) (y : ysys) :
  let dir := l1 ++ Dirent name i :: l2 in
  yok y -> inum_valid parent -> inum_valid i -> i <> parent ->
  data_of (srv y) parent = show_dir dir -> Forall dirent_ok dir -> x2f ∉ name ->
  lookup_dirent name l1 = None -> find_str name (show_dir dir) = Some (length (show_dir l1)) ->
  fst (st_file (es_im (srv y)) i) = extent_types.T_FILE \/ fst (st_file (es_im (srv y)) i) = extent_types.T_SYMLINK ->
  Z.of_nat (length (snd (st_file (es_im (srv y)) i))) <= max_direct ->
  Z.of_nat (length (show_dir dir)) < max_file ->
  blocks_num (Z.of_nat (length (show_dir dir))) + 1 <= st_free (es_im (srv y)) ->
  exists y', yfs.unlink cid junk parent name y = Ok (yfs_status.OK, y') /\ yok y' /\
    data_of (srv y') parent = show_dir (l1 ++ l2) /\ st_file (es_im (srv y')) i = (0, []) /\
    forall j, inum_valid j -> j <> i -> j <> parent -> st_file (es_im (srv y')) j = st_file (es_im (srv y)) j.
Proof.
  intros dir Hy Hp Hi Hne Hd Hok Hn Hl1 Hfind Ht. apply run_unlink; try done. by destruct Ht as [-> | ->].
Qed.

(** [unlink] of a name that is nowhere in the directory never answers that
    there is no such entry: [found] is not tested, the server is told to remove
    whatever number the uninitialised variable holds, and the call brings the
    server down (a failed assertion or an uncaught exception). *)
Lemma yfs_unlink_missing_crashes (junk parent : Z) (name : bytes) (l : list dirent) (y : ysys) :
  yok y -> data_of (srv y) parent = show_dir l -> Forall dirent_ok l ->
  lookup_dirent name l = None -> find_str name (show_dir l) = None ->
  exists f, yfs.unlink cid junk parent name y = Crash f.
Proof.
  intros Hy Hd Hl Hn Hf. unfold yfs.unlink. rewrite (bind_ok _ _ y tt _ eq_refl).
  set (y1 := yfs.Ysys _ _). assert (yok y1) as Hy1 by (by apply yok_locks).
  destruct (run_lookup y1 parent name l Hy1 Hd Hl) as (y2 & E2 & Hy2 & Hs2 & _).
  erewrite bind_ok by exact E2. rewrite Hn. simpl (default junk _).
  change (srv y1) with (srv y) in *. pose proof (data_of_same _ _ parent Hs2) as Hd2.
  destruct Hy2 as [_ _ [c Hc]]. unfold yfs.ec_call. unfold mbind at 1, M_bind. unfold ext_op, direct_service; simpl run_eop. rewrite Hc. simpl.
  unfold ec_remove. assert (exists f, es_remove cid parent name junk (sy_srv (yfs.y_es y2)) = Crash f) as [f ->];
    [|eauto]. unfold es_remove. fold (srv y2).
  destruct (im_call (im_remove_file (u32 (mask junk))) (srv y2)) as [[[] s3]|f] eqn:E.
  - erewrite bind_ok by exact E. rewrite (bind_ok _ _ s3 s3 s3 eq_refl).
    apply im_call_inv in E as (_ & Hdata & _).
    assert (data_of s3 parent = show_dir l) as -> by (unfold data_of in *; by rewrite Hdata, Hd2).
    unfold erase_entry. rewrite Hf. by exists Uncaught.
  - unfold mbind, M_bind. rewrite E. eauto.
Qed.
End stack.

(** ** Closed runs *)

Section samples.
#[local] Existing Instance zero_env.

Definition sample_cl : gmap bytes extent_client := {[str "c1" := new_extent_client]}.
Definition sample_y : @yfs.ysys (@esys bmgr) := yfs.Ysys (Esys sample_es sample_cl) [].
Definition sample_y2 : @yfs.ysys (@esys bmgr) := yfs.Ysys (Esys sample_es2 sample_cl) [].

Lemma sample_yok (s : @extent_server bmgr) : es_inv s -> yok (str "c1") (yfs.Ysys (Esys s sample_cl) []).
Proof.
  intros Hs. split; [exact Hs | | eexists; reflexivity].
  intros cid c Hc id. simpl in Hc. unfold sample_cl in Hc. apply lookup_singleton_Some in Hc as [_ <-]. simpl. by rewrite !lookup_empty.
Qed.

Lemma sample_type : fst (st_file (es_im (srv sample_y)) 1) <> 0.
Proof.
  change (fst (file_of one_file_fs 1) <> 0). destruct one_file_inv as (_ & -> & _). discriminate.
Qed.

Lemma yfs_create_correct_witness :
  exists id y', yfs.create (str "c1") 1 (str "foo") sample_y = Ok ((yfs_status.OK, Some id), y') /\
    data_of (srv y') 1 = show_dir [Dirent (str "foo") id] /\
    yfs.y_locks y' = [LAcquire 1; LRelease 1].
Proof.
  destruct (yfs_create_correct (str "c1") extent_types.T_FILE 1 (str "foo") [] sample_y)
    as (id & y' & E & _ & _ & _ & _ & Hd & _ & Hk & _).
  - apply sample_yok, sample_es_inv.
  - apply inum_ok_1.
  - apply sample_type.
  - reflexivity.
  - apply Forall_nil_2.
  - apply (bool_decide_unpack _). vm_compute. exact I.
  - reflexivity.
  - split_and!.
    + exists 5. split; [consts; lia|]. change (fst (file_of one_file_fs 5) = 0).
      destruct one_file_inv as (_ & _ & Hoth & _). rewrite Hoth; [reflexivity | apply inum_valid_5 | lia].
    + vm_compute. reflexivity.
    + change (es_im (srv sample_y)) with (es_im sample_es). rewrite sample_es_free. vm_compute. discriminate.
  - exists id, y'. split; [exact E|]. split; [exact Hd | exact Hk].
Defined.

Lemma sample2_dir : Forall dirent_ok [Dirent (str "foo") 2].
Proof. apply Forall_cons; split; [split; [vm_compute; set_solver | simpl; lia] | apply Forall_nil_2]. Qed.


Lemma yfs_unlink_correct_witness :
  exists y', yfs.unlink (str "c1") 77 1 (str "foo") sample_y2 = Ok (yfs_status.OK, y') /\
    data_of (srv y') 1 = [].
Proof.
  destruct sample_es2_ok as (Hinv & Hd & Hf & Hfree).
  destruct (yfs_unlink_correct (str "c1") 77 1 2 (str "foo") [] [] sample_y2) as (y' & E & _ & Hd' & _).
  - apply sample_yok, Hinv.
  - apply inum_ok_1.
  - unfold inum_valid. consts. lia.
  - discriminate.
  - exact Hd.
  - apply sample2_dir.
  - apply (bool_decide_unpack _). vm_compute. exact I.
  - reflexivity.
  - vm_compute. reflexivity.
  - left. change (fst (file_of (es_im sample_es2) 2) = extent_types.T_FILE). rewrite Hf. reflexivity.
  - change (Z.of_nat (length (snd (file_of (es_im sample_es2) 2))) <= max_direct). rewrite Hf. vm_compute. discriminate.
  - vm_compute. reflexivity.
  - change (es_im (srv sample_y2)) with (es_im sample_es2). refine (Z.le_trans _ 31000 _ _ Hfree). vm_compute. discriminate.
  - exists y'. split; [exact E | exact Hd'].
Defined.

Lemma yfs_unlink_missing_crashes_witness :
  exists f, yfs.unlink (str "c1") 2 1 (str "bar") sample_y2 = Crash f.
Proof.
  apply (yfs_unlink_missing_crashes (str "c1") 2 1 (str "bar") [Dirent (str "foo") 2] sample_y2).
  - apply sample_yok, sample_es2_ok.
  - apply sample_es2_ok.
  - apply sample2_dir.
  - vm_compute. reflexivity.
  - vm_compute. reflexivity.
Defined.
End samples.
