(* ===== verification/Sockaddr.v ===== *)
(** * Addresses of servers and identities of clients

    [make_sockaddr] of src/lab41/rpc/rpc.cc turns the string [host:port] or
    [port] into an address; the constructors of extent_client.cc and
    lock_client_cache.cc choose a port for the client's own endpoint and print it
    into the identity by which the servers call the client back. *)

From S2P Require Import Prelude Marshall Disk Inode FileStore Extent Yfs YfsCorrect.

(** [sin_addr.s_addr] and [sin_port], which is in network byte order. *)
Record sockaddr_in := SockaddrIn { s_addr : Z; sin_port : Z }.

(** [htons], and [ntohs], which is the same, on a little-endian machine. *)
Definition htons (x : Z) : Z := Z.lor (Z.shiftl (Z.land x 255) 8) (Z.shiftr (u16 x) 8).
Definition ntohs : Z -> Z := htons.

(** [atoi]: the leading digits after spaces and a sign. *)
Definition atoi (s : bytes) : Z :=
  match skip_space s with
  | b :: l =>
      if bool_decide (b = x2d) then - read_digits 0 l
      else if bool_decide (b = x2b) then read_digits 0 l else read_digits 0 (b :: l)
  | [] => 0
  end.

(** [index(s, ':')]: the part before and the part after the first colon. *)
Fixpoint split_colon (s : bytes) : option (bytes * bytes) :=
  match s with
  | [] => None
  | b :: s' =>
      if bool_decide (b = x3a) then Some ([], s')
      else (fun p => (b :: fst p, snd p)) <$> split_colon s'
  end.

(** "127.0.0.1" *)
Definition localhost : bytes := [x31; x32; x37; x2e; x30; x2e; x30; x2e; x31].

(** [a < b] *)
Definition sockaddr_lt (a b : sockaddr_in) : bool :=
  (s_addr a <? s_addr b) || ((s_addr a =? s_addr b) && (sin_port a <? sin_port b)).

Section sockaddr.
(** The C library's [inet_addr] (none for INADDR_NONE) and [gethostbyname]. *)
Context (inet_addr gethostbyname : bytes -> option Z).

Definition make_sockaddr2 (host port : bytes) : res sockaddr_in :=
  match inet_addr host with
  | Some a => Ok (SockaddrIn a (htons (atoi port)))
  | None => match gethostbyname host with
            | Some a => Ok (SockaddrIn a (htons (atoi port)))
            | None => Crash ExitCall
            end
  end.

(** The host is copied to a buffer of 200 bytes and terminated there. *)
Definition make_sockaddr (hostandport : bytes) : res sockaddr_in :=
  match split_colon hostandport with
  | None => make_sockaddr2 localhost hostandport
  | Some (host, port) =>
      if 200 <=? Z.of_nat (length host) then Crash OutOfBounds else make_sockaddr2 host port
  end.
End sockaddr.

(** [((rand() % 32000) | (0x1 << 10))] *)
Definition callback_port (rand : Z) : Z := Z.lor (Z.rem rand 32000) (Z.shiftl 1 10).

(** [host << "127.0.0.1" << ":" << port] *)
Definition client_id (rand : Z) : bytes := localhost ++ [x3a] ++ filename (callback_port rand).

(** ** Lemmas *)

Lemma callback_port_range rand : 0 <= rand -> 1024 <= callback_port rand < 32768.
Proof.
  intros Hr. unfold callback_port. pose proof (Z.rem_bound_pos rand 32000 Hr ltac:(lia)) as Hb.
  set (x := Z.rem rand 32000) in *. change (Z.shiftl 1 10) with 1024.
  split.
  - rewrite Z.lor_comm. transitivity (Z.lor 1024 0); [done|].
    apply Z.ldiff_le; [apply Z.lor_nonneg; lia|]. apply Z.bits_inj'. intros n Hn.
    rewrite Z.ldiff_spec, !Z.lor_spec, Z.bits_0. by destruct (Z.testbit 1024 n).
  - destruct (Z.lt_ge_cases (Z.lor x 1024) (2 ^ 15)) as [|Hge]; [done|]. exfalso.
    assert (Z.log2 (Z.lor x 1024) < 15); [|assert (15 <= Z.log2 (Z.lor x 1024)) by (apply Z.log2_le_pow2; lia); lia].
    rewrite Z.log2_lor by lia. apply Z.max_lub_lt; [|done].
    destruct (Z.eq_dec x 0) as [->|]; [done|]. apply Z.log2_lt_pow2; lia.
Qed.

Lemma htons_swap p : 0 <= p < 2 ^ 16 -> htons p = p mod 256 * 256 + p / 256.
Proof.
  intros Hp. unfold htons, u16. rewrite (Z.mod_small p) by lia.
  assert (0 <= p / 256 < 256) by (split; [apply Z.div_pos | apply Z.div_lt_upper_bound]; lia).
  change 255 with (Z.ones 8). rewrite Z.land_ones, Z.shiftr_div_pow2 by lia. change (2 ^ 8) with 256.
  by rewrite lor_shiftl_add by (change (2 ^ 8) with 256; lia).
Qed.

Lemma ntohs_htons p : 0 <= p < 2 ^ 16 -> ntohs (htons p) = p.
Proof.
  intros Hp. unfold ntohs.
  assert (0 <= p / 256 < 256) by (split; [apply Z.div_pos | apply Z.div_lt_upper_bound]; lia).
  pose proof (Z.mod_pos_bound p 256 ltac:(lia)). rewrite (htons_swap p Hp).
  rewrite htons_swap by lia. rewrite Z.div_add_l, (Z.div_small (p / 256)) by lia.
  rewrite (Z.add_comm (p mod 256 * 256)), Z.mod_add, (Z.mod_small (p / 256)) by lia.
  pose proof (Z.div_mod p 256 ltac:(lia)). lia.
Qed.

Lemma atoi_filename n : 0 <= n < 2 ^ 64 -> atoi (filename n) = n.
Proof.
  intros Hn. destruct (filename_digits n Hn) as (Hall & Hne & Hr). unfold atoi.
  destruct (filename n) as [|b l] eqn:E; [done|]. apply Forall_cons in Hall as [Hb Hall].
  destruct (digit_plain b Hb) as (Hs & Hm & Hp & _). cbn [skip_space]. rewrite Hs.
  rewrite !bool_decide_eq_false_2 by done. specialize (Hr []). by rewrite !app_nil_r in Hr.
Qed.

Lemma split_colon_app a b : Forall (fun x => x <> x3a) a -> split_colon (a ++ [x3a] ++ b) = Some (a, b).
Proof.
  induction 1 as [|x a Hx Ha IH]; cbn; [done|]. rewrite bool_decide_eq_false_2 by done.
  cbn in IH. by rewrite IH.
Qed.

Lemma split_colon_none a : Forall (fun x => x <> x3a) a -> split_colon a = None.
Proof.
  induction 1 as [|x a Hx Ha IH]; cbn; [done|]. rewrite bool_decide_eq_false_2 by done. by rewrite IH.
Qed.

(** The order of addresses is a strict total order. *)
Lemma sockaddr_lt_total a b : sockaddr_lt a b = true \/ a = b \/ sockaddr_lt b a = true.
Proof.
  destruct a as [a p], b as [b q]. unfold sockaddr_lt. cbn. rewrite !orb_true_iff, !andb_true_iff.
  destruct (Z.lt_trichotomy a b) as [|[->|]]; [left; lia| |right; right; lia].
  destruct (Z.lt_trichotomy p q) as [|[->|]]; [left; lia | by right; left | right; right; lia].
Qed.

Lemma sockaddr_lt_trans a b c : sockaddr_lt a b = true -> sockaddr_lt b c = true -> sockaddr_lt a c = true.
Proof. unfold sockaddr_lt. rewrite !orb_true_iff, !andb_true_iff. lia. Qed.

Lemma sockaddr_lt_irrefl a : sockaddr_lt a a = false.
Proof. unfold sockaddr_lt. rewrite orb_false_iff, andb_false_iff. lia. Qed.

(** A host name of 200 bytes or more overruns the buffer. *)
Lemma long_host_overruns inet ghbn host port : Forall (fun x => x <> x3a) host ->
  200 <= Z.of_nat (length host) -> make_sockaddr inet ghbn (host ++ [x3a] ++ port) = Crash OutOfBounds.
Proof.
  intros Hh Hl. unfold make_sockaddr. rewrite split_colon_app by done.
  destruct (Z.leb_spec 200 (Z.of_nat (length host))); [done | lia].
Qed.

(** C25. A server reaches a client by its identity: whatever [rand] gives, the port the
    constructors of the clients choose is an unprivileged one below 2^15, and the
    address [make_sockaddr] reads from the identity they print is the local host with
    exactly that port; a bare port number is an address of the local host too. *)
Theorem client_id_reaches_port (inet_addr gethostbyname : bytes -> option Z) (lo rand p : Z) :
  inet_addr localhost = Some lo -> 0 <= rand -> 0 <= p < 2 ^ 16 ->
  1024 <= callback_port rand < 32768 /\
  (exists a, make_sockaddr inet_addr gethostbyname (client_id rand) = Ok a /\
     s_addr a = lo /\ ntohs (sin_port a) = callback_port rand) /\
  (exists a, make_sockaddr inet_addr gethostbyname (filename p) = Ok a /\
     s_addr a = lo /\ ntohs (sin_port a) = p).
Proof.
  intros Hlo Hr Hp. pose proof (callback_port_range rand Hr) as Hport. split; [done|]. split.
  - unfold make_sockaddr, client_id. rewrite split_colon_app by (repeat constructor; discriminate).
    cbn [length localhost Z.of_nat]. unfold make_sockaddr2. rewrite Hlo. eexists. split; [reflexivity|].
    cbn [s_addr sin_port]. rewrite atoi_filename by lia. split; [done|]. apply ntohs_htons. lia.
  - unfold make_sockaddr. destruct (filename_digits p ltac:(lia)) as (Hall & _ & _).
    rewrite split_colon_none by (eapply Forall_impl; [exact Hall|]; intros b Hb; apply (digit_plain b Hb)).
    unfold make_sockaddr2. rewrite Hlo. eexists. split; [reflexivity|]. cbn [s_addr sin_port].
    rewrite atoi_filename by lia. split; [done|]. by apply ntohs_htons.
Qed.

Lemma client_id_reaches_port_witness :
  let inet b := if bool_decide (b = localhost) then Some 16777343 else None in
  1024 <= callback_port 12345678 < 32768 /\
  (exists a, make_sockaddr inet (fun _ => None) (client_id 12345678) = Ok a /\
     s_addr a = 16777343 /\ ntohs (sin_port a) = callback_port 12345678) /\
  (exists a, make_sockaddr inet (fun _ => None) (filename 3772) = Ok a /\
     s_addr a = 16777343 /\ ntohs (sin_port a) = 3772).
Proof.
  intros inet. apply (client_id_reaches_port inet (fun _ => None) 16777343 12345678 3772);
    [reflexivity | lia | lia].
Defined.
