(* ===== verification/Fuse.v ===== *)
(** * The FUSE front end

    src/lab41/fuse.cc: the handlers libfuse calls with the kernel's requests,
    over the yfs client of Yfs.v.  A handler is a function of the state of the
    system that returns the reply it sends.

    libfuse is an argument where its result matters: [fuse_dirent_size] and
    [fuse_add_dirent] lay out a directory entry for the kernel.  A [const char *]
    is the list of its bytes up to the terminating zero. *)

From S2P Require Import Prelude Disk Inode FileStore Extent Yfs.

Module errno.
Definition ENOENT : Z := 2.
Definition EEXIST : Z := 17.
Definition ENOTDIR : Z := 20.
Definition ENOSYS : Z := 38.
Definition ENOTEMPTY : Z := 39.
End errno.

(** File types and, in the modes below, the octal permissions 0666 (0x1b6) and
    0777 (0x1ff). *)
Definition S_IFDIR : Z := 0x4000.
Definition S_IFREG : Z := 0x8000.
Definition S_IFLNK : Z := 0xa000.
Definition FUSE_SET_ATTR_SIZE : Z := 8.
Definition FUSE_SET_ATTR_ATIME : Z := 16.
Definition FUSE_SET_ATTR_MTIME : Z := 32.

(** The fields of [struct stat] that are set; the others are zero. *)
Record stat := Stat {
  st_ino : Z; st_mode : Z; st_nlink : Z; st_atime : Z; st_mtime : Z; st_ctime : Z; st_size : Z }.

(** [struct fuse_entry_param]: the timeouts and the generation are always zero. *)
Record fuse_entry_param := Entry { e_ino : Z; e_attr : stat }.

Inductive reply :=
  | ReplyErr (err : Z)
  | ReplyAttr (st : stat)
  | ReplyBuf (buf : bytes)
  | ReplyWrite (count : Z)
  | ReplyCreate (e : fuse_entry_param)
  | ReplyEntry (e : fuse_entry_param)
  | ReplyOpen
  | ReplyReadlink (link : bytes)
  | ReplyStatfs (f_bsize f_namemax : Z).

(** [b.c_str()], as a string that ends at the first zero. *)
Fixpoint c_str (b : bytes) : bytes :=
  match b with
  | [] => []
  | x :: b => if bool_decide (x = x00) then [] else x :: c_str b
  end.

(** The requests of the kernel; [junk] of unlink is as in [yfs.unlink]. *)
Inductive fuse_req :=
  | FGetattr (ino : Z) | FStatfs | FReaddir (ino size off : Z)
  | FLookup (parent : Z) (name : bytes) | FCreate (parent : Z) (name : bytes)
  | FMknod (parent : Z) (name : bytes) | FOpen (ino : Z) | FRead (ino size off : Z)
  | FWrite (ino : Z) (buf : bytes) (off : Z) | FSetattr (ino size to_set : Z)
  | FUnlink (junk parent : Z) (name : bytes) | FMkdir (parent : Z) (name : bytes)
  | FSymlink (link : bytes) (parent : Z) (name : bytes) | FReadlink (ino : Z).

Module fuse.
Section handlers.
Context {X : Type} `{ExtentService X} (cid : bytes).
Notation ysys := (@yfs.ysys X).

(** The status, and what [st] holds on return. *)
Definition getattr (inum : Z) : M ysys (Z * stat) :=
  let st := Stat inum 0 0 0 0 0 0 in
  file ← yfs.isfile cid inum;
  if (file : bool) then
    '(ret, info) ← yfs.getfile cid inum;
    if negb (ret =? yfs_status.OK) then mret (ret, st)
    else mret (yfs_status.OK, Stat inum (Z.lor S_IFREG 0x1b6) 1 (yfs.fi_atime info) (yfs.fi_mtime info) (yfs.fi_ctime info) (yfs.fi_size info))
  else
    dir ← yfs.isdir cid inum;
    if (dir : bool) then
      '(ret, info) ← yfs.getdir cid inum;
      if negb (ret =? yfs_status.OK) then mret (ret, st)
      else mret (yfs_status.OK, Stat inum (Z.lor S_IFDIR 0x1ff) 2 (yfs.di_atime info) (yfs.di_mtime info) (yfs.di_ctime info) 0)
    else
      '(ret, info) ← yfs.getfile cid inum;
      if negb (ret =? yfs_status.OK) then mret (ret, st)
      else mret (yfs_status.OK, Stat inum (Z.lor S_IFLNK 0x1ff) 1 (yfs.fi_atime info) (yfs.fi_mtime info) (yfs.fi_ctime info) (yfs.fi_size info)).

Definition fuseserver_getattr (ino : Z) : M ysys reply :=
  '(ret, st) ← getattr ino;
  if negb (ret =? yfs_status.OK) then mret (ReplyErr errno.ENOENT) else mret (ReplyAttr st).

(** [size] is [attr->st_size]. *)
Definition fuseserver_setattr (ino size to_set : Z) : M ysys reply :=
  if negb (Z.land FUSE_SET_ATTR_SIZE to_set =? 0) || negb (Z.land FUSE_SET_ATTR_ATIME to_set =? 0) || negb (Z.land FUSE_SET_ATTR_MTIME to_set =? 0) then
    (if negb (Z.land to_set FUSE_SET_ATTR_SIZE =? 0) then yfs.setattr cid ino size else mret yfs_status.OK) ≫= fun _ =>
    '(_, st) ← getattr ino;
    mret (ReplyAttr st)
  else mret (ReplyErr errno.ENOSYS).

Definition fuseserver_read (ino size off : Z) : M ysys reply :=
  '(r, buf) ← yfs.read cid ino size off;
  if r =? yfs_status.OK then mret (ReplyBuf buf) else mret (ReplyErr errno.ENOENT).

(** [buf] has [size] bytes. *)
Definition fuseserver_write (ino : Z) (buf : bytes) (off : Z) : M ysys reply :=
  '(r, _) ← yfs.write cid ino buf off;
  if r =? yfs_status.OK then mret (ReplyWrite (Z.of_nat (length buf))) else mret (ReplyErr errno.ENOENT).

(** The status, and the entry when it is OK. *)
Definition fuseserver_createhelper (parent : Z) (name : bytes) (type : Z) : M ysys (Z * option fuse_entry_param) :=
  '(ret, inum) ← (if type =? extent_types.T_FILE then yfs.create cid parent name else yfs.mkdir cid parent name);
  match (if ret =? yfs_status.OK then inum else None) with
  | None => mret (ret, None)
  | Some inum => '(ret, st) ← getattr inum; mret (ret, Some (Entry inum st))
  end.

(** The end of [create], [mknod] and [mkdir], which differ in the reply. *)
Definition reply_helper (ok : fuse_entry_param -> reply) (r : Z * option fuse_entry_param) : reply :=
  match r with
  | (ret, Some e) => if ret =? yfs_status.OK then ok e else if ret =? yfs_status.EXIST then ReplyErr errno.EEXIST else ReplyErr errno.ENOENT
  | (ret, None) => if ret =? yfs_status.EXIST then ReplyErr errno.EEXIST else ReplyErr errno.ENOENT
  end.

Definition fuseserver_create (parent : Z) (name : bytes) : M ysys reply :=
  r ← fuseserver_createhelper parent name extent_types.T_FILE; mret (reply_helper ReplyCreate r).

Definition fuseserver_mknod (parent : Z) (name : bytes) : M ysys reply :=
  r ← fuseserver_createhelper parent name extent_types.T_FILE; mret (reply_helper ReplyEntry r).

Definition fuseserver_mkdir (parent : Z) (name : bytes) : M ysys reply :=
  r ← fuseserver_createhelper parent name extent_types.T_DIR; mret (reply_helper ReplyEntry r).

Definition fuseserver_lookup (parent : Z) (name : bytes) : M ysys reply :=
  '(_, found) ← yfs.lookup cid parent name;
  match found with
  | Some ino => '(_, st) ← getattr ino; mret (ReplyEntry (Entry ino st))
  | None => mret (ReplyErr errno.ENOENT)
  end.

Definition fuseserver_open (ino : Z) : M ysys reply := mret ReplyOpen.

(** [junk] is as in [yfs.unlink]. *)
Definition fuseserver_unlink (junk parent : Z) (name : bytes) : M ysys reply :=
  r ← yfs.unlink cid junk parent name;
  if r =? yfs_status.OK then mret (ReplyErr 0)
  else if r =? yfs_status.NOENT then mret (ReplyErr errno.ENOENT)
  else mret (ReplyErr errno.ENOTEMPTY).

Definition fuseserver_symlink (link : bytes) (parent : Z) (name : bytes) : M ysys reply :=
  '(ret, inum) ← yfs.symlink cid parent name link;
  match (if ret =? yfs_status.OK then inum else None) with
  | Some inum => '(_, st) ← getattr inum; mret (ReplyEntry (Entry inum st))
  | None => if ret =? yfs_status.EXIST then mret (ReplyErr errno.EEXIST) else mret (ReplyErr errno.ENOENT)
  end.

Definition fuseserver_readlink (ino : Z) : M ysys reply :=
  '(r, buf) ← yfs.readlink cid ino;
  if r =? yfs_status.OK then mret (ReplyReadlink (c_str buf)) else mret (ReplyErr errno.ENOENT).

Definition fuseserver_statfs : M ysys reply := mret (ReplyStatfs 512 255).

(** ** Directories *)

Section readdir.
(** libfuse: the bytes an entry takes for a name of a given length, and the entry
    for a name, an inode and the offset of the next entry. *)
Context (fuse_dirent_size : nat -> nat) (fuse_add_dirent : bytes -> stat -> Z -> bytes).

(** [b->p], of [b->size] bytes. *)
Definition dirbuf_add (b : bytes) (name : bytes) (ino : Z) : bytes :=
  let size := (length b + fuse_dirent_size (length name))%nat in
  b ++ fuse_add_dirent name (Stat ino 0 0 0 0 0 0) (Z.of_nat size).

Definition reply_buf_limited (buf : bytes) (off maxsize : Z) : reply :=
  let bufsize := Z.of_nat (length buf) in
  if u64 off <? bufsize then
    let n := if bufsize - off <? maxsize then bufsize - off else maxsize in
    ReplyBuf (take (Z.to_nat n) (drop (Z.to_nat off) buf))
  else ReplyBuf [].

Definition fuseserver_readdir (ino size off : Z) : M ysys reply :=
  dir ← yfs.isdir cid ino;
  if negb dir then mret (ReplyErr errno.ENOTDIR)
  else
    '(_, entries) ← yfs.readdir cid ino;
    mret (reply_buf_limited (fold_left (fun b e => dirbuf_add b (c_str (de_name e)) (de_inum e)) entries []) off size).

(** The table [fuseserver_oper] that the main function fills in. *)
Definition fuseserver_oper (r : fuse_req) : M ysys reply :=
  match r with
  | FGetattr ino => fuseserver_getattr ino
  | FStatfs => fuseserver_statfs
  | FReaddir ino size off => fuseserver_readdir ino size off
  | FLookup parent name => fuseserver_lookup parent name
  | FCreate parent name => fuseserver_create parent name
  | FMknod parent name => fuseserver_mknod parent name
  | FOpen ino => fuseserver_open ino
  | FRead ino size off => fuseserver_read ino size off
  | FWrite ino buf off => fuseserver_write ino buf off
  | FSetattr ino size to_set => fuseserver_setattr ino size to_set
  | FUnlink junk parent name => fuseserver_unlink junk parent name
  | FMkdir parent name => fuseserver_mkdir parent name
  | FSymlink link parent name => fuseserver_symlink link parent name
  | FReadlink ino => fuseserver_readlink ino
  end.
End readdir.
End handlers.
End fuse.
