(* ===== verification/FuseCorrect.v ===== *)
(** * Correctness of the FUSE front end

    The replies of the handlers of Fuse.v in terms of the files and directories
    the extent server holds. *)

From S2P Require Import Prelude Disk Inode InodeSpec FileStore InodeCorrect Extent ExtentCorrect Yfs YfsCorrect Fuse.

(** ** The attribute cache of the server *)

Section attrs.
Context {S : Type} `{FileStore S}.
Implicit Types (s : @extent_server S).

Definition attr_cached s (id : Z) : Prop := is_Some (es_attr s !! id).

Lemma update_cache_cached s id ms s' : update_cache id s = Ok (ms, s') ->
  attr_cached s' (mask id) /\ forall j, attr_cached s j -> attr_cached s' j.
Proof.
  unfold update_cache. intros E. inv_bind E. inv_bind E. inv_bind E. apply im_call_inv in Hstep as (_ & _ & Ha1), Hstep0 as (_ & _ & Ha2).
  unfold modS in Hstep1. injection Hstep1 as _ <-. unfold broadcast in E. injection E as _ <-. unfold attr_cached. simpl.
  split; [rewrite lookup_insert_eq; eauto|]. intros j Hj. rewrite lookup_insert. case_decide; [eauto|]. by rewrite Ha2, Ha1.
Qed.

Lemma es_create_cached ty c parent name s st id ms s' :
  es_create ty c parent name s = Ok ((st, id, ms), s') -> id <> INODE_NUM -> attr_cached s' (mask id) /\ attr_cached s' (mask parent).
Proof.
  unfold es_create. intros E Hn. inv_bind E. destruct (Z.eqb_spec a INODE_NUM) as [->|Ha]; [unfold mret, M_ret in E; congruence|].
  inv_bind E. inv_bind E. inv_bind E. inv_bind E. inv_bind E. injection E as _ <- _ <-. injection Hstep4 as _ <-.
  destruct (update_cache_cached _ _ _ _ Hstep2) as [H1 _]. destruct (update_cache_cached _ _ _ _ Hstep3) as [H2 H3].
  split; [exact H2 | exact (H3 _ H1)].
Qed.

Lemma es_symlink_cached c parent name link s st id ms s' :
  es_createSymLink c parent name link s = Ok ((st, id, ms), s') -> attr_cached s' (mask id).
Proof.
  unfold es_createSymLink. intros E. inv_bind E. inv_bind E. inv_bind E. inv_bind E. inv_bind E. inv_bind E. inv_bind E.
  injection E as _ <- _ <-. injection Hstep5 as _ <-. by destruct (update_cache_cached _ _ _ _ Hstep4) as [H1 _].
Qed.

Lemma es_put_cached c id buf s st ms s' : es_put c id buf s = Ok ((st, ms), s') -> attr_cached s' (mask (mask id)).
Proof.
  unfold es_put. intros E. inv_bind E. inv_bind E. inv_bind E. injection E as _ _ <-. injection Hstep1 as _ <-.
  by destruct (update_cache_cached _ _ _ _ Hstep0) as [H1 _].
Qed.
End attrs.

(** What [getattr] makes of the attributes of the extent server. *)
Definition stat_of (ino : Z) (a : attr) : stat :=
  if a_type a =? extent_types.T_FILE then Stat ino (Z.lor S_IFREG 0x1b6) 1 (a_atime a) (a_mtime a) (a_ctime a) (a_size a)
  else if a_type a =? extent_types.T_DIR then Stat ino (Z.lor S_IFDIR 0x1ff) 2 (a_atime a) (a_mtime a) (a_ctime a) 0
  else Stat ino (Z.lor S_IFLNK 0x1ff) 1 (a_atime a) (a_mtime a) (a_ctime a) (a_size a).

(** The attributes that the type [t] and the contents [data] of a file ask for. *)
Definition stat_ok (st : stat) (ino t : Z) (data : bytes) : Prop :=
  st_ino st = ino /\
  (t = extent_types.T_FILE -> st_mode st = Z.lor S_IFREG 0x1b6 /\ st_nlink st = 1 /\ st_size st = Z.of_nat (length data)) /\
  (t = extent_types.T_DIR -> st_mode st = Z.lor S_IFDIR 0x1ff /\ st_nlink st = 2 /\ st_size st = 0) /\
  (t <> extent_types.T_FILE -> t <> extent_types.T_DIR ->
     st_mode st = Z.lor S_IFLNK 0x1ff /\ st_nlink st = 1 /\ st_size st = Z.of_nat (length data)).

Section stack.
Context {S : Type} `{FileStoreOk S} (cid : bytes).
Notation ysys := (@yfs.ysys (@esys S)).
Implicit Types y : ysys.

(** Nothing but the locks and the caches of the clients changes. *)
Definition reads y y' : Prop := yok cid y' /\ same_files (srv y) (srv y').

Lemma reads_trans y1 y2 y3 : reads y1 y2 -> reads y2 y3 -> reads y1 y3.
Proof. intros [_ H2] [H3 H4]. split; [done|]. by eapply same_files_trans. Qed.

Lemma reads_locks y L : yok cid y -> reads y (yfs.Ysys (yfs.y_es y) L).
Proof. intros Hy. split; [by apply yok_locks|done]. Qed.

Lemma reads_attr y y' id : reads y y' -> attr_of (srv y') id = attr_of (srv y) id.
Proof. intros [_ (_ & _ & Ha)]. unfold attr_of. by rewrite Ha. Qed.

Lemma run_getattr_call y id : yok cid y -> exists y', yfs.getattr_call cid id y = Ok (attr_of (srv y) id, y') /\ reads y y'.
Proof.
  intros [Hinv Hcoh [c Hc]]. unfold yfs.getattr_call, yfs.ec_call. unfold mbind at 1, M_bind. unfold ext_op, direct_service; simpl run_eop. rewrite Hc.
  simpl. unfold srv in *. destruct (ec_getattr cid c id (yfs.y_es y)) as [[r e]|f] eqn:E.
  - pose proof (coh_getattr (yfs.y_es y) cid c id r e Hc E Hcoh) as Hcoh'.
    unfold ec_getattr in E. destruct (ec_attr c !! id) as [b|] eqn:Hhit.
    + simplify_eq. destruct (proj2 (Hcoh cid c Hc id) b Hhit) as [_ <-]. eexists; split; [reflexivity|]. split; [by split|done].
    + simpl in E. simplify_eq. eexists; split; [reflexivity|]. split; [|done].
      split; simpl; [by eapply same_files_inv; [|exact Hinv] | done|]. rewrite lookup_insert_eq. eauto.
  - unfold ec_getattr in E. destruct (ec_attr c !! id); simpl in E; done.
Qed.

(** The four reading operations of the yfs client on attributes. *)
Lemma run_locked_getattr {A} (k : attr -> A) y id : yok cid y -> exists y',
  (yfs.acquire id ≫= fun _ => a ← yfs.getattr_call cid id; yfs.release id ≫= fun _ => mret (k a)) y = Ok (k (attr_of (srv y) id), y') /\ reads y y'.
Proof.
  intros Hy. rewrite (bind_ok _ _ y tt _ eq_refl). set (y1 := yfs.Ysys _ _). assert (reads y y1) as H1 by by apply reads_locks.
  destruct (run_getattr_call y1 id) as (y2 & E & H2); [apply H1|]. erewrite bind_ok by exact E. rewrite (bind_ok _ _ y2 tt _ eq_refl).
  eexists. split; [done|]. eapply reads_trans; [exact H1|]. eapply reads_trans; [exact H2|]. apply reads_locks, H2.
Qed.

Lemma run_getattr y ino : yok cid y ->
  exists y', fuse.getattr cid ino y = Ok ((yfs_status.OK, stat_of ino (attr_of (srv y) ino)), y') /\ reads y y'.
Proof.
  intros Hy. unfold fuse.getattr, stat_of.
  destruct (run_locked_getattr (fun a => a_type a =? extent_types.T_FILE) y ino Hy) as (y1 & E1 & H1). erewrite bind_ok by exact E1.
  destruct (a_type (attr_of (srv y) ino) =? extent_types.T_FILE).
  { destruct (run_locked_getattr (fun a => (yfs_status.OK, yfs.Fileinfo (a_size a) (a_atime a) (a_mtime a) (a_ctime a))) y1 ino) as (y2 & E2 & H2); [apply H1|].
    erewrite bind_ok by exact E2. rewrite (reads_attr _ _ _ H1). exists y2. split; [done|]. by eapply reads_trans. }
  destruct (run_locked_getattr (fun a => a_type a =? extent_types.T_DIR) y1 ino) as (y2 & E2 & H2); [apply H1|]. erewrite bind_ok by exact E2.
  rewrite (reads_attr _ _ _ H1). assert (reads y y2) as H3 by by eapply reads_trans.
  destruct (a_type (attr_of (srv y) ino) =? extent_types.T_DIR).
  - destruct (run_locked_getattr (fun a => (yfs_status.OK, yfs.Dirinfo (a_atime a) (a_mtime a) (a_ctime a))) y2 ino) as (y4 & E4 & H4); [apply H2|].
    erewrite bind_ok by exact E4. rewrite (reads_attr _ _ _ H3). exists y4. split; [done|]. by eapply reads_trans.
  - destruct (run_locked_getattr (fun a => (yfs_status.OK, yfs.Fileinfo (a_size a) (a_atime a) (a_mtime a) (a_ctime a))) y2 ino) as (y4 & E4 & H4); [apply H2|].
    erewrite bind_ok by exact E4. rewrite (reads_attr _ _ _ H3). exists y4. split; [done|]. by eapply reads_trans.
Qed.

Lemma stat_of_ok y ino : yok cid y -> inum_valid ino -> attr_cached (srv y) ino ->
  stat_ok (stat_of ino (attr_of (srv y) ino)) ino (u32 (fst (st_file (es_im (srv y)) ino))) (snd (st_file (es_im (srv y)) ino)).
Proof.
  intros [[_ Hc] _ _] Hi [a Ha]. destruct (Hc ino Hi) as [_ Hattr]. destruct (Hattr a Ha) as [Ht Hs]. unfold attr_of. rewrite Ha. simpl.
  unfold stat_ok, stat_of. rewrite <- Ht, <- Hs.
  destruct (Z.eqb_spec (a_type a) extent_types.T_FILE) as [->|Hf]; [by split_and!|].
  destruct (Z.eqb_spec (a_type a) extent_types.T_DIR) as [->|Hd]; by split_and!.
Qed.

(** [getattr] tells the kernel the truth about a file whose attributes the
    extent server has: a file of type [T_FILE] is a regular file of the size of its
    contents, one of type [T_DIR] a directory, and anything else a symbolic link;
    nothing is written. *)
Lemma fuse_getattr_exact (ino : Z) (y : ysys) :
  yok cid y -> inum_valid ino -> attr_cached (srv y) ino ->
  exists st y', fuse.fuseserver_getattr cid ino y = Ok (ReplyAttr st, y') /\ yok cid y' /\ same_files (srv y) (srv y') /\
    stat_ok st ino (u32 (fst (st_file (es_im (srv y)) ino))) (snd (st_file (es_im (srv y)) ino)).
Proof.
  intros Hy Hi Ha. destruct (run_getattr y ino Hy) as (y' & E & [Hy' Hs]). unfold fuse.fuseserver_getattr. erewrite bind_ok by exact E.
  do 2 eexists. split; [done|]. split; [done|]. split; [done|]. by apply stat_of_ok.
Qed.

(** ** Making and finding names *)

Lemma create_entry_cached ty parent name y st id y' :
  yfs.create_entry cid ty parent name y = Ok ((st, Some id), y') -> inum_valid id -> attr_cached (srv y') id.
Proof.
  unfold yfs.create_entry. intros E Hi. rewrite <- (proj1 (mask_id id Hi)). inv_bind E. inv_bind E. destruct a0 as [r [j|]]; inv_bind E; [done|].
  inv_bind E. injection E as _ <- <-. injection Hstep2 as _ <-. unfold yfs.id_call in Hstep1. inv_bind Hstep1. injection Hstep1 as <- <-.
  unfold yfs.ec_call in Hstep2. unfold ext_op, direct_service in Hstep2; simpl run_eop in Hstep2. destruct (sy_cl (yfs.y_es s0) !! cid) as [c|]; [|done]. simpl in Hstep2.
  unfold ec_create in Hstep2. destruct (es_create ty cid parent name (sy_srv (yfs.y_es s0))) as [[[[st1 id1] ms] s9]|] eqn:Ec; [|done].
  injection Hstep2 as <- <-. unfold srv. simpl in *. apply (es_create_cached _ _ _ _ _ _ _ _ _ Ec).
  intros ->. unfold inum_valid in Hi. lia.
Qed.

Definition mk_type (dir : bool) : Z := if dir then extent_types.T_DIR else extent_types.T_FILE.
Definition mk_handler (dir : bool) : Z -> bytes -> M ysys reply :=
  if dir then fuse.fuseserver_mkdir cid else fuse.fuseserver_mknod cid.

Lemma mk_handler_eq (dir : bool) parent name y :
  mk_handler dir parent name y = (r ← fuse.fuseserver_createhelper cid parent name (mk_type dir); mret (fuse.reply_helper ReplyEntry r)) y.
Proof. by destruct dir. Qed.

Lemma helper_create (dir : bool) parent name :
  (if mk_type dir =? extent_types.T_FILE then yfs.create cid parent name else yfs.mkdir cid parent name) = yfs.create_entry cid (mk_type dir) parent name.
Proof. by destruct dir. Qed.

Lemma run_fuse_lookup y parent name l i : yok cid y -> data_of (srv y) parent = show_dir l -> Forall dirent_ok l ->
  lookup_dirent name l = Some i -> exists y', fuse.fuseserver_lookup cid parent name y = Ok (ReplyEntry (Entry i (stat_of i (attr_of (srv y) i))), y') /\ reads y y'.
Proof.
  intros Hy Hd Hl Hi. destruct (run_lookup cid y parent name l Hy Hd Hl) as (y1 & E1 & Hy1 & Hs1 & _).
  assert (reads y y1) as H1 by done. destruct (run_getattr y1 i Hy1) as (y2 & E2 & H2).
  exists y2. split; [|by eapply reads_trans]. unfold fuse.fuseserver_lookup. erewrite bind_ok by exact E1. rewrite Hi. erewrite bind_ok by exact E2.
  by rewrite (reads_attr _ _ _ H1).
Qed.

Lemma run_mk_existing (dir : bool) y parent name l i : yok cid y -> data_of (srv y) parent = show_dir l -> Forall dirent_ok l ->
  lookup_dirent name l = Some i -> exists y', mk_handler dir parent name y = Ok (ReplyErr errno.EEXIST, y') /\ reads y y'.
Proof.
  intros Hy Hd Hl Hi. destruct (run_create_existing cid (mk_type dir) parent name l i y Hy Hd Hl Hi) as (y1 & E1 & Hy1 & Hs1 & _).
  exists y1. split; [|done]. rewrite mk_handler_eq. unfold fuse.fuseserver_createhelper. rewrite helper_create.
  rewrite (bind_ok _ _ y (yfs_status.EXIST, None) y1); [done|]. by erewrite bind_ok by exact E1.
Qed.

(** C27. Making a file or a directory through FUSE: for a new name without a colon
    in a well-formed directory, when an inode and enough blocks are free, the
    reply is the entry of a fresh inode with the attributes of an
    empty file (or directory), the directory gains exactly that entry, a [lookup]
    of the name replies the same entry with the same attributes, and making it a
    second time replies [EEXIST] and changes nothing. *)
Theorem fuse_create_lookup (dir : bool) (parent : Z) (name : bytes) (l : list dirent) (y : ysys) :
  yok cid y -> inum_valid parent -> fst (st_file (es_im (srv y)) parent) <> 0 ->
  data_of (srv y) parent = show_dir l -> Forall dirent_ok l -> x3a ∉ name ->
  lookup_dirent name l = None -> room_for (srv y) parent name ->
  exists e y1 y2 y3, mk_handler dir parent name y = Ok (ReplyEntry e, y1) /\
    stat_ok (e_attr e) (e_ino e) (mk_type dir) [] /\ fst (st_file (es_im (srv y)) (e_ino e)) = 0 /\
    data_of (srv y1) parent = show_dir (l ++ [Dirent name (e_ino e)]) /\
    fuse.fuseserver_lookup cid parent name y1 = Ok (ReplyEntry e, y2) /\
    mk_handler dir parent name y2 = Ok (ReplyErr errno.EEXIST, y3) /\ same_files (srv y1) (srv y3).
Proof.
  intros Hy Hp Ht Hd Hl Hn Hnew Hroom.
  destruct (run_create_entry cid (mk_type dir) parent name l y Hy Hp Ht Hd Hl Hn Hnew Hroom)
    as (id & y1 & E1 & Hy1 & Hid & Hz & Hf & Hd1 & _ & _ & _).
  assert (inum_valid id) as Hiv by (unfold inum_valid; lia). pose proof (create_entry_cached _ _ _ _ _ _ _ E1 Hiv) as Hca.
  destruct (run_getattr y1 id Hy1) as (y2 & E2 & H2).
  assert (Forall dirent_ok (l ++ [Dirent name id])) as Hl'.
  { apply Forall_app. split; [done|]. apply Forall_cons. split; [|by constructor]. split; [done | by apply dirent_inum_ok]. }
  assert (lookup_dirent name (l ++ [Dirent name id]) = Some id) as Hlk by by rewrite (lookup_dirent_app name l (Dirent name id)).
  assert (data_of (srv y2) parent = show_dir (l ++ [Dirent name id])) as Hd2 by (rewrite (data_of_same _ _ parent (proj2 H2)); done).
  destruct (run_fuse_lookup y2 parent name _ id (proj1 H2) Hd2 Hl' Hlk) as (y3 & E3 & H3).
  assert (data_of (srv y3) parent = show_dir (l ++ [Dirent name id])) as Hd3 by (rewrite (data_of_same _ _ parent (proj2 H3)); done).
  destruct (run_mk_existing dir y3 parent name _ id (proj1 H3) Hd3 Hl' Hlk) as (y4 & E4 & H4).
  exists (Entry id (stat_of id (attr_of (srv y1) id))), y2, y3, y4. split_and!; simpl; try done.
  - rewrite mk_handler_eq. unfold fuse.fuseserver_createhelper. rewrite helper_create.
    rewrite (bind_ok _ _ y (yfs_status.OK, Some (Entry id (stat_of id (attr_of (srv y1) id)))) y2); [done|].
    erewrite bind_ok by exact E1. cbn -[fuse.getattr]. by erewrite bind_ok by exact E2.
  - pose proof (stat_of_ok y1 id Hy1 Hiv Hca) as Hst. rewrite Hf in Hst. by destruct dir.
  - by rewrite <- (reads_attr _ _ id H2).
  - eapply same_files_trans; [apply H3|apply H4].
Qed.

(** ** Changing the size *)

Lemma put_call_cached y id buf y' : yfs.put_call cid id buf y = Ok (tt, y') -> inum_valid id -> attr_cached (srv y') id.
Proof.
  intros E Hi. pose proof (proj1 (mask_id id Hi)) as Hm. unfold yfs.put_call in E. inv_bind E. injection E as <-.
  unfold yfs.ec_call in Hstep. unfold ext_op, direct_service in Hstep; simpl run_eop in Hstep. destruct (sy_cl (yfs.y_es y) !! cid) as [c|]; [|done]. simpl in Hstep.
  unfold ec_put in Hstep. destruct (es_put cid id buf (sy_srv (yfs.y_es y))) as [[[st1 ms] s9]|] eqn:Ec; [|done].
  destruct (st1 =? extent_protocol.OK); [|done]. injection Hstep as <- <-. apply es_put_cached in Ec. by rewrite !Hm in Ec.
Qed.

Lemma length_resize_str buf n : length (resize_str buf n) = n.
Proof. unfold resize_str. rewrite length_app, length_take, length_replicate. lia. Qed.

(** Setting the size through FUSE cuts a file or fills it up with zero bytes:
    the contents become those of [std::string::resize], the type and every other
    file stay, and the reply has the attributes of the new contents. *)
Lemma fuse_setattr_size (ino size to_set : Z) (y : ysys) :
  let buf := resize_str (data_of (srv y) ino) (Z.to_nat size) in
  yok cid y -> inum_valid ino -> 0 <= size < max_file -> blocks_num size + 1 <= st_free (es_im (srv y)) ->
  Z.land to_set FUSE_SET_ATTR_SIZE <> 0 ->
  exists st y', fuse.fuseserver_setattr cid ino size to_set y = Ok (ReplyAttr st, y') /\ yok cid y' /\
    st_file (es_im (srv y')) ino = (fst (st_file (es_im (srv y)) ino), buf) /\
    stat_ok st ino (u32 (fst (st_file (es_im (srv y)) ino))) buf /\
    forall j, inum_valid j -> j <> ino -> st_file (es_im (srv y')) j = st_file (es_im (srv y)) j.
Proof.
  intros buf Hy Hi Hsz Hfree Hset. unfold fuse.fuseserver_setattr.
  assert (Z.of_nat (length buf) = size) as Hlen by (unfold buf; rewrite length_resize_str; lia).
  rewrite (Z.land_comm FUSE_SET_ATTR_SIZE). rewrite (proj2 (Z.eqb_neq _ 0) Hset). simpl.
  destruct (run_get_call cid (yfs.Ysys (yfs.y_es y) (yfs.y_locks y ++ [LAcquire ino])) ino) as (y1 & E1 & Hy1 & Hs1 & _); [by apply yok_locks|].
  destruct (run_put_call cid y1 ino buf Hy1 Hi) as (y2 & E2 & Hy2 & Hd2 & Hf2 & _ & Ho2);
    [lia | by rewrite Hlen, (proj1 Hs1)|].
  set (y3 := yfs.Ysys (yfs.y_es y2) (yfs.y_locks y2 ++ [LRelease ino])). assert (yok cid y3) as Hy3 by by apply yok_locks.
  destruct (run_getattr y3 ino Hy3) as (y4 & E4 & Hy4 & Hs4).
  assert (attr_cached (srv y3) ino) as Hca by exact (put_call_cached y1 ino buf y2 E2 Hi).
  rewrite (bind_ok _ _ y yfs_status.OK y3).
  2:{ unfold yfs.setattr. rewrite (bind_ok _ _ y tt _ eq_refl). erewrite bind_ok by exact E1. fold buf. by erewrite bind_ok by exact E2. }
  erewrite bind_ok by exact E4. pose proof (stat_of_ok y3 ino Hy3 Hi Hca) as Hst. change (srv y3) with (srv y2) in *.
  destruct Hs1 as (Him1 & _ & _). destruct Hs4 as (Him4 & _ & _). rewrite Hf2 in Hst. simpl in *. rewrite Him1 in *.
  do 2 eexists. split; [done|]. split; [done|]. rewrite Him4. done.
Qed.

(** ** Symbolic links *)

Lemma c_str_id b : x00 ∉ b -> c_str b = b.
Proof.
  induction b as [|x b IH]; simpl; [done|]. rewrite not_elem_of_cons. intros [Hx Hb]. rewrite bool_decide_eq_false_2 by congruence. by rewrite IH.
Qed.

(** The room a new link needs: an inode, and blocks for its target and its entry. *)
Definition room_for_link (s : @extent_server S) (parent : Z) (name link : bytes) : Prop :=
  let size := Z.of_nat (length (data_of s parent) + length name) + 6 in
  (exists i, 1 <= i < INODE_NUM /\ fst (st_file (es_im s) i) = 0) /\ Z.of_nat (length link) < max_file /\
  size < max_file /\ blocks_num (Z.of_nat (length link)) + 1 + (blocks_num size + 1) <= st_free (es_im s).

Lemma run_symlink parent name link l y :
  yok cid y -> inum_valid parent -> fst (st_file (es_im (srv y)) parent) <> 0 ->
  data_of (srv y) parent = show_dir l -> Forall dirent_ok l -> lookup_dirent name l = None -> room_for_link (srv y) parent name link ->
  exists id y', yfs.symlink cid parent name link y = Ok ((yfs_status.OK, Some id), y') /\ yok cid y' /\ inum_valid id /\
    attr_cached (srv y') id /\ st_file (es_im (srv y')) id = (extent_types.T_SYMLINK, link) /\
    data_of (srv y') parent = show_dir (l ++ [Dirent name id]) /\
    forall j, inum_valid j -> j <> id -> j <> parent -> st_file (es_im (srv y')) j = st_file (es_im (srv y)) j.
Proof.
  intros Hy Hp Ht Hd Hl Hnew (Hex & Hll & Hsz & Hfr). unfold yfs.symlink. rewrite (bind_ok _ _ y tt _ eq_refl).
  set (y1 := yfs.Ysys _ _). assert (yok cid y1) as Hy1 by by apply yok_locks.
  destruct (run_lookup cid y1 parent name l Hy1 Hd Hl) as (y2 & E2 & Hy2 & Hs2 & _). erewrite bind_ok by exact E2. rewrite Hnew. cbv beta iota.
  change (srv y1) with (srv y) in Hs2. pose proof Hs2 as (Him2 & _ & _). pose proof (data_of_same _ _ parent Hs2) as Hd2.
  destruct Hy2 as [Hinv2 Hcoh2 [c Hc2]].
  destruct (run_es_symlink cid parent name link (srv y2)) as (id & ms & s' & E3 & Hinv3 & Hid & Hz & Hf & Hdp & Ho); rewrite ?Him2, ?Hd2; try done.
  assert (inum_valid id) as Hiv by (unfold inum_valid; lia). pose proof (es_symlink_cached _ _ _ _ _ _ _ _ _ E3) as Hca.
  rewrite (bind_ok _ _ y2 id (yfs.Ysys (Esys s' (deliver ms (sy_cl (yfs.y_es y2)))) (yfs.y_locks y2))).
  2:{ unfold yfs.id_call, yfs.ec_call. unfold mbind at 1, M_bind. unfold ext_op, direct_service; simpl run_eop. rewrite Hc2. simpl. unfold ec_symlink. unfold srv in E3. by rewrite E3. }
  rewrite (bind_ok _ _ _ tt _ eq_refl). eexists id, _. split; [reflexivity|]. rewrite Him2 in Ho.
  split_and!; try done.
  - split; simpl; [done | by eapply coh_symlink | by apply deliver_dom; eauto].
  - by rewrite (proj1 (mask_id id Hiv)) in Hca.
  - unfold srv. simpl. by rewrite Hdp, Hd2, Hd, show_dir_snoc.
Qed.


(** ** Reading directories *)

Section readdir.
Context (fuse_dirent_size : nat -> nat) (fuse_add_dirent : bytes -> stat -> Z -> bytes).

(** libfuse: [fuse_add_dirent] writes [fuse_dirent_size] bytes. *)
Hypothesis dirent_size_ok : forall name st off, length (fuse_add_dirent name st off) = fuse_dirent_size (length name).

Definition dirent_len (e : dirent) : nat := fuse_dirent_size (length (c_str (de_name e))).

(** The offset at which the entries after [l] start. *)
Definition dir_offset (l : list dirent) : nat := sum_list_with dirent_len l.

(** The entries of [l] as the kernel gets them, the first one at [start]: each
    carries the offset of the next one. *)
Fixpoint dir_records (start : nat) (l : list dirent) : bytes :=
  match l with
  | [] => []
  | e :: l => let next := (start + dirent_len e)%nat in
              fuse_add_dirent (c_str (de_name e)) (Stat (de_inum e) 0 0 0 0 0 0) (Z.of_nat next) ++ dir_records next l
  end.

Notation add := (fun b e => fuse.dirbuf_add fuse_dirent_size fuse_add_dirent b (c_str (de_name e)) (de_inum e)).

Lemma length_dir_records start l : length (dir_records start l) = dir_offset l.
Proof. revert start. induction l as [|e l IH]; intros start; [done|]. simpl. by rewrite length_app, dirent_size_ok, IH. Qed.

Lemma fold_dirbuf l b : fold_left add l b = b ++ dir_records (length b) l.
Proof.
  revert b. induction l as [|e l IH]; intros b; simpl; [by rewrite app_nil_r|]. rewrite IH. unfold fuse.dirbuf_add.
  rewrite length_app, dirent_size_ok, <- app_assoc. done.
Qed.

Lemma dir_records_app start l1 l2 : dir_records start (l1 ++ l2) = dir_records start l1 ++ dir_records (start + dir_offset l1) l2.
Proof.
  revert start. induction l1 as [|e l1 IH]; intros start; simpl; [by rewrite Nat.add_0_r|]. rewrite IH, <- app_assoc.
  do 2 f_equal. unfold dir_offset. simpl. by rewrite Nat.add_assoc.
Qed.

Lemma reply_buf_limited_spec buf (off : nat) size : Z.of_nat (length buf) < 2 ^ 63 -> (off <= length buf)%nat -> 0 <= size ->
  fuse.reply_buf_limited buf (Z.of_nat off) size = ReplyBuf (take (Z.to_nat size) (drop off buf)).
Proof.
  intros Hb Ho Hs. unfold fuse.reply_buf_limited, u64. rewrite Z.mod_small by lia. rewrite Nat2Z.id.
  destruct (Z.ltb_spec (Z.of_nat off) (Z.of_nat (length buf))) as [Hlt|Hge].
  - destruct (Z.ltb_spec (Z.of_nat (length buf) - Z.of_nat off) size); [|done]. f_equal. rewrite !firstn_all2; [done|len|len].
  - rewrite drop_ge by lia. by rewrite take_nil.
Qed.

End readdir.
End stack.

(** ** Closed runs *)

Section samples.
#[local] Existing Instance zero_env.

Lemma sample2_cached : attr_cached (srv sample_y2) 1 /\ attr_cached (srv sample_y2) 2.
Proof.
  change (srv sample_y2) with sample_es2. unfold sample_es2.
  assert (match es_create extent_types.T_FILE (str "c1") 1 (str "foo") sample_es with
          | Ok (_, id, _, _) => id =? 2 | Crash _ => false end = true) as Hc by (vm_compute; reflexivity).
  destruct (es_create extent_types.T_FILE (str "c1") 1 (str "foo") sample_es) as [[[[st id] ms] s']|] eqn:E; [|done].
  apply Z.eqb_eq in Hc as ->. destruct (es_create_cached _ _ _ _ _ _ _ _ _ E) as [H1 H2]; [done|].
  split; [exact H2 | exact H1].
Qed.

Lemma sample2_file : st_file (es_im (srv sample_y2)) 2 = (extent_types.T_FILE, []).
Proof. destruct sample_es2_ok as (_ & _ & Hf & _). exact Hf. Qed.

Lemma fuse_getattr_exact_witness : exists st y', fuse.fuseserver_getattr (str "c1") 2 sample_y2 = Ok (ReplyAttr st, y') /\
  st_mode st = Z.lor S_IFREG 0x1b6 /\ st_size st = 0.
Proof.
  destruct sample_es2_ok as (Hinv & _ & _ & _).
  destruct (fuse_getattr_exact (str "c1") 2 sample_y2) as (st & y' & E & _ & _ & Hst).
  - apply sample_yok, Hinv.
  - unfold inum_valid. consts. lia.
  - apply sample2_cached.
  - exists st, y'. split; [exact E|]. rewrite sample2_file in Hst.
    destruct Hst as (_ & Hm & _). destruct (Hm eq_refl) as (H1 & _ & H2). split; [exact H1 | exact H2].
Defined.

(** There is room for a file in [sample_y]. *)
Lemma sample_free_inode : exists i, 1 <= i < INODE_NUM /\ fst (st_file (es_im (srv sample_y)) i) = 0.
Proof.
  exists 5. split; [consts; lia|]. change (fst (file_of one_file_fs 5) = 0).
  destruct one_file_inv as (_ & _ & Hoth & _). rewrite Hoth; [reflexivity | apply inum_valid_5 | lia].
Qed.

Lemma fuse_create_lookup_witness : exists e y1 y2, fuse.fuseserver_mkdir (str "c1") 1 (str "foo") sample_y = Ok (ReplyEntry e, y1) /\
  st_mode (e_attr e) = Z.lor S_IFDIR 0x1ff /\ fuse.fuseserver_lookup (str "c1") 1 (str "foo") y1 = Ok (ReplyEntry e, y2).
Proof.
  destruct (fuse_create_lookup (str "c1") true 1 (str "foo") [] sample_y) as (e & y1 & y2 & _ & E1 & Hst & _ & _ & E2 & _).
  - apply sample_yok, sample_es_inv.
  - apply inum_ok_1.
  - apply sample_type.
  - reflexivity.
  - apply Forall_nil_2.
  - apply (bool_decide_unpack _). vm_compute. exact I.
  - reflexivity.
  - split_and!; [apply sample_free_inode | vm_compute; reflexivity|].
    change (es_im (srv sample_y)) with (es_im sample_es). rewrite sample_es_free. vm_compute. discriminate.
  - exists e, y1, y2. split; [exact E1|]. split; [|exact E2]. destruct Hst as (_ & _ & Hd & _). apply Hd. reflexivity.
Defined.

Lemma fuse_setattr_size_witness : exists st y', fuse.fuseserver_setattr (str "c1") 1 3 FUSE_SET_ATTR_SIZE sample_y = Ok (ReplyAttr st, y') /\
  snd (st_file (es_im (srv y')) 1) = [x00; x00; x00].
Proof.
  destruct (fuse_setattr_size (str "c1") 1 3 FUSE_SET_ATTR_SIZE sample_y) as (st & y' & E & _ & Hf & _).
  - apply sample_yok, sample_es_inv.
  - apply inum_ok_1.
  - split; [lia|]. vm_compute. reflexivity.
  - change (es_im (srv sample_y)) with (es_im sample_es). rewrite sample_es_free. vm_compute. discriminate.
  - vm_compute. discriminate.
  - exists st, y'. split; [exact E|]. rewrite Hf. reflexivity.
Defined.


End samples.
