(* ===== verification/FileSystem.v ===== *)
(** * The file system over RPC

    Several FUSE processes (src/lab41/fuse.cc), each with a yfs client and an
    extent client, on one extent server.  The handlers of Fuse.v and the operations
    of Yfs.v are written against the interface [ExtentService]; this file runs them
    on the extent service of ExtentRpc.v, in which every call and every callback is
    a request on the wire, and shows that the kernel sees the replies it would see
    if the extent server were called directly. *)

From S2P Require Import Prelude Marshall RpcServer RpcClient Rpc RpcSystem RemoteCall Services.
From S2P Require Import Disk Inode FileStore InodeCorrect Extent ExtentRpc ExtentRpcCorrect Yfs YfsCorrect Fuse.

(** ** Runs of the file system *)

(** A FUSE process starts, or the kernel sends it a request. *)
Inductive fs_event :=
  | Mount (cid : bytes) (n1 n2 : Z)
  | Req (cid : bytes) (r : fuse_req).

Section runs.
Context {X : Type} `{ExtentService X}.
Context (fuse_dirent_size : nat -> nat) (fuse_add_dirent : bytes -> stat -> Z -> bytes).

(** The start of the main function: [new yfs_client(...)], which makes the extent
    client and writes the root directory. *)
Definition mount (cid : bytes) (n1 n2 : Z) : M (@yfs.ysys X) unit := fun y =>
  match ext_join cid n1 n2 (yfs.y_es y) with
  | Ok x => yfs.new_yfs_client cid (yfs.Ysys x (yfs.y_locks y))
  | Crash f => Crash f
  end.

Definition fs_step (e : fs_event) : M (@yfs.ysys X) (list reply) :=
  match e with
  | Mount cid n1 n2 => mount cid n1 n2 ≫= fun _ => mret []
  | Req cid r => v ← fuse.fuseserver_oper cid fuse_dirent_size fuse_add_dirent r; mret [v]
  end.

(** The replies to the kernel, in order. *)
Fixpoint fs_run (tr : list fs_event) : M (@yfs.ysys X) (list reply) :=
  match tr with
  | [] => mret []
  | e :: tr' => l ← fs_step e; l' ← fs_run tr'; mret (l ++ l')
  end.
End runs.

(** ** Sizes *)

(** Requests whose strings and offsets fit a message. *)
Definition req_small (r : fuse_req) : Prop :=
  match r with
  | FGetattr ino | FReaddir ino _ _ | FRead ino _ _ | FReadlink ino => in_u 64 ino
  | FLookup parent name | FCreate parent name | FMknod parent name | FMkdir parent name =>
      in_u 64 parent /\ short name
  | FWrite ino buf off => in_u 64 ino /\ 0 <= off /\ off + Z.of_nat (length buf) < 2 ^ 27
  | FSetattr ino size _ => in_u 64 ino /\ size < 2 ^ 27
  | FUnlink junk parent name => in_u 64 junk /\ in_u 64 parent /\ short name
  | FSymlink link parent name => in_u 64 parent /\ short name /\ short link
  | FStatfs | FOpen _ => True
  end.

Lemma length_store_bytes data : forall pos buf, length (store_bytes data pos buf) = length buf.
Proof. induction data as [|b data IH]; intros pos buf; cbn; [done|]. by rewrite IH, length_insert. Qed.

Lemma length_zero_bytes n : forall pos buf, length (zero_bytes n pos buf) = length buf.
Proof. induction n as [|n IH]; intros pos buf; cbn; [done|]. by rewrite IH, length_insert. Qed.

Lemma length_resize buf n : length (resize_str buf n) = n.
Proof. unfold resize_str. rewrite length_app, length_take, length_replicate. lia. Qed.

Lemma short_write_buf buf data off : short buf -> 0 <= off -> off + Z.of_nat (length data) < 2 ^ 27 ->
  short (write_buf buf data off).
Proof.
  intros Hb Ho Hd. unfold short, write_buf in *. rewrite length_store_bytes.
  assert (u64 (off + Z.of_nat (length data)) = off + Z.of_nat (length data)) as ->
    by (apply Z.mod_small; lia).
  destruct (_ <? _); [|done]. destruct (_ <? _); rewrite ?length_zero_bytes, length_resize; lia.
Qed.

Lemma read_digits_nonneg l : forall acc, 0 <= acc -> 0 <= read_digits acc l.
Proof.
  induction l as [|b l IH]; intros acc Ha; cbn [read_digits]; [done|].
  destruct (is_digit b) eqn:E; [|done]. apply IH. unfold is_digit in E. apply andb_true_iff in E as [E _].
  apply Z.leb_le in E. lia.
Qed.

Lemma n2i_range n i : n2i n = Ok i -> in_u 64 i.
Proof.
  unfold n2i, in_u. destruct (skip_space n) as [|b l]; [done|]. intros [= <-].
  pose proof (read_digits_nonneg l 0 ltac:(lia)). pose proof (read_digits_nonneg (b :: l) 0 ltac:(lia)).
  pose proof (Z.mod_pos_bound (- read_digits 0 l) (2 ^ 64) ltac:(lia)). unfold u64 in *.
  cbn [read_digits] in *. set (d := if is_digit b then _ else _) in *.
  repeat case_bool_decide; destruct (Z.leb_spec (2 ^ 64) (read_digits 0 l)); try lia;
    destruct (Z.leb_spec (2 ^ 64) d); lia.
Qed.

Lemma parse_dir_range fuel : forall buf pos acc l, Forall (fun e => in_u 64 (de_inum e)) acc ->
  parse_dir fuel buf pos acc = Ok l -> Forall (fun e => in_u 64 (de_inum e)) l.
Proof.
  induction fuel as [|fuel IH]; intros buf pos acc l Ha; cbn; destruct (find_char x3a buf pos); try done;
    try (by intros [= <-]).
  intros (i & Hi%n2i_range & E)%res_bind_inv. eapply IH; [|exact E].
  rewrite Forall_app, Forall_cons. split_and!; [done | exact Hi | done].
Qed.

Lemma lookup_dirent_range name l i : Forall (fun e => in_u 64 (de_inum e)) l ->
  lookup_dirent name l = Some i -> in_u 64 i.
Proof.
  induction 1 as [|e l He _ IH]; cbn; [done|]. case_bool_decide; [by intros [= <-] | done].
Qed.

(** ** The file system does what its extent service does

    [lifts P m m']: whatever the program [m'] does on one service, [m] does on one
    that simulates it, and the result satisfies [P]. *)

Section lift.
Context {X Y : Type} {HX : ExtentService X} {HY : ExtentService Y} (R : X -> Y -> Prop).

Definition yrel (x : @yfs.ysys X) (y : @yfs.ysys Y) : Prop :=
  R (yfs.y_es x) (yfs.y_es y) /\ yfs.y_locks x = yfs.y_locks y.

Definition lifts {A} (P : A -> Prop) (m : M yfs.ysys A) (m' : M yfs.ysys A) : Prop :=
  forall x y a y', yrel x y -> m' y = Ok (a, y') -> P a /\ exists x', m x = Ok (a, x') /\ yrel x' y'.

Notation any := (fun _ => True).

Lemma lifts_ret {A} (P : A -> Prop) a : P a -> lifts P (mret a) (mret a).
Proof. intros Ha x y a' y' Hxy [= <- <-]. eauto. Qed.

Lemma lifts_crash {A} (P : A -> Prop) f : lifts P (crash f) (crash f).
Proof. by intros x y a y' _ E. Qed.

Lemma lifts_bind {A B} (P : A -> Prop) (Q : B -> Prop) m m' k k' :
  lifts P m m' -> (forall a, P a -> lifts Q (k a) (k' a)) -> lifts Q (m ≫= k) (m' ≫= k').
Proof.
  intros Hm Hk x y b y' Hxy E. apply bind_inv in E as (a & y1 & E1 & E2).
  destruct (Hm x y a y1 Hxy E1) as (Ha & x1 & F1 & Hxy1).
  destruct (Hk a Ha x1 y1 b y' Hxy1 E2) as (Hb & x' & F2 & Hxy').
  split; [done|]. exists x'. by rewrite (bind_ok _ _ _ _ _ F1).
Qed.

Lemma lifts_weaken {A} (P Q : A -> Prop) m m' : (forall a, P a -> Q a) -> lifts P m m' -> lifts Q m m'.
Proof. intros HPQ Hm x y a y' Hxy E. destruct (Hm x y a y' Hxy E) as [Ha Hx]. auto. Qed.

Lemma lifts_locks (f : list lock_call -> list lock_call) :
  lifts any (modS (fun y => yfs.Ysys (yfs.y_es y) (f (yfs.y_locks y))))
            (modS (fun y => yfs.Ysys (yfs.y_es y) (f (yfs.y_locks y)))).
Proof.
  intros x y [] y' [Hr Hl] [= <-]. split; [done|]. eexists. split; [reflexivity|]. split; [done|]. cbn. by rewrite Hl.
Qed.

Lemma lifts_acquire id : lifts any (yfs.acquire id) (yfs.acquire id).
Proof. exact (lifts_locks (fun l => l ++ [LAcquire id])). Qed.
Lemma lifts_release id : lifts any (yfs.release id) (yfs.release id).
Proof. exact (lifts_locks (fun l => l ++ [LRelease id])). Qed.

(** The one service simulates the other on small operations. *)
Context (Hstep : forall op x y r y', R x y -> eop_small op -> ext_op op y = Some (Ok (r, y')) ->
  eret_small r /\ exists x', ext_op op x = Some (Ok (r, x')) /\ R x' y').

Lemma lifts_call op : eop_small op -> lifts eret_small (yfs.ec_call op) (yfs.ec_call op).
Proof.
  intros Hop x y r y' [Hr Hl] E. unfold yfs.ec_call in *.
  destruct (ext_op op (yfs.y_es y)) as [[[r0 e]|]|] eqn:Ey; try done. injection E as <- <-.
  destruct (Hstep _ _ _ _ _ Hr Hop Ey) as (Hs & x' & -> & Hr').
  split; [done|]. eexists. split; [reflexivity|]. by split.
Qed.

Context (cid : bytes) (Hcid : short cid).

Lemma lifts_get id : in_u 64 id -> lifts short (yfs.get_call cid id) (yfs.get_call cid id).
Proof.
  intros Hi. eapply lifts_bind; [by apply lifts_call|]. intros [] Hr; by apply lifts_ret.
Qed.
Lemma lifts_getattr id : in_u 64 id -> lifts any (yfs.getattr_call cid id) (yfs.getattr_call cid id).
Proof. intros Hi. eapply lifts_bind; [by apply lifts_call|]. intros. by apply lifts_ret. Qed.
Lemma lifts_put id buf : in_u 64 id -> short buf -> lifts any (yfs.put_call cid id buf) (yfs.put_call cid id buf).
Proof. intros. eapply lifts_bind; [by apply lifts_call|]. intros. by apply lifts_ret. Qed.
Lemma lifts_id op : eop_small op -> lifts (in_u 64) (yfs.id_call op) (yfs.id_call op).
Proof.
  intros Hop. eapply lifts_bind; [by apply lifts_call|]. intros [] Hr; apply lifts_ret; try done; unfold in_u; lia.
Qed.

(** Go through a program, call by call. *)
Create HintDb lift.
Hint Resolve lifts_acquire lifts_release lifts_get lifts_getattr lifts_put lifts_id lifts_call : lift.
Hint Extern 5 (in_u _ _) => done : lift.
Hint Extern 5 (short _) => done : lift.
Ltac lift_step :=
  lazymatch goal with
  | |- lifts _ (mret _) (mret _) => apply lifts_ret
  | |- lifts _ (crash _) (crash _) => apply lifts_crash
  | |- lifts _ (mbind _ _) (mbind _ _) => eapply lifts_bind; [solve [eauto 3 with lift]|]
  end.
Ltac lift_case := lazymatch goal with |- lifts _ (match ?b with _ => _ end) _ => destruct b end.
Ltac lift_tac := intros; repeat (first [lift_step | lift_case]; intros); try done.

Lemma lifts_readdir dir : in_u 64 dir ->
  lifts (fun r => Forall (fun e => in_u 64 (de_inum e)) (snd r)) (yfs.readdir cid dir) (yfs.readdir cid dir).
Proof.
  intros Hd. unfold yfs.readdir. lift_step. intros buf _. destruct (dirents buf) as [l|] eqn:E; lift_step.
  cbn. by apply (parse_dir_range _ _ _ [] _ ltac:(done) E).
Qed.
Hint Resolve lifts_readdir : lift.

Definition found_ok (r : Z * option Z) : Prop := forall i, snd r = Some i -> in_u 64 i.

Lemma lifts_lookup parent name : in_u 64 parent ->
  lifts found_ok (yfs.lookup cid parent name) (yfs.lookup cid parent name).
Proof.
  intros Hp. unfold yfs.lookup. lift_step. intros [st l] Hl. apply lifts_ret. intros i. cbn.
  by apply lookup_dirent_range.
Qed.
Hint Resolve lifts_lookup : lift.

Lemma lifts_create_entry type parent name : in_u 32 type -> in_u 64 parent -> short name ->
  lifts found_ok (yfs.create_entry cid type parent name) (yfs.create_entry cid type parent name).
Proof.
  intros Ht Hp Hn. unfold yfs.create_entry. lift_step. intros _ _. lift_step. intros [st [i|]] _.
  - lift_tac.
  - eapply lifts_bind; [by apply lifts_id|]. intros ino Hi. lift_tac. intros ? [= <-]. done.
Qed.

Lemma lifts_symlink parent name link : in_u 64 parent -> short name -> short link ->
  lifts found_ok (yfs.symlink cid parent name link) (yfs.symlink cid parent name link).
Proof.
  intros Hp Hn Hl. unfold yfs.symlink. lift_step. intros _ _. lift_step. intros [st [i|]] _.
  - lift_tac.
  - eapply lifts_bind; [by apply lifts_id|]. intros ino Hi. lift_tac. intros ? [= <-]. done.
Qed.

Lemma lifts_unlink junk parent name : in_u 64 junk -> in_u 64 parent -> short name ->
  lifts any (yfs.unlink cid junk parent name) (yfs.unlink cid junk parent name).
Proof.
  intros Hj Hp Hn. unfold yfs.unlink. lift_step. intros _ _. lift_step. intros [st f] Hf.
  eapply lifts_bind; [apply lifts_call|lift_tac]. split_and!; try done. destruct f as [i|]; [by apply Hf | done].
Qed.

Lemma lifts_write ino data off : in_u 64 ino -> 0 <= off -> off + Z.of_nat (length data) < 2 ^ 27 ->
  lifts any (yfs.write cid ino data off) (yfs.write cid ino data off).
Proof.
  intros Hi Ho Hd. unfold yfs.write. lift_step. intros _ _. lift_step. intros buf Hb.
  eapply lifts_bind; [by apply lifts_put, short_write_buf | lift_tac].
Qed.

Lemma lifts_setattr ino size : in_u 64 ino -> size < 2 ^ 27 ->
  lifts any (yfs.setattr cid ino size) (yfs.setattr cid ino size).
Proof.
  intros Hi Hs. unfold yfs.setattr. lift_step. intros _ _. lift_step. intros buf Hb.
  eapply lifts_bind; [apply lifts_put; [done|]; unfold short; rewrite length_resize; lia | lift_tac].
Qed.

(** *** The handlers *)

Lemma lifts_fuse_getattr ino : in_u 64 ino -> lifts any (fuse.getattr cid ino) (fuse.getattr cid ino).
Proof.
  intros Hi. unfold fuse.getattr, yfs.isfile, yfs.isdir, yfs.getfile, yfs.getdir.
  apply (lifts_bind any); [lift_tac|]. intros [] _.
  { apply (lifts_bind any); lift_tac. }
  apply (lifts_bind any); [lift_tac|]. intros [] _; apply (lifts_bind any); lift_tac.
Qed.
Hint Resolve lifts_fuse_getattr lifts_write lifts_setattr lifts_symlink lifts_unlink : lift.

Lemma lifts_createhelper parent name type : in_u 32 type -> in_u 64 parent -> short name ->
  lifts any (fuse.fuseserver_createhelper cid parent name type) (fuse.fuseserver_createhelper cid parent name type).
Proof.
  intros Ht Hp Hn. unfold fuse.fuseserver_createhelper. apply (lifts_bind found_ok).
  { destruct (type =? extent_types.T_FILE); apply lifts_create_entry; try done; unfold in_u, extent_types.T_FILE,
      extent_types.T_DIR; lia. }
  intros [ret o] Ho. destruct (ret =? yfs_status.OK); [destruct o as [i|]|]; [|lift_tac..].
  eapply lifts_bind; [by apply lifts_fuse_getattr, Ho|]. intros [r st] _. lift_tac.
Qed.

Context (fuse_dirent_size : nat -> nat) (fuse_add_dirent : bytes -> stat -> Z -> bytes).

Lemma lifts_oper r : req_small r ->
  lifts any (fuse.fuseserver_oper cid fuse_dirent_size fuse_add_dirent r)
            (fuse.fuseserver_oper cid fuse_dirent_size fuse_add_dirent r).
Proof.
  assert (in_u 32 extent_types.T_FILE /\ in_u 32 extent_types.T_DIR) as [Htf Htd]
    by (unfold in_u, extent_types.T_FILE, extent_types.T_DIR; lia).
  destruct r as [ino| |ino size off|parent name|parent name|parent name|ino|ino size off|ino buf off|ino size set
    |junk parent name|parent name|link parent name|ino]; cbn [req_small fuse.fuseserver_oper]; intros Hr.
  - unfold fuse.fuseserver_getattr. lift_tac.
  - unfold fuse.fuseserver_statfs. lift_tac.
  - unfold fuse.fuseserver_readdir, yfs.isdir. apply (lifts_bind any); [lift_tac|]. lift_tac.
  - destruct Hr. unfold fuse.fuseserver_lookup. lift_step. intros [st [i|]] Hf; [|lift_tac].
    specialize (Hf i eq_refl). lift_tac.
  - destruct Hr. apply (lifts_bind any); [by apply lifts_createhelper | lift_tac].
  - destruct Hr. apply (lifts_bind any); [by apply lifts_createhelper | lift_tac].
  - unfold fuse.fuseserver_open. lift_tac.
  - unfold fuse.fuseserver_read, yfs.read. apply (lifts_bind any); lift_tac.
  - destruct Hr as (? & ? & ?). unfold fuse.fuseserver_write. apply (lifts_bind any); [by apply lifts_write | lift_tac].
  - destruct Hr. unfold fuse.fuseserver_setattr. destruct (_ || _); [|lift_tac].
    apply (lifts_bind any); [|lift_tac]. destruct (negb _); [by apply lifts_setattr | lift_tac].
  - destruct Hr as (? & ? & ?). unfold fuse.fuseserver_unlink. apply (lifts_bind any); [by apply lifts_unlink | lift_tac].
  - destruct Hr. apply (lifts_bind any); [by apply lifts_createhelper | lift_tac].
  - destruct Hr as (? & ? & ?). unfold fuse.fuseserver_symlink. apply (lifts_bind found_ok); [by apply lifts_symlink|].
    intros [ret o] Ho. destruct (ret =? yfs_status.OK); [destruct o as [i|]|]; [|lift_tac..].
    specialize (Ho i eq_refl). lift_tac.
  - unfold fuse.fuseserver_readlink, yfs.readlink. apply (lifts_bind any); lift_tac.
Qed.
End lift.

(** *** Runs *)

(** The processes have different identities and draw different numbers; [C] and
    [U] are those of the processes that run already. *)
Fixpoint admissible (C : gset bytes) (U : gset Z) (tr : list fs_event) : Prop :=
  match tr with
  | [] => True
  | Mount cid n1 n2 :: tr' =>
      short cid /\ cid ∉ C /\ 0 < n1 < 2 ^ 31 /\ n1 ∉ U /\ 0 <= n2 < 2 ^ 31 /\
      admissible ({[cid]} ∪ C) ({[n1]} ∪ U) tr'
  | Req cid r :: tr' => short cid /\ req_small r /\ admissible C U tr'
  end.

Section lift_runs.
Context {X Y : Type} {HX : ExtentService X} {HY : ExtentService Y}.
Context (R : gset bytes -> gset Z -> X -> Y -> Prop).
Context (Hstep : forall C U op x y r y', R C U x y -> eop_small op -> ext_op op y = Some (Ok (r, y')) ->
  eret_small r /\ exists x', ext_op op x = Some (Ok (r, x')) /\ R C U x' y').
Context (Hjoin : forall C U cid n1 n2 x y y', R C U x y -> short cid -> cid ∉ C -> 0 < n1 < 2 ^ 31 -> n1 ∉ U ->
  0 <= n2 < 2 ^ 31 -> ext_join cid n1 n2 y = Ok y' ->
  exists x', ext_join cid n1 n2 x = Ok x' /\ R ({[cid]} ∪ C) ({[n1]} ∪ U) x' y').
Context (fuse_dirent_size : nat -> nat) (fuse_add_dirent : bytes -> stat -> Z -> bytes).
Notation run := (fs_run fuse_dirent_size fuse_add_dirent).

Lemma lifts_mount C U cid n1 n2 x y a y' : yrel (R C U) x y -> short cid -> cid ∉ C -> 0 < n1 < 2 ^ 31 -> n1 ∉ U ->
  0 <= n2 < 2 ^ 31 -> mount cid n1 n2 y = Ok (a, y') ->
  exists x', mount cid n1 n2 x = Ok (a, x') /\ yrel (R ({[cid]} ∪ C) ({[n1]} ∪ U)) x' y'.
Proof.
  intros [Hr Hl] Hs Hc H1 Hu H2 E. unfold mount in *.
  destruct (ext_join cid n1 n2 (yfs.y_es y)) as [y1|] eqn:Ej; [|done].
  destruct (Hjoin _ _ _ _ _ _ _ _ Hr Hs Hc H1 Hu H2 Ej) as (x1 & -> & Hr1).
  assert (lifts (R ({[cid]} ∪ C) ({[n1]} ∪ U)) (fun _ => True) (yfs.new_yfs_client cid) (yfs.new_yfs_client cid)) as Hn.
  { unfold yfs.new_yfs_client. apply (lifts_bind _ (fun _ => True)); [apply lifts_acquire|]. intros _ _.
    apply (lifts_bind _ (fun _ => True)); [|intros _ _; apply lifts_release].
    apply (lifts_put _ (Hstep _ _)); [done | unfold in_u; lia | done]. }
  destruct (Hn (yfs.Ysys x1 (yfs.y_locks x)) (yfs.Ysys y1 (yfs.y_locks y)) a y' ltac:(by split) E) as (_ & x' & E' & Hx'). by exists x'.
Qed.

Lemma lifts_run tr : forall C U x y l y', admissible C U tr -> yrel (R C U) x y -> run tr y = Ok (l, y') ->
  exists C' U' x', run tr x = Ok (l, x') /\ yrel (R C' U') x' y'.
Proof.
  induction tr as [|e tr IH]; intros C U x y l y' Ha Hxy E; cbn [fs_run] in *.
  { injection E as <- <-. by exists C, U, x. }
  inv_bind E. inv_bind E. injection E as <- <-.
  assert (exists C1 U1 x1, fs_step fuse_dirent_size fuse_add_dirent e x = Ok (a, x1) /\
    yrel (R C1 U1) x1 s /\ admissible C1 U1 tr) as (C1 & U1 & x1 & E1 & Hx1 & Ha1).
  { destruct e as [cid n1 n2|cid r]; cbn [fs_step admissible] in *.
    - destruct Ha as (Hs & Hc & H1 & Hu & H2 & Ha). inv_bind Hstep0. injection Hstep0 as <- <-.
      destruct (lifts_mount _ _ _ _ _ _ _ _ _ Hxy Hs Hc H1 Hu H2 Hstep2) as (x1 & E1 & Hx1).
      exists ({[cid]} ∪ C), ({[n1]} ∪ U), x1. by rewrite (bind_ok _ _ _ _ _ E1).
    - destruct Ha as (Hs & Hr & Ha). inv_bind Hstep0. injection Hstep0 as <- <-.
      destruct (lifts_oper _ (Hstep C U) cid Hs fuse_dirent_size fuse_add_dirent r Hr _ _ _ _ Hxy Hstep2)
        as (_ & x1 & E1 & Hx1).
      exists C, U, x1. by rewrite (bind_ok _ _ _ _ _ E1). }
  destruct (IH C1 U1 x1 s a0 s0 Ha1 Hx1 Hstep1) as (C' & U' & x' & E' & Hx').
  exists C', U', x'. by rewrite (bind_ok _ _ _ _ _ E1), (bind_ok _ _ _ _ _ E').
Qed.
End lift_runs.

(** ** Everything in the caches fits a message *)

(** A store whose files and numbers fit. *)
Class BoundedStore (S : Type) `{FileStore S} := {
  bs_alloc ty s i s' : im_alloc_inode ty s = Ok (i, s') -> in_u 64 i;
  bs_read i s b s' : im_read_file i s = Ok (Some b, s') -> short b;
  bs_getattr i s a s' : im_getattr i s = Ok (Some a, s') -> attr_valid a }.

Definition small_data (data : gmap Z bytes) (attrs : gmap Z attr) : Prop :=
  map_Forall (fun _ b => short b) data /\ map_Forall (fun _ a => attr_valid a) attrs.

Lemma zero_attr_valid : attr_valid zero_attr.
Proof. unfold attr_valid, zero_attr, in_u; cbn; lia. Qed.

Lemma short_nil : short [].
Proof. unfold short; cbn; lia. Qed.

Lemma small_insert data attrs id b a : small_data data attrs -> short b -> attr_valid a ->
  small_data (<[id := b]> data) (<[id := a]> attrs).
Proof. intros [Hd Ha] Hb Hv. split; by apply map_Forall_insert_2. Qed.

Lemma small_delete data attrs id : small_data data attrs -> small_data (delete id data) (delete id attrs).
Proof. intros [Hd Ha]. split; by apply map_Forall_delete. Qed.

Section bounded.
Context {S : Type} `{BoundedStore S}.

Definition small_srv (s : @extent_server S) : Prop := small_data (es_data s) (es_attr s).
Definition small_clt (k : extent_client) : Prop := small_data (ec_data k) (ec_attr k).

Lemma small_data_of s id : small_srv s -> short (data_of s id).
Proof.
  intros [Hd _]. unfold data_of. destruct (es_data s !! id) eqn:E; [by apply (Hd id) | apply short_nil].
Qed.
Lemma small_attr_of s id : small_srv s -> attr_valid (attr_of s id).
Proof.
  intros [_ Ha]. unfold attr_of. destruct (es_attr s !! id) eqn:E; [by apply (Ha id) | apply zero_attr_valid].
Qed.

(** [m] keeps the caches of the server small, and its result satisfies [P]. *)
Definition keeps_small {A} (P : A -> Prop) (m : M (@extent_server S) A) : Prop :=
  forall s a s', small_srv s -> m s = Ok (a, s') -> P a /\ small_srv s'.

Lemma ks_ret {A} (P : A -> Prop) a : P a -> keeps_small P (mret a).
Proof. by intros Ha s ? ? Hs [= <- <-]. Qed.
Lemma ks_crash {A} (P : A -> Prop) f : keeps_small P (crash f).
Proof. by intros s a s' _ E. Qed.
Lemma ks_bind {A B} (P : A -> Prop) (Q : B -> Prop) m k :
  keeps_small P m -> (forall a, P a -> keeps_small Q (k a)) -> keeps_small Q (m ≫= k).
Proof.
  intros Hm Hk s b s' Hs E. apply bind_inv in E as (a & s1 & E1 & E2).
  destruct (Hm s a s1 Hs E1) as [Ha Hs1]. by eapply Hk.
Qed.
Lemma ks_get : keeps_small small_srv getS.
Proof. by intros s a s' Hs [= <- <-]. Qed.
Lemma ks_mod f : (forall s, small_srv s -> small_srv (f s)) -> keeps_small (fun _ => True) (modS f).
Proof. intros Hf s a s' Hs [= <- <-]. auto. Qed.
Lemma ks_call {A} (P : A -> Prop) (m : M S A) : (forall s a s', m s = Ok (a, s') -> P a) ->
  keeps_small P (im_call m).
Proof.
  intros Hm s a s' Hs E. unfold im_call in E. destruct (m (es_im s)) as [[a0 im]|] eqn:Em; [|done].
  injection E as <- <-. split; [by eapply Hm | exact Hs].
Qed.
Lemma ks_register cid id : keeps_small (fun _ => True) (register cid id).
Proof. by apply ks_mod. Qed.
Lemma ks_write id buf : keeps_small (fun _ => True) (write_str id buf).
Proof. by apply ks_call. Qed.

Lemma mask_range id : in_u 64 (mask id).
Proof.
  unfold mask. change 0x7fffffff with (Z.ones 31). rewrite Z.land_ones by lia.
  pose proof (Z.mod_pos_bound id (2 ^ 31) ltac:(lia)). unfold in_u. lia.
Qed.

Notation small_msgs := (Forall (fun m : message => callback_small (snd m))).

Lemma ks_broadcast id rm : in_u 64 id -> keeps_small small_msgs (broadcast id rm).
Proof.
  intros Hi s ms s' Hs [= <- <-]. split; [|done]. apply Forall_fmap, Forall_true. intros cid. cbn.
  destruct rm; [done|]. split_and!; [done | by apply small_attr_of | by apply small_data_of].
Qed.

Lemma ks_update_cache id : keeps_small small_msgs (update_cache id).
Proof.
  unfold update_cache. apply (ks_bind (fun b => short (default [] b))).
  { apply ks_call. intros s [b|] s' E; [by eapply bs_read | apply short_nil]. }
  intros b Hb. apply (ks_bind (fun a => attr_valid (default zero_attr a))).
  { apply ks_call. intros s [a|] s' E; [by eapply bs_getattr | apply zero_attr_valid]. }
  intros a Ha. apply (ks_bind (fun _ => True)); [|intros _ _; apply ks_broadcast, mask_range].
  apply ks_mod. intros s Hs. by apply small_insert.
Qed.

(** *** The handlers *)

Lemma ks_updates parent id cid {B} (k : list message -> B) (Q : B -> Prop) :
  (forall ms, small_msgs ms -> Q (k ms)) ->
  keeps_small Q (m1 ← update_cache parent; m2 ← update_cache id; register cid id ≫= fun _ => mret (k (m1 ++ m2))).
Proof.
  intros HQ. eapply ks_bind; [apply ks_update_cache|]. intros m1 Hm1.
  eapply ks_bind; [apply ks_update_cache|]. intros m2 Hm2.
  eapply ks_bind; [apply ks_register|]. intros _ _. apply ks_ret, HQ. by apply Forall_app.
Qed.

Lemma ks_put cid id buf : keeps_small (fun r => small_msgs (snd r)) (es_put cid id buf).
Proof.
  unfold es_put. eapply ks_bind; [apply ks_write|]. intros _ _.
  eapply ks_bind; [apply ks_update_cache|]. intros m Hm.
  eapply ks_bind; [apply ks_register|]. intros _ _. by apply ks_ret.
Qed.

Lemma ks_create type cid parent name :
  keeps_small (fun r => in_u 64 (snd (fst r)) /\ small_msgs (snd r)) (es_create type cid parent name).
Proof.
  unfold es_create. eapply (ks_bind (in_u 64)); [apply ks_call; intros; by eapply bs_alloc|]. intros id Hid.
  destruct (id =? INODE_NUM); [by apply ks_ret|]. eapply ks_bind; [apply ks_get|]. intros s0 _.
  eapply ks_bind; [apply ks_write|]. intros _ _.
  apply (ks_updates parent id cid (fun ms => (extent_protocol.OK, id, ms))). by intros ms.
Qed.

Lemma ks_symlink cid parent name link :
  keeps_small (fun r => in_u 64 (snd (fst r)) /\ small_msgs (snd r)) (es_createSymLink cid parent name link).
Proof.
  unfold es_createSymLink. eapply (ks_bind (in_u 64)); [apply ks_call; intros; by eapply bs_alloc|]. intros id Hid.
  eapply ks_bind; [apply ks_write|]. intros _ _. eapply ks_bind; [apply ks_get|]. intros s0 _.
  eapply ks_bind; [apply ks_write|]. intros _ _.
  apply (ks_updates parent id cid (fun ms => (extent_protocol.OK, id, ms))). by intros ms.
Qed.

Lemma ks_remove cid parent name id : keeps_small (fun r => small_msgs (snd r)) (es_remove cid parent name id).
Proof.
  unfold es_remove. eapply ks_bind; [by apply (ks_call (fun _ => True))|]. intros _ _.
  eapply ks_bind; [apply ks_get|]. intros s0 _. destruct (erase_entry _ _); [|apply ks_crash].
  eapply ks_bind; [apply ks_write|]. intros _ _. eapply ks_bind; [apply ks_update_cache|]. intros m1 Hm1.
  eapply ks_bind; [apply ks_mod; intros; by apply small_delete|]. intros _ _.
  eapply ks_bind; [apply ks_broadcast, mask_range|]. intros m2 Hm2.
  eapply ks_bind; [apply ks_register|]. intros _ _. apply ks_ret. by apply Forall_app.
Qed.

(** *** The system *)

Record small_sys (y : @esys S) : Prop := {
  ss_srv : small_srv (sy_srv y);
  ss_clt : map_Forall (fun _ k => small_clt k) (sy_cl y) }.

Lemma small_callback cb k : callback_small cb -> small_clt k -> small_clt (run_callback cb k).
Proof.
  destruct cb as [id|id a b]; intros Hcb Hk; [by apply small_delete|].
  destruct Hcb as (_ & Ha & Hb). by apply small_insert.
Qed.

Lemma small_deliver ms : forall cl, small_msgs ms -> map_Forall (fun _ k => small_clt k) cl ->
  map_Forall (fun _ k => small_clt k) (deliver ms cl).
Proof.
  induction ms as [|m ms IH]; intros cl Hms Hcl; [done|]. apply Forall_cons in Hms as [Hm Hms].
  cbn. apply IH; [done|]. unfold deliver1. destruct (cl !! fst m) as [k|] eqn:E; [|done].
  apply map_Forall_insert_2; [|done]. by apply small_callback; [|apply (Hcl (fst m))].
Qed.

Lemma small_answer y cid k k' s' : small_sys y -> sy_cl y !! cid = Some k -> small_srv s' -> small_clt k' ->
  small_sys (Esys s' (<[cid := k']> (sy_cl y))).
Proof. intros [Hs Hc] _ Hs' Hk'. split; [done|]. by apply map_Forall_insert_2. Qed.

(** Every operation on small arguments keeps the system small, and so are its result
    and the callbacks it makes. *)
Lemma small_step op y r y' : small_sys y -> eop_small op -> run_eop op y = Some (Ok (r, y')) ->
  small_sys y' /\ eret_small r /\ small_msgs (eop_msgs op y).
Proof.
  intros Hy Hop E. pose proof Hy as [Hs Hc].
  destruct op as [cid eid|cid eid|cid eid buf|cid ty par name|cid par name link|cid eid par name];
    cbn [run_eop eop_msgs] in *; destruct (sy_cl y !! cid) as [k|] eqn:Hk; try done; injection E as E;
    pose proof (Hc _ _ Hk) as Hkk.
  - unfold ec_get, fetch_data, keep in E. destruct (ec_data k !! eid) as [b|] eqn:Eb.
    + injection E as <- <-. split_and!; [done | by apply (proj1 Hkk eid) | done].
    + cbn in E. injection E as <- <-. pose proof (small_data_of _ eid Hs).
      split_and!; [|done|done]. eapply small_answer; try done. split; [by apply map_Forall_insert_2, Hkk | apply Hkk].
  - unfold ec_getattr, fetch_attr, keep in E. destruct (ec_attr k !! eid) as [a|] eqn:Ea.
    + injection E as <- <-. split_and!; [done | by apply (proj2 Hkk eid) | done].
    + cbn in E. injection E as <- <-. pose proof (small_attr_of _ eid Hs).
      split_and!; [|done|done]. eapply small_answer; try done. split; [apply Hkk | by apply map_Forall_insert_2, Hkk].
  - unfold ec_put in E. destruct (es_put cid eid buf (sy_srv y)) as [[[st ms] s']|] eqn:Ep; [|done].
    destruct (ks_put cid eid buf _ _ _ Hs Ep) as [Hms Hs']. destruct (_ =? _); [|done]. injection E as <- <-.
    split_and!; [split; [done | by apply small_deliver] | done | done].
  - unfold ec_create in E. destruct (es_create ty cid par name (sy_srv y)) as [[[[st id] ms] s']|] eqn:Ep; [|done].
    destruct (ks_create ty cid par name _ _ _ Hs Ep) as [[Hid Hms] Hs']. injection E as <- <-.
    split_and!; [split; [done | by apply small_deliver] | done | done].
  - unfold ec_symlink in E. destruct (es_createSymLink cid par name link (sy_srv y)) as [[[[st id] ms] s']|] eqn:Ep; [|done].
    destruct (ks_symlink cid par name link _ _ _ Hs Ep) as [[Hid Hms] Hs']. injection E as <- <-.
    split_and!; [split; [done | by apply small_deliver] | done | done].
  - unfold ec_remove in E. destruct (es_remove cid par name eid (sy_srv y)) as [[[st ms] s']|] eqn:Ep; [|done].
    destruct (ks_remove cid par name eid _ _ _ Hs Ep) as [Hms Hs']. injection E as <- <-.
    split_and!; [split; [done | by apply small_deliver] | done | done].
Qed.

(** ** The direct service with a meter *)

(** The extent service of Extent.v that stops when the calls and callbacks left,
    [snd m], are used up. *)
Definition metered : Type := (@esys S * Z)%type.
Definition metered_op (op : eop) (m : metered) : option (res (eret * metered)) :=
  let n := 1 + Z.of_nat (length (eop_msgs op (fst m))) in
  if snd m <? n then Some (Crash NoFuel) else
  match run_eop op (fst m) with
  | Some (Ok (r, y)) => Some (Ok (r, (y, snd m - n)))
  | Some (Crash f) => Some (Crash f)
  | None => None
  end.
#[export] Instance metered_service : ExtentService metered := {|
  ext_op := metered_op;
  ext_join cid _ _ m := Ok (Esys (sy_srv (fst m)) (<[cid := new_extent_client]> (sy_cl (fst m))), snd m) |}.

Lemma metered_inv op m r m' : metered_op op m = Some (Ok (r, m')) ->
  run_eop op (fst m) = Some (Ok (r, fst m')) /\
  snd m = snd m' + 1 + Z.of_nat (length (eop_msgs op (fst m))) /\ 0 <= snd m'.
Proof.
  unfold metered_op. destruct (Z.ltb_spec (snd m) (1 + Z.of_nat (length (eop_msgs op (fst m))))); [done|].
  destruct (run_eop op (fst m)) as [[[r0 y]|]|]; try done. intros [= <- <-]. cbn. split; [done | lia].
Qed.

Lemma small_join cid y : small_sys y -> small_sys (Esys (sy_srv y) (<[cid := new_extent_client]> (sy_cl y))).
Proof. intros [Hs Hc]. split; [done|]. by apply map_Forall_insert_2. Qed.

Lemma small_start im : small_sys (Esys (new_extent_server im) ∅).
Proof. done. Qed.
End bounded.

(** ** The file system over RPC *)

Section over_rpc.
Context `{Mem} {S : Type} `{BoundedStore S}.
Context (c : conn) (rnd : bytes -> Z) (junk : Z).
Context (Hc : cn_dead c = false) (Hrnd : forall cid, 0 < rnd cid < 2 ^ 31) (Hjunk : in_s 32 junk).
Context (fuse_dirent_size : nat -> nat) (fuse_add_dirent : bytes -> stat -> Z -> bytes).
Notation run := (fs_run fuse_dirent_size fuse_add_dirent).

(** The service of ExtentRpc.v. *)
Instance rpc_service : ExtentService (rsys (S := S)) := {|
  ext_op := run_rop c junk;
  ext_join := join c junk |}.

Definition rpc_rel (C : gset bytes) (U : gset Z) (x : rsys (S := S)) (m : metered) : Prop :=
  sim c rnd junk (snd m) U x (fst m) /\ 0 <= snd m /\ small_sys (fst m) /\
  forall cid, is_Some (sy_cl (fst m) !! cid) -> cid ∈ C.

Lemma run_eop_dom op y r y' : run_eop op y = Some (Ok (r, y')) -> dom (sy_cl (S := S) y') = dom (sy_cl y).
Proof.
  destruct op as [cid eid|cid eid|cid eid buf|cid ty par name|cid par name link|cid eid par name];
    cbn [run_eop]; destruct (sy_cl y !! cid) as [k|] eqn:Hk; try done; intros [= E].
  - unfold ec_get, fetch_data, keep in E. destruct (ec_data k !! eid); [by simplify_eq|]. injection E as <- <-. cbn.
    apply dom_insert_lookup_L. by eexists.
  - unfold ec_getattr, fetch_attr, keep in E. destruct (ec_attr k !! eid); [by simplify_eq|]. injection E as <- <-. cbn.
    apply dom_insert_lookup_L. by eexists.
  - unfold ec_put in E. destruct (es_put _ _ _ _) as [[[st ms] s']|]; [|done]. destruct (_ =? _); [|done].
    simplify_eq. apply dom_deliver.
  - unfold ec_create in E. destruct (es_create _ _ _ _ _) as [[[[st id] ms] s']|]; [|done]. simplify_eq. apply dom_deliver.
  - unfold ec_symlink in E. destruct (es_createSymLink _ _ _ _ _) as [[[[st id] ms] s']|]; [|done]. simplify_eq. apply dom_deliver.
  - unfold ec_remove in E. destruct (es_remove _ _ _ _ _) as [[[st ms] s']|]; [|done]. simplify_eq. apply dom_deliver.
Qed.

Lemma rpc_step_rel C U op x m r m' : rpc_rel C U x m -> eop_small op -> ext_op op m = Some (Ok (r, m')) ->
  eret_small r /\ exists x', ext_op op x = Some (Ok (r, x')) /\ rpc_rel C U x' m'.
Proof.
  intros (Hx & Hn & Hs & HC) Hop E. apply metered_inv in E as (E & Hm & Hm').
  destruct (small_step op _ _ _ Hs Hop E) as (Hs' & Hr & Hms). split; [done|].
  rewrite Hm in Hx.
  destruct (run_rop_sim c rnd junk Hc Hrnd Hjunk _ _ _ _ _ _ _ Hx Hm' Hop E Hr Hms) as (x' & Ex & Hx').
  exists x'. split; [exact Ex|]. split_and!; try done.
  intros cid Hcid. apply HC. apply elem_of_dom. rewrite <- (run_eop_dom _ _ _ _ E). by apply elem_of_dom.
Qed.

Lemma rpc_join_rel C U cid n1 n2 x m m' : rpc_rel C U x m -> short cid -> cid ∉ C -> 0 < n1 < 2 ^ 31 -> n1 ∉ U ->
  0 <= n2 < 2 ^ 31 -> ext_join cid n1 n2 m = Ok m' ->
  exists x', ext_join cid n1 n2 x = Ok x' /\ rpc_rel ({[cid]} ∪ C) ({[n1]} ∪ U) x' m'.
Proof.
  intros (Hx & Hn & Hs & HC) _ Hcid Hn1 Hu Hn2 [= <-].
  assert (sy_cl (fst m) !! cid = None) as Hno.
  { apply eq_None_not_Some. intros Hsome. by apply Hcid, HC. }
  destruct (join_sim c rnd junk Hc _ _ _ _ cid n1 n2 Hx Hn1 Hu Hn2 Hno) as (x' & Ex & Hx').
  exists x'. split; [exact Ex|]. split_and!; [exact Hx' | done | by apply small_join |].
  intros cid'. cbn. rewrite lookup_insert_is_Some, elem_of_union, elem_of_singleton.
  intros [->|[_ Hs']]; [by left | right; by apply HC].
Qed.

(** The meter changes nothing else. *)
Definition direct_rel (C : gset bytes) (U : gset Z) (x : @esys S) (m : metered) : Prop :=
  x = fst m /\ small_sys (fst m).

Lemma direct_step_rel C U op x m r m' : direct_rel C U x m -> eop_small op -> ext_op op m = Some (Ok (r, m')) ->
  eret_small r /\ exists x', ext_op op x = Some (Ok (r, x')) /\ direct_rel C U x' m'.
Proof.
  intros [-> Hs] Hop Em. apply metered_inv in Em as (Em & _ & _).
  destruct (small_step op _ _ _ Hs Hop Em) as (Hs' & Hr & _). split; [done|]. by exists (fst m').
Qed.

Lemma direct_join_rel C U cid n1 n2 x m m' : direct_rel C U x m -> short cid -> cid ∉ C -> 0 < n1 < 2 ^ 31 ->
  n1 ∉ U -> 0 <= n2 < 2 ^ 31 -> ext_join cid n1 n2 m = Ok m' ->
  exists x', ext_join cid n1 n2 x = Ok x' /\ direct_rel ({[cid]} ∪ C) ({[n1]} ∪ U) x' m'.
Proof.
  intros [-> Hs] _ _ _ _ _ [= <-]. eexists. split; [reflexivity|]. split; [done | by apply small_join].
Qed.

Lemma metered_direct im k k' tr replies y locks : admissible ∅ ∅ tr ->
  run tr (yfs.Ysys ((Esys (new_extent_server im) ∅, k) : metered) []) = Ok (replies, yfs.Ysys (y, k') locks) ->
  run tr (yfs.Ysys (Esys (new_extent_server im) ∅) []) = Ok (replies, yfs.Ysys y locks).
Proof.
  intros Ha E.
  assert (yrel (direct_rel ∅ ∅) (yfs.Ysys (Esys (new_extent_server im) ∅) [])
    (yfs.Ysys ((Esys (new_extent_server im) ∅, k) : metered) [])) as Hrel by (by split).
  destruct (lifts_run direct_rel direct_step_rel direct_join_rel fuse_dirent_size fuse_add_dirent tr ∅ ∅ _ _ _ _
    Ha Hrel E) as (C' & U' & [x lx] & Ex & [[Hx _] Hl]).
  cbn in Hx, Hl. by subst.
Qed.

(** C9. The file system over RPC gives the kernel the replies of the file system
    with direct calls: for every sequence of mounts and FUSE requests to any number
    of processes, if the run on the extent server called directly makes at most [k]
    calls and callbacks and ends with some replies, then the run in which every call
    and every callback goes through marshalling, the at-most-once protocol and
    [dispatch] ends with the same replies, the same lock calls, the same server and
    the same caches.  The processes have different identities and numbers, names
    and data fit messages, and [k] is below 2^31 - 2. *)
Theorem fuse_over_rpc (im : S) (nonce count k k' : Z) (tr : list fs_event) (replies : list reply) (y : esys)
    (locks : list lock_call) :
  0 <= nonce < 2 ^ 31 -> 0 <= k -> k + 2 < 2 ^ 31 -> admissible ∅ ∅ tr ->
  run tr (yfs.Ysys ((Esys (new_extent_server im) ∅, k) : metered) []) = Ok (replies, yfs.Ysys (y, k') locks) ->
  run tr (yfs.Ysys (Esys (new_extent_server im) ∅) []) = Ok (replies, yfs.Ysys y locks) /\
  exists srv x, extent_smain c rnd junk nonce count im = Ok srv /\
    run tr (yfs.Ysys (Rsys srv ∅) []) = Ok (replies, yfs.Ysys x locks) /\
    sa_es (app (rs_srv x)) = sy_srv y /\ app <$> peers x = sy_cl y.
Proof.
  intros Hn Hk0 Hk Ha E. split; [by eapply metered_direct|].
  destruct (extent_smain_ok c rnd junk k nonce count im Hn) as (srv & Es & Hsim); [lia|].
  assert (yrel (rpc_rel ∅ ∅) (yfs.Ysys (Rsys srv ∅) [])
    (yfs.Ysys ((Esys (new_extent_server im) ∅, k) : metered) [])) as Hrel.
  { split; [|done]. split; [exact Hsim|]. split; [exact Hk0|]. split; [apply small_start|]. by intros cid [? ?]. }
  destruct (lifts_run rpc_rel rpc_step_rel rpc_join_rel fuse_dirent_size fuse_add_dirent tr ∅ ∅ _ _ _ _ Ha Hrel E)
    as (C' & U' & [x lx] & Ex & [Hx Hl]).
  cbn in Hl. subst lx. exists srv, x. split; [done|]. split; [exact Ex|]. destruct Hx as [Hx _]. split; apply Hx.
Qed.
End over_rpc.

(** ** The inode layer is bounded *)

Section inodes.
Context `{Env}.

Lemma alloc_inode_range ty n : forall i s i' s', 0 <= i -> i + Z.of_nat n < 2 ^ 64 ->
  alloc_inode_from ty n i s = Ok (i', s') -> in_u 64 i'.
Proof.
  unfold in_u. induction n as [|n IH]; intros i s i' s' Hi Hn E; cbn [alloc_inode_from] in E.
  { injection E as <- <-. lia. }
  inv_bind E. destruct a as [t|]; [|done]. destruct (i_type t =? 0).
  - inv_bind E. injection E as <- _. lia.
  - eapply IH; [| |exact E]; lia.
Qed.

Lemma length_read_blocks ino n : forall i buf out s buf' out' s',
  read_blocks ino n i buf out s = Ok ((buf', out'), s') ->
  Z.of_nat (length out') <= Z.of_nat (length out) + 512 * Z.of_nat n.
Proof.
  induction n as [|n IH]; intros i buf out s buf' out' s' E; cbn [read_blocks] in E.
  { injection E as <- <- <-. lia. }
  inv_bind E. inv_bind E. apply IH in E. rewrite length_app, length_take in E. change BLOCK_SIZE with 512 in E. lia.
Qed.

Lemma read_file_short i s b s' : read_file i s = Ok (Some b, s') -> short b.
Proof.
  unfold read_file, short. intros E. apply bind_inv in E as (buf0 & s0 & _ & E).
  apply bind_inv in E as ([ino|] & s1 & _ & E); [|done]. apply bind_inv in E as ([] & s2 & Hv & E).
  unfold verify in Hv. destruct (_ <=? _) eqn:Hle in Hv; [|done]. apply Z.leb_le in Hle. clear Hv.
  apply bind_inv in E as ([buf out] & s3 & Hrd & E).
  set (size := s32 (i_size ino)) in *. apply length_read_blocks in Hrd. cbn [length] in Hrd.
  assert (0 <= size <= 116736) as Hsz.
  { pose proof (to_signed_range 32 (i_size ino) ltac:(lia)) as Hr. fold (s32 (i_size ino)) in Hr.
    change (MAXFILE * BLOCK_SIZE) with 116736 in *. unfold u32 in *. fold size in Hr. unfold in_s in Hr.
    destruct (Z.le_gt_cases 0 size); [rewrite Z.mod_small in * by lia; lia|].
    assert (size mod 2 ^ 32 = size + 2 ^ 32) as Hm by (symmetry; apply (Z.mod_unique_pos _ _ (-1)); lia). lia. }
  pose proof (Z.quot_rem size 512 ltac:(lia)) as Hqr.
  pose proof (Z.rem_bound_pos size 512 ltac:(lia) ltac:(lia)) as Hrb.
  change BLOCK_SIZE with 512 in *. destruct (Z.rem size 512 =? 0).
  - injection E as <- <-. lia.
  - inv_bind E. inv_bind E. injection E as <- <-. rewrite length_app, length_take. lia.
Qed.

Lemma getattr_valid i s a s' : Inode.getattr i s = Ok (Some a, s') -> attr_valid a.
Proof.
  unfold Inode.getattr. intros E. inv_bind E. destruct a0 as [ino|]; [|done]. injection E as <- <-.
  unfold get_inode in Hstep. destruct (_ || _); [done|]. do 3 inv_bind Hstep. injection Hstep as <- _.
  split; [apply Z.mod_pos_bound; lia|]. split_and!; apply word_at_range.
Qed.

#[export] Instance inode_store_bounded : BoundedStore bmgr := {|
  bs_alloc ty s i s' := alloc_inode_range ty (Z.to_nat INODE_NUM) 1 s i s' ltac:(lia) ltac:(done);
  bs_read := read_file_short;
  bs_getattr := getattr_valid |}.
End inodes.

(** ** A mount erases the root directory *)

Section remount.
Context {S : Type} `{FileStoreOk S}.

(** The constructor of [yfs_client] writes the root directory whatever it holds: a
    process that starts empties it for all. *)
Lemma mount_empties_root cid n1 n2 (y : @yfs.ysys (@esys S)) cid0 :
  yok cid0 y -> sy_cl (yfs.y_es y) !! cid = None -> 1 <= st_free (es_im (srv y)) ->
  exists y', mount cid n1 n2 y = Ok (tt, y') /\ data_of (srv y') 1 = [] /\
    snd (st_file (es_im (srv y')) 1) = [].
Proof.
  intros [Hinv Hcoh _] Hcid Hfree.
  set (e := Esys (sy_srv (yfs.y_es y)) (<[cid := new_extent_client]> (sy_cl (yfs.y_es y)))).
  set (y1 := yfs.Ysys e (yfs.y_locks y ++ [LAcquire 1])).
  assert (yok cid y1) as Hy1.
  { split; [done| |cbn; rewrite lookup_insert_eq; eauto].
    intros cid' k'. cbn. rewrite lookup_insert_Some. intros [[_ <-]|[_ Hk']]; [done | by apply Hcoh]. }
  destruct (run_put_call cid y1 1 [] Hy1) as (y2 & E & _ & Hd & Hf & _);
    [split; done | done | exact Hfree |].
  change (mount cid n1 n2 y) with ((yfs.put_call cid 1 [] ≫= fun _ => yfs.release 1) y1).
  rewrite (bind_ok _ _ _ _ _ E).
  eexists. split; [reflexivity|]. split; [exact Hd|]. unfold srv in *. cbn. by rewrite Hf.
Qed.
End remount.

(** ** Two processes and a file *)

Section sample.
#[local] Existing Instance zero_mem.
#[local] Existing Instance zero_env.

(** A process makes the file [f] and writes it, a second one starts, reads the file by
    its number and looks its name up. *)
Definition sample_requests : list fs_event :=
  [Mount cid_a 5 9; Req cid_a (FMknod 1 (str "f")); Req cid_a (FWrite 2 (str "hi") 0);
   Mount cid_b 6 8; Req cid_b (FRead 2 10 0); Req cid_b (FLookup 1 (str "f"));
   Req cid_a (FLookup 1 (str "f"))].

Definition sample_size (n : nat) : nat := n.
Definition sample_add (name : bytes) (st : stat) (off : Z) : bytes := name.

(** The parts of a result. *)
Definition is_ok (r : res (list reply * @yfs.ysys (@metered bmgr))) : bool :=
  match r with Ok _ => true | Crash _ => false end.
Definition replies_of (r : res (list reply * @yfs.ysys (@metered bmgr))) : list reply :=
  match r with Ok (l, _) => l | Crash _ => [] end.
Definition end_of (r : res (list reply * @yfs.ysys (@metered bmgr))) : @yfs.ysys (@metered bmgr) :=
  match r with
  | Ok (_, y) => y
  | Crash _ => yfs.Ysys ((Esys (new_extent_server one_file_fs) ∅, 0) : metered) []
  end.

Lemma result_parts r : is_ok r = true ->
  r = Ok (replies_of r,
          yfs.Ysys ((fst (yfs.y_es (end_of r)), snd (yfs.y_es (end_of r))) : metered) (yfs.y_locks (end_of r))).
Proof. by destruct r as [[? [[? ?] ?]]|]. Qed.

Notation sample_result := (fs_run sample_size sample_add sample_requests
  (yfs.Ysys ((Esys (new_extent_server one_file_fs) ∅, 1000) : metered) [])).

Lemma sample_ok : is_ok sample_result = true.
Proof. vm_compute. reflexivity. Qed.

(** What the second process does to the names of the first. *)
Lemma sample_replies_are : exists e, replies_of sample_result =
  [ReplyEntry e; ReplyWrite 2; ReplyBuf (str "hi"); ReplyErr errno.ENOENT; ReplyErr errno.ENOENT].
Proof. eexists. vm_compute. reflexivity. Qed.

Notation sample_replies := (replies_of sample_result).
Notation sample_esys := (fst (yfs.y_es (end_of sample_result))).
Notation sample_locks := (yfs.y_locks (end_of sample_result)).

Lemma fuse_over_rpc_witness :
  fs_run sample_size sample_add sample_requests
    (yfs.Ysys (Esys (new_extent_server one_file_fs) ∅) []) =
    Ok (sample_replies, yfs.Ysys sample_esys sample_locks) /\
  exists srv x, extent_smain sample_conn (fun _ => 77) 0 33 0 one_file_fs = Ok srv /\
    fs_run (H := rpc_service sample_conn 0) sample_size sample_add sample_requests (yfs.Ysys (Rsys srv ∅) []) =
      Ok (sample_replies, yfs.Ysys x sample_locks) /\
    sa_es (app (rs_srv x)) = sy_srv sample_esys /\
    app <$> peers x = sy_cl sample_esys.
Proof.
  refine (fuse_over_rpc sample_conn (fun _ => 77) 0 eq_refl _ _ sample_size sample_add one_file_fs 33 0 1000
    (snd (yfs.y_es (end_of sample_result))) sample_requests sample_replies sample_esys sample_locks
    _ _ _ _ (result_parts _ sample_ok)).
  - intros _. lia.
  - unfold in_s. lia.
  - lia.
  - lia.
  - lia.
  - cbn [admissible sample_requests req_small]. unfold short, in_u.
    repeat match goal with |- _ /\ _ => split end; try (cbn; lia); try (cbn; set_solver); done.
Defined.
End sample.
