(* ===== verification/Locks.v ===== *)
(** * The lock service

    Classes [lock_server] (src/lab41/lock_server.cc), [lock_server_cache]
    (src/lab41/lock_server_cache.cc) and [lock_client_cache]
    (src/lab41/lock_client_cache.cc), for one lock: the code treats each lock
    number by its own record.  Every definition is one critical section of the
    mutex of its class; a thread that leaves the mutex (a condition wait, a
    remote call) keeps its place in a program counter. *)

From S2P Require Import Prelude Extent.

Module lock_protocol.
Definition OK : Z := 0.
Definition RETRY : Z := 1.
Definition IOERR : Z := 4.
End lock_protocol.

(** ** lock_server: a monitor with one condition variable per lock *)

Module basic.
(** Threads in [acquire] that wait on the condition variable, woken or not, and
    the threads whose call has returned and that have not released. *)
Record lock_server := LockServer {
  locked : bool;
  known : bool;
  waiting : list (Z * bool);
  holders : list Z }.

Definition new_lock_server : lock_server := LockServer false false [] [].

(** [pthread_cond_signal] wakes one waiting thread, here the longest waiting. *)
Fixpoint signal (w : list (Z * bool)) : list (Z * bool) :=
  match w with
  | [] => []
  | (t, true) :: w' => (t, true) :: signal w'
  | (t, false) :: w' => (t, true) :: w'
  end.

(** [acquire] up to its first wait or its end. *)
Definition acquire (t : Z) (s : lock_server) : lock_server :=
  if negb (known s) then LockServer true true (waiting s) (t :: holders s)
  else if locked s then LockServer (locked s) (known s) (waiting s ++ [(t, false)]) (holders s)
  else LockServer true (known s) (waiting s) (t :: holders s).

(** A thread leaves [pthread_cond_wait] and tests the condition again. *)
Definition resume (t : Z) (s : lock_server) : lock_server :=
  let rest := filter (fun p => p.1 <> t) (waiting s) in
  if locked s then LockServer (locked s) (known s) (rest ++ [(t, false)]) (holders s)
  else LockServer true (known s) rest (t :: holders s).

Definition release (t : Z) (s : lock_server) : lock_server :=
  LockServer false true (signal (waiting s)) (filter (fun u => u <> t) (holders s)).

(** What may happen next: a call of a thread that is not in one, the return of a
    wait (also without a signal), a release by a holder. *)
Inductive step : lock_server -> lock_server -> Prop :=
  | step_acquire t s : t ∉ (waiting s).*1 -> t ∉ holders s -> step s (acquire t s)
  | step_resume t b s : (t, b) ∈ waiting s -> step s (resume t s)
  | step_release t s : t ∈ holders s -> step s (release t s).
End basic.

(** ** lock_server_cache *)

Inductive callback_t := Revoke | Retry.

Module server.
Inductive State := NONE | LOCKED | REVOKING | RETRYING.

(** [lockinfo]: [owner] and [retrying_cid] are empty strings when there is none. *)
Record lockinfo := Lockinfo {
  owner : bytes; retrying_cid : bytes; waiting_cids : gset bytes; stat : State }.

Definition new_lockinfo : lockinfo := Lockinfo [] [] ∅ NONE.

(** [*waiting_cids.begin()] *)
Definition first_waiting (w : gset bytes) : option bytes :=
  head (merge_sort (fun a b => bytes_le a b) (elements w)).

(** The status, the callbacks made after the mutex is released, the new record. *)
Definition acquire (id : bytes) (i : lockinfo) : res (Z * list (bytes * callback_t) * lockinfo) :=
  match stat i with
  | NONE =>
      if bool_decide (owner i = [])
      then Ok (lock_protocol.OK, [], Lockinfo id (retrying_cid i) (waiting_cids i) LOCKED)
      else Crash AssertFail
  | LOCKED =>
      if bool_decide (id ∉ waiting_cids i /\ owner i <> [] /\ owner i <> id)
      then Ok (lock_protocol.RETRY, [(owner i, Revoke)],
               Lockinfo (owner i) (retrying_cid i) ({[id]} ∪ waiting_cids i) REVOKING)
      else Crash AssertFail
  | REVOKING =>
      if bool_decide (id ∉ waiting_cids i)
      then Ok (lock_protocol.RETRY, [],
               Lockinfo (owner i) (retrying_cid i) ({[id]} ∪ waiting_cids i) REVOKING)
      else Crash AssertFail
  | RETRYING =>
      if bool_decide (id = retrying_cid i) then
        if bool_decide (id ∉ waiting_cids i) then
          if bool_decide (waiting_cids i = ∅)
          then Ok (lock_protocol.OK, [], Lockinfo id [] (waiting_cids i) LOCKED)
          else Ok (lock_protocol.OK, [(id, Revoke)], Lockinfo id [] (waiting_cids i) REVOKING)
        else Crash AssertFail
      else
        if bool_decide (id ∉ waiting_cids i)
        then Ok (lock_protocol.RETRY, [],
                 Lockinfo (owner i) (retrying_cid i) ({[id]} ∪ waiting_cids i) RETRYING)
        else Crash AssertFail
  end.

Definition release (id : bytes) (i : lockinfo) : res (Z * list (bytes * callback_t) * lockinfo) :=
  match stat i with
  | REVOKING =>
      if bool_decide (owner i = id) then
        match first_waiting (waiting_cids i) with
        | None => Crash OutOfBounds
        | Some nextid =>
            Ok (lock_protocol.OK, [(nextid, Retry)],
                Lockinfo [] nextid (waiting_cids i ∖ {[nextid]}) RETRYING)
        end
      else Crash AssertFail
  | _ => Crash AssertFail
  end.
End server.

(** ** lock_client_cache *)

Module client.
Inductive Message := EMPTY | RETYR | REVOEK.
Inductive State := NONE | FREE | LOCKED | ACQUIRING | RELEASEING.

#[export] Instance State_eq_dec : EqDecision State.
Proof. solve_decision. Defined.
#[export] Instance Message_eq_dec : EqDecision Message.
Proof. solve_decision. Defined.

(** A remote call in progress: not yet handled by the server, or answered. *)
Inductive rpc := Req | Rep (ret : Z).

(** Where a thread of the list [threads] is: waiting on its condition variable in
    the first or in the second branch of [acquire] or in [wait_lock] (with
    whether it was signalled), in the remote [acquire], holding the lock after
    [acquire] returned, or in the remote [release]. *)
Inductive pc :=
  | WaitFirst (sig : bool)
  | WaitQueue (sig : bool)
  | WaitRetry (sig : bool)
  | Calling (r : rpc)
  | Holding
  | Releasing (r : rpc)
  | Failed.

(** [handlers]: the remote releases in progress in [revoke_handler]. *)
Record lockinfo := Lockinfo {
  stat : State; msg : Message; threads : list (Z * pc); handlers : list rpc }.

Definition new_lockinfo : lockinfo := Lockinfo NONE EMPTY [] [].

Definition set_pc (t : Z) (p : pc) (l : list (Z * pc)) : list (Z * pc) :=
  (fun q => if bool_decide (q.1 = t) then (t, p) else q) <$> l.

(** [pthread_cond_signal(&threads.front()->cv)]: lost when the thread does not
    wait; no thread is a null dereference. *)
Definition signal_pc (p : pc) : pc :=
  match p with
  | WaitFirst _ => WaitFirst true
  | WaitQueue _ => WaitQueue true
  | WaitRetry _ => WaitRetry true
  | p => p
  end.
Definition signal_front (l : list (Z * pc)) : res (list (Z * pc)) :=
  match l with
  | [] => Crash NullDeref
  | (t, p) :: l' => Ok ((t, signal_pc p) :: l')
  end.

(** [acquire] from its start to its first wait, remote call or return. *)
Definition acquire (t : Z) (k : lockinfo) : lockinfo :=
  match threads k with
  | [] =>
      match stat k with
      | FREE => Lockinfo LOCKED (msg k) [(t, Holding)] (handlers k)
      | NONE => Lockinfo ACQUIRING (msg k) [(t, Calling Req)] (handlers k)
      | st => Lockinfo st (msg k) [(t, WaitFirst false)] (handlers k)
      end
  | l => Lockinfo (stat k) (msg k) (l ++ [(t, WaitQueue false)]) (handlers k)
  end.

(** The top of the loop of [wait_lock]. *)
Definition wait_loop (t : Z) (k : lockinfo) : res lockinfo :=
  if bool_decide (stat k = ACQUIRING)
  then Ok (Lockinfo (stat k) (msg k) (set_pc t (Calling Req) (threads k)) (handlers k))
  else Crash AssertFail.

(** A thread goes on after [pthread_cond_wait]. *)
Definition resume (t : Z) (p : pc) (k : lockinfo) : res lockinfo :=
  match p with
  | WaitFirst _ => wait_loop t (Lockinfo ACQUIRING (msg k) (threads k) (handlers k))
  | WaitQueue _ =>
      match stat k with
      | FREE | LOCKED => Ok (Lockinfo LOCKED (msg k) (set_pc t Holding (threads k)) (handlers k))
      | NONE => wait_loop t (Lockinfo ACQUIRING (msg k) (threads k) (handlers k))
      | st => Ok (Lockinfo st (msg k) (set_pc t Failed (threads k)) (handlers k))
      end
  | WaitRetry _ => wait_loop t (Lockinfo (stat k) EMPTY (threads k) (handlers k))
  | _ => Ok k
  end.

(** The remote [acquire] returned [ret]. *)
Definition acquired (t : Z) (ret : Z) (k : lockinfo) : res lockinfo :=
  if ret =? lock_protocol.OK
  then Ok (Lockinfo LOCKED (msg k) (set_pc t Holding (threads k)) (handlers k))
  else if bool_decide (msg k = EMPTY)
  then Ok (Lockinfo (stat k) (msg k) (set_pc t (WaitRetry false) (threads k)) (handlers k))
  else wait_loop t (Lockinfo (stat k) EMPTY (threads k) (handlers k)).

(** The end of [release]: the first thread leaves the list, the next is woken. *)
Definition leave (revoked : bool) (k : lockinfo) : res lockinfo :=
  match threads k with
  | [] => Crash NullDeref
  | _ :: l =>
      match l with
      | [] => Ok (Lockinfo (stat k) (msg k) [] (handlers k))
      | _ => match signal_front l with
             | Ok l' => Ok (Lockinfo (if revoked then stat k else LOCKED) (msg k) l' (handlers k))
             | Crash f => Crash f
             end
      end
  end.

Definition release (t : Z) (k : lockinfo) : res lockinfo :=
  if bool_decide (msg k = REVOEK)
  then Ok (Lockinfo RELEASEING (msg k) (set_pc t (Releasing Req) (threads k)) (handlers k))
  else leave false (Lockinfo FREE (msg k) (threads k) (handlers k)).

(** The remote [release] in [release] returned. *)
Definition released (k : lockinfo) : res lockinfo :=
  leave true (Lockinfo NONE EMPTY (threads k) (handlers k)).

Definition revoke_handler (k : lockinfo) : lockinfo :=
  if bool_decide (stat k = FREE)
  then Lockinfo RELEASEING (msg k) (threads k) (Req :: handlers k)
  else Lockinfo (stat k) REVOEK (threads k) (handlers k).

(** The remote [release] in [revoke_handler], the [i]-th, returned. *)
Definition revoke_done (i : nat) (k : lockinfo) : res lockinfo :=
  let hs := delete i (handlers k) in
  match threads k with
  | [] => Ok (Lockinfo NONE (msg k) [] hs)
  | l => match signal_front l with
         | Ok l' => Ok (Lockinfo NONE (msg k) l' hs)
         | Crash f => Crash f
         end
  end.

Definition retry_handler (k : lockinfo) : res lockinfo :=
  match signal_front (threads k) with
  | Ok l => Ok (Lockinfo (stat k) RETYR l (handlers k))
  | Crash f => Crash f
  end.
End client.
