(* ===== verification/LockSystem.v ===== *)
(** * The caching lock service as a whole

    One [lock_server_cache] and any number of [lock_client_cache]s (Locks.v) for
    one lock, with the remote calls between them.  Calls are reliable (Rpc
    files), but a call in progress and its answer may stay in transit for any
    time and overtake each other.  The theorems are about runs in which
    [pthread_cond_wait] returns to the client's threads only after a signal: at most
    one thread of all clients holds the lock, no assertion of the server or the
    clients can fail, and nobody is stuck.  POSIX lets it return without one, the
    event [Spurious]; the client does not test again, and all three fail
    ([spurious_wakeup_breaks_exclusion], [spurious_wakeup_faults],
    [spurious_wakeup_strands]).  The simple server of lock_server.cc excludes and
    wakes its threads also with spurious wake-ups. *)

From S2P Require Import Prelude Extent Locks.

(** ** The system *)

Record lsys := Lsys {
  l_srv : server.lockinfo;
  l_cl : gmap bytes client.lockinfo;
  l_pend : list (bytes * callback_t) }.

Definition cl (s : lsys) (c : bytes) : client.lockinfo := default client.new_lockinfo (l_cl s !! c).

Definition new_lsys : lsys := Lsys server.new_lockinfo ∅ [].

Definition set_cl (c : bytes) (k : client.lockinfo) (s : lsys) : lsys :=
  Lsys (l_srv s) (<[c := k]> (l_cl s)) (l_pend s).

(** The program counter of thread [t] of client [c]. *)
Fixpoint find_pc (l : list (Z * client.pc)) (t : Z) : option client.pc :=
  match l with
  | [] => None
  | (u, p) :: l' => if bool_decide (u = t) then Some p else find_pc l' t
  end.
Definition pc_of (k : client.lockinfo) (t : Z) : option client.pc := find_pc (client.threads k) t.

Definition with_pc (k : client.lockinfo) (t : Z) (p : client.pc) : client.lockinfo :=
  client.Lockinfo (client.stat k) (client.msg k) (client.set_pc t p (client.threads k))
    (client.handlers k).
Definition with_handler (k : client.lockinfo) (i : nat) (r : client.rpc) : client.lockinfo :=
  client.Lockinfo (client.stat k) (client.msg k) (client.threads k) (<[i := r]> (client.handlers k)).

Definition lift (s : lsys) (c : bytes) (r : res client.lockinfo) : res lsys :=
  match r with Ok k => Ok (set_cl c k s) | Crash f => Crash f end.

(** The events, each the run of one critical section.  A thread leaves
    [pthread_cond_wait] because it was signalled ([Resume]) or for no reason
    ([Spurious]).  Client identifiers are [host:port] strings, never empty. *)
Inductive event :=
  | Acquire (c : bytes) (t : Z)
  | Resume (c : bytes) (t : Z)
  | Spurious (c : bytes) (t : Z)
  | SrvAcquire (c : bytes) (t : Z)
  | Acquired (c : bytes) (t : Z)
  | Release (c : bytes) (t : Z)
  | SrvRelease (c : bytes) (t : Z)
  | Released (c : bytes) (t : Z)
  | SrvReleaseH (c : bytes) (i : nat)
  | RevokeDone (c : bytes) (i : nat)
  | Callback (n : nat).

(** [Some r]: the event can happen and has the result [r]. *)
Definition lstep (s : lsys) (e : event) : option (res lsys) :=
  match e with
  | Acquire c t =>
      if bool_decide (c <> [] /\ pc_of (cl s c) t = None)
      then Some (Ok (set_cl c (client.acquire t (cl s c)) s)) else None
  | Resume c t =>
      match pc_of (cl s c) t with
      | Some (client.WaitFirst true as p) | Some (client.WaitQueue true as p)
      | Some (client.WaitRetry true as p) => Some (lift s c (client.resume t p (cl s c)))
      | _ => None
      end
  | Spurious c t =>
      match pc_of (cl s c) t with
      | Some (client.WaitFirst false as p) | Some (client.WaitQueue false as p)
      | Some (client.WaitRetry false as p) => Some (lift s c (client.resume t p (cl s c)))
      | _ => None
      end
  | SrvAcquire c t =>
      match pc_of (cl s c) t with
      | Some (client.Calling client.Req) =>
          Some (match server.acquire c (l_srv s) with
                | Crash f => Crash f
                | Ok (ret, cbs, i) =>
                    Ok (Lsys i (<[c := with_pc (cl s c) t (client.Calling (client.Rep ret))]> (l_cl s))
                          (cbs ++ l_pend s))
                end)
      | _ => None
      end
  | Acquired c t =>
      match pc_of (cl s c) t with
      | Some (client.Calling (client.Rep ret)) => Some (lift s c (client.acquired t ret (cl s c)))
      | _ => None
      end
  | Release c t =>
      match pc_of (cl s c) t with
      | Some client.Holding => Some (lift s c (client.release t (cl s c)))
      | _ => None
      end
  | SrvRelease c t =>
      match pc_of (cl s c) t with
      | Some (client.Releasing client.Req) =>
          Some (match server.release c (l_srv s) with
                | Crash f => Crash f
                | Ok (ret, cbs, i) =>
                    Ok (Lsys i (<[c := with_pc (cl s c) t (client.Releasing (client.Rep ret))]> (l_cl s))
                          (cbs ++ l_pend s))
                end)
      | _ => None
      end
  | Released c t =>
      match pc_of (cl s c) t with
      | Some (client.Releasing (client.Rep _)) => Some (lift s c (client.released (cl s c)))
      | _ => None
      end
  | SrvReleaseH c i =>
      match client.handlers (cl s c) !! i with
      | Some client.Req =>
          Some (match server.release c (l_srv s) with
                | Crash f => Crash f
                | Ok (ret, cbs, inf) =>
                    Ok (Lsys inf (<[c := with_handler (cl s c) i (client.Rep ret)]> (l_cl s))
                          (cbs ++ l_pend s))
                end)
      | _ => None
      end
  | RevokeDone c i =>
      match client.handlers (cl s c) !! i with
      | Some (client.Rep _) => Some (lift s c (client.revoke_done i (cl s c)))
      | _ => None
      end
  | Callback n =>
      match l_pend s !! n with
      | Some (c, cb) =>
          Some (lift (Lsys (l_srv s) (l_cl s) (delete n (l_pend s))) c
                  (match cb with
                   | Revoke => Ok (client.revoke_handler (cl s c))
                   | Retry => client.retry_handler (cl s c)
                   end))
      | None => None
      end
  end.

Definition spurious (e : event) : bool := match e with Spurious _ _ => true | _ => false end.

(** The states reached without spurious wake-ups. *)
Inductive lreach : lsys -> Prop :=
  | lreach_init : lreach new_lsys
  | lreach_step s e s' : lreach s -> spurious e = false -> lstep s e = Some (Ok s') -> lreach s'.

(** ** The states of one client *)

#[local] Arguments client.set_pc : simpl never.

Inductive phase :=
  | PNone | PCall | POk (revoked : bool) | PRetry (retried : bool) | PWait (sig : bool)
  | PFree | PLocked (revoked : bool) | PRelReq | PRelRep.

(** [t] is first, everyone behind it waits for a signal. *)
Definition tail_ok (t : Z) (q : list (Z * client.pc)) : Prop :=
  Forall (fun x => x.2 = client.WaitQueue false) q /\ NoDup (t :: q.*1).

Definition msg_if (b : bool) (m : client.Message) : client.Message := if b then m else client.EMPTY.

(** The threads that came while [revoke_handler] gives the lock back. *)
Definition late_ok (l : list (Z * client.pc)) : Prop :=
  l = [] \/ exists t q, l = (t, client.WaitFirst false) :: q /\ tail_ok t q.

Inductive ph : client.lockinfo -> phase -> Prop :=
  | ph_none : ph (client.Lockinfo client.NONE client.EMPTY [] []) PNone
  | ph_woken t p q : p = client.WaitFirst true \/ p = client.WaitQueue true -> tail_ok t q ->
      ph (client.Lockinfo client.NONE client.EMPTY ((t, p) :: q) []) PNone
  | ph_call t q : tail_ok t q ->
      ph (client.Lockinfo client.ACQUIRING client.EMPTY ((t, client.Calling client.Req) :: q) []) PCall
  | ph_ok t q b : tail_ok t q ->
      ph (client.Lockinfo client.ACQUIRING (msg_if b client.REVOEK)
            ((t, client.Calling (client.Rep lock_protocol.OK)) :: q) []) (POk b)
  | ph_retry t q b : tail_ok t q ->
      ph (client.Lockinfo client.ACQUIRING (msg_if b client.RETYR)
            ((t, client.Calling (client.Rep lock_protocol.RETRY)) :: q) []) (PRetry b)
  | ph_wait t q b : tail_ok t q ->
      ph (client.Lockinfo client.ACQUIRING (msg_if b client.RETYR) ((t, client.WaitRetry b) :: q) []) (PWait b)
  | ph_free : ph (client.Lockinfo client.FREE client.EMPTY [] []) PFree
  | ph_locked t p q b : p = client.Holding \/ p = client.WaitQueue true -> tail_ok t q ->
      ph (client.Lockinfo client.LOCKED (msg_if b client.REVOEK) ((t, p) :: q) []) (PLocked b)
  | ph_relreq t q : tail_ok t q ->
      ph (client.Lockinfo client.RELEASEING client.REVOEK ((t, client.Releasing client.Req) :: q) []) PRelReq
  | ph_relrep t q r : tail_ok t q ->
      ph (client.Lockinfo client.RELEASEING client.REVOEK ((t, client.Releasing (client.Rep r)) :: q) []) PRelRep
  | ph_hreq l : late_ok l ->
      ph (client.Lockinfo client.RELEASEING client.EMPTY l [client.Req]) PRelReq
  | ph_hrep l r : late_ok l ->
      ph (client.Lockinfo client.RELEASEING client.EMPTY l [client.Rep r]) PRelRep.

#[local] Hint Constructors ph : lock.

Lemma find_pc_queue q t p : Forall (fun x => x.2 = client.WaitQueue false) q ->
  find_pc q t = Some p -> p = client.WaitQueue false.
Proof.
  induction 1 as [|[u pu] q Hu _ IH]; simpl in *; [done|]. case_bool_decide; [by intros [= <-]|done].
Qed.

(** The thread an event is about is the first one, unless it waits unsignalled. *)
Lemma find_pc_front t0 p0 q t p : tail_ok t0 q -> find_pc ((t0, p0) :: q) t = Some p ->
  p <> client.WaitQueue false -> t0 = t /\ p0 = p.
Proof.
  intros [Hq _] Hf Hp. simpl in Hf. case_bool_decide; [by simplify_eq|].
  by destruct Hp; eapply find_pc_queue.
Qed.

Lemma set_pc_front t p p' q : tail_ok t q -> client.set_pc t p' ((t, p) :: q) = (t, p') :: q.
Proof.
  intros [_ Hn]. unfold client.set_pc. simpl. rewrite bool_decide_eq_true_2 by done. f_equal.
  apply NoDup_cons in Hn as [Hn _]. induction q as [|[u pu] q IH]; [done|]. simpl in *.
  apply not_elem_of_cons in Hn as [Hne Hn]. rewrite bool_decide_eq_false_2 by done. f_equal. by apply IH.
Qed.

Lemma find_pc_None l t : find_pc l t = None <-> t ∉ l.*1.
Proof.
  induction l as [|[u p] l IH]; simpl; [set_solver|]. case_bool_decide; [set_solver|].
  rewrite IH, not_elem_of_cons. naive_solver.
Qed.

Lemma tail_ok_snoc t0 q t p : tail_ok t0 q -> find_pc ((t0, p) :: q) t = None ->
  tail_ok t0 (q ++ [(t, client.WaitQueue false)]).
Proof.
  intros [Hq Hn] Hf%find_pc_None. simpl in Hf. split.
  - apply Forall_app. split; [done|]. by constructor.
  - rewrite fmap_app, app_comm_cons. apply NoDup_app. split; [done|]. split; [|apply NoDup_singleton].
    intros x Hx ->%list_elem_of_singleton. done.
Qed.

Lemma tail_ok_nil t : tail_ok t [].
Proof. split; [constructor | apply NoDup_singleton]. Qed.

#[local] Hint Resolve tail_ok_nil tail_ok_snoc : lock.

(** What each critical section does to the phase of its client. *)

Lemma ph_acquire k p t : ph k p -> pc_of k t = None ->
  ph (client.acquire t k) p \/ (p = PNone /\ ph (client.acquire t k) PCall) \/
  (p = PFree /\ ph (client.acquire t k) (PLocked false)).
Proof.
  intros Hp Ht. unfold pc_of in Ht. destruct Hp; unfold client.acquire; simpl in *;
    try (left; constructor; by eauto with lock); try (left; econstructor; by eauto with lock).
  - right; left. split; [done|]. constructor. apply tail_ok_nil.
  - right; right. split; [done|]. apply (ph_locked t _ [] false); [by left | apply tail_ok_nil].
  - left. destruct H as [->|(t0 & q & -> & Hq)]; simpl.
    + constructor. right. exists t, []. split; [done | apply tail_ok_nil].
    + constructor. right. eexists t0, _. split; [reflexivity|]. by eapply tail_ok_snoc.
  - left. destruct H as [->|(t0 & q & -> & Hq)]; simpl.
    + constructor. right. exists t, []. split; [done | apply tail_ok_nil].
    + constructor. right. eexists t0, _. split; [reflexivity|]. by eapply tail_ok_snoc.
Qed.

(** The thread of the event is the first of the list. *)
Ltac at_front :=
  match goal with
  | Hf : find_pc ((?t0, ?p0) :: ?q) ?t = Some ?p, Hq : tail_ok ?t0 ?q |- _ =>
      destruct (find_pc_front t0 p0 q t p Hq Hf) as [-> ?]; [done|]; simplify_eq; clear Hf
  end.
(** The cases in which no thread is where the event needs it. *)
Ltac late :=
  match goal with
  | H : late_ok ?l |- _ => destruct H as [-> | (? & ? & -> & ?)]; [done|]; at_front
  end.

Definition waits_signalled (p : client.pc) : Prop :=
  p = client.WaitFirst true \/ p = client.WaitQueue true \/ p = client.WaitRetry true.

Lemma ph_resume k p t c : ph k p -> pc_of k t = Some c -> waits_signalled c ->
  exists k', client.resume t c k = Ok k' /\
    ((p = PNone /\ ph k' PCall) \/ (p = PWait true /\ ph k' PCall) \/
     exists b, p = PLocked b /\ ph k' (PLocked b)).
Proof.
  intros Hp Ht Hw. unfold pc_of in Ht.
  assert (c <> client.WaitQueue false) as Hc by (by destruct Hw as [->|[->| ->]]).
  destruct Hp; cbn [client.threads] in Ht; try done.
  all: try (at_front; by destruct Hw as [?|[?|?]]).
  - at_front. unfold client.resume, client.wait_loop. simpl.
    destruct H as [->| ->]; (eexists; split; [reflexivity|]); left; (split; [done|]);
      simpl; rewrite set_pc_front by done; by constructor.
  - at_front. destruct Hw as [?|[?|?]]; simplify_eq. unfold client.resume, client.wait_loop. simpl.
    eexists; split; [reflexivity|]. right; left. split; [done|]. simpl. rewrite set_pc_front by done. by constructor.
  - at_front. destruct H as [->| ->]; [by destruct Hw as [?|[?|?]]|].
    eexists; split; [reflexivity|]. right; right. exists b. split; [done|]. simpl.
    rewrite set_pc_front by done. constructor; [by left | done].
  - late; by destruct Hw as [?|[?|?]].
  - late; by destruct Hw as [?|[?|?]].
Qed.

Lemma ph_answer k p t : ph k p -> pc_of k t = Some (client.Calling client.Req) ->
  p = PCall /\
  ph (with_pc k t (client.Calling (client.Rep lock_protocol.OK))) (POk false) /\
  ph (with_pc k t (client.Calling (client.Rep lock_protocol.RETRY))) (PRetry false).
Proof.
  intros Hp Ht. unfold pc_of in Ht. destruct Hp; cbn [client.threads] in Ht; try done; try late; try (at_front; done).
  - at_front. by destruct H.
  - at_front. split; [done|]. unfold with_pc. simpl. rewrite !set_pc_front by done.
    split; [by apply (ph_ok _ _ false) | by apply (ph_retry _ _ false)].
  - at_front. by destruct H.
Qed.

Lemma ph_acquired k p t ret : ph k p -> pc_of k t = Some (client.Calling (client.Rep ret)) ->
  exists k', client.acquired t ret k = Ok k' /\
    ((exists b, p = POk b /\ ph k' (PLocked b)) \/ (p = PRetry false /\ ph k' (PWait false)) \/
     (p = PRetry true /\ ph k' PCall)).
Proof.
  intros Hp Ht. unfold pc_of in Ht. destruct Hp; cbn [client.threads] in Ht; try done; try late; try (at_front; done).
  - at_front. by destruct H.
  - at_front. unfold client.acquired. simpl. eexists; split; [reflexivity|]. left. exists b. split; [done|].
    simpl. rewrite set_pc_front by done. constructor; [by left | done].
  - at_front. unfold client.acquired, client.wait_loop. simpl. destruct b; simpl.
    + eexists; split; [reflexivity|]. right; right. split; [done|]. simpl. rewrite set_pc_front by done. by constructor.
    + eexists; split; [reflexivity|]. right; left. split; [done|]. simpl. rewrite set_pc_front by done.
      by apply (ph_wait _ _ false).
  - at_front. by destruct H.
Qed.

(** The next thread moves up. *)
Lemma tail_ok_next t t1 p1 q : tail_ok t ((t1, p1) :: q) -> p1 = client.WaitQueue false /\ tail_ok t1 q.
Proof.
  intros [Hq Hn]. apply Forall_cons in Hq as [Hp Hq]. simpl in *. apply NoDup_cons in Hn as [_ Hn].
  split; [done|]. by split.
Qed.

Lemma ph_release k p t : ph k p -> pc_of k t = Some client.Holding ->
  exists k', client.release t k = Ok k' /\
    ((p = PLocked false /\ (ph k' PFree \/ ph k' (PLocked false))) \/ (p = PLocked true /\ ph k' PRelReq)).
Proof.
  intros Hp Ht. unfold pc_of in Ht. destruct Hp; cbn [client.threads] in Ht; try done; try late; try (at_front; done).
  - at_front. by destruct H.
  - at_front. unfold client.release. destruct b; simpl.
    + eexists; split; [reflexivity|]. right. split; [done|]. rewrite set_pc_front by done. by constructor.
    + destruct q as [|[t1 p1] q]; simpl.
      * eexists; split; [reflexivity|]. left. split; [done|]. left. constructor.
      * destruct (tail_ok_next _ _ _ _ H0) as [-> Hq]. eexists; split; [reflexivity|]. left. split; [done|].
        right. apply (ph_locked _ _ _ false); [by right | done].
Qed.

Lemma ph_srv_release k p t r : ph k p -> pc_of k t = Some (client.Releasing client.Req) ->
  p = PRelReq /\ ph (with_pc k t (client.Releasing (client.Rep r))) PRelRep.
Proof.
  intros Hp Ht. unfold pc_of in Ht. destruct Hp; cbn [client.threads] in Ht; try done; try late; try (at_front; done).
  - at_front. by destruct H.
  - at_front. by destruct H.
  - at_front. split; [done|]. unfold with_pc. simpl. rewrite set_pc_front by done. by constructor.
Qed.

Lemma ph_released k p t r : ph k p -> pc_of k t = Some (client.Releasing (client.Rep r)) ->
  p = PRelRep /\ exists k', client.released k = Ok k' /\ ph k' PNone.
Proof.
  intros Hp Ht. unfold pc_of in Ht. destruct Hp; cbn [client.threads] in Ht; try done; try late; try (at_front; done).
  - at_front. by destruct H.
  - at_front. by destruct H.
  - at_front. split; [done|]. unfold client.released, client.leave. simpl.
    destruct q as [|[t1 p1] q]; [eexists; split; [reflexivity | constructor]|].
    destruct (tail_ok_next _ _ _ _ H) as [-> Hq]. eexists; split; [reflexivity|].
    constructor; [by right | done].
Qed.

Lemma ph_handler_req k p i r : ph k p -> client.handlers k !! i = Some client.Req ->
  p = PRelReq /\ ph (with_handler k i (client.Rep r)) PRelRep.
Proof.
  intros Hp Hi. destruct Hp; simpl in Hi; try done; destruct i as [|[|i]]; simpl in Hi; simplify_eq.
  split; [done|]. unfold with_handler. simpl. by constructor.
Qed.

Lemma ph_revoke_done k p i r : ph k p -> client.handlers k !! i = Some (client.Rep r) ->
  p = PRelRep /\ exists k', client.revoke_done i k = Ok k' /\ ph k' PNone.
Proof.
  intros Hp Hi. destruct Hp; simpl in Hi; try done; destruct i as [|[|i]]; simpl in Hi; simplify_eq.
  split; [done|]. unfold client.revoke_done. simpl.
  destruct H as [->|(t & q & -> & Hq)]; (eexists; split; [reflexivity|]); constructor; [by left | done].
Qed.

Lemma ph_revoke k p : ph k p ->
  (p = POk false -> ph (client.revoke_handler k) (POk true)) /\
  (p = PFree -> ph (client.revoke_handler k) PRelReq) /\
  (p = PLocked false -> ph (client.revoke_handler k) (PLocked true)).
Proof.
  intros Hp. destruct Hp; unfold client.revoke_handler; simpl; split_and!; intros; simplify_eq.
  - by apply (ph_ok _ _ true).
  - constructor. by left.
  - by apply (ph_locked _ _ _ true).
Qed.

Lemma ph_retry_handler k p : ph k p ->
  (p = PRetry false -> exists k', client.retry_handler k = Ok k' /\ ph k' (PRetry true)) /\
  (p = PWait false -> exists k', client.retry_handler k = Ok k' /\ ph k' (PWait true)).
Proof.
  intros Hp. destruct Hp; split; intros; simplify_eq; eexists; (split; [reflexivity|]).
  - by apply (ph_retry _ _ true).
  - by apply (ph_wait _ _ true).
Qed.

(** ** The invariant of the system *)

(** Clients that neither own the lock nor are queued at the server; clients the
    server keeps waiting; an owner that was not told to give the lock back. *)
Definition idle (p : phase) : Prop := p = PNone \/ p = PCall \/ p = PRelRep.
Definition asks (p : phase) : Prop := p = PRetry false \/ p = PWait false.
Definition owns (p : phase) : Prop := p = POk false \/ p = PFree \/ p = PLocked false.

(** What the server's record and the callbacks in transit say about client [c]. *)
Definition role (i : server.lockinfo) (pend : list (bytes * callback_t)) (c : bytes) (p : phase) : Prop :=
  match server.stat i with
  | server.NONE => idle p
  | server.LOCKED => if decide (c = server.owner i) then owns p else idle p
  | server.REVOKING =>
      if decide (c = server.owner i)
      then (pend = [(c, Revoke)] /\ owns p) \/
           (pend = [] /\ (p = POk true \/ p = PLocked true \/ p = PRelReq))
      else if decide (c ∈ server.waiting_cids i) then asks p else idle p
  | server.RETRYING =>
      if decide (c = server.retrying_cid i)
      then (pend = [(c, Retry)] /\ asks p) \/
           (pend = [] /\ (p = PRetry true \/ p = PWait true \/ p = PCall))
      else if decide (c ∈ server.waiting_cids i) then asks p else idle p
  end.

Definition srv_ok (i : server.lockinfo) (pend : list (bytes * callback_t)) : Prop :=
  [] ∉ server.waiting_cids i /\
  match server.stat i with
  | server.NONE => server.owner i = [] /\ server.waiting_cids i = ∅ /\ pend = []
  | server.LOCKED => server.owner i <> [] /\ server.waiting_cids i = ∅ /\ pend = []
  | server.REVOKING => server.owner i <> [] /\ server.owner i ∉ server.waiting_cids i /\
      server.waiting_cids i <> ∅ /\ (pend = [(server.owner i, Revoke)] \/ pend = [])
  | server.RETRYING => server.retrying_cid i <> [] /\ server.retrying_cid i ∉ server.waiting_cids i /\
      (pend = [(server.retrying_cid i, Retry)] \/ pend = [])
  end.

Record linv (s : lsys) : Prop := {
  li_srv : srv_ok (l_srv s) (l_pend s);
  li_nobody : cl s [] = client.new_lockinfo;
  li_cl : forall c, exists p, ph (cl s c) p /\ role (l_srv s) (l_pend s) c p }.

(** The moves a client makes by itself. *)
Inductive tr : phase -> phase -> Prop :=
  | tr_refl p : tr p p
  | tr_call : tr PNone PCall
  | tr_use : tr PFree (PLocked false)
  | tr_again : tr (PWait true) PCall
  | tr_got b : tr (POk b) (PLocked b)
  | tr_wait : tr (PRetry false) (PWait false)
  | tr_loop : tr (PRetry true) PCall
  | tr_keep : tr (PLocked false) PFree
  | tr_give : tr (PLocked true) PRelReq
  | tr_gone : tr PRelRep PNone.

Lemma role_tr i pend c p p' : tr p p' -> role i pend c p -> role i pend c p'.
Proof.
  intros Ht Hr. unfold role, idle, asks, owns in *.
  destruct Ht; try exact Hr; destruct (server.stat i); repeat case_decide; intuition (try congruence; auto).
Qed.

Lemma cl_insert s i pend c k c' :
  cl (Lsys i (<[c := k]> (l_cl s)) pend) c' = if decide (c = c') then k else cl s c'.
Proof.
  unfold cl. simpl. destruct (decide (c = c')) as [->|]; [by rewrite lookup_insert_eq | by rewrite lookup_insert_ne].
Qed.

Lemma linv_client s c k p p' : linv s -> ph (cl s c) p -> role (l_srv s) (l_pend s) c p -> c <> [] ->
  ph k p' -> tr p p' -> linv (set_cl c k s).
Proof.
  intros [Hs Hn Hc] Hp Hr Hne Hk Ht. split; [exact Hs | |].
  - unfold set_cl. by rewrite cl_insert, decide_False.
  - intros c'. unfold set_cl. rewrite cl_insert. simpl. destruct (decide (c = c')) as [<-|]; [|apply Hc].
    exists p'. split; [done|]. by eapply role_tr.
Qed.

Lemma pc_nonempty s c t p : linv s -> pc_of (cl s c) t = Some p -> c <> [].
Proof. intros Hi Hp ->. by rewrite (li_nobody _ Hi) in Hp. Qed.

Lemma handler_nonempty s c i r : linv s -> client.handlers (cl s c) !! i = Some r -> c <> [].
Proof. intros Hi Hp ->. by rewrite (li_nobody _ Hi) in Hp. Qed.

(** The server handles an [acquire]. *)
Lemma srv_acquire_ok i pend c : srv_ok i pend -> c <> [] -> role i pend c PCall ->
  exists ret cbs i', server.acquire c i = Ok (ret, cbs, i') /\ srv_ok i' (cbs ++ pend) /\
    ((ret = lock_protocol.OK /\ role i' (cbs ++ pend) c (POk false)) \/
     (ret = lock_protocol.RETRY /\ role i' (cbs ++ pend) c (PRetry false))) /\
    forall c' p, c' <> c -> role i pend c' p -> role i' (cbs ++ pend) c' p.
Proof.
  intros [HnW Hs] Hc Hr. unfold role, server.acquire in *. unfold idle, asks, owns in *.
  destruct (server.stat i) eqn:Est.
  - destruct Hs as (Ho & HW & ->). rewrite bool_decide_eq_true_2 by done. eexists _, _, _; split; [reflexivity|].
    simpl. split; [by split|]. split; [left; split; [done|]; rewrite decide_True by done; auto|].
    intros c' p Hne Hp. by rewrite decide_False.
  - destruct Hs as (Ho & HW & ->). case_decide as Hco; [naive_solver|].
    rewrite bool_decide_eq_true_2 by (rewrite HW; set_solver).
    eexists _, _, _; split; [reflexivity|]. simpl. rewrite HW.
    split; [split; [set_solver|]; split_and!; [done | set_solver | set_solver | by left]|].
    split; [right; split; [done|]; rewrite decide_False by done; rewrite decide_True by set_solver; auto|].
    intros c' p Hne Hp. case_decide as Hco'; [subst c'; left; done|].
    rewrite decide_False by set_solver. done.
  - destruct Hs as (Ho & HoW & HW & Hpend). case_decide as Hco; [naive_solver|].
    case_decide as HcW; [naive_solver|]. rewrite bool_decide_eq_true_2 by done.
    eexists _, _, _; split; [reflexivity|]. simpl.
    split; [split; [set_solver|]; split_and!; [done | set_solver | set_solver | done]|].
    split; [right; split; [done|]; rewrite decide_False by done; rewrite decide_True by set_solver; auto|].
    intros c' p Hne Hp. case_decide; [done|]. repeat case_decide; try done; set_solver.
  - destruct Hs as (Hr0 & HrW & Hpend). case_decide as Hcr.
    + destruct Hr as [[_ Hr]|[-> _]]; [naive_solver|]. rewrite (bool_decide_eq_true_2 (c = _)) by done.
      rewrite bool_decide_eq_true_2 by congruence. case_bool_decide as HW;
        (eexists _, _, _; split; [reflexivity|]); simpl.
      * split; [by split|]. split; [left; split; [done|]; rewrite decide_True by done; auto|].
        intros c' p Hne Hp. rewrite decide_False in Hp by congruence. rewrite decide_False in Hp by set_solver.
        by rewrite decide_False.
      * split; [split; [done|]; split_and!; [done | by rewrite Hcr | done | by left]|].
        split; [left; split; [done|]; rewrite decide_True by done; auto|].
        intros c' p Hne Hp. rewrite decide_False in Hp by congruence. by rewrite decide_False.
    + case_decide as HcW; [naive_solver|]. rewrite (bool_decide_eq_false_2 (c = _)) by done.
      rewrite bool_decide_eq_true_2 by done. eexists _, _, _; split; [reflexivity|]. simpl.
      split; [split; [set_solver|]; split_and!; [done | set_solver | done]|].
      split; [right; split; [done|]; rewrite decide_False by done; rewrite decide_True by set_solver; auto|].
      intros c' p Hne Hp. case_decide; [done|]. repeat case_decide; try done; set_solver.
Qed.

Lemma first_waiting_in w : w <> ∅ -> exists n, server.first_waiting w = Some n /\ n ∈ w.
Proof.
  intros Hw. unfold server.first_waiting.
  assert (forall x, x ∈ merge_sort (fun a b => bytes_le a b) (elements w) <-> x ∈ w) as Hin.
  { intros x. rewrite merge_sort_Permutation. apply elem_of_elements. }
  destruct (merge_sort _ (elements w)) as [|n l] eqn:E.
  - destruct Hw. apply set_eq. intros x. rewrite <- Hin. set_solver.
  - exists n. split; [done|]. apply Hin. left.
Qed.

(** The server handles a [release]. *)
Lemma srv_release_ok i pend c : srv_ok i pend -> c <> [] -> role i pend c PRelReq ->
  exists cbs i', server.release c i = Ok (lock_protocol.OK, cbs, i') /\ srv_ok i' (cbs ++ pend) /\
    role i' (cbs ++ pend) c PRelRep /\
    forall c' p, c' <> c -> role i pend c' p -> role i' (cbs ++ pend) c' p.
Proof.
  intros [HnW Hs] Hc Hr. unfold role, server.release in *. unfold idle, asks, owns in *.
  destruct (server.stat i) eqn:Est.
  - by destruct Hr as [|[|]].
  - case_decide; by destruct Hr as [|[|]].
  - case_decide as Hco; [|case_decide; [by destruct Hr | by destruct Hr as [|[|]]]].
    destruct Hs as (Ho & HoW & HW & _). destruct Hr as [[_ Hr]|[-> _]]; [by destruct Hr as [|[|]]|].
    rewrite bool_decide_eq_true_2 by done. destruct (first_waiting_in _ HW) as (n & -> & Hn).
    eexists _, _; split; [reflexivity|]. simpl.
    assert (n <> c) as Hnc by (intros ->; congruence).
    split; [split; [set_solver|]; split_and!; [set_solver | set_solver | by left]|].
    split; [rewrite decide_False by done; rewrite decide_False by set_solver; auto|].
    intros c' p Hne Hp. rewrite decide_False in Hp by congruence. destruct (decide (c' = n)) as [->|Hcn].
    + left. by rewrite decide_True in Hp.
    + destruct (decide (c' ∈ server.waiting_cids i)).
      * by rewrite decide_True by set_solver.
      * by rewrite decide_False by set_solver.
  - case_decide; [|case_decide; [by destruct Hr | by destruct Hr as [|[|]]]].
    destruct Hr as [[_ Hr]|[_ Hr]]; [by destruct Hr | by destruct Hr as [|[|]]].
Qed.

Lemma linv_answer s c k p cbs i' : linv s -> c <> [] -> srv_ok i' (cbs ++ l_pend s) ->
  ph k p -> role i' (cbs ++ l_pend s) c p ->
  (forall c' p, c' <> c -> role (l_srv s) (l_pend s) c' p -> role i' (cbs ++ l_pend s) c' p) ->
  linv (Lsys i' (<[c := k]> (l_cl s)) (cbs ++ l_pend s)).
Proof.
  intros [Hs Hn Hc] Hne Hs' Hk Hr Hoth. split; [exact Hs' | |].
  - by rewrite cl_insert, decide_False.
  - intros c'. rewrite cl_insert. simpl. destruct (decide (c = c')) as [<-|Hcc]; [by exists p|].
    destruct (Hc c') as (p' & Hp' & Hr'). exists p'. split; [done|]. by apply Hoth.
Qed.

(** A callback reaches its client. *)
Lemma linv_callback s n c cb : linv s -> l_pend s !! n = Some (c, cb) ->
  exists k, (match cb with
             | Revoke => Ok (client.revoke_handler (cl s c))
             | Retry => client.retry_handler (cl s c)
             end) = Ok k /\
    linv (set_cl c k (Lsys (l_srv s) (l_cl s) (delete n (l_pend s)))).
Proof.
  intros [Hs Hn Hcl] Hp.
  assert (exists k p', (match cb with Revoke => Ok (client.revoke_handler (cl s c))
                        | Retry => client.retry_handler (cl s c) end) = Ok k /\
    ph k p' /\ c <> [] /\ delete n (l_pend s) = [] /\ srv_ok (l_srv s) [] /\ role (l_srv s) [] c p' /\
    forall c' p, c' <> c -> role (l_srv s) (l_pend s) c' p -> role (l_srv s) [] c' p)
    as (k & p' & E & Hk & Hne & Hd & Hs' & Hr' & Hoth).
  { destruct (Hcl c) as (p & Hph & Hr). destruct Hs as [HnW Hs]. unfold srv_ok, role in *.
    destruct (server.stat (l_srv s)) eqn:Est.
    1,2: destruct Hs as (_ & _ & Hpe); by rewrite Hpe in Hp.
    - destruct Hs as (Ho & HoW & HW & [Hpe|Hpe]); rewrite Hpe in *; [|done].
      destruct n; [|done]. simpl in Hp. simplify_eq. rewrite decide_True in Hr by done.
      destruct Hr as [[_ Hq]|[? _]]; [|done]. destruct (ph_revoke _ _ Hph) as (R1 & R2 & R3).
      assert (exists p', ph (client.revoke_handler (cl s (server.owner (l_srv s)))) p' /\
        (p' = POk true \/ p' = PLocked true \/ p' = PRelReq)) as (p' & Hp' & Hor)
        by (destruct Hq as [->|[->| ->]]; eauto 10).
      eexists _, p'. split; [reflexivity|]. split_and!; try done; [by right | rewrite decide_True by done; by right|].
      intros c' p0 Hne Hr. by rewrite decide_False in * by done.
    - destruct Hs as (Hr0 & HrW & [Hpe|Hpe]); rewrite Hpe in *; [|done].
      destruct n; [|done]. simpl in Hp. simplify_eq. rewrite decide_True in Hr by done.
      destruct Hr as [[_ Hq]|[? _]]; [|done]. destruct (ph_retry_handler _ _ Hph) as (R1 & R2).
      assert (exists k p', client.retry_handler (cl s (server.retrying_cid (l_srv s))) = Ok k /\ ph k p' /\
        (p' = PRetry true \/ p' = PWait true)) as (k & p' & E & Hp' & Hor).
      { destruct Hq as [-> | ->]; [destruct (R1 eq_refl) as (k & ? & ?) | destruct (R2 eq_refl) as (k & ? & ?)]; eauto 10. }
      exists k, p'. split_and!; try done; [by right | rewrite decide_True by done; right; naive_solver|].
      intros c' p0 Hne Hr. by rewrite decide_False in * by done. }
  exists k. split; [exact E|]. unfold set_cl. simpl. rewrite Hd. split; [exact Hs' | |].
  - by rewrite cl_insert, decide_False.
  - intros c'. rewrite cl_insert. simpl. destruct (decide (c = c')) as [<-|Hcc]; [by exists p'|].
    destruct (Hcl c') as (p1 & Hp1 & Hr1). exists p1. split; [done|]. by apply Hoth.
Qed.

(** Every event that can happen runs without a fault and keeps the invariant. *)
(** The client of the thread or handler at hand, in its phase; it moves to the next. *)
Ltac at_client Hi Ht c Hne p Hp Hr :=
  first [pose proof (pc_nonempty _ _ _ _ Hi Ht) as Hne | pose proof (handler_nonempty _ _ _ _ Hi Ht) as Hne];
  destruct (li_cl _ Hi c) as (p & Hp & Hr).
Ltac client_moves Hp Hk := eapply linv_client; [done | exact Hp | done | done | exact Hk | constructor].

Lemma lstep_ok s e r : linv s -> spurious e = false -> lstep s e = Some r -> exists s', r = Ok s' /\ linv s'.
Proof.
  intros Hi Hsp He. destruct e as [c t|c t|c t|c t|c t|c t|c t|c t|c i|c i|n]; [|  |discriminate Hsp|..]; simpl in He.
  - case_bool_decide as Hc; [|done]. injection He as <-. destruct Hc as [Hne Ht].
    destruct (li_cl _ Hi c) as (p & Hp & Hr). eexists; split; [reflexivity|].
    destruct (ph_acquire _ _ t Hp Ht) as [Hk|[[-> Hk]|[-> Hk]]]; client_moves Hp Hk.
  - destruct (pc_of (cl s c) t) as [p0|] eqn:Ht; [|done].
    at_client Hi Ht c Hne p Hp Hr.
    assert (waits_signalled p0 /\ r = lift s c (client.resume t p0 (cl s c))) as [Hw ->].
    { unfold waits_signalled. destruct p0 as [[]|[]|[]| | | |]; simplify_eq; auto. }
    destruct (ph_resume _ _ _ _ Hp Ht Hw) as (k' & -> & Hcase). eexists; split; [reflexivity|].
    destruct Hcase as [[-> Hk]|[[-> Hk]|(b & -> & Hk)]]; client_moves Hp Hk.
  - destruct (pc_of (cl s c) t) as [[| | |[]| | |]|] eqn:Ht; try done. injection He as <-. at_client Hi Ht c Hne p Hp Hr.
    destruct (ph_answer _ _ _ Hp Ht) as (-> & Hok & Hretry).
    destruct (srv_acquire_ok _ _ _ (li_srv _ Hi) Hne Hr) as (ret & cbs & i' & -> & Hs' & Hret & Hoth).
    eexists; split; [reflexivity|].
    destruct Hret as [[-> Hr']|[-> Hr']]; by eapply linv_answer.
  - destruct (pc_of (cl s c) t) as [[| | |[|ret]| | |]|] eqn:Ht; try done. injection He as <-. at_client Hi Ht c Hne p Hp Hr.
    destruct (ph_acquired _ _ _ _ Hp Ht) as (k' & -> & Hcase). eexists; split; [reflexivity|].
    destruct Hcase as [(b & -> & Hk)|[[-> Hk]|[-> Hk]]]; client_moves Hp Hk.
  - destruct (pc_of (cl s c) t) as [[]|] eqn:Ht; try done. injection He as <-. at_client Hi Ht c Hne p Hp Hr.
    destruct (ph_release _ _ _ Hp Ht) as (k' & -> & Hcase). eexists; split; [reflexivity|].
    destruct Hcase as [[-> [Hk|Hk]]|[-> Hk]]; client_moves Hp Hk.
  - destruct (pc_of (cl s c) t) as [[| | | | |[]|]|] eqn:Ht; try done. injection He as <-. at_client Hi Ht c Hne p Hp Hr.
    destruct (ph_srv_release _ _ _ lock_protocol.OK Hp Ht) as (-> & Hk).
    destruct (srv_release_ok _ _ _ (li_srv _ Hi) Hne Hr) as (cbs & i' & -> & Hs' & Hr' & Hoth).
    eexists; split; [reflexivity|]. by eapply linv_answer.
  - destruct (pc_of (cl s c) t) as [[| | | | |[|ret]|]|] eqn:Ht; try done. injection He as <-. at_client Hi Ht c Hne p Hp Hr.
    destruct (ph_released _ _ _ _ Hp Ht) as (-> & k' & -> & Hk). eexists; split; [reflexivity|]. client_moves Hp Hk.
  - destruct (client.handlers (cl s c) !! i) as [[]|] eqn:Ht; try done. injection He as <-. at_client Hi Ht c Hne p Hp Hr.
    destruct (ph_handler_req _ _ _ lock_protocol.OK Hp Ht) as (-> & Hk).
    destruct (srv_release_ok _ _ _ (li_srv _ Hi) Hne Hr) as (cbs & i' & -> & Hs' & Hr' & Hoth).
    eexists; split; [reflexivity|]. by eapply linv_answer.
  - destruct (client.handlers (cl s c) !! i) as [[|ret]|] eqn:Ht; try done. injection He as <-. at_client Hi Ht c Hne p Hp Hr.
    destruct (ph_revoke_done _ _ _ _ Hp Ht) as (-> & k' & -> & Hk). eexists; split; [reflexivity|]. client_moves Hp Hk.
  - destruct (l_pend s !! n) as [[c cb]|] eqn:Hn; [|done]. injection He as <-.
    destruct (linv_callback s n c cb Hi Hn) as (k & -> & Hk). eexists; split; [reflexivity | exact Hk].
Qed.

Lemma linv_init : linv new_lsys.
Proof.
  split; [split; [set_solver | done] | done|]. intros c. exists PNone. unfold cl, new_lsys. simpl.
  rewrite lookup_empty. split; [constructor | by left].
Qed.

Lemma lreach_inv s : lreach s -> linv s.
Proof.
  induction 1 as [|s e s' _ IH Hsp He]; [apply linv_init|].
  destruct (lstep_ok _ _ _ IH Hsp He) as (s1 & [= <-] & Hi). done.
Qed.

(** The thread [t] of client [c] is between [acquire] and [release]. *)
Definition holds (s : lsys) (c : bytes) (t : Z) : Prop := pc_of (cl s c) t = Some client.Holding.

Lemma holds_owner s c t : linv s -> holds s c t ->
  c = server.owner (l_srv s) /\ exists p q, client.threads (cl s c) = (t, p) :: q /\ tail_ok t q.
Proof.
  intros Hi Hh. destruct (li_cl _ Hi c) as (p & Hp & Hr). unfold holds, pc_of in Hh.
  assert (exists b, p = PLocked b /\ exists p q, client.threads (cl s c) = (t, p) :: q /\ tail_ok t q)
    as (b & -> & Hl).
  { destruct Hp; cbn [client.threads] in *; try done; try late; at_front; try done; try by destruct H.
    eauto 10. }
  split; [|done]. unfold role, idle, asks, owns in Hr.
  destruct (server.stat (l_srv s)); repeat case_decide; try done; naive_solver.
Qed.

Lemma holds_one s c1 c2 t1 t2 : linv s -> holds s c1 t1 -> holds s c2 t2 -> c1 = c2 /\ t1 = t2.
Proof.
  intros Hs H1 H2. destruct (holds_owner _ _ _ Hs H1) as (E1 & p1 & q1 & L1 & _).
  destruct (holds_owner _ _ _ Hs H2) as (E2 & p2 & q2 & L2 & _).
  assert (c1 = c2) as -> by congruence. rewrite L1 in L2. by simplify_eq.
Qed.

(** C4. Mutual exclusion: whatever the clients, their threads, the server and the
    calls in transit do, as long as [pthread_cond_wait] returns only after a signal
    (without this the client breaks it), at most one thread of all clients holds the
    lock. *)
Theorem lock_mutual_exclusion (s : lsys) (c1 c2 : bytes) (t1 t2 : Z) :
  lreach s -> holds s c1 t1 -> holds s c2 t2 -> c1 = c2 /\ t1 = t2.
Proof. intros Hs. apply holds_one. by apply lreach_inv. Qed.

(** C32. No fault: in every state reached without spurious wake-ups (one of which makes
    a [VERIFY] of the server fail) each event that can happen, other than a spurious
    wake-up, runs to its end; no [VERIFY] of the server or the clients fails,
    [waiting_cids] is never empty when it is read, and no callback finds an empty thread
    list. *)
Theorem lock_service_never_faults (s : lsys) (e : event) (r : res lsys) :
  lreach s -> spurious e = false -> lstep s e = Some r -> exists s', r = Ok s' /\ lreach s'.
Proof.
  intros Hs Hsp He. destruct (lstep_ok _ _ _ (lreach_inv _ Hs) Hsp He) as (s' & -> & _).
  exists s'. split; [done|]. by eapply lreach_step.
Qed.

(** ** Progress *)

(** An event that is not a decision of an application thread. *)
Definition internal (e : event) : Prop :=
  match e with Acquire _ _ | Release _ _ | Spurious _ _ => False | _ => True end.

(** Some thread of [c] holds the lock or some internal event can happen. *)
Definition busy (s : lsys) (c : bytes) : Prop :=
  (exists t, holds s c t) \/ exists e r, internal e /\ lstep s e = Some r.

Lemma find_pc_head t p q : find_pc ((t, p) :: q) t = Some p.
Proof. simpl. by rewrite bool_decide_eq_true_2. Qed.

(** The event of the thread that is first in the list. *)
Lemma busy_front s c t p q : client.threads (cl s c) = (t, p) :: q ->
  (p <> client.WaitFirst false /\ p <> client.WaitQueue false /\ p <> client.WaitRetry false /\
   p <> client.Failed) -> busy s c.
Proof.
  intros Hl (H1 & H2 & H3 & H4). assert (pc_of (cl s c) t = Some p) as Hp by (unfold pc_of; by rewrite Hl, find_pc_head).
  destruct p as [[]|[]|[]|[|ret]| |[|ret]|]; try done.
  - right. eexists (Resume c t), _. split; [done|]. simpl. by rewrite Hp.
  - right. eexists (Resume c t), _. split; [done|]. simpl. by rewrite Hp.
  - right. eexists (Resume c t), _. split; [done|]. simpl. by rewrite Hp.
  - right. eexists (SrvAcquire c t), _. split; [done|]. simpl. by rewrite Hp.
  - right. eexists (Acquired c t), _. split; [done|]. simpl. by rewrite Hp.
  - left. by exists t.
  - right. eexists (SrvRelease c t), _. split; [done|]. simpl. by rewrite Hp.
  - right. eexists (Released c t), _. split; [done|]. simpl. by rewrite Hp.
Qed.

Lemma busy_phase s c p : ph (cl s c) p -> p <> PFree -> p <> PWait false ->
  (p = PNone -> client.threads (cl s c) <> []) -> busy s c.
Proof.
  intros Hp Hf Hw Hn. remember (cl s c) as k eqn:Hk.
  assert (forall i r, client.handlers k = [r] -> i = 0%nat -> busy s c) as Hh.
  { intros i r Hr ->. right. rewrite Hk in Hr. destruct r as [|ret].
    - eexists (SrvReleaseH c 0), _. split; [done|]. simpl. by rewrite Hr.
    - eexists (RevokeDone c 0), _. split; [done|]. simpl. by rewrite Hr. }
  destruct Hp; try done; try (by destruct Hn); try (eapply (Hh 0%nat); reflexivity);
    (eapply busy_front; [rewrite <- Hk; reflexivity |]); split_and!; try done;
    try (by destruct H as [->| ->]); by destruct b.
Qed.

Lemma busy_waiting s c p : linv s -> ph (cl s c) p -> role (l_srv s) (l_pend s) c p -> p = PWait false ->
  exists c', busy s c'.
Proof.
  intros Hi Hp Hr ->. destruct (l_pend s) as [|[c0 cb] rest] eqn:Hpe.
  2:{ exists c0. right. eexists (Callback 0), _. split; [done|]. simpl. by rewrite Hpe. }
  assert (exists c' p', ph (cl s c') p' /\ p' <> PFree /\ p' <> PWait false /\ p' <> PNone)
    as (c' & p' & Hp' & H1 & H2 & H3); [|exists c'; by eapply busy_phase].
  pose proof (li_cl _ Hi) as Hcl. rewrite Hpe in Hcl. unfold role, idle, asks, owns in *.
  destruct (server.stat (l_srv s)) eqn:Est.
  - by destruct Hr as [|[|]].
  - case_decide; by destruct Hr as [|[|]].
  - destruct (Hcl (server.owner (l_srv s))) as (p' & Hp' & Hr'). exists (server.owner (l_srv s)), p'.
    rewrite decide_True in Hr' by done. destruct Hr' as [[? _]|[_ [->|[->| ->]]]]; done.
  - destruct (Hcl (server.retrying_cid (l_srv s))) as (p' & Hp' & Hr'). exists (server.retrying_cid (l_srv s)), p'.
    rewrite decide_True in Hr' by done. destruct Hr' as [[? _]|[_ [->|[->| ->]]]]; done.
Qed.

Lemma linv_progress s c : linv s -> client.threads (cl s c) <> [] -> exists c', busy s c'.
Proof.
  intros Hs Hne. destruct (li_cl _ Hs c) as (p & Hp & Hr).
  destruct p as [| | |b|[]| | | |]; try (exists c; by eapply busy_phase).
  - by eapply busy_waiting.
  - inversion Hp as [| | | | | |He| | | | |]. by rewrite <- He in Hne.
Qed.

(** C33. No deadlock and no lost wake-up, in every state reached without spurious
    wake-ups (one of which can leave a queue that nobody wakes): as long as a thread is
    inside [acquire] or [release], some thread holds the lock or some call, callback or
    signalled thread can proceed. *)
Theorem lock_service_progress (s : lsys) (c : bytes) :
  lreach s -> client.threads (cl s c) <> [] ->
  exists c', busy s c'.
Proof. intros Hs. apply linv_progress. by apply lreach_inv. Qed.

(** ** Closed runs *)

Fixpoint lrun (s : lsys) (es : list event) : option lsys :=
  match es with
  | [] => Some s
  | e :: es' => match lstep s e with Some (Ok s') => lrun s' es' | _ => None end
  end.

Lemma lrun_reach es : forall s s', forallb (fun e => negb (spurious e)) es = true -> lreach s -> lrun s es = Some s' -> lreach s'.
Proof.
  induction es as [|e es IH]; intros s s' Hsp Hs Hr; simpl in Hr; [by simplify_eq|].
  apply andb_true_iff in Hsp as [He%negb_true_iff Hsp].
  destruct (lstep s e) as [[s1|]|] eqn:E; try done. eapply IH; [done| |done]. by eapply lreach_step.
Qed.

(** Client [a]: thread 1 gets the lock, thread 2 queues behind it. *)
Definition sample_run : list event :=
  [Acquire (str "a") 1; SrvAcquire (str "a") 1; Acquired (str "a") 1; Acquire (str "a") 2].
Definition sample_sys : lsys := default new_lsys (lrun new_lsys sample_run).

Lemma sample_reach : lreach sample_sys.
Proof. eapply (lrun_reach sample_run); [reflexivity | apply lreach_init | vm_compute; reflexivity]. Qed.

Lemma lock_mutual_exclusion_witness :
  holds sample_sys (str "a") 1 /\ forall c t, holds sample_sys c t -> str "a" = c /\ 1 = t.
Proof.
  assert (holds sample_sys (str "a") 1) as H1 by (vm_compute; reflexivity).
  split; [exact H1|]. intros c t H2. exact (lock_mutual_exclusion sample_sys _ _ _ _ sample_reach H1 H2).
Defined.

Lemma lock_service_never_faults_witness :
  exists s', lstep sample_sys (Release (str "a") 1) = Some (Ok s') /\ lreach s'.
Proof.
  destruct (lstep sample_sys (Release (str "a") 1)) as [r|] eqn:E; [|vm_compute in E; discriminate].
  destruct (lock_service_never_faults sample_sys (Release (str "a") 1) r sample_reach eq_refl E) as (s' & -> & Hr).
  exists s'. split; [reflexivity | exact Hr].
Defined.

Lemma lock_service_progress_witness : exists c', busy sample_sys c'.
Proof. apply (lock_service_progress sample_sys (str "a") sample_reach). vm_compute. discriminate. Defined.

(** *** Spurious wake-ups

    The condition waits of [acquire] are not in a loop, and that of [wait_lock] asks the
    server again.  A thread that waits behind another and wakes without a signal finds
    the state [LOCKED], takes it for its own, and two threads hold the lock. *)
Definition spurious_sys : lsys := default new_lsys (lrun new_lsys (sample_run ++ [Spurious (str "a") 2])).

Lemma spurious_wakeup_breaks_exclusion :
  lrun new_lsys (sample_run ++ [Spurious (str "a") 2]) = Some spurious_sys /\
  holds spurious_sys (str "a") 1 /\ holds spurious_sys (str "a") 2.
Proof. split; [vm_compute; reflexivity|]. split; vm_compute; reflexivity. Qed.

(** A client that waits for [retry] and wakes without it asks again, and the server finds
    it among those that wait. *)
Definition spurious_fault_run : list event :=
  [Acquire (str "a") 1; SrvAcquire (str "a") 1; Acquired (str "a") 1;
   Acquire (str "b") 1; SrvAcquire (str "b") 1; Acquired (str "b") 1; Spurious (str "b") 1].

Definition spurious_fault_sys : lsys := default new_lsys (lrun new_lsys spurious_fault_run).

Lemma spurious_wakeup_faults : lrun new_lsys spurious_fault_run = Some spurious_fault_sys /\
  lstep spurious_fault_sys (SrvAcquire (str "b") 1) = Some (Crash AssertFail).
Proof. split; vm_compute; reflexivity. Qed.

(** A thread that waits behind one that is asking the server and wakes without a signal
    returns an error and stays in the list; when the lock has been released, the signal
    goes to it, and the thread behind it waits for ever. *)
Definition strand_run : list event :=
  [Acquire (str "a") 1; Acquire (str "a") 2; Acquire (str "a") 3; Spurious (str "a") 2;
   SrvAcquire (str "a") 1; Acquired (str "a") 1; Release (str "a") 1].
Definition strand_sys : lsys := default new_lsys (lrun new_lsys strand_run).

Lemma strand_pc c t p : pc_of (cl strand_sys c) t = Some p -> p = client.Failed \/ p = client.WaitQueue false.
Proof.
  change strand_sys with (Lsys (l_srv strand_sys)
    {[str "a" := client.Lockinfo client.LOCKED client.EMPTY [(2, client.Failed); (3, client.WaitQueue false)] []]} []).
  unfold cl. cbn [l_cl]. destruct (decide (c = str "a")) as [->|Hc].
  - rewrite lookup_singleton_eq. unfold pc_of. cbn. repeat case_bool_decide; intros [=]; auto.
  - by rewrite lookup_singleton_ne.
Qed.

Lemma strand_handlers c : client.handlers (cl strand_sys c) = [].
Proof.
  change strand_sys with (Lsys (l_srv strand_sys)
    {[str "a" := client.Lockinfo client.LOCKED client.EMPTY [(2, client.Failed); (3, client.WaitQueue false)] []]} []).
  unfold cl. cbn [l_cl]. destruct (decide (c = str "a")) as [->|Hc];
    [by rewrite lookup_singleton_eq|by rewrite lookup_singleton_ne].
Qed.

Lemma spurious_wakeup_strands : lrun new_lsys strand_run = Some strand_sys /\
  pc_of (cl strand_sys (str "a")) 3 = Some (client.WaitQueue false) /\ forall c, ~ busy strand_sys c.
Proof.
  split; [vm_compute; reflexivity|]. split; [vm_compute; reflexivity|].
  intros c [[t Ht]|(e & r & Hi & He)].
  { by destruct (strand_pc _ _ _ Ht). }
  destruct e as [d t|d t|d t|d t|d t|d t|d t|d t|d i|d i|n]; try done; cbn [lstep] in He.
  all: try (by rewrite strand_handlers in He); try (by destruct n).
  all: destruct (pc_of (cl strand_sys d) t) as [p|] eqn:E; [|done];
    by destruct (strand_pc _ _ _ E) as [->| ->].
Qed.

(** ** lock_server *)

Section basic_server.
Import basic.

(** The lock has one holder exactly when it is locked, and when it is free no
    thread waits without a signal on its way to one. *)
Record basic_inv (s : lock_server) : Prop := {
  bi_holders : if locked s then exists t, holders s = [t] else holders s = [];
  bi_known : known s = false -> locked s = false /\ waiting s = [];
  bi_wake : locked s = false -> waiting s = [] \/ exists t, (t, true) ∈ waiting s }.

Lemma signal_some w : w <> [] -> exists t, (t, true) ∈ signal w.
Proof.
  induction w as [|[t []] w IH]; intros Hw; [done| |]; simpl; exists t; left.
Qed.

Lemma basic_step_inv s s' : basic_inv s -> step s s' -> basic_inv s'.
Proof.
  intros [Hh Hk Hw] Hst. destruct Hst as [t s Hn1 Hn2|t b s Hin|t s Hin].
  - unfold acquire. destruct (known s) eqn:Ek; simpl.
    + destruct (locked s) eqn:El; (split; simpl; [| congruence | try done]); rewrite ?El; try done.
      exists t. by rewrite Hh.
    + destruct (Hk eq_refl) as [El Ewt]. rewrite El in Hh.
      split; simpl; [exists t; by rewrite Hh | done | done].
  - unfold resume. destruct (known s) eqn:Ek; [|destruct (Hk eq_refl) as [_ E]; rewrite E in Hin; by apply elem_of_nil in Hin].
    destruct (locked s) eqn:El; (split; simpl; [| congruence | try done]); rewrite ?El; try done.
    exists t. by rewrite Hh.
  - unfold release. split; simpl; [|done|].
    + destruct (locked s); [|by rewrite Hh in Hin; apply elem_of_nil in Hin].
      destruct Hh as [u Hu]. rewrite Hu in *. apply list_elem_of_singleton in Hin as ->.
      rewrite filter_cons_False by (intros H; by apply H). done.
    + intros _. destruct (waiting s) as [|x w] eqn:E; [by left|]. right. by apply signal_some.
Qed.

(** [lock_server]: in every run, also with spurious wake-ups, at most one
    caller holds the lock, and whenever the lock is free and threads wait in
    [acquire], one of them has been woken. *)
Lemma lock_server_excludes_and_wakes (s : lock_server) :
  rtc step new_lock_server s ->
  (length (holders s) <= 1)%nat /\
  (holders s = [] -> waiting s = [] \/ exists t, (t, true) ∈ waiting s).
Proof.
  intros Hr. assert (basic_inv s) as [Hh _ Hw].
  { assert (basic_inv new_lock_server) as H0 by (split; simpl; auto).
    revert H0. induction Hr as [|s1 s2 s3 Hst _ IH]; [done|]. intros H1. apply IH. by eapply basic_step_inv. }
  destruct (locked s) eqn:El; [destruct Hh as [t Ht]; rewrite Ht; split; [simpl; lia | done]|].
  rewrite Hh. split; [simpl; lia|]. auto.
Qed.

Lemma lock_server_excludes_and_wakes_witness :
  rtc step new_lock_server (release 1 (acquire 2 (acquire 1 new_lock_server))) /\
  (length (holders (release 1 (acquire 2 (acquire 1 new_lock_server)))) <= 1)%nat.
Proof.
  assert (rtc step new_lock_server (release 1 (acquire 2 (acquire 1 new_lock_server)))) as Hr.
  { eapply rtc_l; [apply (step_acquire 1); vm_compute; set_solver|].
    eapply rtc_l; [apply (step_acquire 2); vm_compute; set_solver|].
    apply rtc_once. apply (step_release 1). vm_compute. set_solver. }
  split; [exact Hr|]. apply (lock_server_excludes_and_wakes _ Hr).
Defined.
End basic_server.
