(* ===== verification/Ydb.v ===== *)
(** * The transactional key-value store

    src/lab41/ydb_server.cc, ydb_server_occ.cc, ydb_server_2pl.cc and
    ydb_client.cc: the hash of a key, the store without transactions, the
    optimistic server (validation at commit), the two-phase-locking server with
    its wait-for graph, and the client stub.

    The servers keep their data in an extent service and call it by inode
    number; the [ec->remove(ino)] they call is not a method of the
    [extent_client] of this tree, so the service is the class [Extents] and what
    the servers rely on the class [ExtentsOk].  A handler that blocks or that
    can be overtaken by other handlers is cut into the parts between those
    points; [occ.ostep] and [two_pl.tstep] interleave them.  The calls of one
    transaction are sequential, as [ydb_client] makes them. *)

From S2P Require Import Prelude Disk.

(** ** The extent service, as the servers use it *)

Class Extents (E : Type) := {
  x_get : Z -> E -> bytes * E;
  x_put : Z -> bytes -> E -> E;
  x_remove : Z -> E -> E }.

Definition HASHSIZE : Z := INODE_NUM.
Definition in_hash (i : Z) : Prop := 0 <= i < HASHSIZE.

(** The service stores one string per extent number: [get] returns the last
    string put, and after [remove] the empty one. *)
Class ExtentsOk (E : Type) `{!Extents E} := {
  x_view : E -> Z -> bytes;
  x_get_ok i e : in_hash i -> fst (x_get i e) = x_view e i;
  x_get_view i e j : in_hash i -> x_view (snd (x_get i e)) j = x_view e j;
  x_put_view i v e j : in_hash i -> x_view (x_put i v e) j = if decide (j = i) then v else x_view e j;
  x_remove_view i e j : in_hash i -> x_view (x_remove i e) j = if decide (j = i) then [] else x_view e j }.

Module ydb_protocol.
Definition OK : Z := 0.
Definition RPCERR : Z := 1.
Definition ABORT : Z := 2.
Definition TRANSIDINV : Z := 3.
End ydb_protocol.

(** ** Keys *)

(** [h = key[i] + h * 31] in 64 bits, over the [uint32_t] length of the key. *)
Definition hash_step (h : Z) (c : byte) : Z := u64 (char_val c + h * 31).

Definition hash (key : bytes) : Z :=
  foldl hash_step 0 (take (Z.to_nat (u32 (Z.of_nat (length key)))) key) mod HASHSIZE.

(** A [std::map] is walked in the order of its keys. *)
Definition key_le (p q : Z * bytes) : Prop := fst p <= fst q.
#[export] Instance key_le_dec p q : Decision (key_le p q) := Z_le_dec (fst p) (fst q).

Definition entries (m : gmap Z bytes) : list (Z * bytes) :=
  merge_sort key_le (map_to_list m).

Definition INT_MAX : Z := 2 ^ 31 - 1.

(** ** ydb_server: no transactions *)

Module base.
Section base.
Context {E : Type} `{!Extents E}.

Definition transaction_begin (e : E) : Z * E := (ydb_protocol.OK, e).
Definition transaction_commit (id : Z) (e : E) : Z * E := (ydb_protocol.OK, e).
Definition transaction_abort (id : Z) (e : E) : Z * E := (ydb_protocol.OK, e).

Definition get (id : Z) (key : bytes) (e : E) : Z * bytes * E :=
  let '(v, e') := x_get (hash key) e in (ydb_protocol.OK, v, e').

Definition set (id : Z) (key value : bytes) (e : E) : Z * E :=
  (ydb_protocol.OK, x_put (hash key) value e).

Definition del (id : Z) (key : bytes) (e : E) : Z * E :=
  (ydb_protocol.OK, x_remove (hash key) e).
End base.
End base.

(** ** What a transaction did, as its client saw it *)

Inductive top :=
  | TGet (ino : Z) (v : bytes)
  | TSet (ino : Z) (v : bytes)
  | TDel (ino : Z).

(** ** ydb_server_occ *)

Module occ.

Record Transaction_occ := { read_log : gmap Z bytes; write_log : gmap Z bytes }.

Record ydb_server_occ := {
  trans_id : Z;
  transactionInfos : gmap Z Transaction_occ }.

Definition new_ydb_server_occ : ydb_server_occ := {| trans_id := 0; transactionInfos := ∅ |}.

Definition set_info (id : Z) (t : Transaction_occ) (s : ydb_server_occ) : ydb_server_occ :=
  {| trans_id := trans_id s; transactionInfos := <[id := t]> (transactionInfos s) |}.
Definition erase_info (id : Z) (s : ydb_server_occ) : ydb_server_occ :=
  {| trans_id := trans_id s; transactionInfos := delete id (transactionInfos s) |}.

(** The three accesses of [transaction_begin] to the server, which holds no lock
    between them: it reads [trans_id], writes the incremented value back, and
    inserts the new record. *)
Definition begin_write (n : Z) (s : ydb_server_occ) : res ydb_server_occ :=
  if n =? INT_MAX then Crash Overflow else
  Ok {| trans_id := n + 1; transactionInfos := transactionInfos s |}.
Definition begin_insert (id : Z) (s : ydb_server_occ) : ydb_server_occ :=
  set_info id {| read_log := ∅; write_log := ∅ |} s.

(** The handler, when no other one runs in between. *)
Definition transaction_begin (s : ydb_server_occ) : res (Z * ydb_server_occ) :=
  let n := trans_id s in
  s' ← begin_write n s;
  Ok (n, begin_insert n s').

Definition transaction_abort (id : Z) (s : ydb_server_occ) : Z * ydb_server_occ :=
  match transactionInfos s !! id with
  | None => (ydb_protocol.TRANSIDINV, s)
  | Some _ => (ydb_protocol.OK, erase_info id s)
  end.

Definition set (id : Z) (key value : bytes) (s : ydb_server_occ) : Z * ydb_server_occ :=
  match transactionInfos s !! id with
  | None => (ydb_protocol.TRANSIDINV, s)
  | Some t => (ydb_protocol.OK,
      set_info id {| read_log := read_log t; write_log := <[hash key := value]> (write_log t) |} s)
  end.

Definition del (id : Z) (key : bytes) (s : ydb_server_occ) : Z * ydb_server_occ :=
  match transactionInfos s !! id with
  | None => (ydb_protocol.TRANSIDINV, s)
  | Some t => (ydb_protocol.OK,
      set_info id {| read_log := read_log t; write_log := <[hash key := []]> (write_log t) |} s)
  end.

(** Where a handler of [transaction_commit] that holds the lock [WRITESET]
    stands: the entries still to be validated, or still to be put. *)
Inductive commit_pc :=
  | Validate (l : list (Z * bytes))
  | Apply (l : list (Z * bytes)).

Section occ.
Context {E : Type} `{!Extents E}.

Definition get (id : Z) (key : bytes) (s : ydb_server_occ) (e : E) : Z * bytes * ydb_server_occ * E :=
  match transactionInfos s !! id with
  | None => (ydb_protocol.TRANSIDINV, [], s, e)
  | Some t =>
      let ino := hash key in
      match write_log t !! ino, read_log t !! ino with
      | Some w, _ => (ydb_protocol.OK, w, s, e)
      | None, Some r =>
          let '(v, e') := x_get ino e in
          if bool_decide (v = r) then (ydb_protocol.OK, v, s, e')
          else (ydb_protocol.ABORT, v, erase_info id s, e')
      | None, None =>
          let '(v, e') := x_get ino e in
          (ydb_protocol.OK, v,
           set_info id {| read_log := <[ino := v]> (read_log t); write_log := write_log t |} s, e')
      end
  end.

(** The lookup and [lc->acquire(WRITESET)]. *)
Definition commit_start (id : Z) (s : ydb_server_occ) : option commit_pc :=
  match transactionInfos s !! id with
  | None => None
  | Some t => Some (Validate (entries (read_log t)))
  end.

(** One iteration of the loop the handler is in, or the passage to the next
    one; [inr st] when it has released [WRITESET] and returned [st]. *)
Definition commit_step (id : Z) (p : commit_pc) (s : ydb_server_occ) (e : E) :
    (commit_pc + Z) * ydb_server_occ * E :=
  match p with
  | Validate ((i, r) :: l) =>
      let '(v, e') := x_get i e in
      if bool_decide (v = r) then (inl (Validate l), s, e')
      else (inr ydb_protocol.ABORT, erase_info id s, e')
  | Validate [] =>
      (inl (Apply (entries (default ∅ (write_log <$> transactionInfos s !! id)))), s, e)
  | Apply ((i, w) :: l) => (inl (Apply l), s, x_put i w e)
  | Apply [] => (inr ydb_protocol.OK, erase_info id s, e)
  end.

(** The whole handler, when no other one runs in between. *)
Fixpoint commit_run (fuel : nat) (id : Z) (p : commit_pc) (s : ydb_server_occ) (e : E) :
    option (Z * ydb_server_occ * E) :=
  match fuel with
  | O => None
  | S fuel' =>
      match commit_step id p s e with
      | (inl p', s', e') => commit_run fuel' id p' s' e'
      | (inr st, s', e') => Some (st, s', e')
      end
  end.

(** One step per entry of the two logs, and two for the ends of the loops. *)
Definition transaction_commit (id : Z) (s : ydb_server_occ) (e : E) : option (Z * ydb_server_occ * E) :=
  match commit_start id s with
  | None => Some (ydb_protocol.TRANSIDINV, s, e)
  | Some (Validate l) =>
      commit_run (length l + 2 + size (default ∅ (write_log <$> transactionInfos s !! id))) id (Validate l) s e
  | Some p => commit_run 0 id p s e
  end.

(** *** The server under interleaved handlers *)

(** Where a handler of [transaction_begin] stands: it has read [trans_id], or it
    has written it back and is about to insert the record. *)
Inductive begin_pc :=
  | HasRead (n : Z)
  | HasWritten (n : Z).

(** [o_begins] are the threads that run a handler of [transaction_begin];
    [o_commit] is the commit that holds [WRITESET]; [o_hist] and [o_done] record
    what the clients saw: the operations of each running transaction and those
    of the committed ones, in the order of their commits. *)
Record osys := {
  o_srv : ydb_server_occ;
  o_ext : E;
  o_begins : gmap nat begin_pc;
  o_commit : option (Z * commit_pc);
  o_hist : gmap Z (list top);
  o_done : list (list top) }.

Definition new_osys (e : E) : osys :=
  {| o_srv := new_ydb_server_occ; o_ext := e; o_begins := ∅; o_commit := None; o_hist := ∅; o_done := [] |}.

Inductive oevent :=
  | BeginRead (th : nat)
  | BeginWrite (th : nat)
  | BeginInsert (th : nat)
  | GetKey (id : Z) (key : bytes)
  | SetKey (id : Z) (key value : bytes)
  | DelKey (id : Z) (key : bytes)
  | AbortTx (id : Z)
  | Commit (id : Z)
  | CommitStep.

Definition committing (s : osys) (id : Z) : bool :=
  match o_commit s with Some (id', _) => bool_decide (id' = id) | None => false end.

Definition note (id : Z) (ok : bool) (op : top) (h : gmap Z (list top)) : gmap Z (list top) :=
  if ok then <[id := default [] (h !! id) ++ [op]]> h else h.

Definition ostep (s : osys) (ev : oevent) : option (res osys) :=
  match ev with
  | BeginRead th =>
      match o_begins s !! th with
      | None =>
          Some (Ok {| o_srv := o_srv s; o_ext := o_ext s; o_begins := <[th := HasRead (trans_id (o_srv s))]> (o_begins s);
                      o_commit := o_commit s; o_hist := o_hist s; o_done := o_done s |})
      | Some _ => None
      end
  | BeginWrite th =>
      match o_begins s !! th with
      | Some (HasRead n) => Some (
          srv ← begin_write n (o_srv s);
          Ok {| o_srv := srv; o_ext := o_ext s; o_begins := <[th := HasWritten n]> (o_begins s);
                o_commit := o_commit s; o_hist := o_hist s; o_done := o_done s |})
      | _ => None
      end
  | BeginInsert th =>
      match o_begins s !! th with
      | Some (HasWritten n) =>
          Some (Ok {| o_srv := begin_insert n (o_srv s); o_ext := o_ext s; o_begins := delete th (o_begins s);
                      o_commit := o_commit s; o_hist := <[n := []]> (o_hist s); o_done := o_done s |})
      | _ => None
      end
  | GetKey id key =>
      if committing s id then None else
      let '(st, v, srv, e) := get id key (o_srv s) (o_ext s) in
      Some (Ok {| o_srv := srv; o_ext := e; o_begins := o_begins s; o_commit := o_commit s;
                  o_hist := note id (st =? ydb_protocol.OK) (TGet (hash key) v) (o_hist s); o_done := o_done s |})
  | SetKey id key value =>
      if committing s id then None else
      let '(st, srv) := set id key value (o_srv s) in
      Some (Ok {| o_srv := srv; o_ext := o_ext s; o_begins := o_begins s; o_commit := o_commit s;
                  o_hist := note id (st =? ydb_protocol.OK) (TSet (hash key) value) (o_hist s); o_done := o_done s |})
  | DelKey id key =>
      if committing s id then None else
      let '(st, srv) := del id key (o_srv s) in
      Some (Ok {| o_srv := srv; o_ext := o_ext s; o_begins := o_begins s; o_commit := o_commit s;
                  o_hist := note id (st =? ydb_protocol.OK) (TDel (hash key)) (o_hist s); o_done := o_done s |})
  | AbortTx id =>
      if committing s id then None else
      let '(st, srv) := transaction_abort id (o_srv s) in
      Some (Ok {| o_srv := srv; o_ext := o_ext s; o_begins := o_begins s; o_commit := o_commit s;
                  o_hist := o_hist s; o_done := o_done s |})
  | Commit id =>
      match o_commit s, commit_start id (o_srv s) with
      | None, Some p => Some (Ok {| o_srv := o_srv s; o_ext := o_ext s; o_begins := o_begins s;
                                    o_commit := Some (id, p);
                                    o_hist := o_hist s; o_done := o_done s |})
      | None, None => Some (Ok s)
      | Some _, _ => None
      end
  | CommitStep =>
      match o_commit s with
      | None => None
      | Some (id, p) =>
          let '(r, srv, e) := commit_step id p (o_srv s) (o_ext s) in
          Some (Ok {| o_srv := srv; o_ext := e; o_begins := o_begins s;
                      o_commit := match r with inl p' => Some (id, p') | inr _ => None end;
                      o_hist := o_hist s;
                      o_done := match p with
                                | Validate [] => o_done s ++ [default [] (o_hist s !! id)]
                                | _ => o_done s
                                end |})
      end
  end.

(** Two evaluations of [trans_id++] overlap when one reads between the read and
    the write of the other: both then get the same number
    ([YdbOcc.overlapping_begins_share_id]).  [apart] says that this step is not
    such a read. *)
Definition is_read (b : begin_pc) : bool := match b with HasRead _ => true | HasWritten _ => false end.
Definition apart (s : osys) (ev : oevent) : bool :=
  match ev with
  | BeginRead _ => bool_decide (map_Forall (fun _ b => is_read b = false) (o_begins s))
  | _ => true
  end.

(** The states of the runs in which no two increments overlap. *)
Inductive oreach (e0 : E) : osys -> Prop :=
  | oreach_init : oreach e0 (new_osys e0)
  | oreach_step s ev s' : oreach e0 s -> apart s ev = true -> ostep s ev = Some (Ok s') -> oreach e0 s'.
End occ.
Arguments osys E : clear implicits.
End occ.

(** ** ydb_server_2pl *)

Module two_pl.

Definition REMOVESTRING : bytes := str "to->Remove".

Record Transaction := { locks : gset Z; log : gmap Z bytes }.

(** [dependency]: the pairs [(x, y)] with [dependency[x][y]] true, "x waits for
    y". *)
Record ydb_server_2pl := {
  dependency : gset (Z * Z);
  trans_id : Z;
  transactionInfos : gmap Z Transaction;
  lock_handlers : gmap Z Z }.

Definition new_ydb_server_2pl : ydb_server_2pl :=
  {| dependency := ∅; trans_id := 0; transactionInfos := ∅; lock_handlers := ∅ |}.

Definition set_dependency (d : gset (Z * Z)) (s : ydb_server_2pl) : ydb_server_2pl :=
  {| dependency := d; trans_id := trans_id s; transactionInfos := transactionInfos s; lock_handlers := lock_handlers s |}.
Definition set_infos (m : gmap Z Transaction) (s : ydb_server_2pl) : ydb_server_2pl :=
  {| dependency := dependency s; trans_id := trans_id s; transactionInfos := m; lock_handlers := lock_handlers s |}.
Definition set_handlers (m : gmap Z Z) (s : ydb_server_2pl) : ydb_server_2pl :=
  {| dependency := dependency s; trans_id := trans_id s; transactionInfos := transactionInfos s; lock_handlers := m |}.

(** An index of the array [bool dependency[INODE_NUM][INODE_NUM]]. *)
Definition in_array (i : Z) : bool := (0 <=? i) && (i <? INODE_NUM).

Definition cell (s : ydb_server_2pl) (i j : Z) : res bool :=
  if in_array i && in_array j then Ok (bool_decide ((i, j) ∈ dependency s)) else Crash OutOfBounds.

(** The loop of [dfs]; [rec] is the recursive call. *)
Fixpoint dfs_loop (rec : Z -> res bool) (s : ydb_server_2pl) (id1 : Z) (is_ : list Z) : res bool :=
  match is_ with
  | [] => Ok false
  | i :: is' =>
      b ← cell s id1 i;
      if b && negb (bool_decide (i = id1)) then
        flag ← rec i;
        if flag : bool then Ok true else dfs_loop rec s id1 is'
      else dfs_loop rec s id1 is'
  end.

Fixpoint dfs (fuel : nat) (s : ydb_server_2pl) (id1 id2 : Z) : res bool :=
  match fuel with
  | O => Crash NoFuel
  | S fuel' =>
      if bool_decide (id1 = id2) then Ok true
      else dfs_loop (fun i => dfs fuel' s i id2) s id1 (seqZ 0 (trans_id s))
  end.

(** A path of the wait-for graph visits each transaction at most once. *)
Definition dfs_fuel (s : ydb_server_2pl) : nat := S (Z.to_nat (trans_id s)).

(** [checkCycle], under the lock [DEPENDENCY]. *)
Definition checkCycle (id ino : Z) (s : ydb_server_2pl) : res (bool * ydb_server_2pl) :=
  match lock_handlers s !! ino with
  | None => Ok (false, s)
  | Some id2 =>
      if trans_id s <=? id2 then Crash AssertFail else
      b ← dfs (dfs_fuel s) s id2 id;
      if b : bool then Ok (true, s)
      else if in_array id && in_array id2 then Ok (false, set_dependency ({[(id, id2)]} ∪ dependency s) s)
      else Crash OutOfBounds
  end.

(** [dependency[id][i] = dependency[i][id] = false] for every [i < trans_id]. *)
Definition clear_dependency (id : Z) (s : ydb_server_2pl) : res ydb_server_2pl :=
  if (trans_id s <=? 0) || (in_array id && (trans_id s <=? INODE_NUM)) then
    Ok (set_dependency (filter (fun p : Z * Z =>
      ~ ((fst p = id /\ 0 <= snd p < trans_id s) \/ (snd p = id /\ 0 <= fst p < trans_id s))) (dependency s)) s)
  else Crash OutOfBounds.

(** [lc] is the lock service, as the set of the locks that are taken: [release]
    gives a lock free, whoever holds it. *)
Definition release_locks (id : Z) (s : ydb_server_2pl) (lc : gset Z) : res (ydb_server_2pl * gset Z) :=
  match transactionInfos s !! id with
  | None => Crash AssertFail
  | Some t =>
      s' ← clear_dependency id s;
      Ok (set_infos (delete id (transactionInfos s'))
            (set_handlers (filter (fun p => fst p ∉ locks t) (lock_handlers s')) s'), lc ∖ locks t)
  end.

(** [trans_id++], under the lock [TRANSBEGIN], and the insertion, under none. *)
Definition begin_id (s : ydb_server_2pl) : res (Z * ydb_server_2pl) :=
  if trans_id s =? INT_MAX then Crash Overflow else
  Ok (trans_id s, {| dependency := dependency s; trans_id := trans_id s + 1;
                     transactionInfos := transactionInfos s; lock_handlers := lock_handlers s |}).
Definition begin_insert (id : Z) (s : ydb_server_2pl) : ydb_server_2pl :=
  set_infos (<[id := {| locks := ∅; log := ∅ |}]> (transactionInfos s)) s.

Definition transaction_begin (s : ydb_server_2pl) : res (Z * ydb_server_2pl) :=
  '(id, s') ← begin_id s;
  Ok (id, begin_insert id s').

Definition transaction_abort (id : Z) (s : ydb_server_2pl) (lc : gset Z) : res (Z * ydb_server_2pl * gset Z) :=
  match transactionInfos s !! id with
  | None => Ok (ydb_protocol.TRANSIDINV, s, lc)
  | Some _ => '(s', lc') ← release_locks id s lc; Ok (ydb_protocol.OK, s', lc')
  end.

(** The three data operations. *)
Inductive op :=
  | OGet
  | OSet (v : bytes)
  | ODel.

Definition set_log (id : Z) (t : Transaction) (ino : Z) (v : bytes) (s : ydb_server_2pl) : ydb_server_2pl :=
  set_infos (<[id := {| locks := locks t; log := <[ino := v]> (log t) |}]> (transactionInfos s)) s.

(** The operation on an inode whose lock the transaction has: the entry of the
    log is read or replaced. *)
Definition held (id ino : Z) (o : op) (t : Transaction) (s : ydb_server_2pl) : res (bytes * ydb_server_2pl) :=
  match log t !! ino with
  | None => Crash AssertFail
  | Some v =>
      match o with
      | OGet => Ok (v, s)
      | OSet w => Ok ([], set_log id t ino w s)
      | ODel => Ok ([], set_log id t ino REMOVESTRING s)
      end
  end.

Inductive reply :=
  | Finished (st : Z) (out : bytes)
  | Blocked (ino : Z)
  | Cyclic.

(** A data operation up to its return, to [lc->acquire(ino)] or to
    [release_locks(id)]. *)
Definition access (id : Z) (o : op) (key : bytes) (s : ydb_server_2pl) : res (reply * ydb_server_2pl) :=
  match transactionInfos s !! id with
  | None => Ok (Finished ydb_protocol.TRANSIDINV [], s)
  | Some t =>
      let ino := hash key in
      if bool_decide (ino ∈ locks t) then
        '(out, s') ← held id ino o t s; Ok (Finished ydb_protocol.OK out, s')
      else
        '(cycle, s') ← checkCycle id ino s;
        if cycle : bool then Ok (Cyclic, s') else Ok (Blocked ino, s')
  end.

Definition get (id : Z) (key : bytes) := access id OGet key.
Definition set (id : Z) (key value : bytes) := access id (OSet value) key.
Definition del (id : Z) (key : bytes) := access id ODel key.

(** A data operation that waits for the lock of [ino]; that has got it; that has
    recorded it in [lock_handlers] and in [locks]; a [get] that has its value
    from the extent server; an operation that found a cycle and is about to
    release the locks. *)
Inductive pc :=
  | WaitLock (ino : Z) (o : op)
  | HasLock (ino : Z) (o : op)
  | Recorded (ino : Z) (o : op)
  | Fetched (ino : Z) (v : bytes)
  | Victim.

Definition record_lock (id ino : Z) (s : ydb_server_2pl) : ydb_server_2pl :=
  let t := default {| locks := ∅; log := ∅ |} (transactionInfos s !! id) in
  set_infos (<[id := {| locks := {[ino]} ∪ locks t; log := log t |}]> (transactionInfos s))
    (set_handlers (<[ino := id]> (lock_handlers s)) s).
Definition put_log (id ino : Z) (v : bytes) (s : ydb_server_2pl) : ydb_server_2pl :=
  set_log id (default {| locks := ∅; log := ∅ |} (transactionInfos s !! id)) ino v s.

Section two_pl.
Context {E : Type} `{!Extents E}.

(** One step of the rest of a data operation, once [lc->acquire(ino)] has
    returned: what it does next, or what it did when it returns. *)
Definition granted (id : Z) (p : pc) (s : ydb_server_2pl) (e : E) : option ((pc + top) * ydb_server_2pl * E) :=
  match p with
  | HasLock ino o => Some (inl (Recorded ino o), record_lock id ino s, e)
  | Recorded ino OGet => let '(v, e') := x_get ino e in Some (inl (Fetched ino v), s, e')
  | Recorded ino (OSet w) => Some (inr (TSet ino w), put_log id ino w s, e)
  | Recorded ino ODel => Some (inr (TDel ino), put_log id ino REMOVESTRING s, e)
  | Fetched ino v => Some (inr (TGet ino v), put_log id ino v s, e)
  | WaitLock _ _ | Victim => None
  end.

(** One iteration of the loop of [transaction_commit], under [DEPENDENCY]. *)
Definition commit_item (i : Z) (v : bytes) (s : ydb_server_2pl) (lc : gset Z) (e : E) : ydb_server_2pl * gset Z * E :=
  let e' := if bool_decide (v = REMOVESTRING) then x_remove i e else x_put i v e in
  (set_handlers (delete i (lock_handlers s)) s, lc ∖ {[i]}, e').

(** The end of [transaction_commit]. *)
Definition commit_end (id : Z) (s : ydb_server_2pl) : res ydb_server_2pl :=
  s' ← clear_dependency id s; Ok (set_infos (delete id (transactionInfos s')) s').

(** *** The server under interleaved handlers *)

(** [t_begins] are the numbers drawn by handlers of [transaction_begin] that have
    still to insert them; [t_commit] is the commit that holds [DEPENDENCY] and the entries of the log
    it has still to write; [t_hist] and [t_done] are as for [occ.osys]. *)
Record tsys := {
  t_srv : ydb_server_2pl;
  t_lc : gset Z;
  t_ext : E;
  t_begins : gset Z;
  t_pc : gmap Z pc;
  t_commit : option (Z * list (Z * bytes));
  t_hist : gmap Z (list top);
  t_done : list (list top) }.

Definition new_tsys (e : E) : tsys :=
  {| t_srv := new_ydb_server_2pl; t_lc := ∅; t_ext := e; t_begins := ∅; t_pc := ∅; t_commit := None; t_hist := ∅; t_done := [] |}.

Inductive tevent :=
  | Begin
  | BeginInsert (id : Z)
  | Access (id : Z) (o : op) (key : bytes)
  | Acquire (id : Z)
  | Granted (id : Z)
  | Abandon (id : Z)
  | AbortTx (id : Z)
  | Commit (id : Z)
  | CommitStep.

(** The transaction is inside a handler. *)
Definition in_call (s : tsys) (id : Z) : bool :=
  bool_decide (is_Some (t_pc s !! id)) ||
  match t_commit s with Some (id', _) => bool_decide (id' = id) | None => false end.

Definition top_of (o : op) (ino : Z) (out : bytes) : top :=
  match o with OGet => TGet ino out | OSet v => TSet ino v | ODel => TDel ino end.

Definition note (id : Z) (t : top) (h : gmap Z (list top)) : gmap Z (list top) :=
  <[id := default [] (h !! id) ++ [t]]> h.

(** [DEPENDENCY] is needed by an operation on an inode not locked yet. *)
Definition needs_dependency (s : tsys) (id ino : Z) : bool :=
  match transactionInfos (t_srv s) !! id with
  | Some t => negb (bool_decide (ino ∈ locks t))
  | None => false
  end.

Definition tstep (s : tsys) (ev : tevent) : option (res tsys) :=
  match ev with
  | Begin => Some (
      '(id, srv) ← begin_id (t_srv s);
      Ok {| t_srv := srv; t_lc := t_lc s; t_ext := t_ext s; t_begins := {[id]} ∪ t_begins s; t_pc := t_pc s;
            t_commit := t_commit s; t_hist := t_hist s; t_done := t_done s |})
  | BeginInsert id =>
      if bool_decide (id ∈ t_begins s) then
        Some (Ok {| t_srv := begin_insert id (t_srv s); t_lc := t_lc s; t_ext := t_ext s;
                    t_begins := t_begins s ∖ {[id]}; t_pc := t_pc s; t_commit := t_commit s;
                    t_hist := <[id := []]> (t_hist s); t_done := t_done s |})
      else None
  | Access id o key =>
      if in_call s id || (bool_decide (is_Some (t_commit s)) && needs_dependency s id (hash key)) then None else
      Some (
        '(r, srv) ← access id o key (t_srv s);
        Ok {| t_srv := srv; t_lc := t_lc s; t_ext := t_ext s; t_begins := t_begins s;
              t_pc := match r with
                      | Blocked ino => <[id := WaitLock ino o]> (t_pc s)
                      | Cyclic => <[id := Victim]> (t_pc s)
                      | Finished _ _ => t_pc s
                      end;
              t_commit := t_commit s;
              t_hist := match r with
                        | Finished st out => if st =? ydb_protocol.OK
                                             then note id (top_of o (hash key) out) (t_hist s) else t_hist s
                        | Blocked _ | Cyclic => t_hist s
                        end;
              t_done := t_done s |})
  | Acquire id =>
      match t_pc s !! id with
      | Some (WaitLock ino o) =>
          if bool_decide (ino ∈ t_lc s) then None else
          Some (Ok {| t_srv := t_srv s; t_lc := {[ino]} ∪ t_lc s; t_ext := t_ext s; t_begins := t_begins s;
                      t_pc := <[id := HasLock ino o]> (t_pc s); t_commit := t_commit s;
                      t_hist := t_hist s; t_done := t_done s |})
      | _ => None
      end
  | Granted id =>
      p ← t_pc s !! id;
      '(r, srv, e) ← granted id p (t_srv s) (t_ext s);
      Some (Ok {| t_srv := srv; t_lc := t_lc s; t_ext := e; t_begins := t_begins s;
                  t_pc := match r with inl p' => <[id := p']> (t_pc s) | inr _ => delete id (t_pc s) end;
                  t_commit := t_commit s;
                  t_hist := match r with inl _ => t_hist s | inr t => note id t (t_hist s) end;
                  t_done := t_done s |})
  | Abandon id =>
      match t_pc s !! id, t_commit s with
      | Some Victim, None => Some (
          '(srv, lc) ← release_locks id (t_srv s) (t_lc s);
          Ok {| t_srv := srv; t_lc := lc; t_ext := t_ext s; t_begins := t_begins s; t_pc := delete id (t_pc s);
                t_commit := t_commit s; t_hist := t_hist s; t_done := t_done s |})
      | _, _ => None
      end
  | AbortTx id =>
      if in_call s id || bool_decide (is_Some (t_commit s)) then None else
      Some (
        '(st, srv, lc) ← transaction_abort id (t_srv s) (t_lc s);
        Ok {| t_srv := srv; t_lc := lc; t_ext := t_ext s; t_begins := t_begins s; t_pc := t_pc s;
              t_commit := t_commit s; t_hist := t_hist s; t_done := t_done s |})
  | Commit id =>
      if in_call s id || bool_decide (is_Some (t_commit s)) then None else
      match transactionInfos (t_srv s) !! id with
      | None => Some (Ok s)
      | Some t =>
          Some (Ok {| t_srv := t_srv s; t_lc := t_lc s; t_ext := t_ext s; t_begins := t_begins s; t_pc := t_pc s;
                      t_commit := Some (id, entries (log t)); t_hist := t_hist s;
                      t_done := t_done s ++ [default [] (t_hist s !! id)] |})
      end
  | CommitStep =>
      match t_commit s with
      | None => None
      | Some (id, (i, v) :: l) =>
          let '(srv, lc, e) := commit_item i v (t_srv s) (t_lc s) (t_ext s) in
          Some (Ok {| t_srv := srv; t_lc := lc; t_ext := e; t_begins := t_begins s; t_pc := t_pc s; t_commit := Some (id, l);
                      t_hist := t_hist s; t_done := t_done s |})
      | Some (id, []) => Some (
          srv ← commit_end id (t_srv s);
          Ok {| t_srv := srv; t_lc := t_lc s; t_ext := t_ext s; t_begins := t_begins s; t_pc := t_pc s; t_commit := None;
                t_hist := t_hist s; t_done := t_done s |})
      end
  end.

Inductive treach (e0 : E) : tsys -> Prop :=
  | treach_init : treach e0 (new_tsys e0)
  | treach_step s ev s' : treach e0 s -> tstep s ev = Some (Ok s') -> treach e0 s'.
End two_pl.
Arguments tsys E : clear implicits.
End two_pl.

(** ** ydb_client *)

Module ydb_client.

Definition INVALID_TRANSID : Z := -1.

(** A method returns a value or throws a status. *)
Inductive outcome (A : Type) :=
  | Ret (a : A)
  | Throw (st : Z).
Arguments Ret {A} a.
Arguments Throw {A} st.

Section client.
(** The server behind the RPC layer: each call returns a status and a reply. *)
Context {W : Type}.
Variable call_begin : W -> Z * Z * W.
Variable call_commit : Z -> W -> Z * W.
Variable call_abort : Z -> W -> Z * W.
Variable call_get : Z -> bytes -> W -> Z * bytes * W.
Variable call_set : Z -> bytes -> bytes -> W -> Z * W.
Variable call_del : Z -> bytes -> W -> Z * W.

(** The state is [current_transaction] with the server. *)
Definition client := (Z * W)%type.

Definition transaction_begin (c : client) : outcome unit * client :=
  let '(cur, w) := c in
  if negb (cur =? INVALID_TRANSID) then (Throw ydb_protocol.TRANSIDINV, c) else
  let '(ret, transid, w') := call_begin w in
  if negb (ret =? ydb_protocol.OK) then (Throw ret, (INVALID_TRANSID, w')) else (Ret tt, (transid, w')).

Definition transaction_commit (c : client) : outcome unit * client :=
  let '(cur, w) := c in
  let '(ret, w') := call_commit cur w in
  (if negb (ret =? ydb_protocol.OK) then Throw ret else Ret tt, (INVALID_TRANSID, w')).

Definition transaction_abort (c : client) : outcome unit * client :=
  let '(cur, w) := c in
  let '(ret, w') := call_abort cur w in
  (if negb (ret =? ydb_protocol.OK) then Throw ret else Ret tt, (INVALID_TRANSID, w')).

Definition get (key : bytes) (c : client) : outcome bytes * client :=
  let '(cur, w) := c in
  let '(ret, value, w') := call_get cur key w in
  if negb (ret =? ydb_protocol.OK) then (Throw ret, (INVALID_TRANSID, w')) else (Ret value, (cur, w')).

Definition set (key value : bytes) (c : client) : outcome unit * client :=
  let '(cur, w) := c in
  let '(ret, w') := call_set cur key value w in
  if negb (ret =? ydb_protocol.OK) then (Throw ret, (INVALID_TRANSID, w')) else (Ret tt, (cur, w')).

Definition del (key : bytes) (c : client) : outcome unit * client :=
  let '(cur, w) := c in
  let '(ret, w') := call_del cur key w in
  if negb (ret =? ydb_protocol.OK) then (Throw ret, (INVALID_TRANSID, w')) else (Ret tt, (cur, w')).
End client.
End ydb_client.
