(* ===== verification/YdbSpec.v ===== *)
(** * What a transactional store promises

    The abstract specification the two transactional servers of Ydb.v are
    verified against: transactions run one after the other, each as a whole, on
    a store of one string per inode; every [get] of a transaction returned the
    value the serial run gives.  [tomb] is the string a server writes into its
    log for a deleted key; when the transaction commits it becomes the empty
    string. *)

From S2P Require Import Prelude Disk Ydb.

Definition upd (v : Z -> bytes) (i : Z) (x : bytes) : Z -> bytes :=
  fun j => if decide (j = i) then x else v j.

(** The store [v] with the entries of a log over it. *)
Definition overlay (m : gmap Z bytes) (v : Z -> bytes) : Z -> bytes :=
  fun i => default (v i) (m !! i).

Section spec.
Variable tomb : bytes.

Definition clean (x : bytes) : bytes := if decide (x = tomb) then [] else x.

(** The operations of a transaction on its view of the store; [None] if a [get]
    returned something else than the view has. *)
Definition tx_step (v : Z -> bytes) (o : top) : option (Z -> bytes) :=
  match o with
  | TGet i x => if decide (v i = x) then Some v else None
  | TSet i x => Some (upd v i x)
  | TDel i => Some (upd v i tomb)
  end.

Fixpoint tx_exec (v : Z -> bytes) (ops : list top) : option (Z -> bytes) :=
  match ops with
  | [] => Some v
  | o :: ops' => v' ← tx_step v o; tx_exec v' ops'
  end.

(** A serial run of transactions. *)
Fixpoint serial (v : Z -> bytes) (txs : list (list top)) : option (Z -> bytes) :=
  match txs with
  | [] => Some v
  | t :: txs' => l ← tx_exec v t; serial (fun i => clean (l i)) txs'
  end.

Lemma tx_exec_snoc v ops o : tx_exec v (ops ++ [o]) = tx_exec v ops ≫= fun l => tx_step l o.
Proof.
  revert v. induction ops as [|a ops IH]; intros v; simpl; [by destruct (tx_step v o)|].
  destruct (tx_step v a); [apply IH | done].
Qed.

Lemma serial_snoc v txs t :
  serial v (txs ++ [t]) = serial v txs ≫= fun v' => l ← tx_exec v' t; Some (fun i => clean (l i)).
Proof.
  revert v. induction txs as [|a txs IH]; intros v; simpl; [by destruct (tx_exec v t)|].
  destruct (tx_exec v a); [apply IH | done].
Qed.

(** The log [w] stands for the operations [h] on every store that [A] allows. *)
Definition logged (A : (Z -> bytes) -> Prop) (w : gmap Z bytes) (h : list top) : Prop :=
  forall v, A v -> exists l, tx_exec v h = Some l /\ forall i, l i = overlay w v i.

Section logged.
Context (A B : (Z -> bytes) -> Prop) (w : gmap Z bytes) (h : list top).
Hypothesis Hl : logged A w h.
Hypothesis HAB : forall v, B v -> A v.

Lemma logged_mono : logged B w h.
Proof. intros v Hv. auto. Qed.

(** A [get] that finds [x] in the log or, through [B], in the store. *)
Lemma logged_get i x : (forall v, B v -> overlay w v i = x) -> logged B w (h ++ [TGet i x]).
Proof using HAB Hl.
  intros Hx v Hv. destruct (Hl v (HAB v Hv)) as (l & He & Ho). exists l.
  rewrite tx_exec_snoc, He. simpl. split; [|done]. rewrite decide_True; [done|]. by rewrite Ho, Hx.
Qed.

Lemma logged_put o i x : (forall v, tx_step v o = Some (upd v i x)) -> logged B (<[i := x]> w) (h ++ [o]).
Proof using HAB Hl.
  intros Hs v Hv. destruct (Hl v (HAB v Hv)) as (l & He & Ho). exists (upd l i x).
  rewrite tx_exec_snoc, He. simpl. split; [by rewrite Hs|]. intros j. unfold upd, overlay in *.
  rewrite lookup_insert. repeat case_decide; subst; done.
Qed.
End logged.

(** Copying what the store has into the log changes nothing. *)
Lemma logged_copy A w h i x : logged A w h -> (forall v, A v -> overlay w v i = x) -> logged A (<[i := x]> w) h.
Proof.
  intros Hl Hx v Hv. destruct (Hl v Hv) as (l & He & Ho). exists l. split; [done|]. intros j.
  rewrite Ho. unfold overlay in *. rewrite lookup_insert. case_decide; [subst|done]. simpl.
  by rewrite Hx.
Qed.

Lemma logged_nil A : logged A ∅ [].
Proof. intros v _. exists v. split; [done|]. intros i. unfold overlay. by rewrite lookup_empty. Qed.

(** The transaction can be appended to a serial run. *)
Lemma logged_commit A w h v0 txs v :
  logged A w h -> A v -> serial v0 txs = Some v ->
  exists v', serial v0 (txs ++ [h]) = Some v' /\ forall i, v' i = clean (overlay w v i).
Proof.
  intros Hl Hv Hs. destruct (Hl v Hv) as (l & He & Ho). eexists. rewrite serial_snoc, Hs. simpl.
  rewrite He. simpl. split; [done|]. intros i. simpl. by rewrite Ho.
Qed.
End spec.

(** With the empty string as tombstone nothing is cleaned. *)
Lemma clean_nil x : clean [] x = x.
Proof. unfold clean. by case_decide. Qed.

(** *** Deletion without a tombstone

    [serial []] is the specification in which a deleted key is empty at once.
    The transactions that neither read nor write the tombstone cannot tell it
    from [serial tomb]. *)
Definition no_tomb (tomb : bytes) (o : top) : Prop :=
  match o with TGet _ x | TSet _ x => x <> tomb | TDel _ => True end.

Lemma tx_exec_plain tomb ops : Forall (no_tomb tomb) ops -> forall v w l,
  (forall i, w i = clean tomb (v i)) -> tx_exec tomb v ops = Some l ->
  exists m, tx_exec [] w ops = Some m /\ forall i, m i = clean tomb (l i).
Proof.
  induction 1 as [|o ops Ho _ IH]; intros v w l Hw He; simpl in *; [simplify_eq; eauto|].
  destruct o as [i x|i x|i]; simpl in *.
  - case_decide as Hx; [|done]. rewrite decide_True; [by eapply IH|]. rewrite Hw, Hx. unfold clean. by rewrite decide_False.
  - eapply IH; [|exact He]. intros j. unfold upd, clean in *. case_decide; [|apply Hw]. by rewrite decide_False.
  - eapply IH; [|exact He]. intros j. unfold upd, clean in *. case_decide; [|apply Hw]. by rewrite decide_True.
Qed.

Lemma serial_plain tomb txs : Forall (Forall (no_tomb tomb)) txs -> forall v w f,
  (forall i, w i = v i) -> (forall i, v i <> tomb) -> tomb <> [] -> serial tomb v txs = Some f ->
  exists g, serial [] w txs = Some g /\ forall i, g i = f i.
Proof.
  induction 1 as [|t txs Ht _ IH]; intros v w f Hw Hv Hne Hs; simpl in *; [simplify_eq; eauto|].
  destruct (tx_exec tomb v t) as [l|] eqn:He; [|done]. simpl in Hs.
  destruct (tx_exec_plain tomb t Ht v w l) as (m & -> & Hm); [|done|].
  { intros i. rewrite Hw. unfold clean. by rewrite decide_False by apply Hv. }
  eapply IH; [|  |exact Hne|exact Hs].
  - intros i. by rewrite clean_nil.
  - intros i. unfold clean. by case_decide; [apply not_eq_sym|].
Qed.

(** ** The entries of a log *)

Lemma entries_perm m : entries m ≡ₚ map_to_list m.
Proof. apply merge_sort_Permutation. Qed.

Lemma elem_of_entries m i x : (i, x) ∈ entries m <-> m !! i = Some x.
Proof. rewrite entries_perm. apply elem_of_map_to_list. Qed.

Lemma NoDup_entries m : NoDup (entries m).*1.
Proof. rewrite entries_perm. apply NoDup_fst_map_to_list. Qed.

Lemma entries_to_map m : list_to_map (entries m) = m.
Proof.
  rewrite <- (list_to_map_to_list m) at 2. apply list_to_map_proper; [apply NoDup_entries | apply entries_perm].
Qed.

Lemma overlay_cons i x l v j : i ∉ l.*1 ->
  overlay (list_to_map ((i, x) :: l)) v j = overlay (list_to_map l) (upd v i x) j.
Proof.
  intros Hi. unfold overlay, upd. simpl. rewrite lookup_insert. destruct (decide (j = i)) as [->|Hj].
  - rewrite decide_True by done. by rewrite not_elem_of_list_to_map_1.
  - by rewrite decide_False by done.
Qed.

Lemma overlay_nil v i : overlay (list_to_map []) v i = v i.
Proof. unfold overlay. simpl. by rewrite lookup_empty. Qed.

Lemma overlay_ext m v v' i : v i = v' i -> overlay m v i = overlay m v' i.
Proof. unfold overlay. by intros ->. Qed.

(** ** A concrete extent service

    A map from extent numbers to strings; the closed runs use it. *)

#[export] Instance map_extents : Extents (gmap Z bytes) := {|
  x_get i e := (default [] (e !! i), e);
  x_put i v e := <[i := v]> e;
  x_remove i e := delete i e |}.

#[export, refine] Instance map_extents_ok : ExtentsOk (gmap Z bytes) := {| x_view e i := default [] (e !! i) |}.
Proof.
  - done.
  - done.
  - intros i v e j _. simpl. rewrite lookup_insert. repeat case_decide; subst; done.
  - intros i e j _. simpl. rewrite lookup_delete. repeat case_decide; subst; done.
Defined.

(** ** Keys *)

Lemma hash_range key : in_hash (hash key).
Proof. unfold in_hash, hash. apply Z.mod_pos_bound. done. Qed.
#[export] Hint Resolve hash_range : core.

(** ** The store without transactions *)

Section base.
Context {E : Type} `{!Extents E} `{!ExtentsOk E}.

(** What a [get] of the key returns. *)
Definition value_of (key : bytes) (e : E) : bytes := snd (fst (base.get 0 key e)).

Lemma base_set_get k k' v e id :
  value_of k' (snd (base.set id k v e)) = if decide (hash k' = hash k) then v else value_of k' e.
Proof.
  assert (forall e', value_of k' e' = x_view e' (hash k')) as Hv.
  { intros e'. unfold value_of, base.get. pose proof (x_get_ok (hash k') e' (hash_range k')). by destruct (x_get (hash k') e'). }
  rewrite !Hv. simpl. apply x_put_view, hash_range.
Qed.

(** Keys are known by their hash alone: different keys share their value. *)
Lemma hash_collision : exists k k', k <> k' /\ forall v e, value_of k' (snd (base.set 0 k v e)) = v.
Proof.
  exists (str "Aa"), (str "BB"). split; [discriminate|]. intros v e. rewrite base_set_get.
  rewrite decide_True; [done|]. vm_compute. reflexivity.
Qed.
End base.
