(* ===== verification/YdbOcc.v ===== *)
(** * The optimistic server is serialisable

    Ydb.occ against YdbSpec: in every interleaving of the handlers in which no
    two increments of [trans_id] overlap, the commits one extent operation at a
    time, the store is what a serial run of the committed transactions leaves,
    and every [get] of a committed transaction returned what that serial run
    gives. *)

From S2P Require Import Prelude Disk Ydb YdbSpec.
Import occ.

Section occ_correct.
Context {E : Type} `{!Extents E} `{!ExtentsOk E}.
Implicit Types (e : E) (s : osys E).

(** The store has the values the transaction has read. *)
Definition reads_hold (t : Transaction_occ) (v : Z -> bytes) : Prop :=
  forall i x, read_log t !! i = Some x -> v i = x.

Definition keys_in (m : gmap Z bytes) : Prop := forall i x, m !! i = Some x -> in_hash i.

Record tx_ok (t : Transaction_occ) (h : list top) : Prop := {
  to_logged : logged [] (reads_hold t) (write_log t) h;
  to_reads : keys_in (read_log t);
  to_writes : keys_in (write_log t) }.

Definition serial_to (e0 : E) (s : osys E) (f : Z -> bytes) : Prop :=
  exists v, serial [] (x_view e0) (o_done s) = Some v /\ forall i, v i = f i.

(** What holds of the commit in progress. *)
Definition commit_ok (e0 : E) (s : osys E) : Prop :=
  match o_commit s with
  | None => serial_to e0 s (x_view (o_ext s))
  | Some (id, Validate l) =>
      serial_to e0 s (x_view (o_ext s)) /\
      exists t, transactionInfos (o_srv s) !! id = Some t /\
        (forall i x, (i, x) ∈ l -> read_log t !! i = Some x) /\
        forall i x, read_log t !! i = Some x -> x_view (o_ext s) i = x \/ (i, x) ∈ l
  | Some (id, Apply l) =>
      serial_to e0 s (overlay (list_to_map l) (x_view (o_ext s))) /\ NoDup l.*1 /\
      forall i x, (i, x) ∈ l -> in_hash i
  end.

(** The handlers of [transaction_begin]: at most one is in its increment, and
    those past it have numbers of their own. *)
Record begins_ok (b : gmap nat begin_pc) (srv : ydb_server_occ) : Prop := {
  bo_read th n : b !! th = Some (HasRead n) -> n = trans_id srv;
  bo_one th th' n n' : b !! th = Some (HasRead n) -> b !! th' = Some (HasRead n') -> th = th';
  bo_fresh th n : b !! th = Some (HasWritten n) -> n < trans_id srv /\ transactionInfos srv !! n = None;
  bo_own th th' n : b !! th = Some (HasWritten n) -> b !! th' = Some (HasWritten n) -> th = th' }.

Record oinv (e0 : E) (s : osys E) : Prop := {
  oi_tx id t : transactionInfos (o_srv s) !! id = Some t -> tx_ok t (default [] (o_hist s !! id));
  oi_id id : is_Some (transactionInfos (o_srv s) !! id) -> id < trans_id (o_srv s);
  oi_begins : begins_ok (o_begins s) (o_srv s);
  oi_commit : commit_ok e0 s }.

Lemma keys_in_insert m i x : keys_in m -> in_hash i -> keys_in (<[i := x]> m).
Proof. intros Hm Hi j y. rewrite lookup_insert. case_decide; [by intros _; subst|]. apply Hm. Qed.

Lemma serial_to_ext e0 s f g : (forall i, f i = g i) -> serial_to e0 s f -> serial_to e0 s g.
Proof. intros Hfg (v & Hs & Hv). exists v. split; [done|]. intros i. by rewrite Hv. Qed.

(** A step that leaves the view, the commit and the committing transaction. *)
Lemma commit_ok_keep e0 s s' :
  commit_ok e0 s -> o_commit s' = o_commit s -> o_done s' = o_done s ->
  (forall i, x_view (o_ext s') i = x_view (o_ext s) i) ->
  (forall id l, o_commit s = Some (id, Validate l) -> transactionInfos (o_srv s') !! id = transactionInfos (o_srv s) !! id) ->
  commit_ok e0 s'.
Proof.
  unfold commit_ok, serial_to. intros Hc -> -> Hv Hi.
  destruct (o_commit s) as [[id [l|l]]|]; simpl in *.
  - destruct Hc as ((v & Hs & He) & t & Ht & Hl). split; [exists v; split; [done|]; intros; by rewrite Hv|].
    exists t. rewrite (Hi id l) by done. setoid_rewrite Hv. done.
  - destruct Hc as ((v & Hs & He) & Hn). split; [|done]. exists v. split; [done|]. intros i.
    rewrite He. by apply overlay_ext.
  - destruct Hc as (v & Hs & He). exists v. split; [done|]. intros. by rewrite Hv.
Qed.

(** A step that starts no transaction and leaves [trans_id]. *)
Lemma begins_ok_keep b srv srv' :
  begins_ok b srv -> trans_id srv' = trans_id srv ->
  (forall n, transactionInfos srv !! n = None -> transactionInfos srv' !! n = None) -> begins_ok b srv'.
Proof.
  intros [H1 H2 H3 H4] Ht Hn. split; rewrite ?Ht; [exact H1 | exact H2 | | exact H4].
  intros th n [Hlt Hno]%H3. auto.
Qed.

(** A handler that changes only the record of its own transaction. *)
Lemma oinv_local e0 s s' id :
  oinv e0 s -> committing s id = false -> o_begins s' = o_begins s ->
  o_commit s' = o_commit s -> o_done s' = o_done s -> (forall i, x_view (o_ext s') i = x_view (o_ext s) i) ->
  trans_id (o_srv s') = trans_id (o_srv s) ->
  (forall j, j <> id -> transactionInfos (o_srv s') !! j = transactionInfos (o_srv s) !! j /\
             o_hist s' !! j = o_hist s !! j) ->
  (forall t', transactionInfos (o_srv s') !! id = Some t' ->
     is_Some (transactionInfos (o_srv s) !! id) /\ tx_ok t' (default [] (o_hist s' !! id))) ->
  oinv e0 s'.
Proof.
  intros [Ht Hi Hb Hc] Hn Hbs H1 H2 H3 H4 H5 H6. split.
  - intros j t Hj. destruct (decide (j = id)) as [->|Hne]; [by apply H6|].
    destruct (H5 j Hne) as [E1 E2]. rewrite E2. apply Ht. by rewrite <- E1.
  - intros j [t Hj]. rewrite H4. apply Hi. destruct (decide (j = id)) as [->|Hne]; [by eapply H6|].
    rewrite <- (proj1 (H5 j Hne)). eauto.
  - rewrite Hbs. apply (begins_ok_keep _ _ _ Hb H4). intros j Hj. destruct (decide (j = id)) as [->|Hne].
    + destruct (transactionInfos (o_srv s') !! id) eqn:E'; [|done]. destruct (H6 _ eq_refl) as [[t0 Et] _]. congruence.
    + by rewrite (proj1 (H5 j Hne)).
  - eapply commit_ok_keep; [exact Hc|done..|]. intros j l Hj. apply H5. intros ->.
    unfold committing in Hn. rewrite Hj in Hn. by rewrite bool_decide_eq_true_2 in Hn.
Qed.

(** Writes of the log. *)
Lemma tx_ok_write t h i x o : tx_ok t h -> in_hash i ->
  (forall v, tx_step [] v o = Some (upd v i x)) ->
  tx_ok {| read_log := read_log t; write_log := <[i := x]> (write_log t) |} (h ++ [o]).
Proof.
  intros [Hl Hr Hw] Hi Ho. split; simpl; [|done|by apply keys_in_insert].
  eapply logged_put; [exact Hl|done|exact Ho].
Qed.

Lemma get_local e0 s id key s' : oinv e0 s -> ostep s (GetKey id key) = Some (Ok s') -> oinv e0 s'.
Proof.
  intros Hinv Hs. pose proof (oi_tx _ _ Hinv id) as Ht. simpl in Hs. destruct (committing s id) eqn:Hc; [done|].
  unfold get in Hs. destruct (transactionInfos (o_srv s) !! id) as [t|] eqn:Et.
  2:{ simplify_eq. by eapply (oinv_local e0 s _ id); simpl; rewrite ?Et. }
  specialize (Ht t eq_refl). destruct Ht as [Hl Hr Hw].
  destruct (write_log t !! hash key) as [w|] eqn:Ew.
  - simplify_eq. eapply (oinv_local e0 s _ id); simpl; try done.
    + intros j Hj. by rewrite lookup_insert_ne.
    + intros t' [= ->]%(eq_trans (eq_sym Et)). rewrite Et, lookup_insert_eq. split; [done|]. simpl. split; [|done..].
      eapply logged_get; [exact Hl|done|]. intros v _. unfold overlay. by rewrite Ew.
  - pose proof (x_get_ok (hash key) (o_ext s) (hash_range key)) as Hx.
    pose proof (fun j => x_get_view (hash key) (o_ext s) j (hash_range key)) as Hv.
    destruct (x_get (hash key) (o_ext s)) as [x e']. simpl in Hx, Hv. destruct (read_log t !! hash key) as [r|] eqn:Er.
    + case_bool_decide; simplify_eq; (eapply (oinv_local e0 s _ id); simpl; try done).
      * intros j Hj. by rewrite lookup_insert_ne.
      * intros t' [= ->]%(eq_trans (eq_sym Et)). rewrite Et, lookup_insert_eq. split; [done|]. simpl. split; [|done..].
        eapply logged_get; [exact Hl|done|]. intros v Hv'. unfold overlay. rewrite Ew. simpl. by rewrite (Hv' _ _ Er).
      * intros j Hj. by rewrite lookup_delete_ne.
      * intros t'. by rewrite lookup_delete_eq.
    + simplify_eq. eapply (oinv_local e0 s _ id); simpl; try done.
      * intros j Hj. by rewrite !lookup_insert_ne.
      * intros t'. rewrite !lookup_insert_eq, Et. intros [= <-]. split; [done|]. simpl. split; simpl; [|by apply keys_in_insert|done].
        eapply logged_get; [exact Hl| |].
        -- intros v Hv' i y Hi. apply Hv'. simpl. rewrite lookup_insert_ne; [done|]. intros <-. congruence.
        -- intros v Hv'. unfold overlay. rewrite Ew. simpl. apply Hv'. simpl. by rewrite lookup_insert_eq.
Qed.

(** The three steps of [transaction_begin]. *)
Lemma begin_read_local e0 s th s' : oinv e0 s -> apart s (BeginRead th) = true ->
  ostep s (BeginRead th) = Some (Ok s') -> oinv e0 s'.
Proof.
  intros [Ht Hi [H1 H2 H3 H4] Hc] Ha%bool_decide_eq_true Hs. simpl in Hs. destruct (o_begins s !! th); simplify_eq.
  assert (forall th' n, o_begins s !! th' <> Some (HasRead n)) as Hno.
  { intros th' n Hth. by specialize (Ha th' _ Hth). }
  split; [done|done| |done]. simpl. split.
  - intros th' n. rewrite lookup_insert. case_decide; [congruence|]. apply H1.
  - intros th1 th2 n n'. rewrite !lookup_insert. repeat case_decide; naive_solver.
  - intros th' n. rewrite lookup_insert. case_decide; [congruence|]. apply H3.
  - intros th1 th2 n. rewrite !lookup_insert. repeat case_decide; naive_solver.
Qed.

Lemma begin_write_local e0 s th s' : oinv e0 s -> ostep s (BeginWrite th) = Some (Ok s') -> oinv e0 s'.
Proof.
  intros [Ht Hi [H1 H2 H3 H4] Hc] Hs. simpl in Hs. destruct (o_begins s !! th) as [[n|n]|] eqn:Eb; try done.
  pose proof (H1 _ _ Eb) as ->. unfold begin_write in Hs. destruct (_ =? _); [done|]. injection Hs as <-.
  split; simpl; [done|intros id Hid%Hi; lia| |by eapply commit_ok_keep; [exact Hc|..]].
  split; simpl.
  - intros th' n. rewrite lookup_insert. case_decide; [congruence|]. intros Hr. exfalso. eauto.
  - intros th1 th2 n n'. rewrite !lookup_insert. repeat case_decide; naive_solver.
  - intros th' n. rewrite lookup_insert. case_decide.
    + intros [= <-]. split; [lia|]. apply eq_None_not_Some. intros Hs%Hi. lia.
    + intros [? ?]%H3. split; [lia|done].
  - intros th1 th2 n. rewrite !lookup_insert. repeat case_decide; [congruence| | |apply H4].
    + intros [= <-] [? _]%H3. lia.
    + intros [? _]%H3 [= <-]. lia.
Qed.

Lemma begin_insert_local e0 s th s' : oinv e0 s -> ostep s (BeginInsert th) = Some (Ok s') -> oinv e0 s'.
Proof.
  intros [Ht Hi [H1 H2 H3 H4] Hc] Hs. simpl in Hs. destruct (o_begins s !! th) as [[n|n]|] eqn:Eb; simplify_eq.
  destruct (H3 _ _ Eb) as [Hn Hno]. split; simpl.
  - intros id t. rewrite !lookup_insert. case_decide; [|apply Ht]. intros [= <-]. simpl. split; simpl; [apply logged_nil|done..].
  - intros id. rewrite lookup_insert. case_decide; [by intros _; subst|]. apply Hi.
  - split; simpl.
    + intros th' n'. rewrite lookup_delete. case_decide; [done|]. apply H1.
    + intros th1 th2 n1 n2. rewrite !lookup_delete. repeat case_decide; try done. apply H2.
    + intros th' n'. rewrite lookup_delete. case_decide; [done|]. intros Hth. destruct (H3 _ _ Hth).
      rewrite lookup_insert_ne; [done|]. intros <-. by rewrite (H4 _ _ _ Eb Hth) in *.
    + intros th1 th2 n1. rewrite !lookup_delete. repeat case_decide; try done. apply H4.
  - eapply commit_ok_keep; [exact Hc|done..|]. simpl. intros id l Hid. rewrite lookup_insert_ne; [done|]. intros <-.
    unfold commit_ok in Hc. rewrite Hid in Hc. destruct Hc as (_ & t & Ht' & _). congruence.
Qed.

Lemma write_local e0 s id key o x srv :
  oinv e0 s -> committing s id = false -> (forall v, tx_step [] v o = Some (upd v (hash key) x)) ->
  (forall t, transactionInfos (o_srv s) !! id = Some t ->
     srv = set_info id {| read_log := read_log t; write_log := <[hash key := x]> (write_log t) |} (o_srv s)) ->
  is_Some (transactionInfos (o_srv s) !! id) ->
  oinv e0 {| o_srv := srv; o_ext := o_ext s; o_begins := o_begins s; o_commit := o_commit s; o_hist := note id true o (o_hist s); o_done := o_done s |}.
Proof.
  intros Hinv Hc Ho Hsrv [t Et]. rewrite (Hsrv t Et). eapply (oinv_local e0 s _ id); simpl; try done.
  - intros j Hj. by rewrite !lookup_insert_ne.
  - intros t'. rewrite !lookup_insert_eq, Et. intros [= <-]. split; [done|]. simpl.
    eapply tx_ok_write; [by eapply oi_tx | done | done].
Qed.

(** The steps of a commit. *)
Lemma commit_step_inv e0 s s' : oinv e0 s -> ostep s CommitStep = Some (Ok s') -> oinv e0 s'.
Proof.
  intros [Ht Hi Hb Hc] Hs. simpl in Hs. unfold commit_ok in Hc. destruct (o_commit s) as [[id p]|] eqn:Ec; [|done].
  assert (forall t h, tx_ok t h -> keys_in (read_log t)) as Hk by (by intros ? ? []).
  destruct p as [[|[i x] l]|[|[i x] l]]; simpl in Hs.
  - destruct Hc as ((v & Hs0 & Hv) & t & Et & _ & Hr). simplify_eq. split; [done..|]. unfold commit_ok. simpl.
    rewrite Et. simpl. destruct (Ht id t Et) as [Hl _ Hw]. split_and!.
    + edestruct (logged_commit [] _ _ _ (x_view e0) (o_done s) v Hl) as (v' & Hs' & Hv'); [|done|].
      { intros i x Hix. rewrite Hv. by destruct (Hr i x Hix) as [|Hno%elem_of_nil]. }
      exists v'. split; [done|]. intros i. rewrite Hv', clean_nil, entries_to_map. by apply overlay_ext.
    + apply NoDup_entries.
    + intros i x Hix%elem_of_entries. by eapply Hw.
  - destruct Hc as (Hs0 & t & Et & Hl & Hr).
    assert (in_hash i) as Hix by (eapply Hk; [by apply Ht | apply Hl; left]).
    pose proof (x_get_ok i (o_ext s) Hix) as Hx. pose proof (fun j => x_get_view i (o_ext s) j Hix) as Hv.
    destruct (x_get i (o_ext s)) as [y e']. simpl in Hx, Hv. case_bool_decide; simplify_eq; simpl.
    + split; [done..|]. unfold commit_ok. simpl. split; [by eapply serial_to_ext; [|exact Hs0]|].
      exists t. split; [done|]. split; [intros j z Hj; apply Hl; by right|]. intros j z Hj. rewrite Hv.
      destruct (Hr j z Hj) as [|[?|?]%elem_of_cons]; [by left| |by right]. simplify_eq. by left.
    + split; simpl.
      * intros j t'. rewrite lookup_delete. case_decide; [done|]. apply Ht.
      * intros j. rewrite lookup_delete. case_decide; [by intros []|]. apply Hi.
      * eapply begins_ok_keep; [exact Hb | done |]. intros j. simpl. rewrite lookup_delete. by case_decide.
      * unfold commit_ok. simpl. by eapply serial_to_ext; [|exact Hs0].
  - destruct Hc as (Hs0 & _ & _). simplify_eq. split; simpl.
    + intros j t'. rewrite lookup_delete. case_decide; [done|]. apply Ht.
    + intros j. rewrite lookup_delete. case_decide; [by intros []|]. apply Hi.
    + eapply begins_ok_keep; [exact Hb | done |]. intros j. simpl. rewrite lookup_delete. by case_decide.
    + unfold commit_ok. simpl. eapply serial_to_ext; [|exact Hs0]. intros j. apply overlay_nil.
  - destruct Hc as (Hs0 & Hn & Hk'). simplify_eq. apply NoDup_cons in Hn as [Hni Hn]. split; [done..|].
    unfold commit_ok. simpl. split; [|split; [done|]; intros j y Hj; apply (Hk' j y); by right].
    eapply serial_to_ext; [|exact Hs0]. intros j. rewrite overlay_cons by done. apply overlay_ext.
    rewrite x_put_view by (apply (Hk' i x); left). done.
Qed.

Lemma oreach_inv e0 s : oreach e0 s -> oinv e0 s.
Proof.
  induction 1 as [|s ev s' _ Hinv Ha Hs].
  { split; simpl; [done|by intros ? []|by split|]. exists (x_view e0). done. }
  destruct ev as [th|th|th|id key|id key x|id key|id|id|].
  - by eapply begin_read_local.
  - by eapply begin_write_local.
  - by eapply begin_insert_local.
  - by eapply get_local.
  - simpl in Hs. destruct (committing s id) eqn:Hc; [done|]. unfold set in Hs.
    destruct (transactionInfos (o_srv s) !! id) as [t|] eqn:Et; simplify_eq.
    + eapply write_local; try done; rewrite Et; by intros ? [= <-].
    + by destruct s.
  - simpl in Hs. destruct (committing s id) eqn:Hc; [done|]. unfold del in Hs.
    destruct (transactionInfos (o_srv s) !! id) as [t|] eqn:Et; simplify_eq.
    + eapply write_local; try done; rewrite Et; by intros ? [= <-].
    + by destruct s.
  - simpl in Hs. destruct (committing s id) eqn:Hc; [done|]. unfold transaction_abort in Hs.
    destruct (transactionInfos (o_srv s) !! id) as [t|] eqn:Et; simplify_eq; [|by destruct s].
    eapply (oinv_local e0 s _ id); simpl; try done.
    + intros j Hj. by rewrite lookup_delete_ne.
    + intros t'. by rewrite lookup_delete_eq.
  - simpl in Hs. destruct (o_commit s) eqn:Ec; [done|]. unfold commit_start in Hs.
    destruct (transactionInfos (o_srv s) !! id) as [t|] eqn:Et; simplify_eq; [|done].
    destruct Hinv as [Ht Hi Hb Hc]. split; [done..|]. unfold commit_ok in *. rewrite Ec in Hc. simpl. split; [done|].
    exists t. split; [done|]. setoid_rewrite elem_of_entries. auto.
  - by eapply commit_step_inv.
Qed.

(** C5. The optimistic server is serialisable: in every interleaving of the
    handlers in which no two evaluations of [trans_id++] overlap, whenever no
    commit is in progress, the store is exactly what a serial run of the
    committed transactions, in commit order, leaves, and in that run every [get]
    returns what it returned to its client.  Transactions that aborted or are
    still running have no effect.  The handlers take no lock for their maps: each
    reading of the counter, its writing, each insertion in the map and each
    operation of a transaction on its own record is one step, and a client makes
    no call for a transaction whose commit it awaits. *)
Theorem occ_serializable (e0 : E) (s : osys E) :
  oreach e0 s -> o_commit s = None ->
  exists v, serial [] (x_view e0) (o_done s) = Some v /\ forall i, v i = x_view (o_ext s) i.
Proof. intros [_ _ _ Hc]%oreach_inv Hn. unfold commit_ok in Hc. by rewrite Hn in Hc. Qed.

(** *** Commits are never refused without cause *)

Lemma apply_run id l : forall srv e n, (length l < n)%nat -> (forall i x, (i, x) ∈ l -> in_hash i) -> NoDup l.*1 ->
  exists e', commit_run n id (Apply l) srv e = Some (ydb_protocol.OK, erase_info id srv, e') /\
    forall j, x_view e' j = overlay (list_to_map l) (x_view e) j.
Proof.
  induction l as [|[i x] l IH]; intros srv e [|n] Hn Hk Hd; simpl in *; try lia.
  - exists e. split; [done|]. intros j. by rewrite overlay_nil.
  - apply NoDup_cons in Hd as [Hi Hd].
    destruct (IH srv (x_put i x e) n) as (e' & Hr & Hv); [lia | intros j y Hj; apply (Hk j y); by right | done |].
    exists e'. split; [done|]. intros j. rewrite Hv, (overlay_cons i x l _ j Hi). apply overlay_ext.
    rewrite x_put_view by (apply (Hk i x); left). done.
Qed.

Lemma validate_run id l : forall srv e n, (forall i x, (i, x) ∈ l -> in_hash i) ->
  exists e', (forall j, x_view e' j = x_view e j) /\
    commit_run (length l + n) id (Validate l) srv e =
      if bool_decide (Forall (fun p => x_view e (fst p) = snd p) l)
      then commit_run n id (Validate []) srv e'
      else Some (ydb_protocol.ABORT, erase_info id srv, e').
Proof.
  induction l as [|[i x] l IH]; intros srv e n Hk; [by exists e|].
  cbn [length plus commit_run commit_step].
  pose proof (x_get_ok i e (Hk i x ltac:(left))) as Hx. pose proof (fun j => x_get_view i e j (Hk i x ltac:(left))) as Hv.
  destruct (x_get i e) as [y e1]. simpl in Hx, Hv. subst y.
  destruct (decide (x_view e i = x)) as [Hy|Hy].
  - rewrite bool_decide_eq_true_2 by done.
    destruct (IH srv e1 n) as (e' & Hv' & Hr); [intros j z Hj; apply (Hk j z); by right|].
    exists e'. split; [intros j; by rewrite Hv', Hv|]. rewrite Hr.
    erewrite bool_decide_ext; [reflexivity|]. rewrite Forall_cons. setoid_rewrite Hv. simpl. naive_solver.
  - rewrite bool_decide_eq_false_2 by done. exists e1. split; [done|].
    rewrite bool_decide_eq_false_2; [done|]. by inversion 1.
Qed.

(** C36. [transaction_commit] of the optimistic server always returns: [OK],
    with exactly the written keys changed, when every value the transaction read
    is still the stored one, and [ABORT], with nothing changed, otherwise. *)
Theorem occ_commit_exact (id : Z) (t : Transaction_occ) (srv : ydb_server_occ) (e : E) :
  transactionInfos srv !! id = Some t -> keys_in (read_log t) -> keys_in (write_log t) ->
  exists e',
    (reads_hold t (x_view e) -> transaction_commit id srv e = Some (ydb_protocol.OK, erase_info id srv, e') /\
       forall i, x_view e' i = overlay (write_log t) (x_view e) i) /\
    (~ reads_hold t (x_view e) -> transaction_commit id srv e = Some (ydb_protocol.ABORT, erase_info id srv, e') /\
       forall i, x_view e' i = x_view e i).
Proof.
  intros Et Hr Hw. unfold transaction_commit, commit_start. rewrite Et. simpl.
  assert (Forall (fun p => x_view e (fst p) = snd p) (entries (read_log t)) <-> reads_hold t (x_view e)) as Hiff.
  { rewrite Forall_forall. unfold reads_hold. setoid_rewrite <- elem_of_entries.
    split; [intros H0 i x Hi; by apply (H0 (i, x)) | intros H0 [i x] Hi; by apply H0]. }
  destruct (validate_run id (entries (read_log t)) srv e (2 + size (write_log t))) as (e1 & Hv1 & Hrun).
  { intros i x Hi%elem_of_entries. by eapply Hr. }
  rewrite <- Nat.add_assoc, Hrun, (bool_decide_ext _ _ Hiff). clear Hrun.
  destruct (apply_run id (entries (write_log t)) srv e1 (S (size (write_log t)))) as (e2 & Hrun & Hv2).
  { rewrite entries_perm. rewrite length_map_to_list. lia. }
  { intros i x Hi%elem_of_entries. by eapply Hw. }
  { apply NoDup_entries. }
  case_bool_decide; [exists e2 | exists e1]; (split; [|]); try done; intros _.
  split; [cbn [plus commit_run commit_step]; rewrite Et; exact Hrun|]. intros i. rewrite Hv2, entries_to_map.
  by apply overlay_ext.
Qed.
End occ_correct.

(** ** Closed runs *)

Section runs.
Context {E : Type} `{!Extents E}.

Fixpoint orun (s : osys E) (es : list oevent) : option (osys E) :=
  match es with
  | [] => Some s
  | ev :: es' => match ostep s ev with Some (Ok s') => orun s' es' | _ => None end
  end.

(** The run has no overlapping increments. *)
Fixpoint all_apart (s : osys E) (es : list oevent) : bool :=
  match es with
  | [] => true
  | ev :: es' => apart s ev && match ostep s ev with Some (Ok s') => all_apart s' es' | _ => true end
  end.

Lemma orun_reach e0 es : forall s s', oreach e0 s -> all_apart s es = true -> orun s es = Some s' -> oreach e0 s'.
Proof.
  induction es as [|ev es IH]; intros s s' Hs Ha Hr; simpl in *; [by simplify_eq|].
  apply andb_prop in Ha as [Ha1 Ha]. destruct (ostep s ev) as [[s1|]|] eqn:He; try done.
  eapply IH; [|done..]. by eapply oreach_step.
Qed.

(** The steps of a handler of [transaction_begin] that no other one cuts are
    [transaction_begin]. *)
Definition begin_events (th : nat) : list oevent := [BeginRead th; BeginWrite th; BeginInsert th].

Lemma begin_uninterrupted (s : osys E) th : o_begins s !! th = None ->
  orun s (begin_events th) =
    match transaction_begin (o_srv s) with
    | Ok (id, srv) => Some {| o_srv := srv; o_ext := o_ext s; o_begins := o_begins s; o_commit := o_commit s;
                              o_hist := <[id := []]> (o_hist s); o_done := o_done s |}
    | Crash _ => None
    end.
Proof.
  intros Hth. unfold begin_events, transaction_begin. cbn [orun ostep]. rewrite Hth. cbn [orun ostep o_begins o_srv].
  rewrite lookup_insert_eq. destruct (begin_write _ _) as [srv|f]; [|done]. cbn.
  rewrite lookup_insert_eq, insert_insert_eq, delete_insert_id by done. done.
Qed.
End runs.

(** Two increments that overlap: both handlers return 0, the second insertion
    replaces the record of the first, and the commit of one client applies the
    writes of both. *)
Definition overlapping_events : list oevent :=
  [BeginRead 1; BeginRead 2; BeginWrite 1; BeginWrite 2; BeginInsert 1; BeginInsert 2;
   SetKey 0 (str "a") (str "x"); SetKey 0 (str "b") (str "y"); Commit 0; CommitStep; CommitStep; CommitStep; CommitStep].

Lemma overlapping_begins_share_id :
  (o_begins <$> orun (new_osys (∅ : gmap Z bytes)) (take 4 overlapping_events)) =
    Some {[1%nat := HasWritten 0; 2%nat := HasWritten 0]} /\
  (o_done <$> orun (new_osys (∅ : gmap Z bytes)) overlapping_events) =
    Some [[TSet (hash (str "a")) (str "x"); TSet (hash (str "b")) (str "y")]] /\
  all_apart (new_osys (∅ : gmap Z bytes)) overlapping_events = false.
Proof. vm_compute. repeat split. Qed.

(** Transaction 0 reads [b] and writes [a], transaction 1 reads [a] before and
    commits after: it is aborted. *)
Definition sample_events : list oevent :=
  begin_events 1 ++ begin_events 1 ++ [GetKey 0 (str "b"); SetKey 0 (str "a") (str "x"); GetKey 1 (str "a"); SetKey 1 (str "b") (str "y");
   Commit 0; CommitStep; CommitStep; CommitStep; CommitStep; Commit 1; CommitStep].
Definition sample_osys : osys (gmap Z bytes) := default (new_osys ∅) (orun (new_osys ∅) sample_events).

Lemma sample_oreach : oreach ∅ sample_osys.
Proof. eapply (orun_reach ∅ sample_events); [apply oreach_init | vm_compute; reflexivity ..]. Qed.

Lemma occ_serializable_witness :
  length (o_done sample_osys) = 1%nat /\
  exists v, serial [] (x_view (∅ : gmap Z bytes)) (o_done sample_osys) = Some v /\
    forall i, v i = x_view (o_ext sample_osys) i.
Proof.
  split; [vm_compute; reflexivity|]. apply (occ_serializable ∅ sample_osys sample_oreach). vm_compute. reflexivity.
Defined.

Lemma occ_commit_exact_witness :
  exists e', transaction_commit 0 (set_info 0 {| read_log := {[1 := str "r"]}; write_log := {[2 := str "w"]} |} new_ydb_server_occ)
    ({[1 := str "r"]} : gmap Z bytes) = Some (ydb_protocol.OK, erase_info 0
      (set_info 0 {| read_log := {[1 := str "r"]}; write_log := {[2 := str "w"]} |} new_ydb_server_occ), e').
Proof.
  edestruct (occ_commit_exact 0 {| read_log := {[1 := str "r"]}; write_log := {[2 := str "w"]} |}
    (set_info 0 {| read_log := {[1 := str "r"]}; write_log := {[2 := str "w"]} |} new_ydb_server_occ)
    ({[1 := str "r"]} : gmap Z bytes)) as (e' & H1 & _).
  - reflexivity.
  - intros i x Hi. cbn in Hi. apply lookup_singleton_Some in Hi as [<- _]. vm_compute. split; [discriminate | reflexivity].
  - intros i x Hi. cbn in Hi. apply lookup_singleton_Some in Hi as [<- _]. vm_compute. split; [discriminate | reflexivity].
  - exists e'. apply H1. intros i x Hi. cbn in Hi. apply lookup_singleton_Some in Hi as [<- <-]. reflexivity.
Defined.
