(* ===== verification/YdbTwoPl.v ===== *)
(** * The two-phase-locking server

    Ydb.two_pl: the cycle test on the wait-for graph decides reachability and
    keeps the graph acyclic; in every interleaving of the handlers the store is
    what a serial run of the committed transactions leaves; the asserts of the
    handlers hold as long as the array [dependency] is large enough; and the
    graph does not see every wait, so deadlocks remain possible. *)

From S2P Require Import Prelude Disk Ydb YdbSpec.
Import two_pl.

(** ** The wait-for graph *)

Section graph.
Implicit Types s : ydb_server_2pl.

Definition waits s (a b : Z) : Prop := (a, b) ∈ dependency s.

#[local] Instance waits_dec s a b : Decision (waits s a b).
Proof. unfold waits. apply _. Defined.

(** The edges join transactions that have begun, and no transaction waits for
    itself, directly or not. *)
Record graph_ok s : Prop := {
  go_range a b : waits s a b -> 0 <= a < trans_id s /\ 0 <= b < trans_id s;
  go_acyclic a : ~ tc (waits s) a a }.

Lemma cell_ok s i j : 0 <= i < INODE_NUM -> 0 <= j < INODE_NUM -> cell s i j = Ok (bool_decide (waits s i j)).
Proof. intros Hi Hj. unfold cell, in_array. by rewrite !(proj2 (Z.leb_le _ _)), !(proj2 (Z.ltb_lt _ _)) by lia. Qed.

Lemma dfs_loop_ok s rec id1 id2 l :
  0 <= id1 < INODE_NUM -> Forall (fun i => 0 <= i < INODE_NUM) l -> ~ waits s id1 id1 ->
  (forall i, waits s id1 i -> exists b, rec i = Ok b /\ (b = true <-> rtc (waits s) i id2)) ->
  exists b, dfs_loop rec s id1 l = Ok b /\ (b = true <-> exists i, i ∈ l /\ waits s id1 i /\ rtc (waits s) i id2).
Proof.
  intros H1 Hl Hself Hrec. induction Hl as [|i l Hi Hl IH]; simpl.
  - exists false. split; [done|]. split; [done|]. intros (i & []%elem_of_nil & _).
  - rewrite (cell_ok s id1 i H1 Hi). simpl. destruct IH as (b & Hb & Hiff). case_bool_decide as Hw; simpl.
    + rewrite bool_decide_eq_false_2 by congruence. simpl.
      destruct (Hrec i Hw) as (b' & -> & Hb'). simpl. destruct b'.
      * exists true. split; [done|]. split; [|done]. intros _. exists i. split; [left|]. split; [done|]. by apply Hb'.
      * exists b. split; [done|]. rewrite Hiff. split; intros (j & Hj & Hr); [exists j; split; [by right|done]|].
        exists j. apply elem_of_cons in Hj as [->|Hj]; [|done]. destruct Hr as [_ Hr]. by apply Hb' in Hr.
    + exists b. split; [done|]. rewrite Hiff. split; intros (j & Hj & Hr); [exists j; split; [by right|done]|].
      exists j. apply elem_of_cons in Hj as [->|Hj]; [|done]. by destruct Hr.
Qed.

(** Distinct transactions of the graph are at most [trans_id]. *)
Lemma path_bound s p : Forall (fun i => 0 <= i < trans_id s) p -> NoDup p -> Z.of_nat (length p) <= Z.max 0 (trans_id s).
Proof.
  intros Hp Hn. assert (p ⊆+ seqZ 0 (trans_id s)) as Hs%submseteq_length.
  { apply NoDup_submseteq; [done|]. intros x Hx. rewrite elem_of_seqZ. rewrite Forall_forall in Hp. apply Hp in Hx. lia. }
  rewrite length_seqZ in Hs. lia.
Qed.

(** [p]: the transactions on the way to [id1], the last one first. *)
Lemma dfs_path s id2 : graph_ok s -> trans_id s <= INODE_NUM -> forall fuel id1 p,
  Forall (fun i => 0 <= i < trans_id s) (id1 :: p) -> NoDup (id1 :: p) -> (forall x, x ∈ p -> tc (waits s) x id1) ->
  (Z.to_nat (trans_id s) < fuel + length p)%nat ->
  exists b, dfs fuel s id1 id2 = Ok b /\ (b = true <-> rtc (waits s) id1 id2).
Proof.
  intros [Hrange Hacyc] Hn. induction fuel as [|fuel IH]; intros id1 p Hp Hd Htc Hf.
  { pose proof (path_bound s _ Hp Hd). simpl in *. lia. }
  simpl. case_bool_decide as Heq; [subst; exists true; split; [done|]; split; [intros _; apply rtc_refl | done]|].
  assert (0 <= id1 < trans_id s) as H1 by (by inversion Hp).
  edestruct (dfs_loop_ok s (fun i => dfs fuel s i id2) id1 id2 (seqZ 0 (trans_id s))) as (b & Hb & Hiff).
  - lia.
  - rewrite Forall_forall. intros x Hx%elem_of_seqZ. lia.
  - intros Hw. apply (Hacyc id1). by apply tc_once.
  - intros i Hw. assert (forall x, x ∈ id1 :: p -> tc (waits s) x i) as Htc'.
    { intros x [->|Hx]%elem_of_cons; [by apply tc_once|]. eapply tc_r; [by apply Htc | done]. }
    apply (IH i (id1 :: p)); [|  |done|simpl; lia].
    + constructor; [by eapply Hrange | done].
    + constructor; [|done]. intros Hi. by apply (Hacyc i), Htc'.
  - exists b. split; [done|]. rewrite Hiff. split.
    + intros (i & _ & Hw & Hr). by eapply rtc_l.
    + intros Hr. inversion Hr as [|x y z Hw Hr']; subst; [done|]. exists y. split; [|done].
      rewrite elem_of_seqZ. apply Hrange in Hw. lia.
Qed.

(** The search ends within the fuel and decides reachability. *)
Lemma dfs_ok s id1 id2 : graph_ok s -> trans_id s <= INODE_NUM -> 0 <= id1 < trans_id s ->
  exists b, dfs (dfs_fuel s) s id1 id2 = Ok b /\ (b = true <-> rtc (waits s) id1 id2).
Proof.
  intros Hg Hn H1. apply (dfs_path s id2 Hg Hn _ id1 []); [by constructor | by apply NoDup_singleton | |].
  - intros x []%elem_of_nil.
  - unfold dfs_fuel. simpl. lia.
Qed.

Lemma waits_add s id id2 a b :
  waits (set_dependency ({[(id, id2)]} ∪ dependency s) s) a b <-> (a = id /\ b = id2) \/ waits s a b.
Proof. unfold waits. simpl. rewrite elem_of_union, elem_of_singleton. naive_solver. Qed.

(** A path that uses the new edge goes from its end back to its start. *)
Lemma tc_add s id id2 a b : tc (waits (set_dependency ({[(id, id2)]} ∪ dependency s) s)) a b ->
  tc (waits s) a b \/ (rtc (waits s) a id /\ rtc (waits s) id2 b) \/ rtc (waits s) id2 id.
Proof.
  induction 1 as [a b Hw|a b c Hw Hr IH]; apply waits_add in Hw.
  - destruct Hw as [[-> ->]|Hw]; [right; left; split; apply rtc_refl | left; by apply tc_once].
  - destruct Hw as [[-> ->]|Hw].
    + destruct IH as [Ht|[[Ht _]|Ht]]; [|by right; right..]. right. left. split; [apply rtc_refl | by apply tc_rtc].
    + destruct IH as [Ht|[[H1 H2]|Ht]]; [left; by eapply tc_l| |by right; right]. right. left. split; [by eapply rtc_l | done].
Qed.

Lemma graph_add s id id2 : graph_ok s -> 0 <= id < trans_id s -> 0 <= id2 < trans_id s ->
  ~ rtc (waits s) id2 id -> graph_ok (set_dependency ({[(id, id2)]} ∪ dependency s) s).
Proof.
  intros [Hr Ha] H1 H2 Hn. split.
  - intros a b [[-> ->]|Hw]%waits_add; [done|]. by apply Hr.
  - intros a [Ht|[[Hx Hy]|Ht]]%tc_add; [by eapply Ha| |done]. apply Hn. by transitivity a.
Qed.

Lemma tc_sub s s' a b : dependency s' ⊆ dependency s -> tc (waits s') a b -> tc (waits s) a b.
Proof. intros Hd. induction 1 as [a b H|a b c H _ IH]; [by apply tc_once, Hd | by eapply tc_l; [apply Hd|]]. Qed.

Lemma graph_sub s s' : graph_ok s -> dependency s' ⊆ dependency s -> trans_id s <= trans_id s' -> graph_ok s'.
Proof.
  intros [Hr Ha] Hd Hn. assert (forall a b, waits s' a b -> waits s a b) as Hw by (intros a b; apply Hd). split.
  - intros a b H%Hw%Hr. lia.
  - intros a Ht. apply (Ha a). by eapply tc_sub.
Qed.

Lemma checkCycle_holder s (id id2 ino : Z) :
  graph_ok s -> trans_id s <= INODE_NUM -> lock_handlers s !! ino = Some id2 ->
  0 <= id < trans_id s -> 0 <= id2 < trans_id s ->
  exists b : bool, checkCycle id ino s = Ok (b, if b then s else set_dependency ({[(id, id2)]} ∪ dependency s) s) /\
    (b = true <-> rtc (waits s) id2 id).
Proof.
  intros Hg Hn Hl H1 H2. unfold checkCycle. rewrite Hl. rewrite (proj2 (Z.leb_gt _ _)) by lia.
  destruct (dfs_ok s id2 id Hg Hn H2) as (b & -> & Hb). exists b. split; [|done]. simpl. destruct b; [done|].
  unfold in_array. by rewrite !(proj2 (Z.leb_le _ _)), !(proj2 (Z.ltb_lt _ _)) by lia.
Qed.

(** C35. The cycle test of the two-phase-locking server: on an acyclic
    wait-for graph of at most 1024 transactions the depth-first search always
    ends; [checkCycle] answers true exactly when the holder of the lock waits,
    directly or not, for the transaction that asks, and otherwise records that
    the latter waits for the holder, which keeps the graph acyclic. *)
Theorem checkCycle_exact s (id id2 ino : Z) :
  graph_ok s -> trans_id s <= INODE_NUM -> lock_handlers s !! ino = Some id2 ->
  0 <= id < trans_id s -> 0 <= id2 < trans_id s ->
  (rtc (waits s) id2 id /\ checkCycle id ino s = Ok (true, s)) \/
  (~ rtc (waits s) id2 id /\ exists s', checkCycle id ino s = Ok (false, s') /\ graph_ok s' /\
     forall a b, waits s' a b <-> (a = id /\ b = id2) \/ waits s a b).
Proof.
  intros Hg Hn Hl H1 H2. destruct (checkCycle_holder s id id2 ino Hg Hn Hl H1 H2) as (b & -> & Hb).
  destruct b; [left; split; [by apply Hb | done]|]. assert (~ rtc (waits s) id2 id) as Hno by (by intros H0%Hb).
  right. split; [done|]. eexists. split; [done|]. split; [by apply graph_add | apply waits_add].
Qed.
End graph.

(** ** What the handlers do to the server *)

Section handlers.
Implicit Types s : ydb_server_2pl.

(** The server without the transaction [id] and its locks. *)
Definition dropped (id : Z) (t : Transaction) (d : gset (Z * Z)) s : ydb_server_2pl :=
  {| dependency := d; trans_id := trans_id s; transactionInfos := delete id (transactionInfos s);
     lock_handlers := filter (fun p => fst p ∉ locks t) (lock_handlers s) |}.

Lemma clear_dependency_inv id s s' : clear_dependency id s = Ok s' ->
  exists d, d ⊆ dependency s /\ s' = set_dependency d s.
Proof. unfold clear_dependency. case_match; [|done]. intros [= <-]. eexists. split; [|done]. set_solver. Qed.

Lemma release_locks_inv id s lc s' lc' : release_locks id s lc = Ok (s', lc') ->
  exists t d, transactionInfos s !! id = Some t /\ d ⊆ dependency s /\ s' = dropped id t d s /\ lc' = lc ∖ locks t.
Proof.
  unfold release_locks. destruct (transactionInfos s !! id) as [t|]; [|done].
  intros (s1 & (d & Hd & ->)%clear_dependency_inv & [= <- <-])%res_bind_inv. by exists t, d.
Qed.

Lemma checkCycle_inv id ino s b s' : checkCycle id ino s = Ok (b, s') -> exists d, s' = set_dependency d s.
Proof.
  unfold checkCycle. destruct (lock_handlers s !! ino) as [id2|].
  2:{ intros [= _ <-]. exists (dependency s). by destruct s. }
  case_match; [done|]. intros (c & _ & Hc)%res_bind_inv. destruct c; [|case_match; [|done]]; injection Hc as <- <-;
    [exists (dependency s); by destruct s | by eexists].
Qed.

(** The new entry of the log. *)
Definition new_value (o : op) (v : bytes) : bytes :=
  match o with OGet => v | OSet w => w | ODel => REMOVESTRING end.

(** The four ways a data operation can go. *)
Inductive access_case (id : Z) (o : op) (key : bytes) s : reply -> ydb_server_2pl -> Prop :=
  | ac_unknown : transactionInfos s !! id = None ->
      access_case id o key s (Finished ydb_protocol.TRANSIDINV []) s
  | ac_held t v out m : transactionInfos s !! id = Some t -> hash key ∈ locks t -> log t !! hash key = Some v ->
      (o = OGet -> out = v) ->
      m = <[id := {| locks := locks t; log := <[hash key := new_value o v]> (log t) |}]> (transactionInfos s) ->
      access_case id o key s (Finished ydb_protocol.OK out) (set_infos m s)
  | ac_wait t d : transactionInfos s !! id = Some t -> hash key ∉ locks t ->
      access_case id o key s (Blocked (hash key)) (set_dependency d s)
  | ac_cycle t d : transactionInfos s !! id = Some t -> hash key ∉ locks t ->
      access_case id o key s Cyclic (set_dependency d s).

Lemma access_inv id o key s r s' : access id o key s = Ok (r, s') -> access_case id o key s r s'.
Proof.
  unfold access. destruct (transactionInfos s !! id) as [t|] eqn:Et; [|intros [= <- <-]; by constructor].
  case_bool_decide as Hin.
  - intros ([out s1] & Hh & [= <- <-])%res_bind_inv. unfold held in Hh. destruct (log t !! hash key) as [v|] eqn:Ev; [|done].
    destruct o; simplify_eq.
    + assert (set_infos (<[id := {| locks := locks t; log := <[hash key := out]> (log t) |}]> (transactionInfos s1)) s1 = s1) as Hs.
      { rewrite (insert_id (log t)) by done. destruct t. simpl. rewrite insert_id by done. by destruct s1. }
      rewrite <- Hs at 2. by eapply (ac_held _ OGet).
    + by eapply (ac_held _ (OSet v0)).
    + by eapply (ac_held _ ODel).
  - intros ([c s1] & [d ->]%checkCycle_inv & Hc)%res_bind_inv. destruct c; injection Hc as <- <-; by econstructor.
Qed.
End handlers.

(** ** The invariant *)

Section two_pl_correct.
Context {E : Type} `{!Extents E} `{!ExtentsOk E}.
Implicit Types (e : E) (s : tsys E).

Definition committing s (id : Z) : bool :=
  match t_commit s with Some (id', _) => bool_decide (id' = id) | None => false end.

(** The locks the transaction has at the lock service. *)
Definition owned s (id : Z) : gset Z :=
  match t_commit s with
  | Some (id', l) => if decide (id' = id) then list_to_set l.*1 else default ∅ (locks <$> transactionInfos (t_srv s) !! id)
  | None => default ∅ (locks <$> transactionInfos (t_srv s) !! id)
  end ∪ match t_pc s !! id with Some (HasLock i _) => {[i]} | _ => ∅ end.

(** The inode a data operation is about to log: its lock is recorded, the log
    has no entry yet. *)
Definition pending s (id : Z) : gset Z :=
  match t_pc s !! id with Some (Recorded i _ | Fetched i _) => {[i]} | _ => ∅ end.

(** The stores that agree with [v0] where the log has an entry. *)
Definition agrees (v0 : Z -> bytes) (m : gmap Z bytes) (v : Z -> bytes) : Prop :=
  forall i, is_Some (m !! i) -> v i = v0 i.

Definition keys_in (m : gmap Z bytes) : Prop := forall i, is_Some (m !! i) -> in_hash i.

Record tx_ok (v0 : Z -> bytes) (pend : gset Z) (t : Transaction) (h : list top) : Prop := {
  to_locks : locks t = pend ∪ dom (log t);
  to_keys : keys_in (log t);
  to_logged : logged REMOVESTRING (agrees v0 (log t)) (log t) h }.

Definition serial_to (e0 : E) (txs : list (list top)) (f : Z -> bytes) : Prop :=
  exists v, serial REMOVESTRING (x_view e0) txs = Some v /\ forall i, v i = f i.

(** What holds of a transaction inside a data operation. *)
Definition pc_at (v0 : Z -> bytes) (p : pc) (t : Transaction) : Prop :=
  match p with
  | WaitLock i _ | HasLock i _ => in_hash i /\ i ∉ locks t
  | Recorded i _ => in_hash i /\ log t !! i = None
  | Fetched i v => in_hash i /\ log t !! i = None /\ v = v0 i
  | Victim => True
  end.

Definition pc_ok s (id : Z) : Prop :=
  forall p, t_pc s !! id = Some p -> committing s id = false /\
    exists t, transactionInfos (t_srv s) !! id = Some t /\ pc_at (x_view (t_ext s)) p t.

Definition commit_ok (e0 : E) s : Prop :=
  match t_commit s with
  | None => serial_to e0 (t_done s) (x_view (t_ext s))
  | Some (id, l) =>
      serial_to e0 (t_done s) (fun i => clean REMOVESTRING (overlay (list_to_map l) (x_view (t_ext s)) i)) /\
      NoDup l.*1 /\ (forall i x, (i, x) ∈ l -> in_hash i) /\ is_Some (transactionInfos (t_srv s) !! id)
  end.

Record tinv (e0 : E) s : Prop := {
  ti_tx id t : transactionInfos (t_srv s) !! id = Some t -> committing s id = false ->
    tx_ok (x_view (t_ext s)) (pending s id) t (default [] (t_hist s !! id));
  ti_id id : is_Some (transactionInfos (t_srv s) !! id) -> 0 <= id < trans_id (t_srv s);
  ti_pos : 0 <= trans_id (t_srv s);
  ti_begins id : id ∈ t_begins s -> 0 <= id < trans_id (t_srv s) /\ transactionInfos (t_srv s) !! id = None;
  ti_pc id : pc_ok s id;
  ti_lc id i : i ∈ owned s id -> i ∈ t_lc s;
  ti_excl id id' i : i ∈ owned s id -> i ∈ owned s id' -> id = id';
  ti_handler i id : lock_handlers (t_srv s) !! i = Some id -> i ∈ owned s id;
  ti_view i : x_view (t_ext s) i <> REMOVESTRING;
  ti_commit : commit_ok e0 s }.

Lemma owned_same s s' id :
  t_commit s' = t_commit s -> transactionInfos (t_srv s') !! id = transactionInfos (t_srv s) !! id ->
  t_pc s' !! id = t_pc s !! id -> owned s' id = owned s id.
Proof. unfold owned. by intros -> -> ->. Qed.

Lemma owned_idle s id t : committing s id = false -> transactionInfos (t_srv s) !! id = Some t ->
  (forall i o, t_pc s !! id <> Some (HasLock i o)) -> owned s id = locks t.
Proof.
  unfold owned, committing. intros Hc -> Hp.
  assert (match t_pc s !! id with Some (HasLock i _) => {[i]} | _ => ∅ end =@{gset Z} ∅) as ->.
  { destruct (t_pc s !! id) as [[]|] eqn:Ep; try done. by destruct (Hp ino o). }
  rewrite (right_id_L ∅ (∪)). destruct (t_commit s) as [[id' l]|]; [|done].
  apply bool_decide_eq_false_1 in Hc. by rewrite decide_False.
Qed.

Lemma owned_known e0 s id i : tinv e0 s -> i ∈ owned s id -> is_Some (transactionInfos (t_srv s) !! id).
Proof.
  intros Hi. unfold owned. intros [H1|H1]%elem_of_union.
  - pose proof (ti_commit _ _ Hi) as Hc. unfold commit_ok in Hc. destruct (t_commit s) as [[id' l]|].
    + case_decide; [subst; by apply Hc|]. destruct (transactionInfos (t_srv s) !! id); [done|]. simpl in H1. set_solver.
    + destruct (transactionInfos (t_srv s) !! id); [done|]. simpl in H1. set_solver.
  - destruct (t_pc s !! id) as [p|] eqn:Ep; [|set_solver]. destruct (ti_pc _ _ Hi id p Ep) as (_ & t & -> & _). done.
Qed.

(** Only the committing transaction writes: the others keep what they logged. *)
Lemma tx_ok_view v v' pend t h : (forall i, is_Some (log t !! i) -> v' i = v i) -> tx_ok v pend t h -> tx_ok v' pend t h.
Proof.
  intros Hv [H1 H2 H3]. split; [done..|]. eapply logged_mono; [exact H3|]. intros w Hw i Hi. by rewrite Hw, Hv.
Qed.

Lemma pc_at_view v v' p t : (forall i, v' i = v i) -> pc_at v p t -> pc_at v' p t.
Proof. intros Hv. destruct p; simpl; [done..| |done]. by rewrite Hv. Qed.

(** A handler of the transaction [id] that changes what [id] has and nothing
    another transaction relies on. *)
Lemma tinv_local e0 s s' id :
  tinv e0 s -> committing s id = false ->
  t_commit s' = t_commit s -> t_done s' = t_done s -> (forall i, x_view (t_ext s') i = x_view (t_ext s) i) ->
  t_begins s' = t_begins s -> trans_id (t_srv s') = trans_id (t_srv s) ->
  (forall j, j <> id -> transactionInfos (t_srv s') !! j = transactionInfos (t_srv s) !! j /\
     t_pc s' !! j = t_pc s !! j /\ t_hist s' !! j = t_hist s !! j) ->
  (forall t, transactionInfos (t_srv s') !! id = Some t ->
     is_Some (transactionInfos (t_srv s) !! id) /\
     tx_ok (x_view (t_ext s)) (pending s' id) t (default [] (t_hist s' !! id))) ->
  (is_Some (t_pc s' !! id) -> pc_ok s' id) ->
  (forall i, i ∈ owned s' id -> i ∈ t_lc s' /\ (i ∈ owned s id \/ i ∉ t_lc s)) ->
  (forall i, i ∈ t_lc s -> i ∉ owned s id -> i ∈ t_lc s') ->
  (forall i j, lock_handlers (t_srv s') !! i = Some j ->
     (j <> id /\ lock_handlers (t_srv s) !! i = Some j) \/ (j = id /\ i ∈ owned s' id)) ->
  tinv e0 s'.
Proof.
  intros Hinv Hn Hc Hd Hv Hb Hid Hoth Htx Hpc Hown Hlc Hh.
  assert (forall j, committing s' j = committing s j) as Hcj by (intros; unfold committing; by rewrite Hc).
  assert (forall j, j <> id -> owned s' j = owned s j) as Ho by (intros j Hj; destruct (Hoth j Hj) as (? & ? & _); by apply owned_same).
  assert (forall j i, j <> id -> i ∈ owned s j -> i ∉ owned s' id) as Hx.
  { intros j i Hj Hi Hi'. destruct (Hown i Hi') as [_ [Hi2|Hi2]]; [|by eapply Hi2, ti_lc].
    apply Hj. by eapply (ti_excl _ _ Hinv). }
  split.
  - intros j t Hj Hcm. rewrite Hcj in Hcm. apply (tx_ok_view (x_view (t_ext s))); [done|].
    destruct (decide (j = id)) as [->|Hne]; [by apply Htx|]. destruct (Hoth j Hne) as (E1 & E2 & ->).
    unfold pending. rewrite E2. eapply ti_tx; [done| |done]. by rewrite <- E1.
  - intros j [t Hj]. rewrite Hid. apply (ti_id _ _ Hinv). destruct (decide (j = id)) as [->|Hne]; [by eapply Htx|].
    rewrite <- (proj1 (Hoth j Hne)). eauto.
  - rewrite Hid. by eapply ti_pos.
  - intros j. rewrite Hb, Hid. intros Hj. destruct (ti_begins _ _ Hinv j Hj) as [H1 H2]. split; [done|].
    destruct (decide (j = id)) as [->|Hne]; [|by rewrite (proj1 (Hoth j Hne))].
    destruct (transactionInfos (t_srv s') !! id) as [t|] eqn:E'; [|done]. destruct (Htx t eq_refl) as [[t0 E0] _]. congruence.
  - intros j p Hp. destruct (decide (j = id)) as [->|Hne]; [by apply Hpc|]. destruct (Hoth j Hne) as (E1 & E2 & _).
    rewrite Hcj, E1. destruct (ti_pc _ _ Hinv j p) as (H1 & t & H2 & H3); [by rewrite <- E2|]. split; [done|].
    exists t. split; [done|]. by eapply pc_at_view.
  - intros j i Hi. destruct (decide (j = id)) as [->|Hne]; [by apply Hown|]. rewrite Ho in Hi by done.
    apply Hlc; [by eapply ti_lc|]. intros Hi'. apply Hne. by eapply (ti_excl _ _ Hinv).
  - intros j j' i Hi Hi'. destruct (decide (j = id)) as [->|Hne], (decide (j' = id)) as [->|Hne']; [done| | |].
    + rewrite Ho in Hi' by done. by destruct (Hx j' i Hne' Hi').
    + rewrite Ho in Hi by done. by destruct (Hx j i Hne Hi).
    + rewrite Ho in Hi, Hi' by done. by eapply (ti_excl _ _ Hinv).
  - intros i j Hj. destruct (Hh i j Hj) as [[Hne Hj']|[-> Hj']]; [|done]. rewrite Ho by done. by eapply ti_handler.
  - intros i. rewrite Hv. by eapply ti_view.
  - pose proof (ti_commit _ _ Hinv) as Hco. unfold commit_ok in *. rewrite Hc, Hd. destruct (t_commit s) as [[jd l]|] eqn:Ec.
    + destruct Hco as ((v & Hs & Hvv) & Hnd & Hl & Hk). split; [|split; [done|]; split; [done|]].
      * exists v. split; [done|]. intros i. rewrite Hvv. f_equal. by apply overlay_ext.
      * rewrite (proj1 (Hoth jd ltac:(intros ->; unfold committing in Hn; rewrite Ec in Hn; by rewrite bool_decide_eq_true_2 in Hn))). done.
    + destruct Hco as (v & Hs & Hvv). exists v. split; [done|]. intros. by rewrite Hv.
Qed.

(** ** The steps *)

(** A data operation on an inode whose lock the transaction has, already
    recorded ([v] is then the entry of the log) or not. *)
Lemma tx_ok_op v0 pend t h o i v out :
  tx_ok v0 pend t h -> pend ⊆ {[i]} -> in_hash i ->
  log t !! i = Some v \/ (log t !! i = None /\ (o = OGet -> v = v0 i)) -> (o = OGet -> out = v) ->
  tx_ok v0 ∅ {| locks := {[i]} ∪ locks t; log := <[i := new_value o v]> (log t) |} (h ++ [top_of o i out]).
Proof.
  intros [H1 H2 H3] Hp Hi Hv Hout. split; simpl.
  - rewrite H1. rewrite dom_insert_L. set_solver.
  - intros j. rewrite lookup_insert. case_decide; [by intros _; subst | apply H2].
  - set (A := agrees v0 (<[i := new_value o v]> (log t))).
    assert (forall w, A w -> agrees v0 (log t) w) as Hsub.
    { intros w Hw j Hj. apply Hw. rewrite lookup_insert. by case_decide. }
    destruct o as [|w|]; simpl in *; [|by eapply logged_put..].
    rewrite (Hout eq_refl). assert (forall w, A w -> overlay (log t) w i = v) as Hg.
    { intros w Hw. unfold overlay. destruct Hv as [->|[-> Hv]]; [done|]. simpl. rewrite (Hv eq_refl). apply Hw.
      by rewrite lookup_insert_eq. }
    apply logged_copy; [|done]. by eapply logged_get.
Qed.

Lemma in_call_false s id : in_call s id = false -> t_pc s !! id = None /\ committing s id = false.
Proof.
  unfold in_call, committing. intros [H1 H2]%orb_false_iff. split; [|done].
  apply bool_decide_eq_false_1 in H1. by apply eq_None_not_Some.
Qed.

(** A transaction outside the data operations. *)
Lemma ti_idle e0 s id t : tinv e0 s -> t_pc s !! id = None -> committing s id = false ->
  transactionInfos (t_srv s) !! id = Some t -> tx_ok (x_view (t_ext s)) ∅ t (default [] (t_hist s !! id)).
Proof. intros Hinv Hp Hc Ht. pose proof (ti_tx _ _ Hinv id t Ht Hc) as Hok. unfold pending in Hok. by rewrite Hp in Hok. Qed.

(** A transaction is dropped with its locks. *)
Lemma tinv_dropped e0 s s' id t d :
  tinv e0 s -> t_pc s !! id = None \/ t_pc s !! id = Some Victim -> committing s id = false ->
  transactionInfos (t_srv s) !! id = Some t ->
  s' = {| t_srv := dropped id t d (t_srv s); t_lc := t_lc s ∖ locks t; t_ext := t_ext s; t_begins := t_begins s;
          t_pc := delete id (t_pc s); t_commit := t_commit s; t_hist := t_hist s; t_done := t_done s |} ->
  tinv e0 s'.
Proof.
  intros Hinv Hp Hc Ht Hs'.
  assert (owned s id = locks t) as Ho by (apply owned_idle; [done..|by destruct Hp as [-> | ->]]).
  assert (forall i, i ∉ owned s' id) as Hno.
  { subst s'. intros i. unfold owned, committing in *. simpl. rewrite !lookup_delete_eq. simpl.
    destruct (t_commit s) as [[id' l]|]; [|set_solver]. apply bool_decide_eq_false_1 in Hc. rewrite decide_False by done. set_solver. }
  subst s'. eapply (tinv_local e0 s _ id); try done; simpl; unfold note; simpl.
  - intros j Hj. by rewrite !lookup_delete_ne.
  - intros t'. by rewrite lookup_delete_eq.
  - rewrite lookup_delete_eq; intros [? [=]].
  - intros i Hi. by destruct (Hno i).
  - intros i Hi Hi'. rewrite Ho in Hi'. set_solver.
  - intros i j [Hj Hij]%map_lookup_filter_Some. simpl in Hij. left. split; [|done]. intros ->.
    apply (ti_handler _ _ Hinv) in Hj. by rewrite Ho in Hj.
Qed.

(** A transaction that takes no lock enters a data operation. *)
Lemma tinv_enter e0 s s' id t d p :
  tinv e0 s -> t_pc s !! id = None -> committing s id = false -> transactionInfos (t_srv s) !! id = Some t ->
  match p with WaitLock i _ => in_hash i /\ i ∉ locks t | Victim => True | _ => False end ->
  s' = {| t_srv := set_dependency d (t_srv s); t_lc := t_lc s; t_ext := t_ext s; t_begins := t_begins s;
          t_pc := <[id := p]> (t_pc s); t_commit := t_commit s; t_hist := t_hist s; t_done := t_done s |} ->
  tinv e0 s'.
Proof.
  intros Hinv Hp Hc Ht Hat Hs'. assert (owned s' id = owned s id) as Hos.
  { subst s'. rewrite (owned_idle _ id t), (owned_idle s id t); try done; [by rewrite Hp|]. simpl. rewrite lookup_insert_eq. by destruct p. }
  subst s'. eapply (tinv_local e0 s _ id); try done; simpl; unfold note; simpl.
  - intros j Hj. by rewrite lookup_insert_ne.
  - intros t' Ht'. rewrite Ht. assert (t' = t) as -> by congruence. split; [done|].
    unfold pending. simpl. rewrite lookup_insert_eq. destruct p; try done; by eapply ti_idle.
  - intros _ q. simpl. rewrite lookup_insert_eq. intros [= <-]. split; [done|]. exists t. split; [done|]. by destruct p.
  - intros i Hi'. rewrite Hos in Hi'. split; [by apply (ti_lc _ _ Hinv id)|by left].
  - intros i j Hij. destruct (decide (j = id)) as [->|]; [|by left]. right. split; [done|]. rewrite Hos. by eapply ti_handler.
Qed.

Lemma tinv_access e0 s id o key s' : tinv e0 s -> tstep s (Access id o key) = Some (Ok s') -> tinv e0 s'.
Proof.
  intros Hinv Hs. simpl in Hs. destruct (in_call s id || _) eqn:Hin; [done|]. apply orb_false_iff in Hin as [Hin _].
  apply in_call_false in Hin as [Hp Hc]. injection Hs as Hs.
  apply res_bind_inv in Hs as ([r srv] & Ha%access_inv & Hs). destruct Ha as [Hu|t v out m Ht Hi Hv Ho ->|t d Ht Hi|t d Ht Hi];
    simpl in Hs; simplify_eq.
  - by destruct s.
  - pose proof (ti_idle _ _ _ _ Hinv Hp Hc Ht) as Hok.
    eapply (tinv_local e0 s _ id); try done; simpl; unfold note; simpl.
    + intros j Hj. by rewrite !lookup_insert_ne.
    + intros t'. unfold pending. simpl. rewrite !lookup_insert_eq, Ht, Hp. intros [= <-]. split; [done|]. simpl.
      assert (locks t = {[hash key]} ∪ locks t) as -> by set_solver. eapply tx_ok_op; [done|set_solver|done|by left|done].
    + by rewrite Hp; intros [].
    + intros i Hi'. rewrite (owned_idle _ id {| locks := locks t; log := <[hash key := new_value o v]> (log t) |}) in Hi';
        [|done|simpl; by rewrite lookup_insert_eq | by simpl; rewrite Hp].
      assert (i ∈ owned s id) as Hi2 by (rewrite (owned_idle s id t); [done..|by rewrite Hp]). split; [by apply (ti_lc _ _ Hinv id)|by left].
    + intros i j Hij. destruct (decide (j = id)) as [->|]; [|by left]. right. split; [done|].
      apply (ti_handler _ _ Hinv) in Hij. rewrite (owned_idle s id t) in Hij by (done || by rewrite Hp).
      rewrite (owned_idle _ id {| locks := locks t; log := <[hash key := new_value o v]> (log t) |});
        [done|done|simpl; by rewrite lookup_insert_eq | by simpl; rewrite Hp].
  - by eapply (tinv_enter e0 s _ id t d (WaitLock (hash key) o)).
  - by eapply (tinv_enter e0 s _ id t d Victim).
Qed.

Lemma tinv_acquire e0 s id s' : tinv e0 s -> tstep s (Acquire id) = Some (Ok s') -> tinv e0 s'.
Proof.
  intros Hinv Hs. simpl in Hs. destruct (t_pc s !! id) as [[ino o| | | |]|] eqn:Hp; try done.
  case_bool_decide as Hl; [done|]. injection Hs as <-. destruct (ti_pc _ _ Hinv id _ Hp) as (Hc & t & Ht & Hi & Hn).
  set (s' := {| t_srv := _ |}). assert (owned s' id = locks t ∪ {[ino]}) as Hos.
  { unfold owned, committing in *. simpl. rewrite lookup_insert_eq, Ht. simpl. destruct (t_commit s) as [[id' l]|]; [|done].
    apply bool_decide_eq_false_1 in Hc. by rewrite decide_False. }
  assert (owned s id = locks t) as Hos' by (apply owned_idle; [done..|by rewrite Hp]).
  eapply (tinv_local e0 s _ id); try done; simpl; unfold note; simpl.
  - intros j Hj. by rewrite lookup_insert_ne.
  - intros t' Ht'. rewrite Ht. assert (t' = t) as -> by congruence. split; [done|].
    pose proof (ti_tx _ _ Hinv id t Ht Hc) as Hok. unfold pending in *. rewrite Hp in Hok. simpl. by rewrite lookup_insert_eq.
  - intros _ p. simpl. rewrite lookup_insert_eq. intros [= <-]. split; [done|]. by exists t.
  - intros i Hi'. rewrite Hos, elem_of_union, elem_of_singleton in Hi'. destruct Hi' as [Hi'| ->]; [|set_solver].
    assert (i ∈ t_lc s) by (eapply (ti_lc _ _ Hinv id); by rewrite Hos'). rewrite Hos'. set_solver.
  - intros i Hi' _. set_solver.
  - intros i j Hij. destruct (decide (j = id)) as [->|]; [|by left]. right. split; [done|]. rewrite Hos.
    apply (ti_handler _ _ Hinv) in Hij. rewrite Hos' in Hij. set_solver.
Qed.

(** The lock is recorded. *)
Lemma tinv_record e0 s id ino o s' : tinv e0 s -> t_pc s !! id = Some (HasLock ino o) ->
  tstep s (Granted id) = Some (Ok s') -> tinv e0 s'.
Proof.
  intros Hinv Hp Hs. simpl in Hs. rewrite Hp in Hs. simpl in Hs. injection Hs as <-. set (s' := {| t_srv := _ |}).
  destruct (ti_pc _ _ Hinv id _ Hp) as (Hc & t & Ht & Hi & Hn). pose proof (ti_tx _ _ Hinv id t Ht Hc) as Hok.
  unfold pending in Hok. rewrite Hp in Hok. set (t' := {| locks := {[ino]} ∪ locks t; log := log t |}).
  assert (transactionInfos (t_srv s') !! id = Some t') as Ht' by (simpl; by rewrite lookup_insert_eq, Ht).
  assert (owned s' id = {[ino]} ∪ locks t) as Hos.
  { rewrite (owned_idle s' id t'); [done|done|done|]. simpl. by rewrite lookup_insert_eq. }
  assert (owned s id = {[ino]} ∪ locks t) as Hos'.
  { unfold owned, committing in *. rewrite Hp, Ht. simpl. destruct (t_commit s) as [[id' l]|]; [|set_solver].
    apply bool_decide_eq_false_1 in Hc. rewrite decide_False by done. set_solver. }
  eapply (tinv_local e0 s _ id); try done.
  - intros j Hj. simpl. by rewrite !lookup_insert_ne.
  - intros u. rewrite Ht', Ht. intros [= <-]. split; [done|]. unfold pending. simpl. rewrite lookup_insert_eq.
    destruct Hok as [H1 H2 H3]. split; [simpl; set_solver|done|done].
  - intros _ q. simpl. rewrite lookup_insert_eq. intros [= <-]. split; [done|]. exists t'. split; [done|]. split; [done|].
    apply not_elem_of_dom. simpl. destruct Hok as [H1 _ _]. set_solver.
  - intros i Hi'. rewrite Hos, <- Hos' in Hi'. split; [by apply (ti_lc _ _ Hinv id)|by left].
  - intros i j. rewrite Hos. simpl. rewrite lookup_insert. case_decide; [intros [= <-]; right; set_solver|]. intros Hij.
    destruct (decide (j = id)) as [->|]; [|by left]. right. apply (ti_handler _ _ Hinv) in Hij. by rewrite Hos' in Hij.
Qed.

(** The lock is recorded and the log has no entry yet. *)
Definition logging s (id i : Z) (t : Transaction) : Prop :=
  committing s id = false /\ transactionInfos (t_srv s) !! id = Some t /\ pending s id = {[i]} /\ i ∈ locks t /\
  in_hash i /\ log t !! i = None /\ owned s id = locks t.

Lemma pc_logging e0 s id i p : tinv e0 s -> t_pc s !! id = Some p ->
  (exists o, p = Recorded i o) \/ (exists v, p = Fetched i v) -> exists t, logging s id i t.
Proof.
  intros Hinv Hp Hpi. destruct (ti_pc _ _ Hinv id _ Hp) as (Hc & t & Ht & Hat).
  assert (pending s id = {[i]}) as Hpend by (unfold pending; rewrite Hp; by destruct Hpi as [[o ->]|[v ->]]).
  exists t. split_and!; try done.
  - pose proof (ti_tx _ _ Hinv id t Ht Hc) as [H1 _ _]. rewrite H1, Hpend. set_solver.
  - destruct Hpi as [[o ->]|[v ->]]; apply Hat.
  - destruct Hpi as [[o ->]|[v ->]]; apply Hat.
  - apply owned_idle; [done..|]. rewrite Hp. by destruct Hpi as [[o ->]|[v ->]].
Qed.

(** A [get] reads the store. *)
Lemma tinv_fetch e0 s id ino s' : tinv e0 s -> t_pc s !! id = Some (Recorded ino OGet) ->
  tstep s (Granted id) = Some (Ok s') -> tinv e0 s'.
Proof.
  intros Hinv Hp Hs. destruct (pc_logging e0 s id ino _ Hinv Hp ltac:(eauto)) as (t & Hc & Ht & Hpend & Hin & Hi & Hl & Ho).
  simpl in Hs. rewrite Hp in Hs. simpl in Hs.
  pose proof (x_get_ok ino (t_ext s) Hi) as Hx. pose proof (fun j => x_get_view ino (t_ext s) j Hi) as Hv.
  destruct (x_get ino (t_ext s)) as [v e']. simpl in Hx, Hv, Hs. injection Hs as <-. set (s' := {| t_srv := _ |}).
  assert (owned s' id = owned s id) as Hos.
  { rewrite Ho. apply owned_idle; [done..|]. simpl. by rewrite lookup_insert_eq. }
  eapply (tinv_local e0 s _ id); try done.
  - intros j Hj. simpl. by rewrite !lookup_insert_ne.
  - intros u Hu. simpl in Hu. rewrite Ht. assert (u = t) as -> by congruence. split; [done|].
    pose proof (ti_tx _ _ Hinv id t Ht Hc) as Hok. rewrite Hpend in Hok. unfold pending. simpl. by rewrite lookup_insert_eq.
  - intros _ q. simpl. rewrite lookup_insert_eq. intros [= <-]. split; [done|]. exists t. split; [done|]. simpl. by rewrite Hv.
  - intros i Hi'. rewrite Hos in Hi'. split; [by apply (ti_lc _ _ Hinv id)|by left].
  - intros i j Hij. destruct (decide (j = id)) as [->|]; [|by left]. right. split; [done|]. rewrite Hos. by eapply ti_handler.
Qed.

(** The value is logged and the operation returns. *)
Lemma tinv_finish e0 s id i t o v s' : tinv e0 s -> logging s id i t -> (o = OGet -> v = x_view (t_ext s) i) ->
  s' = {| t_srv := put_log id i (new_value o v) (t_srv s); t_lc := t_lc s; t_ext := t_ext s; t_begins := t_begins s;
          t_pc := delete id (t_pc s); t_commit := t_commit s; t_hist := note id (top_of o i v) (t_hist s); t_done := t_done s |} ->
  tinv e0 s'.
Proof.
  intros Hinv (Hc & Ht & Hpend & Hin & Hi & Hl & Ho) Hv Hs'.
  set (t' := {| locks := locks t; log := <[i := new_value o v]> (log t) |}).
  assert (transactionInfos (t_srv s') !! id = Some t') as Ht' by (subst s'; simpl; by rewrite lookup_insert_eq, Ht).
  assert (t_pc s' !! id = None) as Hp' by (subst s'; simpl; by rewrite lookup_delete_eq).
  assert (owned s' id = owned s id) as Hos.
  { rewrite Ho, (owned_idle s' id t'); [done|by subst s'|done|by rewrite Hp']. }
  pose proof (ti_tx _ _ Hinv id t Ht Hc) as Hok. subst s'.
  eapply (tinv_local e0 s _ id); try done.
  - intros j Hj. simpl. unfold note. by rewrite !lookup_insert_ne, lookup_delete_ne.
  - intros u. rewrite Ht', Ht. intros [= <-]. split; [done|]. unfold pending. rewrite Hp'. simpl. unfold note. rewrite lookup_insert_eq.
    simpl. unfold t'. assert (locks t = {[i]} ∪ locks t) as -> by set_solver.
    eapply tx_ok_op; [exact Hok|by rewrite Hpend|done|by right|done].
  - rewrite Hp'. by intros [].
  - intros j Hi'. rewrite Hos in Hi'. split; [by apply (ti_lc _ _ Hinv id)|by left].
  - intros j k Hij. destruct (decide (k = id)) as [->|]; [|by left]. right. split; [done|]. rewrite Hos. by eapply ti_handler.
Qed.

Lemma tinv_granted e0 s id s' : tinv e0 s -> tstep s (Granted id) = Some (Ok s') -> tinv e0 s'.
Proof.
  intros Hinv Hs. destruct (t_pc s !! id) as [[ino o|ino o|ino [|w|]|ino v|]|] eqn:Hp.
  all: try (simpl in Hs; rewrite Hp in Hs; done).
  - by eapply tinv_record.
  - by eapply tinv_fetch.
  - destruct (pc_logging e0 s id ino _ Hinv Hp ltac:(eauto)) as [t Hl]. simpl in Hs. rewrite Hp in Hs. simpl in Hs. injection Hs as <-.
    by eapply (tinv_finish e0 s _ ino t (OSet w) []).
  - destruct (pc_logging e0 s id ino _ Hinv Hp ltac:(eauto)) as [t Hl]. simpl in Hs. rewrite Hp in Hs. simpl in Hs. injection Hs as <-.
    by eapply (tinv_finish e0 s _ ino t ODel []).
  - destruct (pc_logging e0 s id ino _ Hinv Hp ltac:(eauto)) as [t Hl]. destruct (ti_pc _ _ Hinv id _ Hp) as (_ & _ & _ & _ & _ & Hv).
    simpl in Hs. rewrite Hp in Hs. simpl in Hs. injection Hs as <-. by eapply (tinv_finish e0 s _ ino t OGet v).
Qed.

(** A transaction that is not in the map has nothing. *)
Lemma unknown_id e0 s id : tinv e0 s -> transactionInfos (t_srv s) !! id = None ->
  t_pc s !! id = None /\ committing s id = false.
Proof.
  intros Hinv Hn. split.
  - destruct (t_pc s !! id) as [p|] eqn:Hp; [|done]. destruct (ti_pc _ _ Hinv _ p Hp) as (_ & t & Ht & _). congruence.
  - unfold committing. pose proof (ti_commit _ _ Hinv) as Hc. unfold commit_ok in Hc. destruct (t_commit s) as [[id' l]|]; [|done].
    apply bool_decide_eq_false_2. intros ->. destruct Hc as (_ & _ & _ & [t Ht]). congruence.
Qed.

(** A number is drawn. *)
Lemma tinv_begin e0 s s' : tinv e0 s -> tstep s Begin = Some (Ok s') -> tinv e0 s'.
Proof.
  intros Hinv Hs. simpl in Hs. unfold begin_id in Hs. destruct (_ =? _); [done|]. simpl in Hs. injection Hs as <-.
  pose proof (ti_pos _ _ Hinv) as Hpos. destruct Hinv as [H1 H2 _ H4 H5 H6 H7 H8 H9 H10]. split; simpl; try done.
  - intros id Hid%H2. lia.
  - lia.
  - intros id [->%elem_of_singleton|Hid]%elem_of_union; [|destruct (H4 _ Hid); split; [lia|done]].
    split; [lia|]. apply eq_None_not_Some. intros Hid%H2. lia.
Qed.

(** The transaction is inserted. *)
Lemma tinv_insert e0 s id s' : tinv e0 s -> tstep s (BeginInsert id) = Some (Ok s') -> tinv e0 s'.
Proof.
  intros Hinv Hs. simpl in Hs. case_bool_decide as Hb; [|done]. injection Hs as <-.
  destruct (ti_begins _ _ Hinv id Hb) as [Hid Hn]. destruct (unknown_id e0 s id Hinv Hn) as (Hp & Hc). set (s' := {| t_srv := _ |}).
  assert (forall j, owned s' j = owned s j) as Ho.
  { intros j. unfold owned. simpl. rewrite lookup_insert. case_decide as Hj; [|done]. rewrite <- Hj, Hn, Hp. simpl.
    unfold committing in Hc. destruct (t_commit s) as [[id' l]|]; [|done]. apply bool_decide_eq_false_1 in Hc. by rewrite !decide_False. }
  split; simpl; try (by apply Hinv); try setoid_rewrite Ho; try (by apply Hinv).
  - intros j t. rewrite !lookup_insert. case_decide; [|by apply Hinv]. intros [= <-] _. split; simpl.
    + subst j. unfold pending. simpl. rewrite Hp. by rewrite dom_empty_L.
    + intros i. rewrite lookup_empty. by intros [].
    + apply logged_nil.
  - intros j. rewrite lookup_insert. case_decide; [by intros _; subst|]. apply (ti_id _ _ Hinv).
  - apply (ti_pos _ _ Hinv).
  - intros j [Hj Hne%not_elem_of_singleton]%elem_of_difference. rewrite lookup_insert_ne by done. by apply (ti_begins _ _ Hinv).
  - intros j p Hpc. destruct (ti_pc _ _ Hinv j p Hpc) as (H1 & t & Ht & H3). split; [done|]. exists t.
    simpl. rewrite lookup_insert_ne by (intros <-; congruence). done.
  - pose proof (ti_commit _ _ Hinv) as Hco. unfold commit_ok in *. simpl. destruct (t_commit s) as [[jd l]|]; [|done].
    destruct Hco as (H1 & H2 & H3 & H4). split; [done|]. split; [done|]. split; [done|]. rewrite lookup_insert. by case_decide.
Qed.

Lemma clean_id x : x <> REMOVESTRING -> clean REMOVESTRING x = x.
Proof. intros Hx. unfold clean. by rewrite decide_False. Qed.

Lemma tinv_commit e0 s id s' : tinv e0 s -> tstep s (Commit id) = Some (Ok s') -> tinv e0 s'.
Proof.
  intros Hinv Hs. simpl in Hs. destruct (in_call s id || _) eqn:Hin; [done|]. apply orb_false_iff in Hin as [Hin Hcn].
  apply in_call_false in Hin as [Hp Hc]. assert (t_commit s = None) as Hco by (by apply bool_decide_eq_false_1, eq_None_not_Some in Hcn).
  destruct (transactionInfos (t_srv s) !! id) as [t|] eqn:Ht; simplify_eq; [|done].
  destruct (ti_idle _ _ _ _ Hinv Hp Hc Ht) as [Hl Hk Hlg]. set (s' := {| t_srv := _ |}).
  assert (forall j, owned s' j = owned s j) as Ho.
  { intros j. unfold owned. simpl. rewrite Hco. case_decide as Hj; [|done]. subst j. rewrite Ht. simpl. rewrite Hl, (left_id_L ∅ (∪)). f_equal.
    apply set_eq. intros i. rewrite elem_of_list_to_set, list_elem_of_fmap, elem_of_dom. split.
    - intros ([i' x] & -> & Hx%elem_of_entries). by exists x.
    - intros [x Hx]. exists (i, x). split; [done|]. by apply elem_of_entries. }
  split; simpl; try (by apply Hinv); try (by eapply ti_pos); try setoid_rewrite Ho; try (by apply Hinv).
  - intros j t' Hj _. apply (ti_tx _ _ Hinv); [done|]. unfold committing. by rewrite Hco.
  - intros j p Hpc. destruct (ti_pc _ _ Hinv j p Hpc) as (_ & H3). split; [|done]. unfold committing. simpl.
    apply bool_decide_eq_false_2. intros ->. simpl in Hpc. congruence.
  - pose proof (ti_commit _ _ Hinv) as Hs0. unfold commit_ok in *. rewrite Hco in Hs0. simpl. destruct Hs0 as (v & Hs0 & Hv). split_and!.
    + edestruct (logged_commit REMOVESTRING _ _ _ (x_view e0) (t_done s) v Hlg) as (v' & Hs' & Hv'); [by intros i _ | done |].
      exists v'. split; [done|]. intros i. rewrite Hv', entries_to_map. f_equal. by apply overlay_ext.
    + apply NoDup_entries.
    + intros i x Hi%elem_of_entries. apply Hk. by exists x.
    + by rewrite Ht.
Qed.

(** One entry of the log is written and its lock released. *)
Lemma tinv_item e0 s id i x l s' : tinv e0 s -> t_commit s = Some (id, (i, x) :: l) ->
  tstep s CommitStep = Some (Ok s') -> tinv e0 s'.
Proof.
  intros Hinv Hco Hs. simpl in Hs. rewrite Hco in Hs. simpl in Hs. injection Hs as <-. set (s' := {| t_srv := _ |}).
  pose proof (ti_commit _ _ Hinv) as Hc. unfold commit_ok in Hc. rewrite Hco in Hc.
  destruct Hc as ((v & Hs0 & Hv) & [Hni Hn]%NoDup_cons & Hk & Ht).
  assert (in_hash i) as Hi by (apply (Hk i x); left).
  assert (forall j, x_view (t_ext s') j = clean REMOVESTRING (upd (x_view (t_ext s)) i x j)) as Hview.
  { intros j. unfold clean, upd. simpl. pose proof (ti_view _ _ Hinv j).
    destruct (decide (x = REMOVESTRING)) as [Hx|Hx]; [rewrite bool_decide_eq_true_2 by done; rewrite (x_remove_view i) by done|
      rewrite bool_decide_eq_false_2 by done; rewrite (x_put_view i) by done]; repeat case_decide; done. }
  assert (committing s id = true) as Hid by (unfold committing; rewrite Hco; by apply bool_decide_eq_true_2).
  assert (t_pc s !! id = None) as Hpid.
  { destruct (t_pc s !! id) as [p|] eqn:Hp; [|done]. destruct (ti_pc _ _ Hinv id p Hp) as [H0 _]. congruence. }
  assert (owned s id = {[i]} ∪ owned s' id) as Ho1.
  { unfold owned. simpl. rewrite Hco, Hpid. rewrite !decide_True by done. simpl. set_solver. }
  assert (i ∉ owned s' id) as Ho3.
  { unfold owned. simpl. rewrite Hpid, decide_True by done. rewrite elem_of_union, elem_of_list_to_set. set_solver. }
  assert (forall j, j <> id -> owned s' j = owned s j) as Ho2.
  { intros j Hj. unfold owned. simpl. rewrite Hco. by rewrite !decide_False by done. }
  assert (forall j k, k ∈ owned s' j -> k ∈ owned s j /\ k <> i) as Hown.
  { intros j k Hkj. destruct (decide (j = id)) as [->|Hj]; [set_solver|]. rewrite Ho2 in Hkj by done. split; [done|]. intros ->.
    apply Hj. eapply (ti_excl _ _ Hinv); [done|]. set_solver. }
  split; simpl; try (by apply Hinv); try (by eapply ti_pos).
  - intros j t Hj Hcj. assert (j <> id) as Hne.
    { intros ->. unfold committing in Hcj. simpl in Hcj. by rewrite bool_decide_eq_true_2 in Hcj. }
    assert (committing s j = false) as Hcj' by (unfold committing; rewrite Hco; by apply bool_decide_eq_false_2).
    pose proof (ti_tx _ _ Hinv j t Hj Hcj') as Hok. eapply tx_ok_view; [|done]. intros k Hkl. change (x_view (t_ext s') k = x_view (t_ext s) k).
    rewrite Hview. unfold upd. rewrite decide_False; [apply clean_id, (ti_view _ _ Hinv)|]. intros ->.
    apply Hne. eapply (ti_excl _ _ Hinv _ _ i); [|rewrite Ho1; set_solver]. unfold owned. rewrite Hco, decide_False, Hj by done.
    simpl. rewrite (to_locks _ _ _ _ Hok). apply elem_of_union_l, elem_of_union_r. by apply elem_of_dom.
  - intros j p Hp. destruct (ti_pc _ _ Hinv j p Hp) as (H1 & t & H2 & H3).
    split; [unfold committing in *; rewrite Hco in H1; done|]. exists t. split; [done|].
    destruct p as [k o|k o|k o|k v0|]; try done. destruct H3 as (H3 & H4 & ->). split; [done|]. split; [done|].
    rewrite Hview. unfold upd. rewrite decide_False; [symmetry; apply clean_id, (ti_view _ _ Hinv)|]. intros ->.
    destruct (pc_logging e0 s j i _ Hinv Hp ltac:(eauto)) as (t' & _ & _ & _ & Hin & _ & _ & Hoj).
    assert (j = id) as -> by (apply (ti_excl _ _ Hinv j id i); [by rewrite Hoj | rewrite Ho1; set_solver]). congruence.
  - intros j k [Hkj Hki]%Hown. apply elem_of_difference. split; [by eapply ti_lc|]. by apply not_elem_of_singleton.
  - intros j j' k [H1 _]%Hown [H2 _]%Hown. by eapply (ti_excl _ _ Hinv).
  - intros k j. rewrite lookup_delete. case_decide; [done|]. intros Hh%(ti_handler _ _ Hinv).
    destruct (decide (j = id)) as [->|Hj]; [set_solver|]. by rewrite Ho2.
  - intros k. change (x_view (t_ext s') k <> REMOVESTRING). rewrite Hview. unfold clean. by case_decide.
  - unfold commit_ok. simpl. split; [|split; [done|]; split; [|done]; intros j y Hj; apply (Hk j y); by right].
    exists v. split; [done|]. intros j. rewrite Hv, overlay_cons by done. change (clean REMOVESTRING (overlay (list_to_map l) (upd (x_view (t_ext s)) i x) j) =
      clean REMOVESTRING (overlay (list_to_map l) (x_view (t_ext s')) j)).
    unfold overlay. destruct (list_to_map l !! j); simpl; [done|]. rewrite Hview. unfold clean. by repeat case_decide.
Qed.

Lemma tinv_end e0 s id s' : tinv e0 s -> t_commit s = Some (id, []) -> tstep s CommitStep = Some (Ok s') -> tinv e0 s'.
Proof.
  intros Hinv Hco Hs. simpl in Hs. rewrite Hco in Hs. injection Hs as Hs.
  apply res_bind_inv in Hs as (srv & He & [= <-]). unfold commit_end in He.
  apply res_bind_inv in He as (srv' & (d & _ & ->)%clear_dependency_inv & [= <-]). set (s' := {| t_srv := _ |}).
  assert (committing s id = true) as Hid by (unfold committing; rewrite Hco; by apply bool_decide_eq_true_2).
  assert (t_pc s !! id = None) as Hpid.
  { destruct (t_pc s !! id) as [p|] eqn:Hp; [|done]. destruct (ti_pc _ _ Hinv id p Hp) as [H0 _]. congruence. }
  assert (forall j, owned s' j = owned s j) as Ho.
  { intros j. unfold owned. simpl. rewrite Hco, lookup_delete. repeat case_decide; try done. }
  pose proof (ti_commit _ _ Hinv) as Hc. unfold commit_ok in Hc. rewrite Hco in Hc.
  split; simpl; try (by apply Hinv); try (by eapply ti_pos); try setoid_rewrite Ho; try (by apply Hinv).
  - intros j t. rewrite lookup_delete. case_decide as Hj; [done|]. intros Ht _. apply (ti_tx _ _ Hinv); [done|].
    unfold committing. rewrite Hco. by apply bool_decide_eq_false_2.
  - intros j. rewrite lookup_delete. case_decide; [by intros []|]. apply Hinv.
  - intros j Hj. destruct (ti_begins _ _ Hinv j Hj) as [? Hno]. split; [done|]. rewrite lookup_delete. by case_decide.
  - intros j p Hp. destruct (ti_pc _ _ Hinv j p Hp) as (H1 & t & Ht & H3). split; [done|]. exists t. simpl.
    rewrite lookup_delete_ne; [done|]. intros ->. congruence.
  - unfold commit_ok. simpl. destruct Hc as ((v & Hs & Hv) & _). exists v. split; [done|]. intros i. rewrite Hv, overlay_nil.
    apply clean_id, (ti_view _ _ Hinv).
Qed.

Lemma treach_inv e0 s : (forall i, x_view e0 i <> REMOVESTRING) -> treach e0 s -> tinv e0 s.
Proof.
  intros Hv. induction 1 as [|s ev s' _ Hinv Hs].
  - assert (forall id, owned (new_tsys e0) id = ∅) as Ho by done.
    split; simpl; try done; try setoid_rewrite Ho; try done; [by intros ? []|]. by exists (x_view e0).
  - destruct ev as [|id|id o key|id|id|id|id|id|].
    + by eapply tinv_begin.
    + by eapply tinv_insert.
    + by eapply tinv_access.
    + by eapply tinv_acquire.
    + by eapply tinv_granted.
    + simpl in Hs. destruct (t_pc s !! id) as [[]|] eqn:Hp; try done. destruct (t_commit s) eqn:Hco; [done|]. injection Hs as Hs.
      apply res_bind_inv in Hs as ([srv lc] & (t & d & Ht & _ & -> & ->)%release_locks_inv & [= <-]).
      eapply (tinv_dropped e0 s _ id t d); [done|by right| |done|by rewrite Hco]. unfold committing. by rewrite Hco.
    + simpl in Hs. destruct (in_call s id || _) eqn:Hin; [done|]. apply orb_false_iff in Hin as [[Hp Hc]%in_call_false _].
      injection Hs as Hs. apply res_bind_inv in Hs as ([[st srv] lc] & Ha & [= <-]). unfold transaction_abort in Ha.
      destruct (transactionInfos (t_srv s) !! id) as [t|] eqn:Ht; [|simplify_eq; by destruct s].
      apply res_bind_inv in Ha as ([s1 lc1] & (t' & d & Ht' & _ & -> & ->)%release_locks_inv & Heq). simplify_eq.
      eapply (tinv_dropped e0 s _ id); [done|by left|done..|]. by rewrite delete_id.
    + by eapply tinv_commit.
    + destruct (t_commit s) as [[id [|[i x] l]]|] eqn:Hco; [by eapply tinv_end | by eapply tinv_item|]. simpl in Hs. by rewrite Hco in Hs.
Qed.

(** C6. The two-phase-locking server is serialisable: in every interleaving of
    the handlers, each commit writing one entry of its log at a time, whenever
    no commit is in progress the store is exactly what a serial run of the
    committed transactions, in commit order, leaves, and in that run every [get]
    returns what it returned to its client.  The store must not hold the string
    that marks deleted keys; in the serial run a deleted key reads as that string
    until the commit, and for the transactions that neither read nor write it the
    run is one in which a deleted key is empty at once ([YdbSpec.serial_plain]). *)
Theorem two_pl_serializable (e0 : E) (s : tsys E) :
  (forall i, x_view e0 i <> REMOVESTRING) -> treach e0 s -> t_commit s = None ->
  exists v, serial REMOVESTRING (x_view e0) (t_done s) = Some v /\ forall i, v i = x_view (t_ext s) i.
Proof. intros Hv Hs%treach_inv Hn; [|done]. pose proof (ti_commit _ _ Hs) as Hc. unfold commit_ok in Hc. by rewrite Hn in Hc. Qed.

(** ** The handlers do not fault *)

Lemma clear_dependency_ok id srv : graph_ok srv -> trans_id srv <= INODE_NUM -> 0 <= id < trans_id srv ->
  exists d, clear_dependency id srv = Ok (set_dependency d srv) /\ graph_ok (set_dependency d srv).
Proof.
  intros Hg Hn Hi. unfold clear_dependency, in_array.
  rewrite (proj2 (Z.leb_le 0 id)), (proj2 (Z.leb_le _ INODE_NUM)), (proj2 (Z.ltb_lt _ _)), orb_true_r by lia. eexists. split; [done|].
  eapply graph_sub; [done| |simpl; lia]. simpl. set_solver.
Qed.

Lemma release_locks_ok id srv lc t : graph_ok srv -> trans_id srv <= INODE_NUM -> 0 <= id < trans_id srv ->
  transactionInfos srv !! id = Some t ->
  exists srv' lc', release_locks id srv lc = Ok (srv', lc') /\ graph_ok srv'.
Proof.
  intros Hg Hn Hi Ht. unfold release_locks. rewrite Ht. destruct (clear_dependency_ok id srv Hg Hn Hi) as (d & -> & Hd).
  simpl. eexists _, _. split; [done|]. eapply graph_sub; [exact Hd|done|simpl; lia].
Qed.

Lemma access_total e0 s id o key : tinv e0 s -> t_pc s !! id = None -> committing s id = false ->
  graph_ok (t_srv s) -> trans_id (t_srv s) <= INODE_NUM ->
  exists r srv, access id o key (t_srv s) = Ok (r, srv) /\ graph_ok srv.
Proof.
  intros Hinv Hp Hc Hg Hn. unfold access. destruct (transactionInfos (t_srv s) !! id) as [t|] eqn:Ht; [|by eexists _, _].
  assert (0 <= id < trans_id (t_srv s)) as Hid by (apply (ti_id _ _ Hinv); by rewrite Ht). case_bool_decide as Hi.
  - destruct (ti_idle _ _ _ _ Hinv Hp Hc Ht) as [Hl _ _]. rewrite Hl, (left_id_L ∅ (∪)) in Hi.
    apply elem_of_dom in Hi as [v Hv]. unfold held. rewrite Hv.
    destruct o; simpl; eexists _, _; (split; [done|]); (eapply graph_sub; [exact Hg|done|simpl; lia]).
  - destruct (lock_handlers (t_srv s) !! hash key) as [id2|] eqn:Hh.
    2:{ unfold checkCycle. rewrite Hh. simpl. by eexists _, _. }
    assert (0 <= id2 < trans_id (t_srv s)) as Hid2.
    { apply (ti_id _ _ Hinv). eapply (owned_known e0 s); [done|]. by eapply ti_handler. }
    destruct (checkCycle_holder _ id id2 (hash key) Hg Hn Hh Hid Hid2) as (b & -> & Hb). simpl. destruct b.
    + by eexists _, _.
    + eexists _, _. split; [done|]. apply graph_add; [done..|]. by intros H0%Hb.
Qed.

Lemma granted_frame id p srv e r srv' e' : granted id p srv e = Some (r, srv', e') ->
  dependency srv' = dependency srv /\ trans_id srv' = trans_id srv /\
  forall j, j <> id -> transactionInfos srv' !! j = transactionInfos srv !! j.
Proof.
  intros Hg. destruct p as [ino o|ino o|ino [|w|]|ino v|]; simpl in Hg; try done; [| destruct (x_get ino e) | ..]; simplify_eq; simpl;
    (split; [done|split; [done|]]); intros j Hj; by rewrite ?lookup_insert_ne.
Qed.

(** Progress and preservation together. *)
Lemma tstep_ok e0 s ev r : tinv e0 s -> graph_ok (t_srv s) -> trans_id (t_srv s) <= INODE_NUM ->
  tstep s ev = Some r -> exists s', r = Ok s' /\ graph_ok (t_srv s').
Proof.
  intros Hinv Hg Hn Hs. destruct ev as [|id|id o key|id|id|id|id|id|]; simpl in Hs.
  - simplify_eq. unfold begin_id. rewrite (proj2 (Z.eqb_neq _ _)) by (unfold INT_MAX, INODE_NUM in *; lia). simpl.
    eexists. split; [done|]. eapply graph_sub; [exact Hg|done|simpl; lia].
  - case_bool_decide; simplify_eq. eexists. split; [done|]. eapply graph_sub; [exact Hg|done|simpl; lia].
  - destruct (in_call s id || _) eqn:Hin; [done|]. apply orb_false_iff in Hin as [[Hp Hc]%in_call_false _]. simplify_eq.
    destruct (access_total e0 s id o key Hinv Hp Hc Hg Hn) as (r & srv & -> & Hg'). simpl. by eexists.
  - destruct (t_pc s !! id) as [[]|]; try done. case_bool_decide; simplify_eq. by eexists.
  - destruct (t_pc s !! id) as [p|]; [|done]. simpl in Hs.
    destruct (granted id p (t_srv s) (t_ext s)) as [[[r0 srv] e']|] eqn:Hgr; [|done]. simpl in Hs. simplify_eq.
    apply granted_frame in Hgr as (H1 & H2 & _). eexists. split; [done|]. eapply graph_sub; [exact Hg|simpl; by rewrite H1|simpl; lia].
  - destruct (t_pc s !! id) as [[]|] eqn:Hp; try done. destruct (t_commit s); [done|]. simplify_eq.
    destruct (ti_pc _ _ Hinv id _ Hp) as (_ & t & Ht & _).
    edestruct (release_locks_ok id (t_srv s) (t_lc s) t Hg Hn) as (s1 & lc1 & -> & Hg1); [|done|by eexists].
    apply (ti_id _ _ Hinv). by rewrite Ht.
  - destruct (in_call s id || _) eqn:Hin; [done|]. simplify_eq. unfold transaction_abort.
    destruct (transactionInfos (t_srv s) !! id) as [t|] eqn:Ht; [|by eexists].
    edestruct (release_locks_ok id (t_srv s) (t_lc s) t Hg Hn) as (s1 & lc1 & -> & Hg1); [|done|by eexists].
    apply (ti_id _ _ Hinv). by rewrite Ht.
  - destruct (in_call s id || _); [done|]. destruct (transactionInfos (t_srv s) !! id); simplify_eq; by eexists.
  - pose proof (ti_commit _ _ Hinv) as Hc. unfold commit_ok in Hc. destruct (t_commit s) as [[id [|[i x] l]]|]; simplify_eq.
    + unfold commit_end. edestruct (clear_dependency_ok id (t_srv s) Hg Hn) as (d & -> & Hd).
      { apply (ti_id _ _ Hinv). apply Hc. }
      simpl. eexists. split; [done|]. eapply graph_sub; [exact Hd|done|simpl; lia].
    + eexists. split; [done|]. eapply graph_sub; [exact Hg|done|simpl; lia].
Qed.

Lemma tstep_mono s ev s' : tstep s ev = Some (Ok s') -> trans_id (t_srv s) <= trans_id (t_srv s').
Proof.
  destruct ev as [|id|id o key|id|id|id|id|id|]; intros Hs; simpl in Hs.
  - unfold begin_id in Hs. case_match; [done|]. simpl in Hs. simplify_eq. simpl. lia.
  - case_bool_decide; [|done]. by simplify_eq.
  - case_match; [done|]. injection Hs as Hs. apply res_bind_inv in Hs as ([r srv] & Ha%access_inv & Hs). simplify_eq.
    destruct Ha; simpl; lia.
  - repeat (case_match; try done). by simplify_eq.
  - destruct (t_pc s !! id) as [p|]; [|done]. simpl in Hs.
    destruct (granted id p (t_srv s) (t_ext s)) as [[[r0 srv] e']|] eqn:Hgr; [|done]. simpl in Hs. simplify_eq.
    apply granted_frame in Hgr as (H1 & H2 & _). simpl. lia.
  - destruct (t_pc s !! id) as [[]|]; try done. destruct (t_commit s); [done|]. injection Hs as Hs.
    apply res_bind_inv in Hs as ([s1 lc1] & (t' & d & _ & _ & -> & ->)%release_locks_inv & Heq). simplify_eq. simpl. lia.
  - case_match; [done|]. injection Hs as Hs. apply res_bind_inv in Hs as ([[st srv] lc] & Ha & Hs). simplify_eq.
    unfold transaction_abort in Ha. destruct (transactionInfos (t_srv s) !! id); [|by simplify_eq].
    apply res_bind_inv in Ha as ([s1 lc1] & (t' & d & _ & _ & -> & ->)%release_locks_inv & Heq). simplify_eq. simpl. lia.
  - repeat (case_match; try done); by simplify_eq.
  - destruct (t_commit s) as [[id [|[i x] l]]|]; [| |done].
    + injection Hs as Hs. apply res_bind_inv in Hs as (srv & He & [= <-]). unfold commit_end in He.
      apply res_bind_inv in He as (srv' & (d & _ & ->)%clear_dependency_inv & [= <-]). simpl. lia.
    + by simplify_eq.
Qed.

Lemma treach_graph e0 s : (forall i, x_view e0 i <> REMOVESTRING) -> treach e0 s ->
  trans_id (t_srv s) <= INODE_NUM -> graph_ok (t_srv s).
Proof.
  intros Hv. induction 1 as [|s ev s' Hr IH Hs]; intros Hn.
  - assert (forall a b, ~ waits (t_srv (new_tsys e0)) a b) as Hno by (intros a b; apply not_elem_of_empty).
    split; [intros a b H0; by apply Hno in H0|]. intros a Ht. inversion Ht; subst; by eapply Hno.
  - pose proof (tstep_mono s ev s' Hs). destruct (tstep_ok e0 s ev (Ok s')) as (s1 & [= <-] & Hg); [by apply treach_inv|..|done]; [apply IH|..]; try done; lia.
Qed.

(** C34. As long as no more than 1024 transactions have begun, and no extent held
    the string ["to->Remove"] at the start, no handler of the two-phase-locking
    server faults, in any interleaving of the steps of [tstep]: the asserts of
    [get], [set], [del], [checkCycle] and [release_locks] hold, the array
    [dependency] is accessed within its bounds, the search for cycles ends, and
    the wait-for graph stays acyclic.  A step is what a handler does between two
    calls to the lock or the extent server; each access it makes to the maps
    [transactionInfos] and [lock_handlers], which the server does not lock, is
    taken to be atomic, and a client makes one call at a time for a
    transaction. *)
Theorem two_pl_never_faults (e0 : E) (s : tsys E) (ev : tevent) (r : res (tsys E)) :
  (forall i, x_view e0 i <> REMOVESTRING) -> treach e0 s -> trans_id (t_srv s) <= INODE_NUM ->
  tstep s ev = Some r -> exists s', r = Ok s' /\ treach e0 s' /\ graph_ok (t_srv s').
Proof.
  intros Hv Hr Hn Hs. destruct (tstep_ok e0 s ev r) as (s' & -> & Hg); [by apply treach_inv | by eapply treach_graph | done | done |].
  exists s'. split; [done|]. split; [by eapply treach_step | done].
Qed.
End two_pl_correct.

(** ** Closed runs *)

Section runs.
Context {E : Type} `{!Extents E}.

Fixpoint trun (s : tsys E) (es : list tevent) : option (tsys E) :=
  match es with
  | [] => Some s
  | ev :: es' => match tstep s ev with Some (Ok s') => trun s' es' | _ => None end
  end.

Lemma trun_reach e0 es : forall s s', treach e0 s -> trun s es = Some s' -> treach e0 s'.
Proof.
  induction es as [|ev es IH]; intros s s' Hs Hr; simpl in Hr; [by simplify_eq|].
  destruct (tstep s ev) as [[s1|]|] eqn:He; try done. eapply IH; [|done]. by eapply treach_step.
Qed.
End runs.

Definition run_map (es : list tevent) : tsys (gmap Z bytes) := default (new_tsys ∅) (trun (new_tsys ∅) es).

Lemma run_map_reach es : is_Some (trun (new_tsys (∅ : gmap Z bytes)) es) -> treach ∅ (run_map es).
Proof. intros [s Hs]. unfold run_map. rewrite Hs. eapply trun_reach; [apply treach_init | exact Hs]. Qed.

Lemma empty_no_tomb i : x_view (∅ : gmap Z bytes) i <> REMOVESTRING.
Proof. simpl. rewrite lookup_empty. done. Qed.

(** Transaction 0 writes [a] and [b] and commits, transaction 1 waits for [a]. *)
Definition sample_events : list tevent :=
  [Begin; Begin; BeginInsert 1; BeginInsert 0; Access 0 (OSet (str "x")) (str "a"); Acquire 0; Granted 0; Granted 0;
   Access 1 OGet (str "a"); Access 0 (OSet (str "y")) (str "b"); Acquire 0; Granted 0; Granted 0; Commit 0; CommitStep;
   Acquire 1; CommitStep; CommitStep; Granted 1; Granted 1; Granted 1; Commit 1; CommitStep; CommitStep].

Lemma sample_treach : treach ∅ (run_map sample_events).
Proof. apply run_map_reach. vm_compute. by eexists. Qed.

Lemma two_pl_serializable_witness :
  length (t_done (run_map sample_events)) = 2%nat /\
  exists v, serial REMOVESTRING (x_view (∅ : gmap Z bytes)) (t_done (run_map sample_events)) = Some v /\
    forall i, v i = x_view (t_ext (run_map sample_events)) i.
Proof.
  split; [vm_compute; reflexivity|].
  apply (two_pl_serializable ∅ (run_map sample_events) empty_no_tomb sample_treach). vm_compute. reflexivity.
Defined.

Lemma two_pl_never_faults_witness :
  exists s', tstep (run_map sample_events) Begin = Some (Ok s') /\ treach ∅ s'.
Proof.
  destruct (tstep (run_map sample_events) Begin) as [r|] eqn:E; [|discriminate E].
  destruct (two_pl_never_faults ∅ (run_map sample_events) Begin r empty_no_tomb sample_treach) as (s' & -> & Hr & _).
  - vm_compute. discriminate.
  - exact E.
  - exists s'. split; [reflexivity | exact Hr].
Defined.

Lemma checkCycle_exact_witness :
  checkCycle 0 2 {| dependency := {[(1, 0)]}; trans_id := 2; transactionInfos := ∅; lock_handlers := {[2 := 1]} |} =
  Ok (true, {| dependency := {[(1, 0)]}; trans_id := 2; transactionInfos := ∅; lock_handlers := {[2 := 1]} |}).
Proof.
  set (s := {| dependency := {[(1, 0)]}; trans_id := 2; transactionInfos := ∅; lock_handlers := {[2 := 1]} |}).
  assert (forall a b, waits s a b <-> a = 1 /\ b = 0) as Hw.
  { intros a b. unfold waits. simpl. rewrite elem_of_singleton. split; [by intros [= -> ->] | by intros [-> ->]]. }
  destruct (checkCycle_exact s 0 1 2) as [[_ H1]|[H1 _]]; [|done|reflexivity|simpl; lia..|exact H1|].
  - split.
    + intros a b [-> ->]%Hw. simpl. lia.
    + intros a Ht. assert (a = 1 /\ a = 0) as [-> [=]]. revert Ht. generalize a at 1 3. intros c Ht.
      induction Ht as [x y Hxy|x y z Hxy _ IH]; [by apply Hw in Hxy|]. apply Hw in Hxy as [-> ->]. destruct IH. lia.
  - destruct H1. apply rtc_once, Hw. done.
Defined.

(** ** Waits the graph does not see *)

Section deadlock.
Context {E : Type} `{!Extents E} `{!ExtentsOk E}.
Implicit Types s : tsys E.

Definition blocked s (id i : Z) : Prop := exists o, t_pc s !! id = Some (WaitLock i o).

(** Each of the two transactions waits for a lock the other one has. *)
Definition deadlocked s (id id' i i' : Z) : Prop :=
  blocked s id i /\ i ∈ owned s id' /\ blocked s id' i' /\ i' ∈ owned s id.

Definition tnext s s' : Prop := exists ev, tstep s ev = Some (Ok s').

(** A transaction that waits for a lock that is taken stays as it is. *)
Lemma blocked_stays e0 s ev s' id i o : tinv e0 s -> tstep s ev = Some (Ok s') ->
  t_pc s !! id = Some (WaitLock i o) -> i ∈ t_lc s ->
  t_pc s' !! id = t_pc s !! id /\ transactionInfos (t_srv s') !! id = transactionInfos (t_srv s) !! id.
Proof.
  intros Hinv Hs Hp Hi. assert (is_Some (transactionInfos (t_srv s) !! id)) as Hk
    by (destruct (ti_pc _ _ Hinv id _ Hp) as (_ & t & -> & _); done).
  assert (forall j, in_call s j = false -> j <> id) as Hj by (intros j [H0 _]%in_call_false ->; congruence).
  destruct ev as [|j|j o' key|j|j|j|j|j|]; simpl in Hs.
  - unfold begin_id in Hs. case_match; [done|]. simpl in Hs. by simplify_eq.
  - case_bool_decide as Hb; [|done]. simplify_eq. simpl. rewrite lookup_insert_ne; [done|].
    intros ->. destruct (ti_begins _ _ Hinv id Hb) as [_ Hno]. rewrite Hno in Hk. by destruct Hk.
  - destruct (in_call s j || _) eqn:Hin; [done|]. apply orb_false_iff in Hin as [Hin%Hj _]. injection Hs as Hs.
    apply res_bind_inv in Hs as ([r srv] & Ha%access_inv & Hs). simplify_eq. destruct Ha; subst; simpl;
      by rewrite ?lookup_insert_ne, ?lookup_delete_ne.
  - destruct (decide (j = id)) as [->|Hne]; [by rewrite Hp, bool_decide_eq_true_2 in Hs|].
    destruct (t_pc s !! j) as [[]|]; try done. case_bool_decide; simplify_eq. simpl. by rewrite lookup_insert_ne.
  - destruct (decide (j = id)) as [->|Hne]; [by rewrite Hp in Hs|]. destruct (t_pc s !! j) as [p|]; [|done]. simpl in Hs.
    destruct (granted j p (t_srv s) (t_ext s)) as [[[r srv] e']|] eqn:Hgr; [|done]. simpl in Hs. simplify_eq. simpl.
    apply granted_frame in Hgr as (_ & _ & H3). rewrite H3 by done. destruct r; by rewrite ?lookup_insert_ne, ?lookup_delete_ne.
  - destruct (decide (j = id)) as [->|Hne]; [by rewrite Hp in Hs|].
    destruct (t_pc s !! j) as [[]|]; try done. destruct (t_commit s); [done|]. injection Hs as Hs.
    apply res_bind_inv in Hs as ([s1 lc1] & (t' & d & _ & _ & -> & ->)%release_locks_inv & Heq). simplify_eq. simpl.
    by rewrite !lookup_delete_ne.
  - destruct (in_call s j || _) eqn:Hin; [done|]. apply orb_false_iff in Hin as [Hin%Hj _]. injection Hs as Hs.
    apply res_bind_inv in Hs as ([[st srv] lc] & Ha & Hs). simplify_eq.
    unfold transaction_abort in Ha. destruct (transactionInfos (t_srv s) !! j); [|by simplify_eq].
    apply res_bind_inv in Ha as ([s1 lc1] & (t' & d & _ & _ & -> & ->)%release_locks_inv & Heq). simplify_eq. simpl.
    by rewrite lookup_delete_ne.
  - repeat (case_match; try done); by simplify_eq.
  - destruct (t_commit s) as [[j [|[k x] l]]|] eqn:Hco; [| |done].
    + injection Hs as Hs. apply res_bind_inv in Hs as (srv & He & [= <-]). unfold commit_end in He.
      apply res_bind_inv in He as (srv' & (d & _ & ->)%clear_dependency_inv & [= <-]). simpl. rewrite lookup_delete_ne; [done|].
      intros ->. destruct (ti_pc _ _ Hinv id _ Hp) as [Hc _]. unfold committing in Hc. rewrite Hco in Hc.
      by rewrite bool_decide_eq_true_2 in Hc.
    + by simplify_eq.
Qed.

Lemma owned_blocked e0 s id i : tinv e0 s -> blocked s id i ->
  owned s id = default ∅ (locks <$> transactionInfos (t_srv s) !! id).
Proof.
  intros Hinv [o Hp]. destruct (ti_pc _ _ Hinv id _ Hp) as (Hc & t & Ht & _).
  rewrite (owned_idle s id t Hc Ht) by (by rewrite Hp). by rewrite Ht.
Qed.

(** A deadlock is for ever. *)
Lemma deadlock_stays e0 s s' id id' i i' : tinv e0 s -> tinv e0 s' -> tnext s s' ->
  deadlocked s id id' i i' -> deadlocked s' id id' i i'.
Proof.
  intros Hinv Hinv' [ev Hs] (Hb & Ho & Hb' & Ho'). pose proof Hb as [o Hp]. pose proof Hb' as [o' Hp'].
  destruct (blocked_stays e0 s ev s' id i o) as [E1 E2]; [done..|by eapply ti_lc|].
  destruct (blocked_stays e0 s ev s' id' i' o') as [E3 E4]; [done..|by eapply ti_lc|].
  assert (blocked s' id i) as Hb1 by (exists o; congruence). assert (blocked s' id' i') as Hb2 by (exists o'; congruence).
  rewrite (owned_blocked e0 s id' i') in Ho by done. rewrite (owned_blocked e0 s id i) in Ho' by done. unfold deadlocked.
  rewrite (owned_blocked e0 s' id' i'), (owned_blocked e0 s' id i), E2, E4 by done. done.
Qed.
End deadlock.

(** Transaction 0 holds [a], 1 holds [b]; 1 and 2 wait for [a]; when 0 commits, 2
    gets [a], and nothing records that 1 now waits for 2; then 2 asks for [b]. *)
Definition deadlock_events : list tevent :=
  [Begin; BeginInsert 0; Begin; BeginInsert 1; Begin; BeginInsert 2;
   Access 0 (OSet []) (str "a"); Acquire 0; Granted 0; Granted 0; Access 1 (OSet []) (str "b"); Acquire 1; Granted 1; Granted 1;
   Access 1 OGet (str "a"); Access 2 OGet (str "a"); Commit 0; CommitStep; CommitStep; Acquire 2; Granted 2; Granted 2; Granted 2;
   Access 2 OGet (str "b")].

(** The wait-for graph misses deadlocks: an edge names the transaction that had
    the lock when the wait began, and is not moved to the one that gets it next.
    There is a run in which two transactions wait for each other and, whatever
    happens afterwards, wait for ever. *)
Lemma two_pl_misses_deadlock : exists s : tsys (gmap Z bytes),
  treach ∅ s /\ graph_ok (t_srv s) /\
  forall s', rtc tnext s s' -> deadlocked s' 1 2 (hash (str "a")) (hash (str "b")).
Proof.
  assert (treach ∅ (run_map deadlock_events)) as Hr by (apply run_map_reach; vm_compute; by eexists).
  exists (run_map deadlock_events). split; [done|].
  split; [apply (treach_graph ∅); [apply empty_no_tomb | done | vm_compute; discriminate]|].
  intros s'. intros Hs. assert (deadlocked (run_map deadlock_events) 1 2 (hash (str "a")) (hash (str "b"))) as Hd.
  { split_and!; try (eexists; vm_compute; reflexivity); apply (bool_decide_unpack _); vm_compute; exact I. }
  revert Hr Hd. induction Hs as [s|s s1 s2 Hn _ IH]; intros Hr Hd; [done|]. assert (treach ∅ s1) as Hr1.
  { destruct Hn as [ev Hev]. by eapply treach_step. }
  apply IH; [done|]. eapply (deadlock_stays ∅ s s1); [by apply treach_inv; [apply empty_no_tomb|]..|done|done].
Qed.

(** A transaction that deletes a key and reads it again is given the marker of
    deleted keys, where [ydb_server_occ] gives the empty string. *)
Lemma two_pl_deleted_key_reads_marker (s : ydb_server_2pl) (id : Z) (t : Transaction) (key v : bytes) :
  transactionInfos s !! id = Some t -> hash key ∈ locks t -> log t !! hash key = Some v ->
  exists s', del id key s = Ok (Finished ydb_protocol.OK [], s') /\
    get id key s' = Ok (Finished ydb_protocol.OK REMOVESTRING, s').
Proof.
  intros Ht Hi Hv. unfold del, get, access. rewrite Ht, bool_decide_eq_true_2 by done. unfold held. rewrite Hv. simpl.
  eexists. split; [done|]. simpl. rewrite lookup_insert_eq. simpl. rewrite bool_decide_eq_true_2 by done.
  by rewrite lookup_insert_eq.
Qed.

(** The array [dependency] has 1024 rows: once more transactions have begun,
    releasing the locks of any of them runs past its end. *)
Lemma two_pl_array_overflow (s : ydb_server_2pl) (lc : gset Z) (id : Z) (t : Transaction) :
  transactionInfos s !! id = Some t -> INODE_NUM < trans_id s -> release_locks id s lc = Crash OutOfBounds.
Proof.
  intros Ht Hn. unfold release_locks, clear_dependency. rewrite Ht, (proj2 (Z.leb_gt _ INODE_NUM)), andb_false_r by lia.
  rewrite (proj2 (Z.leb_gt _ 0)) by (unfold INODE_NUM in Hn; lia). done.
Qed.

Lemma two_pl_array_overflow_witness :
  release_locks 1024 (set_infos {[1024 := {| locks := ∅; log := ∅ |}]}
    {| dependency := ∅; trans_id := 1025; transactionInfos := ∅; lock_handlers := ∅ |}) ∅ = Crash OutOfBounds.
Proof. apply (two_pl_array_overflow _ ∅ 1024 {| locks := ∅; log := ∅ |}); vm_compute; reflexivity. Defined.
